(** * Trading core: node pool, SPSC ring and limit order books

    Shallow embedding of the matching-engine sources of the repository:

    - [MemoryPool]      HFT-System-CPP/include/core/memory_pool.hpp
    - [LockFreeQueue]   HFT-System-CPP/include/core/lock_free_queue.hpp
    - [SPSCQueue]       cpp-interview-solutions/02-hft-datastructures/lock_free_queue.cpp
    - [OrderBook]       HFT-System-CPP/src/market_data/order_book.cpp (+ order_book.hpp)
    - [Engine]          OrderBook-Engine/orderbook.cpp
    - [Interview]       cpp-interview-solutions/02-hft-datastructures/order_book.cpp

    Unsigned machine integers are values of [Z] with the wrap-around of every
    arithmetic operation written out ([wrap32], [wrap64]).  Definitions come
    first, the properties proved about them follow. *)

From Stdlib Require Import ZArith Lia List Bool.
From stdpp Require Import base option list strings gmap sorting.

Local Open Scope Z_scope.

(** ** Machine integers *)

Definition wrap32 (x : Z) : Z := x mod 2 ^ 32.
Definition wrap64 (x : Z) : Z := x mod 2 ^ 64.
Definition UINT64_MAX : Z := 2 ^ 64 - 1.

(** ** MemoryPool<T, BlockSize> *)

Module MemoryPool.

(** A cell of the pool is named by the block it lives in (its position in
    [blocks_]) and its index inside that block. *)
Definition Cell : Type := (N * N)%type.

(** [free_list_] is the intrusive singly-linked free list, given as the
    sequence of cells reached by following [next] from [free_list_]; the
    null pointer is the empty list.  [blocks_] is the vector of blocks
    obtained from [::operator new], one entry per heap allocation. *)
Record t : Type := mk {
  free_list_ : list Cell;
  blocks_ : list N
}.

Section WithBlockSize.
Variable BlockSize : nat.

(** new_block[0] -> new_block[1] -> ... -> new_block[BlockSize-1] *)
Definition block_cells (new_block : N) : list Cell :=
  map (fun i => (new_block, N.of_nat i)) (seq 0 BlockSize).

Definition expandPool (p : t) : t :=
  let new_block := N.of_nat (length (blocks_ p)) in
  {| free_list_ := block_cells new_block ++ free_list_ p;
     blocks_ := blocks_ p ++ [new_block] |}.

Definition empty : t := {| free_list_ := []; blocks_ := [] |}.

(** The constructor calls [expandPool] once. *)
Definition create : t := expandPool empty.

(** [allocate] has no failure path of its own.  [None] stands for the
    dereference of a null [free_list_] after [expandPool], which needs
    [BlockSize = 0]. *)
Definition allocate (p : t) : option (Cell * t) :=
  let p1 := match free_list_ p with
            | [] => expandPool p
            | _ :: _ => p
            end in
  match free_list_ p1 with
  | [] => None
  | node :: next => Some (node, {| free_list_ := next; blocks_ := blocks_ p1 |})
  end.

Definition deallocate (p : t) (ptr : option Cell) : t :=
  match ptr with
  | None => p
  | Some node => {| free_list_ := node :: free_list_ p; blocks_ := blocks_ p |}
  end.

(** Cells handed out and not yet given back. *)
Definition capacity (p : t) : nat := (length (blocks_ p) * BlockSize)%nat.
Definition in_use (p : t) : nat := (capacity p - length (free_list_ p))%nat.

End WithBlockSize.

End MemoryPool.

(** ** LockFreeQueue<T, Size> (HFT-System-CPP) *)

Module LockFreeQueue.

Section WithT.
Context {T : Type}.
(** [Size] is the template argument; the constructor's [static_assert]
    wants [(Size & (Size - 1)) == 0]. *)
Variable Size : Z.

Record t : Type := mk {
  head_ : Z;
  tail_ : Z;
  buffer_ : list T
}.

(** [init] is the content of a value-initialised [std::array<T, Size>]. *)
Definition create (init : T) : t :=
  {| head_ := 0; tail_ := 0; buffer_ := replicate (Z.to_nat Size) init |}.

Definition push (q : t) (item : T) : bool * t :=
  let current_tail := tail_ q in
  let next_tail := Z.land (wrap64 (current_tail + 1)) (Size - 1) in
  if next_tail =? head_ q then (false, q)
  else (true, {| head_ := head_ q;
                 tail_ := next_tail;
                 buffer_ := <[Z.to_nat current_tail := item]> (buffer_ q) |}).

Definition pop (q : t) : option T * t :=
  let current_head := head_ q in
  if current_head =? tail_ q then (None, q)
  else (buffer_ q !! Z.to_nat current_head,
        {| head_ := Z.land (wrap64 (current_head + 1)) (Size - 1);
           tail_ := tail_ q;
           buffer_ := buffer_ q |}).

Definition empty (q : t) : bool := head_ q =? tail_ q.

Definition size (q : t) : Z :=
  let h := head_ q in
  let t := tail_ q in
  if t >=? h then t - h else wrap64 (wrap64 (Size - h) + t).

(** The producer's loop [for (x : items) results.push_back(push(x))]. *)
Fixpoint push_all (q : t) (items : list T) : list bool * t :=
  match items with
  | [] => ([], q)
  | x :: rest =>
      let '(ok, q1) := push q x in
      let '(oks, q2) := push_all q1 rest in
      (ok :: oks, q2)
  end.

End WithT.

Arguments t : clear implicits.

End LockFreeQueue.

(** ** SPSCQueue<T, Size> (cpp-interview-solutions) *)

Module SPSCQueue.

Section WithT.
Context {T : Type}.
Variable Size : Z.

Record t : Type := mk {
  head_ : Z;
  tail_ : Z;
  buffer_ : list T;
  cached_head_ : Z;
  cached_tail_ : Z
}.

Definition create (init : T) : t :=
  {| head_ := 0; tail_ := 0; buffer_ := replicate (Z.to_nat Size) init;
     cached_head_ := 0; cached_tail_ := 0 |}.

Definition set_cached_head (q : t) (h : Z) : t :=
  {| head_ := head_ q; tail_ := tail_ q; buffer_ := buffer_ q;
     cached_head_ := h; cached_tail_ := cached_tail_ q |}.

Definition set_cached_tail (q : t) (h : Z) : t :=
  {| head_ := head_ q; tail_ := tail_ q; buffer_ := buffer_ q;
     cached_head_ := cached_head_ q; cached_tail_ := h |}.

Definition try_enqueue (q : t) (item : T) : bool * t :=
  let current_tail := tail_ q in
  let next_tail := wrap64 (current_tail + 1) mod Size in
  let q1 := if next_tail =? cached_head_ q
            then set_cached_head q (head_ q) else q in
  if (next_tail =? cached_head_ q) && (next_tail =? cached_head_ q1)
  then (false, q1)
  else (true, {| head_ := head_ q1;
                 tail_ := next_tail;
                 buffer_ := <[Z.to_nat current_tail := item]> (buffer_ q1);
                 cached_head_ := cached_head_ q1;
                 cached_tail_ := cached_tail_ q1 |}).

Definition try_dequeue (q : t) : option T * t :=
  let current_head := head_ q in
  let q1 := if current_head =? cached_tail_ q
            then set_cached_tail q (tail_ q) else q in
  if (current_head =? cached_tail_ q) && (current_head =? cached_tail_ q1)
  then (None, q1)
  else (buffer_ q1 !! Z.to_nat current_head,
        {| head_ := wrap64 (current_head + 1) mod Size;
           tail_ := tail_ q1;
           buffer_ := buffer_ q1;
           cached_head_ := cached_head_ q1;
           cached_tail_ := cached_tail_ q1 |}).

Definition empty (q : t) : bool := head_ q =? tail_ q.

Definition size (q : t) : Z :=
  let h := head_ q in
  let t := tail_ q in
  if t >=? h then t - h else wrap64 (wrap64 (Size - h) + t).

Fixpoint enqueue_all (q : t) (items : list T) : list bool * t :=
  match items with
  | [] => ([], q)
  | x :: rest =>
      let '(ok, q1) := try_enqueue q x in
      let '(oks, q2) := enqueue_all q1 rest in
      (ok :: oks, q2)
  end.

End WithT.

Arguments t : clear implicits.

End SPSCQueue.

(** ** hft::market_data::OrderBook (HFT-System-CPP) *)

Module OrderBook.

Definition Cell : Type := MemoryPool.Cell.

Inductive Side : Type := BUY | SELL.

#[global] Instance Side_eq_dec : EqDecision Side.
Proof. solve_decision. Defined.

Record Order : Type := mkOrder {
  order_id : Z;
  price : Z;
  quantity : Z;
  side : Side;
  timestamp : Z
}.

(** The [timestamp] of a trade is the wall clock
    ([core::Timer::timestamp_ns]) and is left out of the record. *)
Record Trade : Type := mkTrade {
  buy_order_id : Z;
  sell_order_id : Z;
  trade_price : Z;
  trade_quantity : Z
}.

(** [nodes] is the intrusive doubly-linked list of the level: the cells
    reached from [head] through [next], in that order; [head == nullptr]
    is the empty list and [tail] the last element. *)
Record PriceLevel : Type := mkLevel {
  level_price : Z;
  total_quantity : Z;
  order_count : Z;
  nodes : list Cell
}.

Definition empty_level : PriceLevel := mkLevel 0 0 0 [].

Definition MAX_PRICE_LEVELS : Z := 20000.
Definition base_price_ : Z := 10000.
(** [core::MemoryPool<OrderNode>] takes the default [BlockSize]. *)
Definition BlockSize : nat := 4096.

(** [bid_levels_] and [ask_levels_] are the two
    [std::array<PriceLevel, MAX_PRICE_LEVELS>], kept as finite maps from
    index to level: a slot that was never written reads as [PriceLevel{}],
    which is what the constructor puts in every slot.  [node_mem_] holds
    the [order] stored in every cell that is handed out by [order_pool_];
    [order_map_] maps an order id to its node. *)
Record t : Type := mk {
  bid_levels_ : gmap Z PriceLevel;
  ask_levels_ : gmap Z PriceLevel;
  best_bid_ : Z;
  best_ask_ : Z;
  num_price_levels_ : Z;
  order_pool_ : MemoryPool.t;
  node_mem_ : gmap Cell Order;
  order_map_ : gmap Z Cell;
  total_volume_ : Z;
  trade_count_ : Z
}.

Definition set_levels (b : t) (s : Side) (ls : gmap Z PriceLevel) : t :=
  match s with
  | BUY => mk ls (ask_levels_ b) (best_bid_ b) (best_ask_ b) (num_price_levels_ b)
             (order_pool_ b) (node_mem_ b) (order_map_ b) (total_volume_ b) (trade_count_ b)
  | SELL => mk (bid_levels_ b) ls (best_bid_ b) (best_ask_ b) (num_price_levels_ b)
             (order_pool_ b) (node_mem_ b) (order_map_ b) (total_volume_ b) (trade_count_ b)
  end.

Definition set_best (b : t) (bid ask : Z) : t :=
  mk (bid_levels_ b) (ask_levels_ b) bid ask (num_price_levels_ b)
     (order_pool_ b) (node_mem_ b) (order_map_ b) (total_volume_ b) (trade_count_ b).

Definition set_pool (b : t) (p : MemoryPool.t) : t :=
  mk (bid_levels_ b) (ask_levels_ b) (best_bid_ b) (best_ask_ b) (num_price_levels_ b)
     p (node_mem_ b) (order_map_ b) (total_volume_ b) (trade_count_ b).

Definition set_node_mem (b : t) (m : gmap Cell Order) : t :=
  mk (bid_levels_ b) (ask_levels_ b) (best_bid_ b) (best_ask_ b) (num_price_levels_ b)
     (order_pool_ b) m (order_map_ b) (total_volume_ b) (trade_count_ b).

Definition set_order_map (b : t) (m : gmap Z Cell) : t :=
  mk (bid_levels_ b) (ask_levels_ b) (best_bid_ b) (best_ask_ b) (num_price_levels_ b)
     (order_pool_ b) (node_mem_ b) m (total_volume_ b) (trade_count_ b).

Definition set_stats (b : t) (volume count : Z) : t :=
  mk (bid_levels_ b) (ask_levels_ b) (best_bid_ b) (best_ask_ b) (num_price_levels_ b)
     (order_pool_ b) (node_mem_ b) (order_map_ b) volume count.

Definition set_quantity (o : Order) (q : Z) : Order :=
  mkOrder (order_id o) (price o) q (side o) (timestamp o).

Definition set_total_quantity (l : PriceLevel) (q : Z) : PriceLevel :=
  mkLevel (level_price l) q (order_count l) (nodes l).

Definition null_order : Order := mkOrder 0 0 0 BUY 0.

(** [node->order]; the book only reads cells it has linked. *)
Definition deref (b : t) (node : Cell) : Order :=
  default null_order (node_mem_ b !! node).

Definition store (b : t) (node : Cell) (o : Order) : t :=
  set_node_mem b (<[node := o]> (node_mem_ b)).

Definition levels_of (b : t) (s : Side) : gmap Z PriceLevel :=
  match s with BUY => bid_levels_ b | SELL => ask_levels_ b end.

(** [&bid_levels_[idx]] or [&ask_levels_[idx]] is the pair [(s, idx)]. *)
Definition get_level (b : t) (s : Side) (idx : Z) : PriceLevel :=
  default empty_level (levels_of b s !! idx).

Definition set_level (b : t) (s : Side) (idx : Z) (l : PriceLevel) : t :=
  set_levels b s (<[idx := l]> (levels_of b s)).

(** OrderBook::OrderBook(num_price_levels) *)
Definition create (num_price_levels : Z) : t :=
  {| bid_levels_ := ∅;
     ask_levels_ := ∅;
     best_bid_ := 0;
     best_ask_ := UINT64_MAX;
     num_price_levels_ := Z.min num_price_levels MAX_PRICE_LEVELS;
     order_pool_ := MemoryPool.create BlockSize;
     node_mem_ := ∅;
     order_map_ := ∅;
     total_volume_ := 0;
     trade_count_ := 0 |}.

Definition occupied (l : PriceLevel) : bool := 0 <? order_count l.

(** One turn of a scan loop over the slots of [levels]: at index [i],
    stop with the price of the level if it is occupied, otherwise move on
    by [dir].  [Some] is the loop left through [break]. *)
Definition scan_step (levels : gmap Z PriceLevel) (dir : Z)
           (st : Z * option Z) : Z * option Z :=
  let '(i, found) := st in
  match found with
  | Some _ => st
  | None =>
      let level := default empty_level (levels !! i) in
      if occupied level then (i, Some (level_price level)) else (i + dir, None)
  end.

(** [for (i = start; ...; i += dir)] over all [MAX_PRICE_LEVELS] slots. *)
Definition scan (levels : gmap Z PriceLevel) (start dir : Z) : option Z :=
  snd (Z.iter MAX_PRICE_LEVELS (scan_step levels dir) (start, None)).

(** The bid scan runs from index [MAX_PRICE_LEVELS - 1] down to 0, the ask
    scan from 0 up; each stops at the first level with [order_count > 0]. *)
Definition updateBestPrices (b : t) : t :=
  let bid := default 0 (scan (bid_levels_ b) (MAX_PRICE_LEVELS - 1) (-1)) in
  let ask := default UINT64_MAX (scan (ask_levels_ b) 0 1) in
  set_best b bid ask.

(** The trade is what [trade_callback_] receives. *)
Definition executeTrade (b : t) (passive_node : Cell) (aggressive_order : Order)
           (trade_qty : Z) : Trade * t :=
  let passive := deref b passive_node in
  let trade :=
    {| buy_order_id := match side passive with
                       | BUY => order_id passive
                       | SELL => order_id aggressive_order
                       end;
       sell_order_id := match side passive with
                        | SELL => order_id passive
                        | BUY => order_id aggressive_order
                        end;
       trade_price := price passive;
       trade_quantity := trade_qty |} in
  (trade, set_stats b (wrap64 (total_volume_ b + trade_qty))
                      (wrap64 (trade_count_ b + 1))).

Definition removeFromBook (b : t) (node : Cell) (s : Side) (idx : Z) : t :=
  let level := get_level b s idx in
  let linked := filter (fun c => c ≠ node) (nodes level) in
  let count := wrap32 (order_count level - 1) in
  let level1 := if count =? 0 then mkLevel 0 0 count linked
                else mkLevel (level_price level) (total_quantity level) count linked in
  let b1 := set_level b s idx level1 in
  let b2 := set_order_map b1 (delete (order_id (deref b1 node)) (order_map_ b1)) in
  let b3 := set_node_mem b2 (delete node (node_mem_ b2)) in
  set_pool b3 (MemoryPool.deallocate (order_pool_ b3) (Some node)).

Definition addToBook (b : t) (order : Order) : t :=
  let level_idx := wrap64 (price order - base_price_) in
  if MAX_PRICE_LEVELS <=? level_idx then b
  else
    let level := get_level b (side order) level_idx in
    match MemoryPool.allocate BlockSize (order_pool_ b) with
    | None => b (* not reached: BlockSize is 4096 *)
    | Some (node, pool) =>
        let b1 := store (set_pool b pool) node order in
        let level1 := mkLevel (price order)
                              (wrap32 (total_quantity level + quantity order))
                              (wrap32 (order_count level + 1))
                              (nodes level ++ [node]) in
        let b2 := set_level b1 (side order) level_idx level1 in
        let b3 := set_order_map b2 (<[order_id order := node]> (order_map_ b2)) in
        updateBestPrices b3
    end.

Definition contra (s : Side) : Side :=
  match s with BUY => SELL | SELL => BUY end.

(** The condition of the [while] of the branch taken for [side order]. *)
Definition match_cond (b : t) (order : Order) : bool :=
  match side order with
  | BUY => (0 <? quantity order) && negb (best_ask_ b =? UINT64_MAX)
           && (best_ask_ b <=? price order)
  | SELL => (0 <? quantity order) && negb (best_bid_ b =? 0)
            && (price order <=? best_bid_ b)
  end.

Definition best_contra (b : t) (order : Order) : Z :=
  match side order with BUY => best_ask_ b | SELL => best_bid_ b end.

Inductive iteration : Type :=
| Break (b : t)
| Next (order : Order) (b : t) (trade : Trade).

(** One pass through the body of the [while]. *)
Definition match_body (b : t) (order : Order) : iteration :=
  let level_idx := wrap64 (best_contra b order - base_price_) in
  if MAX_PRICE_LEVELS <=? level_idx then Break b
  else
    let s := contra (side order) in
    match nodes (get_level b s level_idx) with
    | [] => Break (updateBestPrices b)
    | node :: _ =>
        let trade_qty := Z.min (quantity order) (quantity (deref b node)) in
        let '(trade, b1) := executeTrade b node order trade_qty in
        let b2 := store b1 node
                    (set_quantity (deref b1 node)
                       (wrap32 (quantity (deref b1 node) - trade_qty))) in
        let order1 := set_quantity order (wrap32 (quantity order - trade_qty)) in
        let level := get_level b2 s level_idx in
        let b3 := set_level b2 s level_idx
                    (set_total_quantity level
                       (wrap32 (total_quantity level - trade_qty))) in
        let b4 := if quantity (deref b3 node) =? 0
                  then removeFromBook b3 node s level_idx else b3 in
        Next order1 b4 trade
    end.

(** The [while] loop, unrolled at most [fuel] times; [None] when the fuel
    does not suffice. *)
Fixpoint match_loop (fuel : nat) (b : t) (order : Order)
  : option (Order * list Trade * t) :=
  if match_cond b order then
    match fuel with
    | O => None
    | S fuel1 =>
        match match_body b order with
        | Break b1 => Some (order, [], b1)
        | Next order1 b1 trade =>
            match match_loop fuel1 b1 order1 with
            | Some (order2, trades, b2) => Some (order2, trade :: trades, b2)
            | None => None
            end
        end
    end
  else Some (order, [], b).

(** One pass more than the number of nodes linked at the best level of
    the other side. *)
Definition match_fuel (b : t) (order : Order) : nat :=
  S (length (nodes (get_level b (contra (side order))
                      (wrap64 (best_contra b order - base_price_))))).

Definition matchOrder (b : t) (order : Order) : option (Order * list Trade * t) :=
  match match_loop (match_fuel b order) b order with
  | Some (order1, trades, b1) => Some (order1, trades, updateBestPrices b1)
  | None => None
  end.

Definition addOrder (b : t) (order : Order) : option (bool * list Trade * t) :=
  match matchOrder b order with
  | Some (mutable_order, trades, b1) =>
      let b2 := if 0 <? quantity mutable_order
                then addToBook b1 mutable_order else b1 in
      Some (true, trades, b2)
  | None => None
  end.

Definition cancelOrder (b : t) (id : Z) : bool * t :=
  match order_map_ b !! id with
  | None => (false, b)
  | Some node =>
      let level_idx := wrap64 (price (deref b node) - base_price_) in
      if MAX_PRICE_LEVELS <=? level_idx then (false, b)
      else
        let s := side (deref b node) in
        let level := get_level b s level_idx in
        let b1 := set_level b s level_idx
                    (set_total_quantity level
                       (wrap32 (total_quantity level - quantity (deref b node)))) in
        (true, updateBestPrices (removeFromBook b1 node s level_idx))
  end.

Definition modifyOrder (b : t) (id : Z) (new_quantity : Z) : bool * t :=
  match order_map_ b !! id with
  | None => (false, b)
  | Some node =>
      let level_idx := wrap64 (price (deref b node) - base_price_) in
      if MAX_PRICE_LEVELS <=? level_idx then (false, b)
      else
        let s := side (deref b node) in
        let level := get_level b s level_idx in
        let b1 := set_level b s level_idx
                    (set_total_quantity level
                       (wrap32 (wrap32 (total_quantity level - quantity (deref b node))
                                + new_quantity))) in
        (true, store b1 node (set_quantity (deref b1 node) new_quantity))
  end.

(** Running a script of [addOrder] calls, collecting the trades. *)
Fixpoint addOrders (b : t) (orders : list Order) : option (list Trade * t) :=
  match orders with
  | [] => Some ([], b)
  | o :: rest =>
      match addOrder b o with
      | Some (_, trades, b1) =>
          match addOrders b1 rest with
          | Some (more, b2) => Some (trades ++ more, b2)
          | None => None
          end
      | None => None
      end
  end.

(** *** Market data queries *)

Definition getBestBid (b : t) : Z := best_bid_ b.
Definition getBestAsk (b : t) : Z := best_ask_ b.
Definition getTotalVolume (b : t) : Z := total_volume_ b.
Definition getTradeCount (b : t) : Z := trade_count_ b.

Definition getMidPrice (b : t) : Z :=
  if (best_bid_ b =? 0) || (best_ask_ b =? UINT64_MAX) then 0
  else wrap64 (best_bid_ b + best_ask_ b) / 2.

Definition getSpread (b : t) : Z :=
  if (best_bid_ b =? 0) || (best_ask_ b =? UINT64_MAX) then 0
  else wrap64 (best_ask_ b - best_bid_ b).




(** [OrderBook::Level], an entry of a market data snapshot. *)
Module Level.
Record t : Type := mk {
  price : Z;
  quantity : Z;
  order_count : Z
}.
End Level.




End OrderBook.

(** ** MarketMakingStrategy::shouldQuote (HFT-System-CPP/src/strategy) *)

Module MarketMakingStrategy.

Definition shouldQuote (order_book : OrderBook.t) : bool :=
  if (OrderBook.getBestBid order_book =? 0)
     || (OrderBook.getBestAsk order_book =? UINT64_MAX)
  then false
  else
    let spread := OrderBook.getSpread order_book in
    if 100 <? spread then false else true.

End MarketMakingStrategy.

(** ** OrderBook-Engine/orderbook.cpp *)

Module Engine.

(** [price] is a [double] in the source; the engine only compares and
    copies prices, and the model takes them from [Z].  [qty] is an [int];
    the engine only subtracts a minimum from it, which cannot overflow. *)
Record Order : Type := mkOrder {
  id : Z;
  side : string;
  price : Z;
  qty : Z
}.

Definition set_qty (o : Order) (q : Z) : Order :=
  mkOrder (id o) (side o) (price o) q.

(** A [std::map<double, queue<Order>, Compare>] in iteration order:
    [begin()] is the head of the list, a queue is given front first. *)
Definition Ladder : Type := list (Z * list Order).

(** The two globals [bids] (ordered by [greater]) and [asks] ([less]). *)
Record t : Type := mk {
  bids : Ladder;
  asks : Ladder
}.

Definition create : t := {| bids := []; asks := [] |}.

(** A line written to [cout]: "Trade: <aggressor> <traded> @ <price>". *)
Record Line : Type := mkLine {
  aggressor : string;
  traded : Z;
  at_price : Z
}.

(** [ladder[p].push(o)] for a map ordered by [before]: the queue of key
    [p] is created empty at its place when absent. *)
Fixpoint push_at (before : Z -> Z -> bool) (p : Z) (o : Order) (l : Ladder)
  : Ladder :=
  match l with
  | [] => [(p, [o])]
  | (k, q) :: rest =>
      if k =? p then (k, q ++ [o]) :: rest
      else if before p k then (p, [o]) :: l
      else (k, q) :: push_at before p o rest
  end.

Definition greater (a b : Z) : bool := b <? a.
Definition less (a b : Z) : bool := a <? b.

Definition is_buy (o : Order) : bool := String.eqb (side o) "BUY".

Definition contra_ladder (b : t) (o : Order) : Ladder :=
  if is_buy o then asks b else bids b.

Definition set_contra_ladder (b : t) (o : Order) (l : Ladder) : t :=
  if is_buy o then {| bids := bids b; asks := l |}
  else {| bids := l; asks := asks b |}.

(** The condition of the [while] of the branch taken for [o.side]. *)
Definition match_cond (b : t) (o : Order) : bool :=
  (0 <? qty o) &&
  match contra_ladder b o with
  | [] => false
  | (first, _) :: _ =>
      if is_buy o then first <=? price o else price o <=? first
  end.

(** One pass through the body of the [while]; [None] is [q.front()] on an
    empty queue. *)
Definition match_body (b : t) (o : Order) : option (Order * Line * t) :=
  match contra_ladder b o with
  | (k, resting :: q) :: levels =>
      let traded := Z.min (qty o) (qty resting) in
      let o1 := set_qty o (qty o - traded) in
      let resting1 := set_qty resting (qty resting - traded) in
      let line := mkLine (if is_buy o then "BUY" else "SELL") traded (price resting1) in
      let q1 := if 0 <? qty resting1 then q ++ [resting1] else q in
      let levels1 := match q1 with
                     | [] => levels
                     | _ :: _ => (k, q1) :: levels
                     end in
      Some (o1, line, set_contra_ladder b o levels1)
  | _ => None
  end.

Fixpoint match_loop (fuel : nat) (b : t) (o : Order)
  : option (Order * list Line * t) :=
  if match_cond b o then
    match fuel with
    | O => None
    | S fuel1 =>
        match match_body b o with
        | Some (o1, line, b1) =>
            match match_loop fuel1 b1 o1 with
            | Some (o2, lines, b2) => Some (o2, line :: lines, b2)
            | None => None
            end
        | None => None
        end
    end
  else Some (o, [], b).

Definition resting_orders (l : Ladder) : nat :=
  length (concat (map snd l)).

Definition matchOrder (b : t) (o : Order) : option (list Line * t) :=
  match match_loop (S (resting_orders (contra_ladder b o))) b o with
  | Some (o1, lines, b1) =>
      let b2 := if 0 <? qty o1 then
                  if is_buy o
                  then {| bids := push_at greater (price o1) o1 (bids b1);
                          asks := asks b1 |}
                  else {| bids := bids b1;
                          asks := push_at less (price o1) o1 (asks b1) |}
                else b1 in
      Some (lines, b2)
  | None => None
  end.

Fixpoint matchOrders (b : t) (orders : list Order) : option (list Line * t) :=
  match orders with
  | [] => Some ([], b)
  | o :: rest =>
      match matchOrder b o with
      | Some (lines, b1) =>
          match matchOrders b1 rest with
          | Some (more, b2) => Some (lines ++ more, b2)
          | None => None
          end
      | None => None
      end
  end.

End Engine.

(** ** OrderBook (cpp-interview-solutions/02-hft-datastructures) *)

Module Interview.

Inductive Side : Type := BUY | SELL.

#[global] Instance Side_eq_dec : EqDecision Side.
Proof. solve_decision. Defined.

Inductive OrderType : Type := LIMIT | MARKET | IOC | FOK.
Inductive OrderStatus : Type := NEW | PARTIALLY_FILLED | FILLED | CANCELLED.

(** [price] is a [double] that the book only compares and copies; it is
    taken from [Z].  [quantity] and [filled_quantity] are [int]s, whose
    arithmetic is taken without overflow (undefined in the source).  The
    [timestamp] fields (system clock) are left out. *)
Record Order : Type := mkOrder {
  order_id : Z;
  symbol : string;
  side : Side;
  type : OrderType;
  price : Z;
  quantity : Z;
  filled_quantity : Z;
  status : OrderStatus
}.

Definition remaining_quantity (o : Order) : Z :=
  quantity o - filled_quantity o.

Definition is_active (o : Order) : bool :=
  match status o with
  | NEW | PARTIALLY_FILLED => true
  | FILLED | CANCELLED => false
  end.

Definition set_status (o : Order) (st : OrderStatus) : Order :=
  mkOrder (order_id o) (symbol o) (side o) (type o) (price o) (quantity o)
          (filled_quantity o) st.

Definition add_filled (o : Order) (q : Z) : Order :=
  mkOrder (order_id o) (symbol o) (side o) (type o) (price o) (quantity o)
          (filled_quantity o + q) (status o).

Record Trade : Type := mkTrade {
  buy_order_id : Z;
  sell_order_id : Z;
  trade_price : Z;
  trade_quantity : Z
}.

(** Every [Order] object is made by [add_order], under a fresh order id,
    and entered in [orders_], which never erases.  A
    [std::shared_ptr<Order>] is therefore named by the order id, and the
    object it points to is the entry of [orders_]: a level holds the ids
    of its orders, front first. *)
Record PriceLevel : Type := mkLevel {
  price_ : Z;
  level_orders_ : list Z;
  total_quantity_ : Z
}.

(** A [std::map<double, PriceLevel, Compare>] in iteration order. *)
Definition Ladder : Type := list (Z * PriceLevel).

Record t : Type := mk {
  symbol_ : string;
  buy_levels_ : Ladder;
  sell_levels_ : Ladder;
  orders_ : gmap Z Order;
  next_order_id_ : Z;
  trades_ : list Trade;
  total_orders_added_ : Z;
  total_orders_cancelled_ : Z;
  total_trades_ : Z;
  total_volume_ : Z
}.

Definition create (sym : string) : t :=
  {| symbol_ := sym; buy_levels_ := []; sell_levels_ := []; orders_ := ∅;
     next_order_id_ := 1; trades_ := []; total_orders_added_ := 0;
     total_orders_cancelled_ := 0; total_trades_ := 0; total_volume_ := 0 |}.

Definition set_ladder (b : t) (s : Side) (l : Ladder) : t :=
  match s with
  | BUY => mk (symbol_ b) l (sell_levels_ b) (orders_ b) (next_order_id_ b)
             (trades_ b) (total_orders_added_ b) (total_orders_cancelled_ b)
             (total_trades_ b) (total_volume_ b)
  | SELL => mk (symbol_ b) (buy_levels_ b) l (orders_ b) (next_order_id_ b)
              (trades_ b) (total_orders_added_ b) (total_orders_cancelled_ b)
              (total_trades_ b) (total_volume_ b)
  end.

Definition set_orders (b : t) (m : gmap Z Order) : t :=
  mk (symbol_ b) (buy_levels_ b) (sell_levels_ b) m (next_order_id_ b)
     (trades_ b) (total_orders_added_ b) (total_orders_cancelled_ b)
     (total_trades_ b) (total_volume_ b).

Definition ladder_of (b : t) (s : Side) : Ladder :=
  match s with BUY => buy_levels_ b | SELL => sell_levels_ b end.

Definition contra (s : Side) : Side :=
  match s with BUY => SELL | SELL => BUY end.

(** [*ptr] *)
Definition null_order : Order := mkOrder 0 "" BUY LIMIT 0 0 0 NEW.

Definition deref (b : t) (ptr : Z) : Order :=
  default null_order (orders_ b !! ptr).

Definition update (b : t) (ptr : Z) (f : Order -> Order) : t :=
  set_orders b (<[ptr := f (deref b ptr)]> (orders_ b)).

(** *** PriceLevel *)

(** PriceLevel::add_order *)
Definition level_add_order (b : t) (l : PriceLevel) (ptr : Z) : PriceLevel :=
  mkLevel (price_ l) (level_orders_ l ++ [ptr])
          (total_quantity_ l + remaining_quantity (deref b ptr)).

(** PriceLevel::remove_order: the first order of the list with this id. *)
Fixpoint remove_first (oid : Z) (b : t) (l : list Z) : option (Z * list Z) :=
  match l with
  | [] => None
  | ptr :: rest =>
      if order_id (deref b ptr) =? oid then Some (ptr, rest)
      else match remove_first oid b rest with
           | Some (found, rest1) => Some (found, ptr :: rest1)
           | None => None
           end
  end.

Definition level_remove_order (b : t) (l : PriceLevel) (oid : Z)
  : bool * PriceLevel :=
  match remove_first oid b (level_orders_ l) with
  | Some (ptr, rest) =>
      (true, mkLevel (price_ l) rest
                     (total_quantity_ l - remaining_quantity (deref b ptr)))
  | None => (false, l)
  end.

(** PriceLevel::update_quantity *)
Definition level_update_quantity (b : t) (l : PriceLevel) (oid filled_qty : Z)
  : PriceLevel :=
  if existsb (fun ptr => order_id (deref b ptr) =? oid) (level_orders_ l)
  then mkLevel (price_ l) (level_orders_ l) (total_quantity_ l - filled_qty)
  else l.

(** PriceLevel::pop_front *)
Definition level_pop_front (b : t) (l : PriceLevel) : PriceLevel :=
  match level_orders_ l with
  | [] => l
  | ptr :: rest =>
      mkLevel (price_ l) rest
              (total_quantity_ l - remaining_quantity (deref b ptr))
  end.

(** *** Ordered maps *)

Definition ordered_before (s : Side) (a b : Z) : bool :=
  match s with
  | BUY => b <? a    (* std::greater *)
  | SELL => a <? b   (* std::less *)
  end.

Fixpoint ladder_find (p : Z) (l : Ladder) : option PriceLevel :=
  match l with
  | [] => None
  | (k, lvl) :: rest => if k =? p then Some lvl else ladder_find p rest
  end.

(** [emplace]: no effect when the key is present. *)
Fixpoint ladder_emplace (s : Side) (p : Z) (lvl : PriceLevel) (l : Ladder)
  : Ladder :=
  match l with
  | [] => [(p, lvl)]
  | (k, old) :: rest =>
      if k =? p then l
      else if ordered_before s p k then (p, lvl) :: l
      else (k, old) :: ladder_emplace s p lvl rest
  end.

(** Assignment through an iterator to the level of key [p]. *)
Fixpoint ladder_set (p : Z) (lvl : PriceLevel) (l : Ladder) : Ladder :=
  match l with
  | [] => []
  | (k, old) :: rest =>
      if k =? p then (k, lvl) :: rest else (k, old) :: ladder_set p lvl rest
  end.

Fixpoint ladder_erase (p : Z) (l : Ladder) : Ladder :=
  match l with
  | [] => []
  | (k, old) :: rest =>
      if k =? p then rest else (k, old) :: ladder_erase p rest
  end.

(** *** OrderBook *)

Definition execute_trade (b : t) (aggressor passive : Z) (p q : Z) : t :=
  let trade :=
    {| buy_order_id := match side (deref b aggressor) with
                       | BUY => order_id (deref b aggressor)
                       | SELL => order_id (deref b passive)
                       end;
       sell_order_id := match side (deref b aggressor) with
                        | SELL => order_id (deref b aggressor)
                        | BUY => order_id (deref b passive)
                        end;
       trade_price := p;
       trade_quantity := q |} in
  mk (symbol_ b) (buy_levels_ b) (sell_levels_ b) (orders_ b) (next_order_id_ b)
     (trades_ b ++ [trade]) (total_orders_added_ b) (total_orders_cancelled_ b)
     (wrap64 (total_trades_ b + 1)) (wrap64 (total_volume_ b + q)).

Definition add_to_book (b : t) (order : Z) : t :=
  let s := side (deref b order) in
  let p := price (deref b order) in
  let levels := ladder_of b s in
  let levels1 := match ladder_find p levels with
                 | Some _ => levels
                 | None => ladder_emplace s p (mkLevel p [] 0) levels
                 end in
  match ladder_find p levels1 with
  | Some lvl => set_ladder b s (ladder_set p (level_add_order b lvl order) levels1)
  | None => set_ladder b s levels1
  end.

(** One pass through the body of the inner [while] of [match_order], on
    the level [lvl] that [level_it] points to. *)
Definition match_inner_body (b : t) (order : Z) (lvl : PriceLevel)
  : t * PriceLevel :=
  match level_orders_ lvl with
  | [] => (b, lvl)
  | contra_order :: _ =>
      let match_qty := Z.min (remaining_quantity (deref b order))
                             (remaining_quantity (deref b contra_order)) in
      let b1 := execute_trade b order contra_order (price_ lvl) match_qty in
      let b2 := update b1 order (fun o => add_filled o match_qty) in
      let b3 := update b2 contra_order (fun o => add_filled o match_qty) in
      let '(b4, lvl1) :=
        if remaining_quantity (deref b3 contra_order) =? 0
        then let b4 := update b3 contra_order (fun o => set_status o FILLED) in
             (b4, level_pop_front b4 lvl)
        else let b4 := update b3 contra_order
                         (fun o => set_status o PARTIALLY_FILLED) in
             (b4, level_update_quantity b4 lvl
                    (order_id (deref b4 contra_order)) match_qty) in
      let b5 := if remaining_quantity (deref b4 order) =? 0
                then update b4 order (fun o => set_status o FILLED)
                else update b4 order (fun o => set_status o PARTIALLY_FILLED) in
      (b5, lvl1)
  end.

Fixpoint match_inner (fuel : nat) (b : t) (order : Z) (lvl : PriceLevel)
  : option (t * PriceLevel) :=
  if is_active (deref b order) && negb (bool_decide (level_orders_ lvl = [])) then
    match fuel with
    | O => None
    | S fuel1 =>
        let '(b1, lvl1) := match_inner_body b order lvl in
        match_inner fuel1 b1 order lvl1
    end
  else Some (b, lvl).

Definition price_matches (o : Order) (lvl : PriceLevel) : bool :=
  match type o with
  | MARKET => true
  | _ => match side o with
         | BUY => price_ lvl <=? price o
         | SELL => price o <=? price_ lvl
         end
  end.

(** The outer [while] of [match_order]; [contra_levels] is the ladder
    opposite to the order's side, and [level] lives in it. *)
Fixpoint match_outer (fuel : nat) (b : t) (order : Z) : option t :=
  let s := contra (side (deref b order)) in
  match ladder_of b s with
  | [] => Some b
  | (k, lvl) :: rest =>
      if is_active (deref b order) then
        if price_matches (deref b order) lvl then
          match fuel with
          | O => None
          | S fuel1 =>
              match match_inner (S (length (level_orders_ lvl))) b order lvl with
              | Some (b1, lvl1) =>
                  let levels1 := match level_orders_ lvl1 with
                                 | [] => rest
                                 | _ :: _ => (k, lvl1) :: rest
                                 end in
                  match_outer fuel1 (set_ladder b1 s levels1) order
              | None => None
              end
          end
        else Some b
      else Some b
  end.

Definition match_order (b : t) (order : Z) : option t :=
  match_outer (S (length (ladder_of b (contra (side (deref b order)))))) b order.

Definition cancel_order (b : t) (oid : Z) : bool * t :=
  match orders_ b !! oid with
  | None => (false, b)
  | Some order =>
      if is_active order then
        let s := side order in
        let levels := ladder_of b s in
        let b1 :=
          match ladder_find (price order) levels with
          | Some lvl =>
              let lvl1 := snd (level_remove_order b lvl oid) in
              match level_orders_ lvl1 with
              | [] => set_ladder b s (ladder_erase (price order) levels)
              | _ :: _ => set_ladder b s (ladder_set (price order) lvl1 levels)
              end
          | None => b
          end in
        let b2 := update b1 oid (fun o => set_status o CANCELLED) in
        (true, mk (symbol_ b2) (buy_levels_ b2) (sell_levels_ b2) (orders_ b2)
                  (next_order_id_ b2) (trades_ b2) (total_orders_added_ b2)
                  (wrap64 (total_orders_cancelled_ b2 + 1))
                  (total_trades_ b2) (total_volume_ b2))
      else (false, b)
  end.

Definition add_order (b : t) (s : Side) (ty : OrderType) (p q : Z)
  : option (Z * t) :=
  let oid := next_order_id_ b in
  let order := mkOrder oid (symbol_ b) s ty p q 0 NEW in
  let b1 := mk (symbol_ b) (buy_levels_ b) (sell_levels_ b)
               (<[oid := order]> (orders_ b)) (wrap64 (oid + 1))
               (trades_ b) (wrap64 (total_orders_added_ b + 1))
               (total_orders_cancelled_ b) (total_trades_ b) (total_volume_ b) in
  match match_order b1 oid with
  | None => None
  | Some b2 =>
      match ty with
      | MARKET => Some (oid, b2)
      | IOC | FOK =>
          if is_active (deref b2 oid) then Some (oid, snd (cancel_order b2 oid))
          else Some (oid, b2)
      | LIMIT =>
          if is_active (deref b2 oid) then Some (oid, add_to_book b2 oid)
          else Some (oid, b2)
      end
  end.

Definition modify_order (b : t) (oid : Z) (new_price new_quantity : Z)
  : option (bool * t) :=
  match orders_ b !! oid with
  | None => Some (false, b)
  | Some old_order =>
      if is_active old_order then
        let b1 := snd (cancel_order b oid) in
        match add_order b1 (side old_order) (type old_order)
                        new_price new_quantity with
        | Some (_, b2) => Some (true, b2)
        | None => None
        end
      else Some (false, b)
  end.



End Interview.

(** * Vocabulary of the properties *)

(** ** Rings *)

Section RingVocabulary.
Context {T : Type}.
Variable Size : Z.

(** Both indices stay inside the buffer. *)
Definition lfq_wf (q : LockFreeQueue.t T) : Prop :=
  0 <= LockFreeQueue.head_ q < Size /\ 0 <= LockFreeQueue.tail_ q < Size.

(** Both indices stay inside the buffer, and the producer's cached copy
    of the head is current (no pop since it was last read). *)
Definition spsc_wf (q : SPSCQueue.t T) : Prop :=
  0 <= SPSCQueue.head_ q < Size /\ 0 <= SPSCQueue.tail_ q < Size /\
  SPSCQueue.cached_head_ q = SPSCQueue.head_ q.

End RingVocabulary.

Section SPSCInvariant.
Context {T : Type}.
Variable Size : Z.

(** Both indices stay inside the buffer; the producer's copy of the head
    is a past value of the head, at most as far behind it as there are
    free slots; the consumer's copy of the tail is a past value of the
    tail, not behind the head. *)
Definition spsc_inv (q : SPSCQueue.t T) : Prop :=
  0 <= SPSCQueue.head_ q < Size /\ 0 <= SPSCQueue.tail_ q < Size /\
  (exists behind : Z,
      0 <= behind /\ behind + SPSCQueue.size Size q <= Size - 1 /\
      SPSCQueue.cached_head_ q = (SPSCQueue.head_ q - behind) mod Size) /\
  (exists seen : Z,
      0 <= seen <= SPSCQueue.size Size q /\
      SPSCQueue.cached_tail_ q = (SPSCQueue.head_ q + seen) mod Size).

End SPSCInvariant.

(** ** What a ring holds *)

Section RingContents.
Context {T : Type}.
Variable Size : Z.

(** The buffer of [Size] slots holds [items], oldest first, in the slots
    from [head] up to [tail], wrapping at [Size]. *)
Definition ring_holds (buffer : list T) (head tail : Z) (items : list T) : Prop :=
  0 <= head < Size /\ 0 <= tail < Size /\
  length buffer = Z.to_nat Size /\
  Z.of_nat (length items) < Size /\
  tail = (head + Z.of_nat (length items)) mod Size /\
  forall (i : nat) (x : T),
    items !! i = Some x ->
    buffer !! Z.to_nat ((head + Z.of_nat i) mod Size) = Some x.

Definition lfq_holds (q : LockFreeQueue.t T) (items : list T) : Prop :=
  ring_holds (LockFreeQueue.buffer_ q) (LockFreeQueue.head_ q)
             (LockFreeQueue.tail_ q) items.

(** The producer's copy of the head is a past value of the head, at most
    as far behind as there are free slots; the consumer's copy of the tail
    is a past value of the tail, not behind the head. *)
Definition spsc_holds (q : SPSCQueue.t T) (items : list T) : Prop :=
  ring_holds (SPSCQueue.buffer_ q) (SPSCQueue.head_ q) (SPSCQueue.tail_ q) items /\
  (exists behind : Z,
      0 <= behind /\ behind + Z.of_nat (length items) <= Size - 1 /\
      SPSCQueue.cached_head_ q = (SPSCQueue.head_ q - behind) mod Size) /\
  (exists seen : Z,
      0 <= seen <= Z.of_nat (length items) /\
      SPSCQueue.cached_tail_ q = (SPSCQueue.head_ q + seen) mod Size).

End RingContents.

(** ** Cells in use *)

Section PoolVocabulary.
Import MemoryPool.

(** [live] are the cells handed out and not given back: no cell is both
    free and live, none occurs twice, and each lies in a block of the
    pool. *)
Definition pool_ok (p : t) (live : list Cell) : Prop :=
  NoDup (free_list_ p ++ live) /\
  forall c, c ∈ free_list_ p ++ live -> (fst c < N.of_nat (length (blocks_ p)))%N.

End PoolVocabulary.

(** ** The array order book *)

Section OrderBookVocabulary.
Import OrderBook.

(** The trade [executeTrade] builds when the cell of the passive node
    holds the order [passive]. *)
Definition trade_with (passive aggressive : Order) (trade_qty : Z) : Trade :=
  fst (executeTrade (store (create 0) (0%N, 0%N) passive) (0%N, 0%N)
                    aggressive trade_qty).

(** The level the loop works on: the slot of the cached best price of
    the other side. *)
Definition contra_idx (b : t) (order : Order) : Z :=
  wrap64 (best_contra b order - base_price_).

(** The nodes linked at that level, head first. *)
Definition contra_nodes (b : t) (order : Order) : list Cell :=
  nodes (get_level b (contra (side order)) (contra_idx b order)).

(** The fields of an order that matching never rewrites. *)
Definition same_identity (o1 o2 : Order) : Prop :=
  order_id o1 = order_id o2 /\ price o1 = price o2 /\ side o1 = side o2.

(** [tr] was made from a node linked, before the order came in, at the
    level the loop works on. *)
Definition passive_trade (b : t) (o : Order) (tr : Trade) : Prop :=
  exists node q,
    node ∈ contra_nodes b o /\ tr = trade_with (deref b node) o q.

(** The sum of the quantities of the trades [ts]. *)
Definition traded (ts : list Trade) : Z :=
  foldr (fun tr acc => trade_quantity tr + acc) 0 ts.

(** Every stored order carries a [uint32_t] quantity. *)
Definition uint32_quantities (b : t) : Prop :=
  forall c o, node_mem_ b !! c = Some o -> 0 <= quantity o < 2 ^ 32.

(** The prices that index a slot of the level arrays. *)
Definition on_ladder (p : Z) : Prop :=
  base_price_ <= p < base_price_ + MAX_PRICE_LEVELS.

(** *** Scenarios *)

Definition sell (id p q : Z) : Order := mkOrder id p q SELL 0.

Definition buy (id p q : Z) : Order := mkOrder id p q BUY 0.

(** Two resting asks, then a buy that is larger than the first level and
    priced at the second. *)
Definition crossing_orders : list Order :=
  [sell 1 10101 30; sell 2 10102 40; buy 3 10102 100].

(** Resting asks 30 @ 10101, 40 @ 10102, 50 @ 10103, then a buy of 100
    with limit 10103. *)
Definition walking_orders : list Order :=
  [sell 1 10101 30; sell 2 10102 40; sell 3 10103 50; buy 4 10103 100].

(** The book with one resting ask of 30 @ 10101. *)
Definition one_ask_book : t :=
  match addOrders (create 10000) [sell 1 10101 30] with
  | Some (_, b) => b
  | None => create 10000
  end.

End OrderBookVocabulary.

(** ** Well-formed array books *)

Section ArrayBookInvariant.
Import OrderBook.

(** The quantity held by the nodes [cells], read from the node memory. *)
Definition level_quantity (b : t) (cells : list Cell) : Z :=
  foldr (fun c acc => quantity (deref b c) + acc) 0 cells.

(** The pool, the node memory, the levels and the directory fit together:
    - no cell is on the free list twice, and a free cell holds no order;
    - a cell that holds an order is linked at the level of the side and
      price of that order, which is a price of the ladder, and its
      quantity is a [uint32_t];
    - a cell linked at a level holds an order of the side and price of the
      level, and is linked there once;
    - [order_count] of a level is the number of its nodes,
      [total_quantity] the sum of their quantities (as [uint32_t]), and
      [level_price] of a level with nodes is the price of its slot;
    - the directory maps an id to a cell that holds an order of that id. *)
Record book_inv (b : t) : Prop := mk_book_inv {
  inv_free_nodup : NoDup (MemoryPool.free_list_ (order_pool_ b));
  inv_free : forall c,
      c ∈ MemoryPool.free_list_ (order_pool_ b) ->
      node_mem_ b !! c = None /\
      (fst c < N.of_nat (length (MemoryPool.blocks_ (order_pool_ b))))%N;
  inv_mem : forall c o,
      node_mem_ b !! c = Some o ->
      c ∈ nodes (get_level b (side o) (price o - base_price_)) /\
      on_ladder (price o) /\ 0 <= quantity o < 2 ^ 32 /\
      (fst c < N.of_nat (length (MemoryPool.blocks_ (order_pool_ b))))%N;
  inv_linked : forall s idx c,
      c ∈ nodes (get_level b s idx) ->
      exists o, node_mem_ b !! c = Some o /\ side o = s /\
                price o = base_price_ + idx;
  inv_nodup : forall s idx, NoDup (nodes (get_level b s idx));
  inv_count : forall s idx,
      order_count (get_level b s idx)
      = Z.of_nat (length (nodes (get_level b s idx))) /\
      order_count (get_level b s idx) < 2 ^ 32;
  inv_total : forall s idx,
      total_quantity (get_level b s idx)
      = wrap32 (level_quantity b (nodes (get_level b s idx)));
  inv_price : forall s idx,
      nodes (get_level b s idx) <> [] ->
      level_price (get_level b s idx) = base_price_ + idx;
  inv_map : forall id c,
      order_map_ b !! id = Some c ->
      exists o, node_mem_ b !! c = Some o /\ order_id o = id
}.

(** The cached best prices are those the two scans of
    [updateBestPrices] find in the levels. *)
Definition best_cached (b : t) : Prop :=
  best_bid_ b = default 0 (scan (bid_levels_ b) (MAX_PRICE_LEVELS - 1) (-1)) /\
  best_ask_ b = default UINT64_MAX (scan (ask_levels_ b) 0 1).

Definition hft_wf (b : t) : Prop := book_inv b /\ best_cached b.

(** The orders [addOrder] is called with: [uint64_t] price, [uint32_t]
    quantity, and fewer than [2^32 - 1] orders resting at the level of the
    order. *)
Definition admissible (b : t) (o : Order) : Prop :=
  0 <= price o < 2 ^ 64 /\ 0 <= quantity o < 2 ^ 32 /\
  order_count (get_level b (side o) (wrap64 (price o - base_price_)))
  < 2 ^ 32 - 1.

End ArrayBookInvariant.

(** ** Market data snapshots *)

Section SnapshotVocabulary.
Import OrderBook.

(** The slots a loop over a level array visits: [n] of them from [start]
    on, [dir] apart. *)
Definition scan_order (start dir : Z) (n : nat) : list Z :=
  map (fun m => start + Z.of_nat m * dir) (seq 0 n).

(** Those of the slots [idxs] whose level has [order_count > 0]. *)
Definition occupied_slots (slots : gmap Z PriceLevel) (idxs : list Z) : list Z :=
  filter (fun i => occupied (default empty_level (slots !! i)) = true) idxs.

(** The snapshot entry of the level in slot [i]. *)
Definition snapshot_of (slots : gmap Z PriceLevel) (i : Z) : Level.t :=
  let level := default empty_level (slots !! i) in
  Level.mk (level_price level) (total_quantity level) (order_count level).

(** The entries of all occupied bid levels, highest slot first. *)
Definition bid_snapshot (b : t) : list Level.t :=
  map (snapshot_of (bid_levels_ b))
      (occupied_slots (bid_levels_ b)
         (scan_order (MAX_PRICE_LEVELS - 1) (-1) (Z.to_nat MAX_PRICE_LEVELS))).

(** The entries of all occupied ask levels, lowest slot first. *)
Definition ask_snapshot (b : t) : list Level.t :=
  map (snapshot_of (ask_levels_ b))
      (occupied_slots (ask_levels_ b)
         (scan_order 0 1 (Z.to_nat MAX_PRICE_LEVELS))).


End SnapshotVocabulary.

(** ** The map-based order book *)

Section EngineVocabulary.
Import Engine.

(** No queue of the ladder is empty: a queue that runs empty is erased. *)
Definition queues_nonempty (l : Ladder) : Prop :=
  forall k q, (k, q) ∈ l -> q <> [].

End EngineVocabulary.

(** ** Well-formed engine books *)

Section EngineInvariant.
Import Engine.

Definition ladder_keys (l : Ladder) : list Z := map fst l.

(** The order of the keys of [bids] ([buy], greatest first) and of [asks]
    (least first). *)
Definition key_order (buy : bool) (k1 k2 : Z) : Prop :=
  if buy then k2 < k1 else k1 < k2.

(** The queue under key [k] is not empty and holds orders of the side of
    its ladder and of price [k] with quantity left. *)
Definition queue_ok (buy : bool) (k : Z) (q : list Order) : Prop :=
  q <> [] /\
  forall r, r ∈ q -> is_buy r = buy /\ price r = k /\ 0 < qty r.

Definition ladder_ok (buy : bool) (l : Ladder) : Prop :=
  StronglySorted (key_order buy) (ladder_keys l) /\
  forall k q, (k, q) ∈ l -> queue_ok buy k q.

(** Every bid is below every ask. *)
Definition engine_uncrossed (b : t) : Prop :=
  forall kb ka, kb ∈ ladder_keys (bids b) -> ka ∈ ladder_keys (asks b) -> kb < ka.

Definition engine_wf (b : t) : Prop :=
  ladder_ok true (bids b) /\ ladder_ok false (asks b) /\ engine_uncrossed b.

(** The ladder of the side of [o]. *)
Definition own_ladder (b : t) (o : Order) : Ladder :=
  if is_buy o then bids b else asks b.

(** The quantity resting in a ladder. *)
Definition ladder_qty (l : Ladder) : Z :=
  foldr (fun r acc => qty r + acc) 0 (concat (map snd l)).

(** The quantity of the trades printed. *)
Definition lines_traded (lines : list Line) : Z :=
  foldr (fun ln acc => traded ln + acc) 0 lines.

(** [k] is a price the order [o] accepts. *)
Definition within_limit (o : Order) (k : Z) : Prop :=
  if is_buy o then k <= price o else price o <= k.

(** Resting asks of 10 @ 100 (id 1) and 5 @ 101 (id 2). *)
Definition two_asks : t :=
  {| bids := [];
     asks := [(100, [mkOrder 1 "SELL" 100 10]); (101, [mkOrder 2 "SELL" 101 5])] |}.

End EngineInvariant.

Section InterviewVocabulary.
Import Interview.

(** The fields of an order that no operation of the book rewrites. *)
Definition same_order (o1 o2 : Order) : Prop :=
  order_id o1 = order_id o2 /\ side o1 = side o2 /\ type o1 = type o2 /\
  price o1 = price o2 /\ quantity o1 = quantity o2.

(** [b1] comes from [b] by rewriting statuses and filled quantities of
    orders and by appending trades. *)
Record evolves (b b1 : t) : Prop := mk_evolves {
  ev_buy : buy_levels_ b1 = buy_levels_ b;
  ev_sell : sell_levels_ b1 = sell_levels_ b;
  ev_next : next_order_id_ b1 = next_order_id_ b;
  ev_same : forall x, same_order (deref b1 x) (deref b x);
  ev_dom : forall x, is_Some (orders_ b !! x) -> is_Some (orders_ b1 !! x)
}.

(** The id of the resting order in a trade made for an aggressor of side
    [s]. *)
Definition passive_id (s : Side) (tr : Trade) : Z :=
  match s with BUY => sell_order_id tr | SELL => buy_order_id tr end.

(** [tr] was made at the price of [lvl], with an order resting in it. *)
Definition level_trade (b : t) (order : Z) (lvl : PriceLevel) (tr : Trade) : Prop :=
  trade_price tr = price_ lvl /\
  exists c, c ∈ level_orders_ lvl /\
            passive_id (side (deref b order)) tr = order_id (deref b c).

(** [x] rests in no level of [l]. *)
Definition not_resting (l : Ladder) (x : Z) : Prop :=
  forall k lvl, (k, lvl) ∈ l -> x ∉ level_orders_ lvl.

(** The level [lvl1] has the price of [lvl] and holds no other orders. *)
Definition level_within (lvl1 lvl : PriceLevel) : Prop :=
  price_ lvl1 = price_ lvl /\
  forall c, c ∈ level_orders_ lvl1 -> c ∈ level_orders_ lvl.

(** Every level of [l1] is within the level of [l] under the same key. *)
Definition ladder_within (l1 l : Ladder) : Prop :=
  forall k lvl1, (k, lvl1) ∈ l1 -> exists lvl, (k, lvl) ∈ l /\ level_within lvl1 lvl.

(** [tr] was made at the price of a level of [l], with an order resting
    in that level. *)
Definition ladder_trade (b : t) (order : Z) (l : Ladder) (tr : Trade) : Prop :=
  exists k lvl, (k, lvl) ∈ l /\ level_trade b order lvl tr.

(** What [match_order] does to a book [b] for the order [order]: [b1] is
    the book and [new] the trades it leaves. *)
Record matched (b : t) (order : Z) (b1 : t) (new : list Trade) : Prop :=
  mk_matched {
    m_own : ladder_of b1 (side (deref b order))
            = ladder_of b (side (deref b order));
    m_next : next_order_id_ b1 = next_order_id_ b;
    m_same : forall x, same_order (deref b1 x) (deref b x);
    m_dom : forall x, is_Some (orders_ b !! x) -> is_Some (orders_ b1 !! x);
    m_frame : forall x,
        x <> order ->
        not_resting (ladder_of b (contra (side (deref b order)))) x ->
        orders_ b1 !! x = orders_ b !! x;
    m_shrink : ladder_within (ladder_of b1 (contra (side (deref b order))))
                             (ladder_of b (contra (side (deref b order))));
    m_trades : trades_ b1 = trades_ b ++ new;
    m_passive : Forall (ladder_trade b order
                          (ladder_of b (contra (side (deref b order))))) new
  }.

(** Every order resting in [b1] rests in [b], in a level of the same key
    and price. *)
Definition ladders_within (b1 b : t) : Prop :=
  forall sd, ladder_within (ladder_of b1 sd) (ladder_of b sd).

(** What is left to do after matching (cancel the rest, book the rest, or
    nothing) touches no other order, no trade and no id. *)
Record settled (oid : Z) (b b1 : t) : Prop := mk_settled {
  st_trades : trades_ b1 = trades_ b;
  st_next : next_order_id_ b1 = next_order_id_ b;
  st_frame : forall x, x <> oid -> orders_ b1 !! x = orders_ b !! x;
  st_same : same_order (deref b1 oid) (deref b oid);
  st_dom : is_Some (orders_ b !! oid) -> is_Some (orders_ b1 !! oid)
}.

(** [tr] was made with an order [c] resting on the side opposite to [s],
    at the price of its level. *)
Definition resting_trade (b : t) (s : Side) (tr : Trade) : Prop :=
  exists k lvl c,
    (k, lvl) ∈ ladder_of b (contra s) /\ c ∈ level_orders_ lvl /\
    trade_price tr = price_ lvl /\
    passive_id s tr = order_id (deref b c).

(** Every resting id names a directory entry of the side and price of its
    level, every directory key is below the next order id, and every level
    sits under its own price. *)
Definition book_wf (b : t) : Prop :=
  (forall sd k lvl c,
      (k, lvl) ∈ ladder_of b sd -> c ∈ level_orders_ lvl ->
      exists o, orders_ b !! c = Some o /\ side o = sd /\
                price o = price_ lvl /\ order_id o = c) /\
  (forall c, is_Some (orders_ b !! c) -> c < next_order_id_ b) /\
  (forall sd k lvl, (k, lvl) ∈ ladder_of b sd -> price_ lvl = k).

(** A level that may sit under key [k] on side [s] of the book [b]. *)
Definition level_ok (b : t) (s : Side) (k : Z) (lvl : PriceLevel) : Prop :=
  price_ lvl = k /\
  forall c, c ∈ level_orders_ lvl ->
            exists o, orders_ b !! c = Some o /\ side o = s /\
                      price o = price_ lvl /\ order_id o = c.

(** *** Scenarios *)

(** Two resting bids of 10 @ 50, ids 1 and 2. *)
Definition two_bids : Interview.t :=
  {| Interview.symbol_ := "X";
     Interview.buy_levels_ := [(50, Interview.mkLevel 50 [1; 2] 20)];
     Interview.sell_levels_ := [];
     Interview.orders_ :=
       <[1 := Interview.mkOrder 1 "X" Interview.BUY Interview.LIMIT 50 10 0
                                Interview.NEW]>
         (<[2 := Interview.mkOrder 2 "X" Interview.BUY Interview.LIMIT 50 10 0
                                   Interview.NEW]> ∅);
     Interview.next_order_id_ := 3;
     Interview.trades_ := [];
     Interview.total_orders_added_ := 2;
     Interview.total_orders_cancelled_ := 0;
     Interview.total_trades_ := 0;
     Interview.total_volume_ := 0 |}.

End InterviewVocabulary.

(** ** Ordered map-based books *)

Section MapBookInvariant.
Import Interview.

Definition ladder_prices (l : Ladder) : list Z := map fst l.

(** The order of the keys of [buy_levels_] (greatest first) and of
    [sell_levels_] (least first). *)
Definition price_order (s : Side) (k1 k2 : Z) : Prop :=
  match s with BUY => k2 < k1 | SELL => k1 < k2 end.

Definition ladder_sorted (s : Side) (l : Ladder) : Prop :=
  StronglySorted (price_order s) (ladder_prices l).

(** Every level sits under its own price, is not empty, and holds no id
    twice. *)
Definition levels_ok (l : Ladder) : Prop :=
  forall k lvl,
    (k, lvl) ∈ l ->
    price_ lvl = k /\ level_orders_ lvl <> [] /\ NoDup (level_orders_ lvl).

(** Every bid price is below every ask price. *)
Definition book_uncrossed (b : t) : Prop :=
  forall kb ka,
    kb ∈ ladder_prices (buy_levels_ b) -> ka ∈ ladder_prices (sell_levels_ b) ->
    kb < ka.

Definition book_ordered (b : t) : Prop :=
  (forall s, ladder_sorted s (ladder_of b s) /\ levels_ok (ladder_of b s)) /\
  book_uncrossed b.

(** [p] is a price at which an order of side [s] does not meet the level
    of price [k] on the other side. *)
Definition beyond (s : Side) (p k : Z) : Prop :=
  match s with BUY => p < k | SELL => k < p end.

(** The keys of a ladder with the ids queued under each. *)
Definition ladder_queues (l : Ladder) : list (Z * list Z) :=
  map (fun e => (fst e, level_orders_ (snd e))) l.

(** The queues [qs] without the id [oid], and without the queues that
    held nothing else. *)
Definition without_order (oid : Z) (qs : list (Z * list Z)) : list (Z * list Z) :=
  filter (fun e => snd e <> [])
         (map (fun e => (fst e, filter (fun c => c <> oid) (snd e))) qs).

(** What [cancel_order] does to the ladder of the order. *)
Definition cancel_in_ladder (b : t) (oid p : Z) (l : Ladder) : Ladder :=
  match ladder_find p l with
  | Some lvl =>
      match level_orders_ (snd (level_remove_order b lvl oid)) with
      | [] => ladder_erase p l
      | _ :: _ => ladder_set p (snd (level_remove_order b lvl oid)) l
      end
  | None => l
  end.

(** The book [two_bids] with a sell of 10 @ 50 entered under id 3, as
    [add_order] hands it to [match_order]. *)
Definition two_bids_and_a_sell : t :=
  set_orders two_bids
             (<[3 := mkOrder 3 "X" SELL LIMIT 50 10 0 NEW]> (orders_ two_bids)).

End MapBookInvariant.

(** * Properties *)

(** ** Machine arithmetic *)

Lemma wrap32_small (x : Z) : 0 <= x < 2 ^ 32 -> wrap32 x = x.
Proof. intros H. unfold wrap32. now apply Z.mod_small. Qed.

Lemma wrap64_small (x : Z) : 0 <= x < 2 ^ 64 -> wrap64 x = x.
Proof. intros H. unfold wrap64. now apply Z.mod_small. Qed.

Lemma wrap32_range (x : Z) : 0 <= wrap32 x < 2 ^ 32.
Proof. unfold wrap32. apply Z.mod_pos_bound. lia. Qed.

Lemma wrap64_range (x : Z) : 0 <= wrap64 x < 2 ^ 64.
Proof. unfold wrap64. apply Z.mod_pos_bound. lia. Qed.

Lemma land_mask (x k : Z) : 0 <= k -> Z.land x (2 ^ k - 1) = x mod 2 ^ k.
Proof.
  intros Hk. rewrite <- Z.land_ones by assumption.
  now rewrite Z.ones_equiv, <- Z.sub_1_r.
Qed.

(** ** The node pool *)

Section PoolFacts.
Import MemoryPool.
Variable BlockSize : nat.
Hypothesis BlockSize_pos : (0 < BlockSize)%nat.

Lemma block_cells_head (nb : N) :
  block_cells BlockSize nb =
  (nb, 0%N) :: map (fun i => (nb, N.of_nat i)) (seq 1 (BlockSize - 1)).
Proof.
  unfold block_cells. destruct BlockSize as [|n]; [lia|].
  simpl. now rewrite Nat.sub_0_r.
Qed.

Lemma length_block_cells (nb : N) : length (block_cells BlockSize nb) = BlockSize.
Proof. unfold block_cells. now rewrite length_map, length_seq. Qed.

(** With every cell in use, [allocate] takes a new block from the heap and
    hands out its first cell. *)
Lemma allocate_exhausted (p : t) :
  free_list_ p = [] ->
  allocate BlockSize p =
  Some ((N.of_nat (length (blocks_ p)), 0%N),
        {| free_list_ := map (fun i => (N.of_nat (length (blocks_ p)), N.of_nat i))
                             (seq 1 (BlockSize - 1));
           blocks_ := blocks_ p ++ [N.of_nat (length (blocks_ p))] |}).
Proof.
  intros Hfree. unfold allocate. rewrite Hfree. unfold expandPool.
  cbn [free_list_ blocks_]. rewrite Hfree, app_nil_r, block_cells_head.
  reflexivity.
Qed.

Lemma allocate_available (p : t) (node : Cell) (next : list Cell) :
  free_list_ p = node :: next ->
  allocate BlockSize p =
  Some (node, {| free_list_ := next; blocks_ := blocks_ p |}).
Proof. intros Hfree. unfold allocate. rewrite Hfree. cbv zeta. now rewrite Hfree. Qed.

Lemma allocate_is_Some (p : t) : is_Some (allocate BlockSize p).
Proof.
  destruct (free_list_ p) as [|node next] eqn:Hfree.
  - rewrite (allocate_exhausted p Hfree). eauto.
  - rewrite (allocate_available p node next Hfree). eauto.
Qed.

End PoolFacts.

(** ** The SPSC rings *)

Section LockFreeQueueFacts.
Import LockFreeQueue.
Context {T : Type}.
Variables (k : Z) (Size : Z).
Hypothesis k_range : 0 <= k < 64.
Hypothesis Size_pow2 : Size = 2 ^ k.

Lemma Size_bounds : 0 < Size < 2 ^ 64.
Proof.
  subst Size. split; [apply Z.pow_pos_nonneg; lia|].
  apply Z.pow_lt_mono_r; lia.
Qed.

Lemma lfq_next_index (i : Z) :
  0 <= i < Size ->
  Z.land (wrap64 (i + 1)) (Size - 1) = (i + 1) mod Size.
Proof.
  intros Hi. pose proof Size_bounds as HS.
  rewrite wrap64_small by lia.
  subst Size. apply land_mask. lia.
Qed.

Lemma lfq_next_index_cases (i : Z) :
  0 <= i < Size ->
  (i + 1 < Size /\ (i + 1) mod Size = i + 1) \/
  (i + 1 = Size /\ (i + 1) mod Size = 0).
Proof.
  intros Hi. destruct (Z.eq_dec (i + 1) Size) as [He|Hne].
  - right. split; [assumption|]. rewrite He. apply Z.mod_same. lia.
  - left. split; [lia|]. apply Z.mod_small. lia.
Qed.

Lemma lfq_size_range (q : t T) : lfq_wf Size q -> 0 <= size Size q <= Size - 1.
Proof.
  intros [Hh Ht]. pose proof Size_bounds as HS. unfold size.
  destruct (Z.geb_spec (tail_ q) (head_ q)) as [Hge|Hlt]; [lia|].
  rewrite (wrap64_small (Size - head_ q)) by lia.
  rewrite wrap64_small by lia. lia.
Qed.

Lemma lfq_create_wf (init : T) : lfq_wf Size (create Size init).
Proof. pose proof Size_bounds. unfold lfq_wf, create. simpl. lia. Qed.

Lemma lfq_create_size (init : T) : size Size (create Size init) = 0.
Proof. reflexivity. Qed.

(** [push] reports full exactly when [Size - 1] items are queued. *)
Lemma lfq_push_full (q : t T) (x : T) :
  lfq_wf Size q ->
  (push Size q x = (false, q) <-> size Size q = Size - 1) /\
  (fst (push Size q x) = false <-> size Size q = Size - 1).
Proof.
  intros [Hh Ht]. pose proof Size_bounds as HS.
  unfold push, size. rewrite lfq_next_index by assumption.
  destruct (lfq_next_index_cases (tail_ q) Ht) as [[Hlt ->]|[Heq ->]];
    destruct (Z.eqb_spec (tail_ q + 1) (head_ q)) as [E1|E1];
    destruct (Z.eqb_spec 0 (head_ q)) as [E2|E2];
    destruct (Z.geb_spec (tail_ q) (head_ q)) as [Hge|Hl];
    try rewrite (wrap64_small (Size - head_ q)) by lia;
    try rewrite wrap64_small by lia;
    simpl; split; split; intros H; try discriminate; try lia; try reflexivity;
    try (inversion H; fail).
Qed.

Lemma lfq_push_ok (q : t T) (x : T) :
  lfq_wf Size q -> size Size q < Size - 1 ->
  fst (push Size q x) = true /\
  lfq_wf Size (snd (push Size q x)) /\
  size Size (snd (push Size q x)) = size Size q + 1 /\
  head_ (snd (push Size q x)) = head_ q.
Proof.
  intros [Hh Ht] Hsz. pose proof Size_bounds as HS.
  unfold push, size, lfq_wf in *. rewrite lfq_next_index by assumption.
  destruct (lfq_next_index_cases (tail_ q) Ht) as [[Hlt ->]|[Heq ->]];
    destruct (Z.geb_spec (tail_ q) (head_ q)) as [Hge|Hl];
    try (rewrite (wrap64_small (Size - head_ q)) in * by lia);
    try (rewrite (wrap64_small (Size - head_ q + tail_ q)) in * by lia).
  - destruct (Z.eqb_spec (tail_ q + 1) (head_ q)); [lia|]. simpl.
    destruct (Z.geb_spec (tail_ q + 1) (head_ q)); lia.
  - destruct (Z.eqb_spec (tail_ q + 1) (head_ q)); [lia|]. simpl.
    destruct (Z.geb_spec (tail_ q + 1) (head_ q)); [lia|].
    rewrite (wrap64_small (Size - head_ q)) by lia.
    rewrite wrap64_small by lia. lia.
  - destruct (Z.eqb_spec 0 (head_ q)); [lia|]. simpl.
    destruct (Z.geb_spec 0 (head_ q)); [lia|].
    rewrite (wrap64_small (Size - head_ q)) by lia.
    rewrite wrap64_small by lia. lia.
  - lia.
Qed.

(** A run of pushes that fits below [Size - 1] succeeds throughout. *)
Lemma lfq_push_all_ok (items : list T) :
  forall q : t T,
    lfq_wf Size q -> size Size q + Z.of_nat (length items) <= Size - 1 ->
    fst (push_all Size q items) = replicate (length items) true /\
    lfq_wf Size (snd (push_all Size q items)) /\
    size Size (snd (push_all Size q items)) = size Size q + Z.of_nat (length items).
Proof.
  induction items as [|x rest IH]; intros q Hwf Hfit.
  - simpl. repeat split; try apply Hwf. lia.
  - cbn [push_all length] in *.
    destruct (lfq_push_ok q x Hwf ltac:(lia)) as (Hok & Hwf1 & Hsz1 & _).
    destruct (push Size q x) as [ok q1]. simpl in Hok, Hwf1, Hsz1. subst ok.
    specialize (IH q1 Hwf1 ltac:(lia)).
    destruct (push_all Size q1 rest) as [oks q2]. simpl in *.
    destruct IH as (-> & Hwf2 & Hsz2). repeat split; try apply Hwf2. lia.
Qed.

End LockFreeQueueFacts.

Section SPSCQueueFacts.
Import SPSCQueue.
Context {T : Type}.
Variable Size : Z.
Hypothesis Size_range : 0 < Size < 2 ^ 64.

Lemma spsc_next_index_cases (i : Z) :
  0 <= i < Size ->
  (i + 1 < Size /\ wrap64 (i + 1) mod Size = i + 1) \/
  (i + 1 = Size /\ wrap64 (i + 1) mod Size = 0).
Proof.
  intros Hi. rewrite wrap64_small by lia.
  destruct (Z.eq_dec (i + 1) Size) as [He|Hne].
  - right. split; [assumption|]. rewrite He. apply Z.mod_same. lia.
  - left. split; [lia|]. apply Z.mod_small. lia.
Qed.

Lemma spsc_create_wf (init : T) : spsc_wf Size (create Size init).
Proof. unfold spsc_wf, create. simpl. lia. Qed.

Lemma spsc_enqueue_full (q : t T) (x : T) :
  spsc_wf Size q ->
  (fst (try_enqueue Size q x) = false <-> size Size q = Size - 1).
Proof.
  intros (Hh & Ht & Hc).
  unfold try_enqueue, size, set_cached_head. rewrite Hc.
  destruct (spsc_next_index_cases (tail_ q) Ht) as [[Hlt ->]|[Heq ->]];
    destruct (Z.geb_spec (tail_ q) (head_ q)) as [Hge|Hl];
    try rewrite (wrap64_small (Size - head_ q)) by lia;
    try rewrite wrap64_small by lia;
    repeat (match goal with
            | |- context [?a =? ?b] => destruct (Z.eqb_spec a b)
            end; cbn [cached_head_ andb fst]);
    split; intros H; try discriminate; try lia; try reflexivity.
Qed.

Lemma spsc_enqueue_ok (q : t T) (x : T) :
  spsc_wf Size q -> size Size q < Size - 1 ->
  fst (try_enqueue Size q x) = true /\
  spsc_wf Size (snd (try_enqueue Size q x)) /\
  size Size (snd (try_enqueue Size q x)) = size Size q + 1.
Proof.
  intros (Hh & Ht & Hc) Hsz.
  unfold try_enqueue, size, spsc_wf, set_cached_head in *. rewrite Hc.
  destruct (spsc_next_index_cases (tail_ q) Ht) as [[Hlt ->]|[Heq ->]];
    destruct (Z.geb_spec (tail_ q) (head_ q)) as [Hge|Hl];
    try (rewrite (wrap64_small (Size - head_ q)) in * by lia);
    try (rewrite (wrap64_small (Size - head_ q + tail_ q)) in * by lia).
  - destruct (Z.eqb_spec (tail_ q + 1) (head_ q)); [lia|]. simpl.
    destruct (Z.geb_spec (tail_ q + 1) (head_ q)); lia.
  - destruct (Z.eqb_spec (tail_ q + 1) (head_ q)); [lia|]. simpl.
    destruct (Z.geb_spec (tail_ q + 1) (head_ q)); [lia|].
    rewrite (wrap64_small (Size - head_ q)) by lia.
    rewrite wrap64_small by lia. lia.
  - destruct (Z.eqb_spec 0 (head_ q)); [lia|]. simpl.
    destruct (Z.geb_spec 0 (head_ q)); [lia|].
    rewrite (wrap64_small (Size - head_ q)) by lia.
    rewrite wrap64_small by lia. lia.
  - lia.
Qed.

Lemma spsc_enqueue_all_ok (items : list T) :
  forall q : t T,
    spsc_wf Size q -> size Size q + Z.of_nat (length items) <= Size - 1 ->
    fst (enqueue_all Size q items) = replicate (length items) true /\
    spsc_wf Size (snd (enqueue_all Size q items)) /\
    size Size (snd (enqueue_all Size q items))
    = size Size q + Z.of_nat (length items).
Proof.
  induction items as [|x rest IH]; intros q Hwf Hfit.
  - simpl. repeat split; try apply Hwf. lia.
  - cbn [enqueue_all length] in *.
    destruct (spsc_enqueue_ok q x Hwf ltac:(lia)) as (Hok & Hwf1 & Hsz1).
    destruct (try_enqueue Size q x) as [ok q1]. simpl in Hok, Hwf1, Hsz1. subst ok.
    specialize (IH q1 Hwf1 ltac:(lia)).
    destruct (enqueue_all Size q1 rest) as [oks q2]. simpl in *.
    destruct IH as (-> & Hwf2 & Hsz2). repeat split; try apply Hwf2. lia.
Qed.

End SPSCQueueFacts.

(** ** Ring indices *)

Section RingIndexFacts.
Variable Size : Z.
Hypothesis Size_range : 0 < Size < 2 ^ 64.

Lemma ring_index_inj (h i j : Z) :
  0 <= i < Size -> 0 <= j < Size ->
  (h + i) mod Size = (h + j) mod Size -> i = j.
Proof.
  intros Hi Hj Heq.
  pose proof (Z.div_mod (h + i) Size ltac:(lia)) as H1.
  pose proof (Z.div_mod (h + j) Size ltac:(lia)) as H2.
  rewrite Heq in H1.
  assert (Hk : i - j = Size * ((h + i) / Size - (h + j) / Size)) by lia.
  destruct (Z.eq_dec ((h + i) / Size - (h + j) / Size) 0) as [E|E]; [lia|].
  nia.
Qed.

(** The number of queued items is the distance from head to tail. *)
Lemma ring_distance (h t : Z) :
  0 <= h < Size -> 0 <= t < Size ->
  (if t >=? h then t - h else wrap64 (wrap64 (Size - h) + t)) = (t - h) mod Size /\
  0 <= (t - h) mod Size < Size /\
  t = (h + (t - h) mod Size) mod Size.
Proof.
  intros Hh Ht. split; [|split].
  - destruct (Z.geb_spec t h) as [Hge|Hlt].
    + symmetry. apply Z.mod_small. lia.
    + rewrite (wrap64_small (Size - h)) by lia. rewrite wrap64_small by lia.
      apply Z.mod_unique with (q := -1); lia.
  - apply Z.mod_pos_bound. lia.
  - rewrite Zplus_mod_idemp_r. replace (h + (t - h)) with t by lia.
    symmetry. apply Z.mod_small. lia.
Qed.

Lemma ring_index_full (h t : Z) :
  0 <= h < Size -> 0 <= t < Size ->
  ((t + 1) mod Size = h <-> (t - h) mod Size = Size - 1).
Proof.
  intros Hh Ht. destruct (ring_distance h t Hh Ht) as (_ & Hd & Htail).
  set (d := (t - h) mod Size) in *.
  assert (Hnext : (t + 1) mod Size = (h + (d + 1)) mod Size).
  { rewrite Htail at 1. rewrite Z.add_mod_idemp_l by lia. f_equal. lia. }
  rewrite Hnext. split.
  - intros Heq. destruct (Z.eq_dec d (Size - 1)) as [E|E]; [assumption|].
    exfalso. assert (d + 1 = 0); [|lia].
    apply (ring_index_inj h); [lia|lia|].
    rewrite Heq, Z.add_0_r. symmetry. apply Z.mod_small. lia.
  - intros ->. replace (h + (Size - 1 + 1)) with (h + 1 * Size) by lia.
    rewrite Z.mod_add by lia. apply Z.mod_small. lia.
Qed.

Lemma ring_index_empty (h t : Z) :
  0 <= h < Size -> 0 <= t < Size -> (h = t <-> (t - h) mod Size = 0).
Proof.
  intros Hh Ht. split.
  - intros ->. now rewrite Z.sub_diag, Z.mod_0_l by lia.
  - intros Hz. destruct (ring_distance h t Hh Ht) as (_ & _ & Htail).
    rewrite Hz, Z.add_0_r, Z.mod_small in Htail by lia. now symmetry.
Qed.

Lemma ring_index_push (h t : Z) :
  0 <= h < Size -> 0 <= t < Size -> (t - h) mod Size < Size - 1 ->
  ((t + 1) mod Size - h) mod Size = (t - h) mod Size + 1.
Proof.
  intros Hh Ht Hroom. pose proof (Z.mod_pos_bound (t - h) Size ltac:(lia)).
  rewrite Zminus_mod_idemp_l.
  replace (t + 1 - h) with (t - h + 1) by lia.
  rewrite <- Zplus_mod_idemp_l. apply Z.mod_small. lia.
Qed.

Lemma ring_index_pop (h t : Z) :
  0 <= h < Size -> 0 <= t < Size -> 0 < (t - h) mod Size ->
  (t - (h + 1) mod Size) mod Size = (t - h) mod Size - 1.
Proof.
  intros Hh Ht Hsome. pose proof (Z.mod_pos_bound (t - h) Size ltac:(lia)).
  rewrite Zminus_mod_idemp_r.
  replace (t - (h + 1)) with (t - h - 1) by lia.
  rewrite <- Zminus_mod_idemp_l. apply Z.mod_small. lia.
Qed.

End RingIndexFacts.

(** ** SPSCQueue with cached indices out of date *)

Section SPSCInvariantFacts.
Import SPSCQueue.
Context {T : Type}.
Variable Size : Z.
Hypothesis Size_range : 0 < Size < 2 ^ 64.

Lemma spsc_size_mod (q : t T) :
  0 <= head_ q < Size -> 0 <= tail_ q < Size ->
  size Size q = (tail_ q - head_ q) mod Size.
Proof. intros Hh Ht. now destruct (ring_distance Size Size_range _ _ Hh Ht). Qed.

Lemma spsc_inv_size_range (q : t T) :
  spsc_inv Size q -> 0 <= size Size q <= Size - 1.
Proof. intros (_ & _ & (behind & ? & ? & _) & (seen & ? & _)). lia. Qed.

Lemma spsc_inv_create (init : T) : spsc_inv Size (create Size init).
Proof.
  unfold spsc_inv, create, size. cbn [head_ tail_ cached_head_ cached_tail_].
  split; [lia|]. split; [lia|]. split.
  - exists 0. split; [lia|]. split; [cbn; lia|]. now rewrite Z.mod_0_l by lia.
  - exists 0. split; [cbn; lia|]. now rewrite Z.mod_0_l by lia.
Qed.

(** [try_enqueue] in any state the queue can be in. *)
Lemma spsc_inv_enqueue (q : t T) (x : T) :
  spsc_inv Size q ->
  (size Size q < Size - 1 ->
   fst (try_enqueue Size q x) = true /\
   size Size (snd (try_enqueue Size q x)) = size Size q + 1) /\
  (size Size q = Size - 1 ->
   try_enqueue Size q x = (false, set_cached_head q (head_ q))) /\
  spsc_inv Size (snd (try_enqueue Size q x)).
Proof.
  intros (Hh & Ht & (behind & Hb0 & Hb1 & Hch) & (seen & Hs & Hct)).
  rewrite (spsc_size_mod q Hh Ht) in *.
  destruct (ring_distance Size Size_range _ _ Hh Ht) as (Hsz & Hd & Htail).
  pose proof (ring_index_full Size Size_range _ _ Hh Ht) as Hfull.
  pose proof (ring_index_push Size Size_range _ _ Hh Ht) as Hpush.
  set (d := (tail_ q - head_ q) mod Size) in *.
  assert (Hnext : 0 <= (tail_ q + 1) mod Size < Size)
    by (apply Z.mod_pos_bound; lia).
  assert (Hself : (head_ q - 0) mod Size = head_ q)
    by (rewrite Z.sub_0_r; apply Z.mod_small; lia).
  unfold try_enqueue. rewrite (wrap64_small (tail_ q + 1)) by lia.
  set (next := (tail_ q + 1) mod Size) in *.
  destruct (Z.eqb_spec next (cached_head_ q)) as [Hc|Hc];
    cbn [andb set_cached_head cached_head_ head_ tail_ buffer_ cached_tail_].
  - destruct (Z.eqb_spec next (head_ q)) as [Hf|Hf]; cbn [fst snd].
    + apply Hfull in Hf. split; [lia|]. split; [reflexivity|].
      unfold spsc_inv, size.
      cbn [head_ tail_ cached_head_ cached_tail_ set_cached_head set_cached_tail].
      rewrite Hsz.
      split; [assumption|]. split; [assumption|]. split.
      * exists 0. split; [lia|]. split; [lia|]. now symmetry.
      * exists seen. auto.
    + assert (Hroom : d < Size - 1)
        by (destruct (Z.eq_dec d (Size - 1)) as [E|E]; [apply Hfull in E; contradiction|lia]).
      assert (Hsize1 : size Size {| head_ := head_ q; tail_ := next;
                                     buffer_ := <[Z.to_nat (tail_ q) := x]> (buffer_ q);
                                     cached_head_ := head_ q;
                                     cached_tail_ := cached_tail_ q |} = d + 1).
      { rewrite spsc_size_mod; cbn [head_ tail_]; [|assumption|assumption].
        unfold next. now apply Hpush. }
      split; [intros _; split; [reflexivity|exact Hsize1]|]. split; [lia|].
      unfold spsc_inv. rewrite Hsize1. cbn [head_ tail_ cached_head_ cached_tail_].
      split; [assumption|]. split; [assumption|]. split.
      * exists 0. split; [lia|]. split; [lia|]. now symmetry.
      * exists seen. split; [lia|exact Hct].
  - cbn [fst snd].
    assert (Hroom : behind + d < Size - 1).
    { destruct (Z.eq_dec (behind + d) (Size - 1)) as [E|E]; [|lia].
      exfalso. apply Hc. unfold next. rewrite Hch. rewrite Htail at 1.
      rewrite Z.add_mod_idemp_l by lia.
      replace (head_ q + d + 1) with (head_ q - behind + 1 * Size) by lia.
      apply Z.mod_add. lia. }
    assert (Hsize1 : size Size {| head_ := head_ q; tail_ := next;
                                   buffer_ := <[Z.to_nat (tail_ q) := x]> (buffer_ q);
                                   cached_head_ := cached_head_ q;
                                   cached_tail_ := cached_tail_ q |} = d + 1).
    { rewrite spsc_size_mod; cbn [head_ tail_]; [|assumption|assumption].
      unfold next. apply Hpush. lia. }
    split; [intros _; split; [reflexivity|exact Hsize1]|]. split; [lia|].
    unfold spsc_inv. rewrite Hsize1. cbn [head_ tail_ cached_head_ cached_tail_].
    split; [assumption|]. split; [assumption|]. split.
    + exists behind. split; [lia|]. split; [lia|exact Hch].
    + exists seen. split; [lia|exact Hct].
Qed.

(** [try_dequeue] in any state the queue can be in. *)
Lemma spsc_inv_dequeue (q : t T) :
  spsc_inv Size q ->
  (0 < size Size q ->
   fst (try_dequeue Size q) = buffer_ q !! Z.to_nat (head_ q) /\
   size Size (snd (try_dequeue Size q)) = size Size q - 1) /\
  (size Size q = 0 ->
   try_dequeue Size q = (None, set_cached_tail q (tail_ q))) /\
  spsc_inv Size (snd (try_dequeue Size q)).
Proof.
  intros (Hh & Ht & (behind & Hb0 & Hb1 & Hch) & (seen & Hs & Hct)).
  rewrite (spsc_size_mod q Hh Ht) in *.
  destruct (ring_distance Size Size_range _ _ Hh Ht) as (Hsz & Hd & Htail).
  pose proof (ring_index_empty Size Size_range _ _ Hh Ht) as Hempty.
  pose proof (ring_index_pop Size Size_range _ _ Hh Ht) as Hpop.
  set (d := (tail_ q - head_ q) mod Size) in *.
  assert (Hnext : 0 <= (head_ q + 1) mod Size < Size)
    by (apply Z.mod_pos_bound; lia).
  assert (Hseen0 : head_ q = cached_tail_ q <-> seen = 0).
  { rewrite Hct. split.
    - intros Heq. symmetry. apply (ring_index_inj Size Size_range (head_ q)); [lia|lia|].
      rewrite <- Heq, Z.add_0_r. apply Z.mod_small. lia.
    - intros ->. rewrite Z.add_0_r. symmetry. apply Z.mod_small. lia. }
  assert (Hbehind : ((head_ q + 1) mod Size - (behind + 1)) mod Size
                    = (head_ q - behind) mod Size)
    by (rewrite Zminus_mod_idemp_l; f_equal; lia).
  assert (Hahead : forall n, ((head_ q + 1) mod Size + (n - 1)) mod Size
                             = (head_ q + n) mod Size)
    by (intros n; rewrite Z.add_mod_idemp_l by lia; f_equal; lia).
  unfold try_dequeue. rewrite (wrap64_small (head_ q + 1)) by lia.
  destruct (Z.eqb_spec (head_ q) (cached_tail_ q)) as [Hc|Hc];
    cbn [andb set_cached_tail cached_tail_ head_ tail_ buffer_ cached_head_].
  - destruct (Z.eqb_spec (head_ q) (tail_ q)) as [He|He]; cbn [fst snd].
    + apply Hempty in He. split; [lia|]. split; [reflexivity|].
      unfold spsc_inv, size.
      cbn [head_ tail_ cached_head_ cached_tail_ set_cached_head set_cached_tail].
      rewrite Hsz.
      split; [assumption|]. split; [assumption|]. split.
      * exists behind. auto.
      * exists 0. split; [lia|]. rewrite Z.add_0_r.
        apply Hempty in He. rewrite <- He. symmetry. apply Z.mod_small. lia.
    + assert (Hsome : 0 < d)
        by (destruct (Z.eq_dec d 0) as [E|E]; [apply Hempty in E; contradiction|lia]).
      assert (Hsize1 : size Size {| head_ := (head_ q + 1) mod Size; tail_ := tail_ q;
                                     buffer_ := buffer_ q;
                                     cached_head_ := cached_head_ q;
                                     cached_tail_ := tail_ q |} = d - 1).
      { rewrite spsc_size_mod; cbn [head_ tail_]; [|assumption|assumption].
        now apply Hpop. }
      split; [intros _; split; [reflexivity|exact Hsize1]|]. split; [lia|].
      unfold spsc_inv. rewrite Hsize1. cbn [head_ tail_ cached_head_ cached_tail_].
      split; [assumption|]. split; [assumption|]. split.
      * exists (behind + 1). split; [lia|]. split; [lia|]. now rewrite Hbehind.
      * exists (d - 1). split; [lia|]. rewrite Hahead. exact Htail.
  - cbn [fst snd].
    assert (Hseen1 : seen <> 0) by (intros E; now apply Hc, Hseen0).
    assert (Hsize1 : size Size {| head_ := (head_ q + 1) mod Size; tail_ := tail_ q;
                                   buffer_ := buffer_ q;
                                   cached_head_ := cached_head_ q;
                                   cached_tail_ := cached_tail_ q |} = d - 1).
    { rewrite spsc_size_mod; cbn [head_ tail_]; [|assumption|assumption].
      apply Hpop. lia. }
    split; [intros _; split; [reflexivity|exact Hsize1]|]. split; [lia|].
    unfold spsc_inv. rewrite Hsize1. cbn [head_ tail_ cached_head_ cached_tail_].
    split; [assumption|]. split; [assumption|]. split.
    + exists (behind + 1). split; [lia|]. split; [lia|]. now rewrite Hbehind.
    + exists (seen - 1). split; [lia|]. rewrite Hahead. exact Hct.
Qed.

(** With the cached head current, a refused [try_enqueue] leaves the
    queue exactly as it is. *)
Lemma spsc_refused_unchanged (q : t T) :
  cached_head_ q = head_ q -> set_cached_head q (head_ q) = q.
Proof. destruct q as [h t0 buf ch ct]. cbn. now intros ->. Qed.

End SPSCInvariantFacts.

Section LockFreeQueuePopFacts.
Import LockFreeQueue.
Context {T : Type}.
Variables (k : Z) (Size : Z).
Hypothesis k_range : 0 <= k < 64.
Hypothesis Size_pow2 : Size = 2 ^ k.

Lemma lfq_push_wf (q : t T) (x : T) :
  lfq_wf Size q -> lfq_wf Size (snd (push Size q x)).
Proof.
  intros [Hh Ht]. pose proof (Size_bounds k Size k_range Size_pow2) as HS.
  unfold push. rewrite (lfq_next_index k Size k_range Size_pow2) by assumption.
  destruct (_ =? _); cbn [snd]; split; cbn [head_ tail_]; try assumption.
  apply Z.mod_pos_bound. lia.
Qed.

Lemma lfq_pop_wf (q : t T) :
  lfq_wf Size q -> lfq_wf Size (snd (pop Size q)).
Proof.
  intros [Hh Ht]. pose proof (Size_bounds k Size k_range Size_pow2) as HS.
  unfold pop. rewrite (lfq_next_index k Size k_range Size_pow2) by assumption.
  destruct (_ =? _); cbn [snd]; split; cbn [head_ tail_]; try assumption.
  apply Z.mod_pos_bound. lia.
Qed.

End LockFreeQueuePopFacts.

Section SPSCRunFacts.
Import SPSCQueue.
Context {T : Type}.
Variable Size : Z.
Hypothesis Size_range : 0 < Size < 2 ^ 64.

Lemma spsc_inv_enqueue_all (items : list T) :
  forall q : t T,
    spsc_inv Size q -> spsc_inv Size (snd (enqueue_all Size q items)).
Proof.
  induction items as [|y rest IH]; intros q Hinv; [exact Hinv|].
  cbn [enqueue_all].
  destruct (spsc_inv_enqueue Size Size_range q y Hinv) as (_ & _ & Hinv1).
  destruct (try_enqueue Size q y) as [ok q1]. cbn [snd] in Hinv1.
  specialize (IH q1 Hinv1). destruct (enqueue_all Size q1 rest) as [oks q2].
  exact IH.
Qed.

End SPSCRunFacts.


(** ** The array order book (HFT-System-CPP) *)

Section OrderBookFacts.
Import OrderBook.

Ltac book_simpl :=
  cbn [bid_levels_ ask_levels_ best_bid_ best_ask_ num_price_levels_
       order_pool_ node_mem_ order_map_ total_volume_ trade_count_
       set_levels set_best set_pool set_node_mem set_order_map set_stats
       set_level store levels_of
       order_id price quantity side timestamp set_quantity
       level_price total_quantity order_count nodes set_total_quantity
       fst snd] in *.

(** *** Reading back what was written *)

Lemma get_set_level (b : t) (s : Side) (idx : Z) (l : PriceLevel) :
  get_level (set_level b s idx l) s idx = l.
Proof.
  unfold get_level, set_level. destruct s; book_simpl;
    now rewrite lookup_insert_eq.
Qed.

Lemma get_set_level_other (b : t) (s s1 : Side) (idx idx1 : Z) (l : PriceLevel) :
  (s, idx) <> (s1, idx1) ->
  get_level (set_level b s idx l) s1 idx1 = get_level b s1 idx1.
Proof.
  intros Hne. unfold get_level, set_level.
  destruct s, s1; book_simpl; try reflexivity;
    rewrite lookup_insert_ne; congruence.
Qed.

Lemma deref_store (b : t) (node : Cell) (o : Order) :
  deref (store b node o) node = o.
Proof. unfold deref, store. book_simpl. now rewrite lookup_insert_eq. Qed.

Lemma deref_store_other (b : t) (node c : Cell) (o : Order) :
  c <> node -> deref (store b node o) c = deref b c.
Proof.
  intros Hne. unfold deref, store. book_simpl.
  now rewrite lookup_insert_ne by congruence.
Qed.

Lemma node_mem_set_level (b : t) (s : Side) (idx : Z) (l : PriceLevel) :
  node_mem_ (set_level b s idx l) = node_mem_ b.
Proof. now destruct s. Qed.

Lemma deref_set_level (b : t) (s : Side) (idx : Z) (l : PriceLevel) (c : Cell) :
  deref (set_level b s idx l) c = deref b c.
Proof. now destruct s. Qed.

Lemma deref_set_stats (b : t) (v n : Z) (c : Cell) :
  deref (set_stats b v n) c = deref b c.
Proof. reflexivity. Qed.

Lemma get_level_store (b : t) (node : Cell) (o : Order) (s : Side) (idx : Z) :
  get_level (store b node o) s idx = get_level b s idx.
Proof. now destruct s. Qed.

Lemma get_level_set_stats (b : t) (v n : Z) (s : Side) (idx : Z) :
  get_level (set_stats b v n) s idx = get_level b s idx.
Proof. now destruct s. Qed.

Lemma best_set_level (b : t) (s : Side) (idx : Z) (l : PriceLevel) :
  best_bid_ (set_level b s idx l) = best_bid_ b /\
  best_ask_ (set_level b s idx l) = best_ask_ b.
Proof. now destruct s. Qed.

Lemma removeFromBook_node_mem (b : t) (node : Cell) (s : Side) (idx : Z) :
  node_mem_ (removeFromBook b node s idx) = delete node (node_mem_ b).
Proof. unfold removeFromBook. now destruct s. Qed.

Lemma removeFromBook_best (b : t) (node : Cell) (s : Side) (idx : Z) :
  best_bid_ (removeFromBook b node s idx) = best_bid_ b /\
  best_ask_ (removeFromBook b node s idx) = best_ask_ b.
Proof. unfold removeFromBook. now destruct s. Qed.

Lemma removeFromBook_nodes (b : t) (node : Cell) (s : Side) (idx : Z) :
  nodes (get_level (removeFromBook b node s idx) s idx)
  = filter (fun c => c ≠ node) (nodes (get_level b s idx)).
Proof.
  unfold removeFromBook.
  match goal with
  | |- nodes (get_level (set_pool (set_node_mem (set_order_map ?bb _) _) _) _ _) = _ =>
      change (nodes (get_level bb s idx)
              = filter (fun c => c ≠ node) (nodes (get_level b s idx)))
  end.
  rewrite get_set_level. now destruct (_ =? 0).
Qed.

(** *** One turn of the matching loop *)

Lemma executeTrade_trade (b : t) (node : Cell) (o : Order) (q : Z) :
  fst (executeTrade b node o q) = trade_with (deref b node) o q.
Proof.
  unfold trade_with, executeTrade. cbn [fst]. now rewrite deref_store.
Qed.

Lemma trade_with_price (passive o : Order) (q : Z) :
  trade_price (trade_with passive o q) = price passive.
Proof.
  unfold trade_with, executeTrade. cbn [fst trade_price].
  now rewrite deref_store.
Qed.

Lemma trade_with_quantity (passive o : Order) (q : Z) :
  trade_quantity (trade_with passive o q) = q.
Proof. reflexivity. Qed.

Lemma match_fuel_eq (b : t) (order : Order) :
  match_fuel b order = S (length (contra_nodes b order)).
Proof. reflexivity. Qed.

Lemma contra_nodes_same (b b1 : t) (o : Order) (q : Z) :
  best_bid_ b1 = best_bid_ b -> best_ask_ b1 = best_ask_ b ->
  contra_nodes b1 (set_quantity o q)
  = nodes (get_level b1 (contra (side o)) (contra_idx b o)).
Proof.
  intros Hb Ha. unfold contra_nodes, contra_idx, best_contra.
  cbn [side set_quantity]. now rewrite Hb, Ha.
Qed.

(** What a turn that trades does to the order, the level and the node. *)
Lemma match_body_Next (b b1 : t) (o o1 : Order) (tr : Trade) :
  match_body b o = Next o1 b1 tr ->
  exists node rest,
    contra_nodes b o = node :: rest /\
    let passive := deref b node in
    let tq := Z.min (quantity o) (quantity passive) in
    let left := wrap32 (quantity passive - tq) in
    tr = trade_with passive o tq /\
    o1 = set_quantity o (wrap32 (quantity o - tq)) /\
    best_bid_ b1 = best_bid_ b /\ best_ask_ b1 = best_ask_ b /\
    ((left = 0 /\
      contra_nodes b1 o1 = filter (fun c => c ≠ node) (node :: rest) /\
      node_mem_ b1 = delete node (<[node := set_quantity passive left]> (node_mem_ b)))
     \/
     (left <> 0 /\
      contra_nodes b1 o1 = node :: rest /\
      node_mem_ b1 = <[node := set_quantity passive left]> (node_mem_ b))).
Proof.
  unfold match_body. fold (contra_idx b o).
  destruct (MAX_PRICE_LEVELS <=? contra_idx b o); [discriminate|].
  fold (contra_nodes b o).
  destruct (contra_nodes b o) as [|node rest] eqn:Hnodes; [discriminate|].
  pose proof (executeTrade_trade b node o
                (Z.min (quantity o) (quantity (deref b node)))) as Htr.
  unfold executeTrade in *. cbn [fst] in Htr. cbv beta iota zeta.
  rewrite !deref_set_level, !deref_store, !deref_set_stats.
  rewrite !get_level_store, !get_level_set_stats.
  cbn [quantity set_quantity].
  intros H. exists node, rest. split; [reflexivity|]. cbv zeta.
  destruct (Z.eqb_spec (wrap32 (quantity (deref b node)
               - Z.min (quantity o) (quantity (deref b node)))) 0) as [Hz|Hnz];
    inversion H; subst o1 b1 tr; clear H;
    (split; [exact Htr|]); (split; [reflexivity|]).
  - split; [rewrite (proj1 (removeFromBook_best _ _ _ _));
            now rewrite (proj1 (best_set_level _ _ _ _))|].
    split; [rewrite (proj2 (removeFromBook_best _ _ _ _));
            now rewrite (proj2 (best_set_level _ _ _ _))|].
    left. split; [assumption|]. split.
    + rewrite (contra_nodes_same b).
      * rewrite removeFromBook_nodes, get_set_level.
        cbn [nodes set_total_quantity]. fold (contra_nodes b o).
        now rewrite Hnodes.
      * rewrite (proj1 (removeFromBook_best _ _ _ _)).
        now rewrite (proj1 (best_set_level _ _ _ _)).
      * rewrite (proj2 (removeFromBook_best _ _ _ _)).
        now rewrite (proj2 (best_set_level _ _ _ _)).
    + now rewrite removeFromBook_node_mem, node_mem_set_level.
  - split; [now rewrite (proj1 (best_set_level _ _ _ _))|].
    split; [now rewrite (proj2 (best_set_level _ _ _ _))|].
    right. split; [assumption|]. split.
    + rewrite (contra_nodes_same b).
      * rewrite get_set_level.
        cbn [nodes set_total_quantity]. fold (contra_nodes b o).
        now rewrite Hnodes.
      * now rewrite (proj1 (best_set_level _ _ _ _)).
      * now rewrite (proj2 (best_set_level _ _ _ _)).
    + now rewrite node_mem_set_level.
Qed.

Lemma match_cond_zero (b : t) (o : Order) :
  quantity o = 0 -> match_cond b o = false.
Proof. intros Hq. unfold match_cond. rewrite Hq. now destruct (side o). Qed.

(** A turn that leaves the passive node in place has used up the order. *)
Lemma left_or_filled (oq nq : Z) :
  wrap32 (nq - Z.min oq nq) <> 0 -> wrap32 (oq - Z.min oq nq) = 0.
Proof.
  destruct (Z.min_spec oq nq) as [[_ Hm]|[_ Hm]]; rewrite Hm, Z.sub_diag;
    intros Hleft; [reflexivity|]. now contradict Hleft.
Qed.

(** *** The loop terminates within [match_fuel] turns *)

Lemma match_loop_total (fuel : nat) :
  forall (b : t) (o : Order),
    (match_cond b o = true -> (length (contra_nodes b o) < fuel)%nat) ->
    is_Some (match_loop fuel b o).
Proof.
  induction fuel as [|fuel IH]; intros b o Hfuel.
  - cbn [match_loop]. destruct (match_cond b o); [|eauto].
    specialize (Hfuel eq_refl). lia.
  - cbn [match_loop]. destruct (match_cond b o) eqn:Hcond; [|eauto].
    specialize (Hfuel eq_refl).
    destruct (match_body b o) as [b1|o1 b1 tr] eqn:Hbody; [eauto|].
    destruct (match_body_Next _ _ _ _ _ Hbody)
      as (node & rest & Hnodes & _ & Ho1 & _ & _ & Hcases).
    cbv zeta in *.
    assert (Hnext : is_Some (match_loop fuel b1 o1)).
    { apply IH. intros Hcond1.
      destruct Hcases as [(_ & Hn1 & _)|(Hleft & _ & _)].
      - rewrite Hn1, Hnodes in *. cbn [length] in Hfuel.
        rewrite filter_cons_False by (intros Hne; now apply Hne).
        pose proof (length_filter (fun c : Cell => c ≠ node) rest). lia.
      - apply left_or_filled in Hleft.
        rewrite match_cond_zero in Hcond1; [discriminate|].
        subst o1. exact Hleft. }
    destruct Hnext as [[[o2 ts] b2] ->]. eauto.
Qed.

Lemma matchOrder_total (b : t) (o : Order) : is_Some (matchOrder b o).
Proof.
  unfold matchOrder.
  destruct (match_loop_total (match_fuel b o) b o) as [[[o1 ts] b1] ->].
  - intros _. rewrite match_fuel_eq. lia.
  - eauto.
Qed.

Lemma addOrder_total (b : t) (o : Order) :
  exists trades b1, addOrder b o = Some (true, trades, b1).
Proof.
  unfold addOrder. destruct (matchOrder_total b o) as [[[o1 ts] b1] ->].
  eauto.
Qed.

(** *** What the loop keeps of the incoming order *)

Lemma same_identity_refl (o : Order) : same_identity o o.
Proof. now repeat split. Qed.

Lemma same_identity_set_quantity (o : Order) (q : Z) :
  same_identity (set_quantity o q) o.
Proof. now repeat split. Qed.

Lemma same_identity_trans (o1 o2 o3 : Order) :
  same_identity o1 o2 -> same_identity o2 o3 -> same_identity o1 o3.
Proof. unfold same_identity. intuition congruence. Qed.

Lemma match_loop_order (fuel : nat) :
  forall (b b1 : t) (o o1 : Order) (ts : list Trade),
    match_loop fuel b o = Some (o1, ts, b1) -> same_identity o1 o.
Proof.
  induction fuel as [|fuel IH]; intros b b1 o o1 ts; cbn [match_loop];
    destruct (match_cond b o); try discriminate;
    try (intros H; inversion H; apply same_identity_refl).
  destruct (match_body b o) as [bx|ox bx tr] eqn:Hbody.
  - intros H; inversion H; apply same_identity_refl.
  - destruct (match_loop fuel bx ox) as [[[o2 ts2] b2]|] eqn:Hloop;
      [|discriminate].
    intros H; inversion H; subst.
    apply (same_identity_trans _ ox); [eapply IH; eassumption|].
    destruct (match_body_Next _ _ _ _ _ Hbody)
      as (node & rest & _ & _ & -> & _).
    apply same_identity_set_quantity.
Qed.

(** *** Trades are made from the resting node *)

Lemma trade_with_eq (passive o : Order) (q : Z) :
  trade_with passive o q =
  {| buy_order_id := match side passive with
                     | BUY => order_id passive
                     | SELL => order_id o
                     end;
     sell_order_id := match side passive with
                      | SELL => order_id passive
                      | BUY => order_id o
                      end;
     trade_price := price passive;
     trade_quantity := q |}.
Proof.
  unfold trade_with, executeTrade. cbn [fst]. now rewrite deref_store.
Qed.

Lemma trade_with_identity (p1 p2 o1 o2 : Order) (q : Z) :
  same_identity p1 p2 -> same_identity o1 o2 ->
  trade_with p1 o1 q = trade_with p2 o2 q.
Proof.
  intros (Hid & Hp & Hs) (Hoid & _). rewrite !trade_with_eq.
  now rewrite Hid, Hp, Hs, Hoid.
Qed.

Lemma match_body_nodes (b b1 : t) (o o1 : Order) (tr : Trade) :
  match_body b o = Next o1 b1 tr ->
  forall c, c ∈ contra_nodes b1 o1 ->
            c ∈ contra_nodes b o /\ same_identity (deref b1 c) (deref b c).
Proof.
  intros Hbody c Hc.
  destruct (match_body_Next _ _ _ _ _ Hbody)
    as (node & rest & Hnodes & _ & _ & _ & _ & Hcases).
  cbv zeta in Hcases. rewrite Hnodes. unfold deref.
  destruct Hcases as [(_ & Hn1 & Hmem)|(_ & Hn1 & Hmem)];
    rewrite Hn1 in Hc; rewrite Hmem.
  - apply list_elem_of_filter in Hc as [Hne Hin]. split; [assumption|].
    rewrite lookup_delete_ne, lookup_insert_ne by congruence.
    apply same_identity_refl.
  - split; [assumption|].
    destruct (decide (c = node)) as [->|Hne].
    + rewrite lookup_insert_eq. cbn [default].
      apply same_identity_set_quantity.
    + rewrite lookup_insert_ne by congruence. apply same_identity_refl.
Qed.

Lemma match_loop_trades (fuel : nat) :
  forall (b b1 : t) (o o1 : Order) (ts : list Trade),
    match_loop fuel b o = Some (o1, ts, b1) ->
    Forall (passive_trade b o) ts.
Proof.
  induction fuel as [|fuel IH]; intros b b1 o o1 ts; cbn [match_loop];
    destruct (match_cond b o); try discriminate;
    try (intros H; inversion H; constructor).
  destruct (match_body b o) as [bx|ox bx tr] eqn:Hbody.
  - intros H; inversion H; constructor.
  - destruct (match_loop fuel bx ox) as [[[o2 ts2] b2]|] eqn:Hloop;
      [|discriminate].
    intros H; inversion H; subst. clear H.
    pose proof (match_body_nodes _ _ _ _ _ Hbody) as Hkeep.
    destruct (match_body_Next _ _ _ _ _ Hbody)
      as (node & rest & Hnodes & Htr & Hox & _).
    cbv zeta in Htr, Hox. constructor.
    + exists node, (Z.min (quantity o) (quantity (deref b node))).
      split; [rewrite Hnodes; apply list_elem_of_here | exact Htr].
    + specialize (IH _ _ _ _ _ Hloop).
      eapply Forall_impl; [exact IH|].
      intros tr1 (c & q & Hc & ->). destruct (Hkeep c Hc) as [Hin Hsame].
      exists c, q. split; [assumption|].
      apply trade_with_identity; [assumption|].
      subst ox. apply same_identity_set_quantity.
Qed.

(** *** Quantity is conserved *)

Lemma uint32_deref (b : t) (c : Cell) :
  uint32_quantities b -> 0 <= quantity (deref b c) < 2 ^ 32.
Proof.
  intros Hb. unfold deref. destruct (node_mem_ b !! c) as [o|] eqn:Hc.
  - exact (Hb c o Hc).
  - cbn. lia.
Qed.

Lemma match_body_uint32 (b b1 : t) (o o1 : Order) (tr : Trade) :
  match_body b o = Next o1 b1 tr ->
  uint32_quantities b -> uint32_quantities b1.
Proof.
  intros Hbody Hb.
  destruct (match_body_Next _ _ _ _ _ Hbody)
    as (node & rest & _ & _ & _ & _ & _ & Hcases).
  cbv zeta in Hcases. intros c oc.
  destruct Hcases as [(_ & _ & ->)|(_ & _ & ->)].
  - intros Hc. apply lookup_delete_Some in Hc as [Hne Hc].
    rewrite lookup_insert_ne in Hc by congruence. exact (Hb c oc Hc).
  - destruct (decide (c = node)) as [->|Hne].
    + rewrite lookup_insert_eq. intros [= <-]. cbn [quantity set_quantity].
      apply wrap32_range.
    + rewrite lookup_insert_ne by congruence. exact (Hb c oc).
Qed.

Lemma match_loop_conserves (fuel : nat) :
  forall (b b1 : t) (o o1 : Order) (ts : list Trade),
    match_loop fuel b o = Some (o1, ts, b1) ->
    0 <= quantity o < 2 ^ 32 -> uint32_quantities b ->
    traded ts + quantity o1 = quantity o /\ 0 <= quantity o1.
Proof.
  induction fuel as [|fuel IH]; intros b b1 o o1 ts; cbn [match_loop];
    destruct (match_cond b o); try discriminate;
    try (intros H ? ?; inversion H; subst; cbn [traded foldr]; lia).
  destruct (match_body b o) as [bx|ox bx tr] eqn:Hbody.
  - intros H ? ?; inversion H; subst; cbn [traded foldr]; lia.
  - destruct (match_loop fuel bx ox) as [[[o2 ts2] b2]|] eqn:Hloop;
      [|discriminate].
    intros H Hq Hb; inversion H; subst. clear H.
    pose proof (match_body_uint32 _ _ _ _ _ Hbody Hb) as Hbx.
    destruct (match_body_Next _ _ _ _ _ Hbody)
      as (node & rest & _ & Htr & Hox & _).
    cbv zeta in Htr, Hox.
    pose proof (uint32_deref b node Hb) as Hnq.
    assert (Hwrap : wrap32 (quantity o - Z.min (quantity o) (quantity (deref b node)))
                    = quantity o - Z.min (quantity o) (quantity (deref b node)))
      by (apply wrap32_small; lia).
    assert (Hoxq : quantity ox
                   = quantity o - Z.min (quantity o) (quantity (deref b node)))
      by (subst ox; exact Hwrap).
    destruct (IH _ _ _ _ _ Hloop ltac:(lia) Hbx) as [Hsum Hpos].
    cbn [traded foldr]. fold (traded ts2).
    rewrite Htr, trade_with_quantity. lia.
Qed.

(** *** Prices outside the ladder *)

Lemma off_ladder_index (p : Z) :
  0 <= p < 2 ^ 64 -> ~ on_ladder p ->
  (MAX_PRICE_LEVELS <=? wrap64 (p - base_price_)) = true.
Proof.
  unfold on_ladder, wrap64, MAX_PRICE_LEVELS, base_price_.
  change (2 ^ 64) with 18446744073709551616.
  intros Hp Hout. apply Z.leb_le.
  destruct (Z.lt_ge_cases p 10000) as [Hlow|Hhigh].
  - replace ((p - 10000) mod 18446744073709551616)
      with (p - 10000 + 18446744073709551616); [lia|].
    apply Z.mod_unique with (q := -1); lia.
  - rewrite Z.mod_small by lia. lia.
Qed.

Lemma on_ladder_index (p : Z) :
  on_ladder p ->
  (MAX_PRICE_LEVELS <=? wrap64 (p - base_price_)) = false
  /\ wrap64 (p - base_price_) = p - base_price_.
Proof.
  unfold on_ladder, wrap64, MAX_PRICE_LEVELS, base_price_.
  change (2 ^ 64) with 18446744073709551616.
  intros Hp. rewrite Z.mod_small by lia. split; [apply Z.leb_gt|]; lia.
Qed.

Lemma addToBook_off_ladder (b : t) (o : Order) :
  0 <= price o < 2 ^ 64 -> ~ on_ladder (price o) -> addToBook b o = b.
Proof.
  intros Hp Hout. unfold addToBook.
  now rewrite (off_ladder_index _ Hp Hout).
Qed.

Lemma matchOrder_order (b b1 : t) (o o1 : Order) (ts : list Trade) :
  matchOrder b o = Some (o1, ts, b1) -> same_identity o1 o.
Proof.
  unfold matchOrder.
  destruct (match_loop (match_fuel b o) b o) as [[[ox tx] bx]|] eqn:Hloop;
    [|discriminate].
  intros [= <- <- <-]. eapply match_loop_order, Hloop.
Qed.

(** *** modifyOrder works in place *)

Lemma modifyOrder_in_place (b : t) (id new_quantity : Z) :
  let b1 := snd (modifyOrder b id new_quantity) in
  (forall s idx, nodes (get_level b1 s idx) = nodes (get_level b s idx)) /\
  order_map_ b1 = order_map_ b /\
  order_pool_ b1 = order_pool_ b /\
  (forall c, same_identity (deref b1 c) (deref b c)) /\
  (fst (modifyOrder b id new_quantity) = true ->
   exists node, order_map_ b !! id = Some node /\
                quantity (deref b1 node) = new_quantity).
Proof.
  cbv zeta. unfold modifyOrder.
  destruct (order_map_ b !! id) as [node|] eqn:Hfind.
  2:{ cbn [fst snd]. repeat split; try reflexivity; discriminate. }
  destruct (MAX_PRICE_LEVELS <=? _).
  { cbn [fst snd]. repeat split; try reflexivity; discriminate. }
  cbn [fst snd].
  set (s0 := side (deref b node)).
  set (i0 := wrap64 (price (deref b node) - base_price_)).
  split; [|split; [|split; [|split]]].
  - intros s idx. rewrite get_level_store.
    destruct (decide ((s0, i0) = (s, idx))) as [[= <- <-]|Hne].
    + now rewrite get_set_level.
    + now rewrite get_set_level_other.
  - now destruct s0.
  - now destruct s0.
  - intros c. destruct (decide (c = node)) as [->|Hne].
    + rewrite deref_store, deref_set_level. apply same_identity_set_quantity.
    + rewrite deref_store_other, deref_set_level by assumption.
      apply same_identity_refl.
  - intros _. exists node. split; [reflexivity|]. now rewrite deref_store.
Qed.

(** *** Booking with every pool cell in use *)

Lemma addToBook_pool_exhausted (b : t) (o : Order) :
  MemoryPool.free_list_ (order_pool_ b) = [] -> on_ladder (price o) ->
  let node := (N.of_nat (length (MemoryPool.blocks_ (order_pool_ b))), 0%N) in
  let b1 := addToBook b o in
  order_map_ b1 !! order_id o = Some node /\
  node_mem_ b1 !! node = Some o /\
  nodes (get_level b1 (side o) (price o - base_price_))
  = nodes (get_level b (side o) (price o - base_price_)) ++ [node] /\
  length (MemoryPool.blocks_ (order_pool_ b1))
  = S (length (MemoryPool.blocks_ (order_pool_ b))).
Proof.
  intros Hfree Hon node. cbv zeta. unfold addToBook.
  destruct (on_ladder_index _ Hon) as [-> ->].
  rewrite (allocate_exhausted BlockSize ltac:(unfold BlockSize; lia) _ Hfree).
  unfold updateBestPrices.
  split; [|split; [|split]].
  - destruct (side o); book_simpl; apply lookup_insert_eq.
  - destruct (side o); book_simpl; apply lookup_insert_eq.
  - match goal with
    | |- nodes (get_level (set_best (set_order_map ?bb _) _ _) _ _) = _ =>
        change (nodes (get_level bb (side o) (price o - base_price_))
                = nodes (get_level b (side o) (price o - base_price_)) ++ [node])
    end.
    now rewrite get_set_level.
  - destruct (side o); book_simpl; cbn [MemoryPool.blocks_];
      rewrite length_app; cbn [length]; lia.
Qed.

(** *** [uint32_quantities] is an invariant of the book *)

Lemma uint32_create (n : Z) : uint32_quantities (create n).
Proof. intros c o. unfold create. cbn [node_mem_]. now rewrite lookup_empty. Qed.

Lemma match_body_Break (b b1 : t) (o : Order) :
  match_body b o = Break b1 -> node_mem_ b1 = node_mem_ b.
Proof.
  unfold match_body. destruct (_ <=? _); [now intros [= <-]|].
  destruct (nodes _); [now intros [= <-]|].
  destruct (executeTrade _ _ _ _); discriminate.
Qed.

Lemma match_loop_uint32 (fuel : nat) :
  forall (b b1 : t) (o o1 : Order) (ts : list Trade),
    match_loop fuel b o = Some (o1, ts, b1) ->
    0 <= quantity o < 2 ^ 32 -> uint32_quantities b ->
    0 <= quantity o1 < 2 ^ 32 /\ uint32_quantities b1.
Proof.
  induction fuel as [|fuel IH]; intros b b1 o o1 ts; cbn [match_loop];
    destruct (match_cond b o); try discriminate;
    try (intros H ? ?; inversion H; subst; now split).
  destruct (match_body b o) as [bx|ox bx tr] eqn:Hbody.
  - intros H Hq Hb; inversion H; subst. split; [assumption|].
    intros c oc. rewrite (match_body_Break _ _ _ Hbody). apply Hb.
  - destruct (match_loop fuel bx ox) as [[[o2 ts2] b2]|] eqn:Hloop;
      [|discriminate].
    intros H Hq Hb; inversion H; subst. clear H.
    apply (IH _ _ _ _ _ Hloop).
    + destruct (match_body_Next _ _ _ _ _ Hbody)
        as (node & rest & _ & _ & -> & _).
      cbn [quantity set_quantity]. apply wrap32_range.
    + eapply match_body_uint32; eassumption.
Qed.

Lemma uint32_addToBook (b : t) (o : Order) :
  0 <= quantity o < 2 ^ 32 -> uint32_quantities b ->
  uint32_quantities (addToBook b o).
Proof.
  intros Hq Hb. unfold addToBook.
  destruct (_ <=? _); [assumption|].
  destruct (MemoryPool.allocate BlockSize (order_pool_ b)) as [[node pool]|];
    [|assumption].
  intros c oc. unfold updateBestPrices.
  replace (node_mem_ _) with (<[node := o]> (node_mem_ b))
    by (now destruct (side o)).
  destruct (decide (c = node)) as [->|Hne].
  - rewrite lookup_insert_eq. now intros [= <-].
  - rewrite lookup_insert_ne by congruence. apply Hb.
Qed.

Lemma uint32_addOrder (b b1 : t) (o : Order) (r : bool) (ts : list Trade) :
  0 <= quantity o < 2 ^ 32 -> uint32_quantities b ->
  addOrder b o = Some (r, ts, b1) -> uint32_quantities b1.
Proof.
  intros Hq Hb. unfold addOrder, matchOrder.
  destruct (match_loop (match_fuel b o) b o) as [[[ox tx] bx]|] eqn:Hloop;
    [|discriminate].
  destruct (match_loop_uint32 _ _ _ _ _ _ Hloop Hq Hb) as [Hqx Hbx].
  intros [= <- <- <-].
  destruct (0 <? quantity ox).
  - apply uint32_addToBook; assumption.
  - exact Hbx.
Qed.

Lemma uint32_addOrders (orders : list Order) :
  forall (b b1 : t) (ts : list Trade),
    Forall (fun o => 0 <= quantity o < 2 ^ 32) orders ->
    uint32_quantities b ->
    addOrders b orders = Some (ts, b1) -> uint32_quantities b1.
Proof.
  induction orders as [|o rest IH]; intros b b1 ts Hall Hb; cbn [addOrders].
  - now intros [= <- <-].
  - destruct (addOrder b o) as [[[r tx] bx]|] eqn:Hadd; [|discriminate].
    destruct (addOrders bx rest) as [[more by_]|] eqn:Hrest; [|discriminate].
    intros [= <- <-]. inversion Hall; subst.
    eapply IH; [eassumption| |eassumption].
    eapply uint32_addOrder; eassumption.
Qed.

Lemma uint32_cancelOrder (b : t) (id : Z) :
  uint32_quantities b -> uint32_quantities (snd (cancelOrder b id)).
Proof.
  intros Hb. unfold cancelOrder.
  destruct (order_map_ b !! id) as [node|]; [|assumption].
  destruct (_ <=? _); [assumption|]. cbn [snd].
  intros c o. unfold updateBestPrices.
  change (node_mem_ (set_best ?x _ _)) with (node_mem_ x).
  rewrite removeFromBook_node_mem, node_mem_set_level.
  intros Hc. apply lookup_delete_Some in Hc as [_ Hc]. exact (Hb c o Hc).
Qed.

Lemma uint32_modifyOrder (b : t) (id new_quantity : Z) :
  0 <= new_quantity < 2 ^ 32 ->
  uint32_quantities b -> uint32_quantities (snd (modifyOrder b id new_quantity)).
Proof.
  intros Hq Hb. unfold modifyOrder.
  destruct (order_map_ b !! id) as [node|]; [|assumption].
  destruct (_ <=? _); [assumption|]. cbn [snd].
  intros c o. unfold store. cbn [node_mem_ set_node_mem].
  rewrite node_mem_set_level.
  destruct (decide (c = node)) as [->|Hne].
  - rewrite lookup_insert_eq. now intros [= <-].
  - rewrite lookup_insert_ne by congruence. apply Hb.
Qed.

(** *** Time priority in the array book *)

(** [addToBook] links the new node at the tail of its level. *)
Lemma addToBook_appends (b : t) (o : Order) :
  on_ladder (price o) ->
  exists node,
    nodes (get_level (addToBook b o) (side o) (price o - base_price_))
    = nodes (get_level b (side o) (price o - base_price_)) ++ [node] /\
    order_map_ (addToBook b o) !! order_id o = Some node /\
    node_mem_ (addToBook b o) !! node = Some o.
Proof.
  intros Hon. unfold addToBook.
  destruct (on_ladder_index _ Hon) as [-> ->].
  destruct (allocate_is_Some BlockSize ltac:(unfold BlockSize; lia)
              (order_pool_ b)) as [[node pool] ->].
  exists node. unfold updateBestPrices. split; [|split].
  - match goal with
    | |- nodes (get_level (set_best (set_order_map ?bb _) _ _) _ _) = _ =>
        change (nodes (get_level bb (side o) (price o - base_price_))
                = nodes (get_level b (side o) (price o - base_price_)) ++ [node])
    end.
    now rewrite get_set_level.
  - destruct (side o); book_simpl; apply lookup_insert_eq.
  - destruct (side o); book_simpl; apply lookup_insert_eq.
Qed.

(** A turn of the matching loop that fills the head node in part leaves
    it at the head of its level, with the rest of its quantity. *)
Lemma partial_fill_keeps_head (b b1 : t) (o o1 : Order) (tr : Trade)
      (node : Cell) (rest : list Cell) :
  match_body b o = Next o1 b1 tr ->
  contra_nodes b o = node :: rest ->
  0 <= quantity o < quantity (deref b node) ->
  quantity (deref b node) < 2 ^ 32 ->
  contra_nodes b1 o1 = node :: rest /\
  quantity (deref b1 node) = quantity (deref b node) - quantity o /\
  quantity o1 = 0.
Proof.
  intros Hbody Hnodes Hlt Hrange.
  destruct (match_body_Next _ _ _ _ _ Hbody)
    as (node1 & rest1 & Hn1 & _ & Ho1 & _ & _ & Hcases).
  rewrite Hnodes in Hn1. injection Hn1 as <- <-. cbv zeta in *.
  rewrite Z.min_l in * by lia.
  rewrite (wrap32_small (quantity (deref b node) - quantity o)) in * by lia.
  destruct Hcases as [(Hz & _)|(_ & Hn & Hmem)]; [lia|].
  split; [assumption|]. split.
  - unfold deref at 1. now rewrite Hmem, lookup_insert_eq.
  - subst o1. cbn [quantity set_quantity]. now rewrite Z.sub_diag.
Qed.

End OrderBookFacts.

(** ** OrderBook-Engine *)

Section EngineFacts.
Import Engine.

Lemma contra_ladder_set (b : t) (o : Order) (l : Ladder) :
  contra_ladder (set_contra_ladder b o l) o = l.
Proof. unfold contra_ladder, set_contra_ladder. now destruct (is_buy o). Qed.

(** A resting order that is filled in part goes to the back of its queue,
    behind every order that came after it. *)
Lemma engine_partial_fill_goes_to_back
      (b : t) (o resting : Order) (k : Z) (q : list Order) (levels : Ladder) :
  contra_ladder b o = (k, resting :: q) :: levels ->
  0 < qty o < qty resting ->
  exists o1 line b1,
    match_body b o = Some (o1, line, b1) /\
    qty o1 = 0 /\
    contra_ladder b1 o
    = (k, q ++ [set_qty resting (qty resting - qty o)]) :: levels.
Proof.
  intros Hlad Hq. unfold match_body. rewrite Hlad.
  rewrite Z.min_l by lia. cbn [qty set_qty].
  destruct (Z.ltb_spec 0 (qty resting - qty o)) as [_|Hle]; [|lia].
  eexists _, _, _. split; [reflexivity|]. split; [cbn [qty set_qty]; lia|].
  rewrite contra_ladder_set. now destruct q.
Qed.

Lemma resting_orders_cons (k : Z) (q : list Order) (l : Ladder) :
  resting_orders ((k, q) :: l) = (length q + resting_orders l)%nat.
Proof. unfold resting_orders. cbn [map concat snd]. now rewrite length_app. Qed.

(** One turn on a ladder without empty queues either uses the order up or
    takes one resting order off the ladder. *)
Lemma match_body_progress (b : t) (o : Order) :
  match_cond b o = true -> queues_nonempty (contra_ladder b o) ->
  exists o1 line b1,
    match_body b o = Some (o1, line, b1) /\
    side o1 = side o /\
    queues_nonempty (contra_ladder b1 o1) /\
    (qty o1 = 0 \/
     S (resting_orders (contra_ladder b1 o1)) = resting_orders (contra_ladder b o)).
Proof.
  intros Hcond Hne. unfold match_cond in Hcond. unfold match_body.
  destruct (contra_ladder b o) as [|[k q] levels] eqn:Hlad.
  { now rewrite andb_false_r in Hcond. }
  destruct q as [|resting q]; [now destruct (Hne k []); [apply list_elem_of_here|]|].
  eexists _, _, _. split; [reflexivity|]. split; [reflexivity|].
  assert (Hside : forall l q1, contra_ladder (set_contra_ladder b o l) (set_qty o q1) = l).
  { intros l q1. unfold contra_ladder, set_contra_ladder, is_buy.
    cbn [side set_qty]. now destruct (String.eqb (side o) "BUY"). }
  rewrite !Hside.
  assert (Hrest : queues_nonempty levels)
    by (intros k1 q1 Hin; apply (Hne k1); now apply list_elem_of_further).
  cbn [qty set_qty].
  destruct (Z.ltb_spec 0 (qty resting - Z.min (qty o) (qty resting))) as [Hpart|Hfull].
  - split.
    + destruct (q ++ _) eqn:Hq; [now destruct q|]. rewrite <- Hq.
      intros k1 q1 Hin. apply elem_of_cons in Hin as [[= -> ->]|Hin];
        [now destruct q|now apply (Hrest k1)].
    + left. lia.
  - split.
    + destruct q as [|r q]; [exact Hrest|].
      intros k1 q1 Hin. apply elem_of_cons in Hin as [[= -> ->]|Hin];
        [discriminate|now apply (Hrest k1)].
    + right. rewrite resting_orders_cons. cbn [length].
      destruct q as [|r q]; [reflexivity|].
      rewrite resting_orders_cons. reflexivity.
Qed.

Lemma match_loop_total_engine (fuel : nat) :
  forall (b : t) (o : Order),
    queues_nonempty (contra_ladder b o) ->
    (resting_orders (contra_ladder b o) < fuel)%nat ->
    is_Some (match_loop fuel b o).
Proof.
  induction fuel as [|fuel IH]; intros b o Hne Hfuel; [lia|].
  cbn [match_loop]. destruct (match_cond b o) eqn:Hcond; [|eauto].
  destruct (match_body_progress b o Hcond Hne)
    as (o1 & line & b1 & -> & Hside & Hne1 & Hstep).
  assert (Hnext : is_Some (match_loop fuel b1 o1)).
  { destruct Hstep as [Hzero|Hless].
    - destruct fuel; cbn [match_loop]; unfold match_cond; rewrite Hzero; eauto.
    - apply IH; [assumption|lia]. }
  destruct Hnext as [[[o2 lines] b2] ->]. eauto.
Qed.


End EngineFacts.

(** ** The map-based order book (cpp-interview-solutions) *)

Section InterviewFacts.
Import Interview.

Ltac iv_simpl :=
  cbn [symbol_ buy_levels_ sell_levels_ orders_ next_order_id_ trades_
       total_orders_added_ total_orders_cancelled_ total_trades_ total_volume_
       set_ladder set_orders update ladder_of execute_trade
       order_id symbol side type price quantity filled_quantity status
       set_status add_filled price_ level_orders_ total_quantity_
       fst snd] in *.

(** *** Reading and writing orders *)

Lemma deref_update (b : t) (ptr : Z) (f : Order -> Order) :
  deref (update b ptr f) ptr = f (deref b ptr).
Proof. unfold deref at 1. iv_simpl. now rewrite lookup_insert_eq. Qed.

Lemma deref_update_other (b : t) (ptr x : Z) (f : Order -> Order) :
  x <> ptr -> deref (update b ptr f) x = deref b x.
Proof.
  intros Hne. unfold deref. iv_simpl. now rewrite lookup_insert_ne by congruence.
Qed.

Lemma deref_execute_trade (b : t) (a c p q x : Z) :
  deref (execute_trade b a c p q) x = deref b x.
Proof. reflexivity. Qed.

Lemma deref_set_ladder (b : t) (s : Side) (l : Ladder) (x : Z) :
  deref (set_ladder b s l) x = deref b x.
Proof. now destruct s. Qed.

Lemma orders_set_ladder (b : t) (s : Side) (l : Ladder) :
  orders_ (set_ladder b s l) = orders_ b.
Proof. now destruct s. Qed.

Lemma trades_set_ladder (b : t) (s : Side) (l : Ladder) :
  trades_ (set_ladder b s l) = trades_ b.
Proof. now destruct s. Qed.

Lemma symbol_set_ladder (b : t) (s : Side) (l : Ladder) :
  symbol_ (set_ladder b s l) = symbol_ b.
Proof. now destruct s. Qed.

Lemma next_set_ladder (b : t) (s : Side) (l : Ladder) :
  next_order_id_ (set_ladder b s l) = next_order_id_ b.
Proof. now destruct s. Qed.

Lemma ladder_of_set_ladder (b : t) (s : Side) (l : Ladder) :
  ladder_of (set_ladder b s l) s = l.
Proof. now destruct s. Qed.

Lemma ladder_of_set_ladder_other (b : t) (s s1 : Side) (l : Ladder) :
  s1 <> s -> ladder_of (set_ladder b s l) s1 = ladder_of b s1.
Proof. now destruct s, s1. Qed.

Lemma same_order_refl (o : Order) : same_order o o.
Proof. now repeat split. Qed.

Lemma same_order_trans (o1 o2 o3 : Order) :
  same_order o1 o2 -> same_order o2 o3 -> same_order o1 o3.
Proof. unfold same_order. intuition congruence. Qed.

Lemma same_order_add_filled (o : Order) (q : Z) : same_order (add_filled o q) o.
Proof. now repeat split. Qed.

Lemma same_order_set_status (o : Order) (st : OrderStatus) :
  same_order (set_status o st) o.
Proof. now repeat split. Qed.

Lemma evolves_refl (b : t) : evolves b b.
Proof. split; auto using same_order_refl. Qed.

Lemma evolves_trans (b1 b2 b3 : t) :
  evolves b1 b2 -> evolves b2 b3 -> evolves b1 b3.
Proof.
  intros [] []. split; try congruence; eauto using same_order_trans.
Qed.

Lemma evolves_update (b : t) (ptr : Z) (f : Order -> Order) :
  (forall o, same_order (f o) o) -> evolves b (update b ptr f).
Proof.
  intros Hf. split; try reflexivity.
  - intros x. destruct (decide (x = ptr)) as [->|Hne].
    + rewrite deref_update. apply Hf.
    + rewrite deref_update_other by assumption. apply same_order_refl.
  - intros x Hx. iv_simpl. destruct (decide (x = ptr)) as [->|Hne].
    + rewrite lookup_insert_eq. eauto.
    + now rewrite lookup_insert_ne by congruence.
Qed.

Lemma evolves_execute_trade (b : t) (a c p q : Z) :
  evolves b (execute_trade b a c p q).
Proof. split; try reflexivity; auto using same_order_refl. Qed.

(** *** One turn of the inner loop of match_order *)

Lemma orders_update_other (b : t) (ptr x : Z) (f : Order -> Order) :
  x <> ptr -> orders_ (update b ptr f) !! x = orders_ b !! x.
Proof. intros Hne. iv_simpl. now rewrite lookup_insert_ne by congruence. Qed.

Lemma min_not_right (a c : Z) : c - Z.min a c <> 0 -> a - Z.min a c = 0.
Proof. lia. Qed.

Lemma match_inner_body_spec (b : t) (order c : Z) (rest : list Z) (lvl : PriceLevel) :
  level_orders_ lvl = c :: rest -> c <> order ->
  exists b1 lvl1 tr,
    match_inner_body b order lvl = (b1, lvl1) /\
    evolves b b1 /\
    (forall x, x <> order -> x <> c -> orders_ b1 !! x = orders_ b !! x) /\
    price_ lvl1 = price_ lvl /\
    (level_orders_ lvl1 = rest \/
     (level_orders_ lvl1 = c :: rest /\ is_active (deref b1 order) = false)) /\
    trades_ b1 = trades_ b ++ [tr] /\
    trade_price tr = price_ lvl /\
    passive_id (side (deref b order)) tr = order_id (deref b c).
Proof.
  intros Hlvl Hne. unfold match_inner_body. rewrite Hlvl.
  set (mq := Z.min (remaining_quantity (deref b order))
                   (remaining_quantity (deref b c))).
  set (b1 := execute_trade b order c (price_ lvl) mq).
  set (b2 := update b1 order (fun o => add_filled o mq)).
  set (b3 := update b2 c (fun o => add_filled o mq)).
  assert (Hord3 : deref b3 order = add_filled (deref b order) mq).
  { unfold b3. rewrite deref_update_other by congruence.
    unfold b2. now rewrite deref_update. }
  assert (Hc3 : deref b3 c = add_filled (deref b c) mq).
  { unfold b3. rewrite deref_update. unfold b2.
    now rewrite deref_update_other by assumption. }
  assert (Hev3 : evolves b b3).
  { apply (evolves_trans _ b1); [apply evolves_execute_trade|].
    apply (evolves_trans _ b2); apply evolves_update;
      intros; apply same_order_add_filled. }
  assert (Hframe3 : forall x, x <> order -> x <> c ->
                              orders_ b3 !! x = orders_ b !! x).
  { intros x Hx1 Hx2. unfold b3, b2.
    now rewrite !orders_update_other by assumption. }
  set (tr := {| buy_order_id := match side (deref b order) with
                                | BUY => order_id (deref b order)
                                | SELL => order_id (deref b c)
                                end;
                sell_order_id := match side (deref b order) with
                                 | SELL => order_id (deref b order)
                                 | BUY => order_id (deref b c)
                                 end;
                trade_price := price_ lvl;
                trade_quantity := mq |}).
  assert (Htr : trades_ b3 = trades_ b ++ [tr]) by reflexivity.
  assert (Hpid : passive_id (side (deref b order)) tr = order_id (deref b c))
    by (unfold passive_id, tr; now destruct (side (deref b order))).
  assert (Hprice : trade_price tr = price_ lvl) by reflexivity.
  clearbody b3 tr. clear b1 b2.
  destruct (Z.eqb_spec (remaining_quantity (deref b3 c)) 0) as [Hfill|Hpart].
  - (* the resting order is filled and popped *)
    set (b4 := update b3 c (fun o => set_status o FILLED)).
    assert (Hord4 : deref b4 order = add_filled (deref b order) mq)
      by (unfold b4; now rewrite deref_update_other by congruence).
    assert (Hev4 : evolves b b4).
    { apply (evolves_trans _ b3); [assumption|]. apply evolves_update.
      intros; apply same_order_set_status. }
    assert (Hframe4 : forall x, x <> order -> x <> c ->
                                orders_ b4 !! x = orders_ b !! x).
    { intros x Hx1 Hx2. unfold b4.
      rewrite orders_update_other by assumption. now apply Hframe3. }
    assert (Htr4 : trades_ b4 = trades_ b3) by reflexivity.
    assert (Hpop : level_orders_ (level_pop_front b4 lvl) = rest
                   /\ price_ (level_pop_front b4 lvl) = price_ lvl)
      by (unfold level_pop_front; now rewrite Hlvl).
    clearbody b4.
    eexists _, _, tr. split; [reflexivity|].
    destruct (remaining_quantity (deref b4 order) =? 0).
    + split; [apply (evolves_trans _ b4); [assumption|]; apply evolves_update;
              intros; apply same_order_set_status|].
      split; [intros x Hx1 Hx2; rewrite orders_update_other by assumption;
              now apply Hframe4|].
      split; [apply Hpop|]. split; [left; apply Hpop|].
      split; [rewrite <- Htr, <- Htr4; reflexivity|].
      split; [exact Hprice|exact Hpid].
    + split; [apply (evolves_trans _ b4); [assumption|]; apply evolves_update;
              intros; apply same_order_set_status|].
      split; [intros x Hx1 Hx2; rewrite orders_update_other by assumption;
              now apply Hframe4|].
      split; [apply Hpop|]. split; [left; apply Hpop|].
      split; [rewrite <- Htr, <- Htr4; reflexivity|].
      split; [exact Hprice|exact Hpid].
  - (* the resting order is filled in part: the incoming order is used up *)
    set (b4 := update b3 c (fun o => set_status o PARTIALLY_FILLED)).
    assert (Hord4 : deref b4 order = add_filled (deref b order) mq)
      by (unfold b4; now rewrite deref_update_other by congruence).
    assert (Hev4 : evolves b b4).
    { apply (evolves_trans _ b3); [assumption|]. apply evolves_update.
      intros; apply same_order_set_status. }
    assert (Hframe4 : forall x, x <> order -> x <> c ->
                                orders_ b4 !! x = orders_ b !! x).
    { intros x Hx1 Hx2. unfold b4.
      rewrite orders_update_other by assumption. now apply Hframe3. }
    assert (Htr4 : trades_ b4 = trades_ b3) by reflexivity.
    assert (Hupd : forall oid q,
               level_orders_ (level_update_quantity b4 lvl oid q) = c :: rest
               /\ price_ (level_update_quantity b4 lvl oid q) = price_ lvl).
    { intros oid q. unfold level_update_quantity.
      destruct (existsb _ _); now rewrite ?Hlvl. }
    assert (Hused : remaining_quantity (deref b4 order) = 0).
    { rewrite Hord4. rewrite Hc3 in Hpart.
      unfold remaining_quantity in *. cbn [quantity filled_quantity add_filled] in *.
      fold (remaining_quantity (deref b order)) in *.
      fold (remaining_quantity (deref b c)) in *.
      pose proof (min_not_right (remaining_quantity (deref b order))
                                (remaining_quantity (deref b c))) as Hmin.
      fold mq in Hmin. unfold remaining_quantity in *. lia. }
    clearbody b4. rewrite Hused. cbn [Z.eqb].
    eexists _, _, tr. split; [reflexivity|].
    split; [apply (evolves_trans _ b4); [assumption|]; apply evolves_update;
            intros; apply same_order_set_status|].
    split; [intros x Hx1 Hx2; rewrite orders_update_other by assumption;
            now apply Hframe4|].
    split; [apply Hupd|]. split.
    + right. split; [apply Hupd|]. now rewrite deref_update.
    + split; [rewrite <- Htr, <- Htr4; reflexivity|].
      split; [exact Hprice|exact Hpid].
Qed.

(** *** The inner loop *)

Lemma match_inner_stop (fuel : nat) (b : t) (order : Z) (lvl : PriceLevel) :
  is_active (deref b order) = false \/ level_orders_ lvl = [] ->
  match_inner fuel b order lvl = Some (b, lvl).
Proof.
  intros [Hin|Hemp]; destruct fuel; cbn [match_inner].
  1,2: now rewrite Hin.
  1,2: rewrite Hemp, bool_decide_eq_true_2 by reflexivity;
       now rewrite andb_false_r.
Qed.

Lemma match_inner_spec (fuel : nat) :
  forall (b : t) (order : Z) (lvl : PriceLevel),
    order ∉ level_orders_ lvl ->
    (length (level_orders_ lvl) < fuel)%nat ->
    exists b1 lvl1 new,
      match_inner fuel b order lvl = Some (b1, lvl1) /\
      evolves b b1 /\
      (forall x, x <> order -> x ∉ level_orders_ lvl ->
                 orders_ b1 !! x = orders_ b !! x) /\
      price_ lvl1 = price_ lvl /\
      (exists pre, level_orders_ lvl = pre ++ level_orders_ lvl1) /\
      (is_active (deref b1 order) = false \/ level_orders_ lvl1 = []) /\
      trades_ b1 = trades_ b ++ new /\
      Forall (level_trade b order lvl) new.
Proof.
  induction fuel as [|fuel IH]; intros b order lvl Hfresh Hfuel; [lia|].
  destruct (is_active (deref b order)) eqn:Hact.
  2:{ exists b, lvl, []. rewrite match_inner_stop by now left.
      split; [reflexivity|]. split; [apply evolves_refl|].
      split; [reflexivity|]. split; [reflexivity|].
      split; [now exists []|]. split; [now left|].
      split; [now rewrite app_nil_r|constructor]. }
  destruct (level_orders_ lvl) as [|c rest] eqn:Hlvl.
  { exists b, lvl, []. rewrite match_inner_stop by now right.
    split; [reflexivity|]. split; [apply evolves_refl|].
    split; [reflexivity|]. split; [reflexivity|].
    split; [exists []; now rewrite Hlvl|]. split; [now right|].
    split; [now rewrite app_nil_r|constructor]. }
  assert (Hne : c <> order) by (intros ->; apply Hfresh, list_elem_of_here).
  destruct (match_inner_body_spec b order c rest lvl Hlvl Hne)
    as (bx & lx & tr & Hbody & Hev & Hframe & Hpx & Hshape & Htr & Htp & Hpid).
  cbn [match_inner]. rewrite Hact, Hlvl.
  rewrite bool_decide_eq_false_2 by discriminate. cbn [negb andb].
  rewrite Hbody.
  assert (Hfirst : level_trade b order lvl tr).
  { split; [assumption|]. exists c. split; [|assumption].
    rewrite Hlvl. apply list_elem_of_here. }
  assert (Hlift : forall lvl1 t1,
             price_ lvl1 = price_ lvl ->
             (forall x, x ∈ level_orders_ lvl1 -> x ∈ level_orders_ lvl) ->
             level_trade bx order lvl1 t1 -> level_trade b order lvl t1).
  { intros lvl1 t1 Hp Hsub (Hp1 & c1 & Hc1 & Hid). split; [congruence|].
    exists c1. split; [now apply Hsub|].
    destruct (ev_same _ _ Hev order) as (_ & Hs & _).
    destruct (ev_same _ _ Hev c1) as (Hi & _).
    now rewrite <- Hs, <- Hi. }
  destruct Hshape as [Hrest|[Hsame Hdone]].
  - (* the head was popped *)
    destruct (IH bx order lx) as (b1 & lvl1 & new & Hrun & Hev1 & Hframe1 & Hp1
                                  & (pre & Hpre) & Hend & Htr1 & Hall).
    { rewrite Hrest. intros Hin. apply Hfresh. now apply list_elem_of_further. }
    { rewrite Hrest. cbn [length] in Hfuel. lia. }
    exists b1, lvl1, (tr :: new). split; [exact Hrun|].
    split; [eapply evolves_trans; eassumption|].
    split.
    { intros x Hx1 Hx2.
      assert (x <> c) by (intros ->; apply Hx2, list_elem_of_here).
      assert (x ∉ level_orders_ lx)
        by (rewrite Hrest; intros Hin; apply Hx2;
            now apply list_elem_of_further).
      rewrite Hframe1 by assumption. now apply Hframe. }
    split; [congruence|].
    split; [exists (c :: pre); rewrite <- Hrest, Hpre; reflexivity|].
    split; [exact Hend|].
    split; [rewrite Htr1, Htr, <- app_assoc; reflexivity|].
    constructor; [exact Hfirst|].
    eapply Forall_impl; [exact Hall|].
    intros t1. apply Hlift; [assumption|].
    intros x Hx. rewrite Hlvl. rewrite Hrest in Hx.
    now apply list_elem_of_further.
  - (* the incoming order is used up *)
    exists bx, lx, [tr]. rewrite match_inner_stop by now left.
    split; [reflexivity|]. split; [assumption|].
    split.
    { intros x Hx1 Hx2. apply Hframe; [assumption|].
      intros ->. apply Hx2, list_elem_of_here. }
    split; [assumption|].
    split; [exists []; now rewrite Hsame|].
    split; [now left|]. split; [assumption|].
    constructor; [exact Hfirst|constructor].
Qed.

(** *** The outer loop *)

Lemma level_within_refl (lvl : PriceLevel) : level_within lvl lvl.
Proof. now split. Qed.

Lemma ladder_within_refl (l : Ladder) : ladder_within l l.
Proof. intros k lvl Hin. exists lvl. split; [assumption|apply level_within_refl]. Qed.

Lemma ladder_within_trans (l1 l2 l3 : Ladder) :
  ladder_within l1 l2 -> ladder_within l2 l3 -> ladder_within l1 l3.
Proof.
  intros H12 H23 k lvl1 Hin.
  destruct (H12 k lvl1 Hin) as (lvl2 & Hin2 & Hp2 & Hc2).
  destruct (H23 k lvl2 Hin2) as (lvl3 & Hin3 & Hp3 & Hc3).
  exists lvl3. split; [assumption|]. split; [congruence|auto].
Qed.

Lemma ladder_within_not_resting (l1 l : Ladder) (x : Z) :
  ladder_within l1 l -> not_resting l x -> not_resting l1 x.
Proof.
  intros Hw Hnr k lvl1 Hin Hc.
  destruct (Hw k lvl1 Hin) as (lvl & Hin0 & _ & Hc0).
  apply (Hnr k lvl Hin0). now apply Hc0.
Qed.

Lemma matched_refl (b : t) (order : Z) : matched b order b [].
Proof.
  split; try reflexivity; auto using same_order_refl.
  - apply ladder_within_refl.
  - now rewrite app_nil_r.
Qed.

Lemma contra_ne (s : Side) : s <> contra s.
Proof. now destruct s. Qed.

Lemma match_outer_stop (fuel : nat) (b : t) (order : Z) :
  is_active (deref b order) = false ->
  match_outer fuel b order = Some b.
Proof.
  intros Hin. destruct fuel; cbn [match_outer]; rewrite Hin;
    now destruct (ladder_of b _) as [|[k lvl] rest].
Qed.

Lemma match_outer_spec (fuel : nat) :
  forall (b : t) (order : Z),
    not_resting (ladder_of b (contra (side (deref b order)))) order ->
    (length (ladder_of b (contra (side (deref b order)))) < fuel)%nat ->
    exists b1 new, match_outer fuel b order = Some b1 /\ matched b order b1 new.
Proof.
  induction fuel as [|fuel IH]; intros b order Hfresh Hfuel; [lia|].
  set (s := contra (side (deref b order))) in *.
  cbn [match_outer]. fold s.
  destruct (ladder_of b s) as [|[k lvl] rest] eqn:Hlad.
  { exists b, []. split; [reflexivity|apply matched_refl]. }
  destruct (is_active (deref b order)) eqn:Hact.
  2:{ exists b, []. split; [reflexivity|apply matched_refl]. }
  destruct (price_matches (deref b order) lvl).
  2:{ exists b, []. split; [reflexivity|apply matched_refl]. }
  assert (Hnot : order ∉ level_orders_ lvl)
    by (apply (Hfresh k); apply list_elem_of_here).
  destruct (match_inner_spec (S (length (level_orders_ lvl))) b order lvl Hnot
              ltac:(lia))
    as (b1 & lvl1 & new1 & Hinner & Hev & Hframe & Hp1 & (pre & Hpre)
        & Hend & Htr1 & Hall1).
  rewrite Hinner.
  set (levels1 := match level_orders_ lvl1 with
                  | [] => rest
                  | _ :: _ => (k, lvl1) :: rest
                  end).
  set (bx := set_ladder b1 s levels1).
  assert (Hside : side (deref bx order) = side (deref b order)).
  { unfold bx. rewrite deref_set_ladder.
    now destruct (ev_same _ _ Hev order) as (_ & Hs & _). }
  assert (Hladx : ladder_of bx (contra (side (deref bx order))) = levels1)
    by (rewrite Hside; apply ladder_of_set_ladder).
  assert (Hsub : ladder_within levels1 ((k, lvl) :: rest)).
  { intros k1 l1 Hin.
    assert (Hcases : (k1, l1) = (k, lvl1) \/ (k1, l1) ∈ rest).
    { unfold levels1 in Hin. destruct (level_orders_ lvl1); [now right|].
      apply elem_of_cons in Hin. tauto. }
    destruct Hcases as [[= -> ->]|Hin1].
    - exists lvl. split; [apply list_elem_of_here|]. split; [assumption|].
      intros c Hc. rewrite Hpre. apply elem_of_app. now right.
    - exists l1. split; [now apply list_elem_of_further|].
      apply level_within_refl. }
  assert (Hlift : forall tr, ladder_trade bx order levels1 tr ->
                             ladder_trade b order ((k, lvl) :: rest) tr).
  { intros tr (k1 & l1 & Hin & Hp & c & Hc & Hid).
    destruct (Hsub k1 l1 Hin) as (l0 & Hin0 & Hp0 & Hc0).
    exists k1, l0. split; [assumption|]. split; [congruence|].
    exists c. split; [now apply Hc0|].
    rewrite Hside in Hid. rewrite Hid. unfold bx. rewrite deref_set_ladder.
    now destruct (ev_same _ _ Hev c) as (Hi & _). }
  assert (Hrun : exists b2 new2,
             match_outer fuel bx order = Some b2 /\ matched bx order b2 new2).
  { destruct Hend as [Hdone|Hempty].
    - exists bx, []. split; [|apply matched_refl].
      apply match_outer_stop. unfold bx. now rewrite deref_set_ladder.
    - apply IH.
      + rewrite Hladx. eapply ladder_within_not_resting; eassumption.
      + rewrite Hladx. unfold levels1. rewrite Hempty.
        cbn [length] in Hfuel. lia. }
  destruct Hrun as (b2 & new2 & Hrun & Hm).
  exists b2, (new1 ++ new2). split; [exact Hrun|].
  destruct Hm as [Hown Hnext Hsame Hdom Hfr Hshr Htr2 Hpas].
  rewrite Hside in *. fold s in Hfr, Hshr, Hpas.
  assert (Hsx : ladder_of bx s = levels1) by apply ladder_of_set_ladder.
  rewrite Hsx in *.
  split; fold s; rewrite ?Hlad.
  - rewrite Hown. unfold bx.
    rewrite ladder_of_set_ladder_other by (unfold s; apply contra_ne).
    destruct (side (deref b order)); [apply (ev_buy _ _ Hev)|apply (ev_sell _ _ Hev)].
  - rewrite Hnext. unfold bx. rewrite next_set_ladder. apply (ev_next _ _ Hev).
  - intros x. eapply same_order_trans; [apply Hsame|].
    unfold bx. rewrite deref_set_ladder. apply (ev_same _ _ Hev).
  - intros x Hx. apply Hdom. unfold bx. rewrite orders_set_ladder.
    now apply (ev_dom _ _ Hev).
  - intros x Hx Hnr. rewrite Hfr; [| assumption |].
    + unfold bx. rewrite orders_set_ladder.
      apply Hframe; [assumption|]. apply (Hnr k). apply list_elem_of_here.
    + eapply ladder_within_not_resting; eassumption.
  - eapply ladder_within_trans; eassumption.
  - rewrite Htr2. unfold bx. rewrite trades_set_ladder.
    now rewrite Htr1, app_assoc.
  - apply Forall_app. split.
    + eapply Forall_impl; [exact Hall1|]. intros tr Htr.
      exists k, lvl. split; [apply list_elem_of_here|assumption].
    + eapply Forall_impl; [exact Hpas|]. exact Hlift.
Qed.

(** *** Ladders *)

Lemma ladder_erase_subset (p : Z) (l : Ladder) (e : Z * PriceLevel) :
  e ∈ ladder_erase p l -> e ∈ l.
Proof.
  induction l as [|[k old] rest IH]; cbn [ladder_erase]; [easy|].
  destruct (k =? p).
  - intros Hin. now apply list_elem_of_further.
  - intros Hin. apply elem_of_cons in Hin as [->|Hin].
    + apply list_elem_of_here.
    + apply list_elem_of_further. now apply IH.
Qed.

Lemma ladder_find_elem (p : Z) (l : Ladder) (lvl : PriceLevel) :
  ladder_find p l = Some lvl -> (p, lvl) ∈ l.
Proof.
  induction l as [|[k old] rest IH]; cbn [ladder_find]; [discriminate|].
  destruct (Z.eqb_spec k p) as [->|Hne].
  - intros [= ->]. apply list_elem_of_here.
  - intros Hf. apply list_elem_of_further. now apply IH.
Qed.

Lemma ladder_set_cases (p : Z) (new lvl : PriceLevel) (l : Ladder)
      (k : Z) (x : PriceLevel) :
  ladder_find p l = Some lvl ->
  (k, x) ∈ ladder_set p new l ->
  (k, x) ∈ l \/ (k = p /\ x = new).
Proof.
  induction l as [|[k0 old] rest IH]; cbn [ladder_find ladder_set];
    [discriminate|].
  destruct (Z.eqb_spec k0 p) as [->|Hne].
  - intros _ Hin. apply elem_of_cons in Hin as [[= -> ->]|Hin].
    + now right.
    + left. now apply list_elem_of_further.
  - intros Hf Hin. apply elem_of_cons in Hin as [[= -> ->]|Hin].
    + left. apply list_elem_of_here.
    + destruct (IH Hf Hin) as [H|H]; [left|now right].
      now apply list_elem_of_further.
Qed.

Lemma remove_first_subset (oid : Z) (b : t) (l : list Z) (ptr : Z) (rest : list Z) :
  remove_first oid b l = Some (ptr, rest) ->
  forall c, c ∈ rest -> c ∈ l.
Proof.
  revert ptr rest.
  induction l as [|x l IH]; intros ptr rest; cbn [remove_first]; [discriminate|].
  destruct (order_id (deref b x) =? oid).
  - intros [= <- <-] c Hc. now apply list_elem_of_further.
  - destruct (remove_first oid b l) as [[found rest1]|]; [|discriminate].
    intros [= <- <-] c Hc. apply elem_of_cons in Hc as [->|Hc].
    + apply list_elem_of_here.
    + apply list_elem_of_further. now apply (IH found rest1).
Qed.

Lemma level_remove_order_subset (b : t) (lvl : PriceLevel) (oid : Z) :
  price_ (snd (level_remove_order b lvl oid)) = price_ lvl /\
  forall c, c ∈ level_orders_ (snd (level_remove_order b lvl oid)) ->
            c ∈ level_orders_ lvl.
Proof.
  unfold level_remove_order.
  destruct (remove_first oid b (level_orders_ lvl)) as [[ptr rest]|] eqn:Hrm;
    cbn [snd price_ level_orders_]; [|now split].
  split; [reflexivity|]. now apply (remove_first_subset _ _ _ _ _ Hrm).
Qed.

(** *** cancel_order *)

Lemma ladders_within_refl (b : t) : ladders_within b b.
Proof. intros sd. apply ladder_within_refl. Qed.

Lemma ladders_within_ext (b1 b2 b : t) :
  (forall sd, ladder_of b1 sd = ladder_of b2 sd) ->
  ladders_within b2 b -> ladders_within b1 b.
Proof. intros Heq H sd. rewrite Heq. apply H. Qed.

Lemma ladders_within_trans (b1 b2 b3 : t) :
  ladders_within b1 b2 -> ladders_within b2 b3 -> ladders_within b1 b3.
Proof. intros H12 H23 sd. eapply ladder_within_trans; [apply H12|apply H23]. Qed.

Lemma cancel_order_spec (b : t) (oid : Z) (old : Order) :
  orders_ b !! oid = Some old -> is_active old = true ->
  exists b1,
    cancel_order b oid = (true, b1) /\
    orders_ b1 = <[oid := set_status old CANCELLED]> (orders_ b) /\
    next_order_id_ b1 = next_order_id_ b /\
    trades_ b1 = trades_ b /\
    ladder_of b1 (contra (side old)) = ladder_of b (contra (side old)) /\
    ladders_within b1 b /\
    symbol_ b1 = symbol_ b.
Proof.
  intros Hfind Hact. unfold cancel_order. rewrite Hfind, Hact.
  eexists. split; [reflexivity|].
  assert (Hderef : forall bx, orders_ bx = orders_ b -> deref bx oid = old)
    by (intros bx Hbx; unfold deref; now rewrite Hbx, Hfind).
  destruct (ladder_find (price old) (ladder_of b (side old))) as [lvl|] eqn:Hlvl.
  2:{ iv_simpl. rewrite (Hderef b eq_refl).
      repeat split; try reflexivity.
      apply (ladders_within_ext _ b); [now intros []|apply ladders_within_refl]. }
  pose proof (level_remove_order_subset b lvl oid) as [Hp Hsub].
  pose proof (ladder_find_elem _ _ _ Hlvl) as Hmem.
  assert (Hin : forall l1,
             (l1 = ladder_erase (price old) (ladder_of b (side old)) \/
              l1 = ladder_set (price old) (snd (level_remove_order b lvl oid))
                              (ladder_of b (side old))) ->
             ladders_within (set_ladder b (side old) l1) b).
  { intros l1 Hl1 sd k lvl1 Hk.
    destruct (decide (sd = side old)) as [->|Hsd].
    - rewrite ladder_of_set_ladder in Hk. destruct Hl1 as [-> | ->].
      + exists lvl1. split; [|apply level_within_refl].
        now apply ladder_erase_subset in Hk.
      + destruct (ladder_set_cases _ _ _ _ _ _ Hlvl Hk) as [Hold|[-> ->]].
        * exists lvl1. split; [assumption|apply level_within_refl].
        * exists lvl. split; [assumption|]. now split.
    - rewrite ladder_of_set_ladder_other in Hk by assumption.
      exists lvl1. split; [assumption|apply level_within_refl]. }
  destruct (level_orders_ (snd (level_remove_order b lvl oid))) eqn:Hleft.
  - specialize (Hin _ (or_introl eq_refl)).
    set (bx := set_ladder b (side old) _) in *.
    assert (Hbx : orders_ bx = orders_ b) by apply orders_set_ladder.
    iv_simpl. rewrite (Hderef bx Hbx), Hbx.
    split; [reflexivity|]. split; [apply next_set_ladder|].
    split; [apply trades_set_ladder|].
    split; [apply (ladder_of_set_ladder_other b); apply not_eq_sym, contra_ne|].
    split; [|apply symbol_set_ladder].
    apply (ladders_within_ext _ bx); [now intros []|exact Hin].
  - specialize (Hin _ (or_intror eq_refl)).
    set (bx := set_ladder b (side old) _) in *.
    assert (Hbx : orders_ bx = orders_ b) by apply orders_set_ladder.
    iv_simpl. rewrite (Hderef bx Hbx), Hbx.
    split; [reflexivity|]. split; [apply next_set_ladder|].
    split; [apply trades_set_ladder|].
    split; [apply (ladder_of_set_ladder_other b); apply not_eq_sym, contra_ne|].
    split; [|apply symbol_set_ladder].
    apply (ladders_within_ext _ bx); [now intros []|exact Hin].
Qed.

(** *** add_order *)

Lemma add_to_book_frame (b : t) (order : Z) :
  orders_ (add_to_book b order) = orders_ b /\
  trades_ (add_to_book b order) = trades_ b /\
  next_order_id_ (add_to_book b order) = next_order_id_ b.
Proof.
  unfold add_to_book.
  repeat match goal with
         | |- context [match ?x with _ => _ end] => destruct x
         end;
    now rewrite orders_set_ladder, trades_set_ladder, next_set_ladder.
Qed.

Lemma settled_refl (oid : Z) (b : t) : settled oid b b.
Proof. split; auto using same_order_refl. Qed.

Lemma settled_add_to_book (oid : Z) (b : t) : settled oid b (add_to_book b oid).
Proof.
  destruct (add_to_book_frame b oid) as (Ho & Ht & Hn).
  split; try assumption.
  - intros x _. now rewrite Ho.
  - unfold deref. rewrite Ho. apply same_order_refl.
  - now rewrite Ho.
Qed.

Lemma settled_cancel_order (oid : Z) (b : t) :
  is_Some (orders_ b !! oid) -> settled oid b (snd (cancel_order b oid)).
Proof.
  intros [old Hold]. destruct (is_active old) eqn:Hact.
  - destruct (cancel_order_spec b oid old Hold Hact)
      as (b1 & -> & Ho & Hn & Ht & _).
    cbn [snd]. split; try assumption.
    + intros x Hx. now rewrite Ho, lookup_insert_ne by congruence.
    + unfold deref. rewrite Ho, lookup_insert_eq, Hold. cbn [default].
      apply same_order_set_status.
    + intros _. rewrite Ho, lookup_insert_eq. eauto.
  - unfold cancel_order. rewrite Hold, Hact. apply settled_refl.
Qed.

Lemma add_order_spec (b : t) (s : Side) (ty : OrderType) (p q : Z) :
  not_resting (ladder_of b (contra s)) (next_order_id_ b) ->
  exists b1 new,
    add_order b s ty p q = Some (next_order_id_ b, b1) /\
    trades_ b1 = trades_ b ++ new /\
    Forall (resting_trade b s) new /\
    next_order_id_ b1 = wrap64 (next_order_id_ b + 1) /\
    same_order (deref b1 (next_order_id_ b))
               (mkOrder (next_order_id_ b) (symbol_ b) s ty p q 0 NEW) /\
    is_Some (orders_ b1 !! next_order_id_ b) /\
    (forall x, x <> next_order_id_ b ->
               not_resting (ladder_of b (contra s)) x ->
               orders_ b1 !! x = orders_ b !! x).
Proof.
  intros Hfresh. unfold add_order.
  set (oid := next_order_id_ b) in *.
  set (order := mkOrder oid (symbol_ b) s ty p q 0 NEW).
  set (b0 := mk _ _ _ (<[oid := order]> (orders_ b)) _ _ _ _ _ _).
  assert (Hd0 : deref b0 oid = order)
    by (unfold deref, b0; cbn [orders_]; now rewrite lookup_insert_eq).
  assert (Hl0 : forall sd, ladder_of b0 sd = ladder_of b sd) by now intros [].
  assert (Hother : forall x, x <> oid -> orders_ b0 !! x = orders_ b !! x)
    by (intros x Hx; unfold b0; cbn [orders_];
        now rewrite lookup_insert_ne by congruence).
  assert (Hside : side (deref b0 oid) = s) by now rewrite Hd0.
  unfold match_order. rewrite Hside.
  destruct (match_outer_spec (S (length (ladder_of b0 (contra s)))) b0 oid)
    as (b2 & new & -> & Hm).
  { rewrite Hside, Hl0. exact Hfresh. }
  { rewrite Hside. lia. }
  destruct Hm as [_ Hnext Hsame Hdom Hfr _ Htr Hpas].
  rewrite Hside, Hl0 in *.
  assert (Hnew : Forall (resting_trade b s) new).
  { eapply Forall_impl; [exact Hpas|].
    intros tr (k & lvl & Hin & Hp & c & Hc & Hid).
    exists k, lvl, c. repeat split; try assumption.
    rewrite Hside in Hid. rewrite Hid. unfold deref.
    rewrite Hother; [reflexivity|].
    intros ->. now apply (Hfresh k lvl). }
  assert (Hin2 : is_Some (orders_ b2 !! oid)).
  { apply Hdom. unfold b0. cbn [orders_]. rewrite lookup_insert_eq. eauto. }
  assert (Hfinish : forall b1, settled oid b2 b1 ->
    trades_ b1 = trades_ b ++ new /\
    Forall (resting_trade b s) new /\
    next_order_id_ b1 = wrap64 (oid + 1) /\
    same_order (deref b1 oid) order /\
    is_Some (orders_ b1 !! oid) /\
    (forall x, x <> oid -> not_resting (ladder_of b (contra s)) x ->
               orders_ b1 !! x = orders_ b !! x)).
  { intros b1 [Ht Hn Hf Hs Hd].
    split; [now rewrite Ht, Htr|]. split; [assumption|].
    split; [now rewrite Hn, Hnext|].
    split; [eapply same_order_trans; [exact Hs|]; rewrite <- Hd0; apply Hsame|].
    split; [now apply Hd|].
    intros x Hx Hnr. rewrite Hf, Hfr by assumption. now apply Hother. }
  destruct ty.
  - destruct (is_active (deref b2 oid)); eexists _, new;
      (split; [reflexivity|]); apply Hfinish.
    + apply settled_add_to_book.
    + apply settled_refl.
  - eexists _, new. split; [reflexivity|]. apply Hfinish, settled_refl.
  - destruct (is_active (deref b2 oid)); eexists _, new;
      (split; [reflexivity|]); apply Hfinish.
    + now apply settled_cancel_order.
    + apply settled_refl.
  - destruct (is_active (deref b2 oid)); eexists _, new;
      (split; [reflexivity|]); apply Hfinish.
    + now apply settled_cancel_order.
    + apply settled_refl.
Qed.

(** *** Well-formed books *)

Lemma book_wf_create (sym : string) : book_wf (create sym).
Proof.
  split; [|split].
  - intros [] k lvl c Hin; cbn in Hin; now apply not_elem_of_nil in Hin.
  - intros c [o Ho]. cbn in Ho. now rewrite lookup_empty in Ho.
  - intros [] k lvl Hin; cbn in Hin; now apply not_elem_of_nil in Hin.
Qed.

Lemma book_wf_next_fresh (b : t) (sd : Side) :
  book_wf b -> not_resting (ladder_of b sd) (next_order_id_ b).
Proof.
  intros (Hrest & Hkeys & _) k lvl Hin Hc.
  destruct (Hrest sd k lvl _ Hin Hc) as (o & Ho & _).
  assert (next_order_id_ b < next_order_id_ b) by (apply Hkeys; eauto). lia.
Qed.

Lemma book_wf_next_unused (b : t) :
  book_wf b -> orders_ b !! next_order_id_ b = None.
Proof.
  intros (_ & Hkeys & _). destruct (orders_ b !! next_order_id_ b) as [o|] eqn:Ho;
    [|reflexivity].
  assert (next_order_id_ b < next_order_id_ b) by (apply Hkeys; eauto). lia.
Qed.

Lemma book_wf_own_side (b : t) (oid : Z) (old : Order) :
  book_wf b -> orders_ b !! oid = Some old ->
  not_resting (ladder_of b (contra (side old))) oid.
Proof.
  intros [Hrest _] Hold k lvl Hin Hc.
  destruct (Hrest _ k lvl _ Hin Hc) as (o & Ho & Hs & _).
  rewrite Hold in Ho. injection Ho as <-. now destruct (side old).
Qed.

(** *** modify_order *)

Lemma modify_order_spec (b : t) (oid p q : Z) (old : Order) :
  book_wf b -> orders_ b !! oid = Some old -> is_active old = true ->
  exists b1,
    modify_order b oid p q = Some (true, b1) /\
    orders_ b1 !! oid = Some (set_status old CANCELLED) /\
    orders_ b !! next_order_id_ b = None /\
    is_Some (orders_ b1 !! next_order_id_ b) /\
    same_order (deref b1 (next_order_id_ b))
               (mkOrder (next_order_id_ b) (symbol_ b) (side old) (type old)
                        p q 0 NEW) /\
    next_order_id_ b1 = wrap64 (next_order_id_ b + 1).
Proof.
  intros Hwf Hold Hact. unfold modify_order. rewrite Hold, Hact.
  destruct (cancel_order_spec b oid old Hold Hact)
    as (bc & -> & Ho & Hn & Ht & Hcontra & Hwithin & Hsym).
  cbn [snd].
  destruct (add_order_spec bc (side old) (type old) p q)
    as (b1 & new & -> & _ & _ & Hnext & Hsame & Hdom & Hframe).
  { rewrite Hn, Hcontra. now apply book_wf_next_fresh. }
  rewrite Hn, Hsym in *. exists b1. split; [reflexivity|].
  assert (Hne : oid <> next_order_id_ b).
  { intros ->. now rewrite (book_wf_next_unused b Hwf) in Hold. }
  split.
  { rewrite Hframe; [|assumption|].
    - now rewrite Ho, lookup_insert_eq.
    - rewrite Hcontra. eapply book_wf_own_side; eassumption. }
  split; [now apply book_wf_next_unused|].
  split; [exact Hdom|]. split; [exact Hsame|exact Hnext].
Qed.

(** *** [book_wf] is an invariant *)

Lemma resting_or_not (l : Ladder) (x : Z) :
  (exists k lvl, (k, lvl) ∈ l /\ x ∈ level_orders_ lvl) \/ not_resting l x.
Proof.
  induction l as [|[k lvl] rest IH].
  - right. intros k lvl Hin. now apply not_elem_of_nil in Hin.
  - destruct (decide (x ∈ level_orders_ lvl)) as [Hx|Hx].
    + left. exists k, lvl. split; [apply list_elem_of_here|assumption].
    + destruct IH as [(k1 & l1 & Hin & Hc)|Hnr].
      * left. exists k1, l1. split; [now apply list_elem_of_further|assumption].
      * right. intros k1 l1 Hin. apply elem_of_cons in Hin as [[= -> ->]|Hin];
          [assumption|now apply (Hnr k1)].
Qed.

Lemma other_side (s sd : Side) : sd <> s -> sd = contra s.
Proof. now destruct s, sd. Qed.

(** A book whose ladders shrink, whose orders keep their fixed fields and
    whose directory keeps its keys stays well formed. *)
Lemma book_wf_step (b b1 : t) :
  book_wf b ->
  ladders_within b1 b ->
  next_order_id_ b <= next_order_id_ b1 ->
  (forall x, same_order (deref b1 x) (deref b x)) ->
  (forall x, is_Some (orders_ b1 !! x) <-> is_Some (orders_ b !! x)) ->
  book_wf b1.
Proof.
  intros (Hrest & Hkeys & Hlevels) Hwithin Hnext Hsame Hdom.
  split; [|split].
  - intros sd k lvl1 c Hin Hc.
    destruct (Hwithin sd k lvl1 Hin) as (lvl & Hin0 & Hp & Hc0).
    destruct (Hrest sd k lvl c Hin0 (Hc0 c Hc)) as (o & Ho & Hs & Hpo & Hid).
    destruct (proj2 (Hdom c)) as [o1 Ho1]; [eauto|].
    exists o1. split; [assumption|].
    pose proof (Hsame c) as Hso. unfold deref in Hso. rewrite Ho, Ho1 in Hso.
    destruct Hso as (H1 & H2 & _ & H4 & _). cbn in H1, H2, H4.
    repeat split; congruence.
  - intros c Hc. apply Hdom, Hkeys in Hc. lia.
  - intros sd k lvl1 Hin.
    destruct (Hwithin sd k lvl1 Hin) as (lvl & Hin0 & Hp & _).
    rewrite Hp. eapply Hlevels, Hin0.
Qed.

Lemma matched_wf (b b1 : t) (order : Z) (new : list Trade) :
  book_wf b -> is_Some (orders_ b !! order) -> matched b order b1 new ->
  book_wf b1.
Proof.
  intros Hwf Hord [Hown Hnext Hsame Hdom Hframe Hshrink _ _].
  apply (book_wf_step b); try assumption.
  - intros sd. destruct (decide (sd = side (deref b order))) as [->|Hsd].
    + rewrite Hown. apply ladder_within_refl.
    + rewrite (other_side _ _ Hsd). exact Hshrink.
  - lia.
  - intros x. split; [|apply Hdom].
    intros Hx. destruct (decide (x = order)) as [->|Hne]; [assumption|].
    destruct (resting_or_not (ladder_of b (contra (side (deref b order)))) x)
      as [(k & lvl & Hin & Hc)|Hnr].
    + destruct Hwf as (Hrest & _).
      destruct (Hrest _ k lvl x Hin Hc) as (o & Ho & _). eauto.
    + now rewrite <- Hframe.
Qed.

Lemma cancel_order_wf (b : t) (oid : Z) :
  book_wf b -> book_wf (snd (cancel_order b oid)).
Proof.
  intros Hwf. destruct (orders_ b !! oid) as [old|] eqn:Hold.
  2:{ unfold cancel_order. now rewrite Hold. }
  destruct (is_active old) eqn:Hact.
  2:{ unfold cancel_order. now rewrite Hold, Hact. }
  destruct (cancel_order_spec b oid old Hold Hact)
    as (b1 & -> & Ho & Hn & _ & _ & Hwithin & _).
  cbn [snd]. apply (book_wf_step b); try assumption.
  - lia.
  - intros x. unfold deref. rewrite Ho.
    destruct (decide (x = oid)) as [->|Hne].
    + rewrite lookup_insert_eq, Hold. apply same_order_set_status.
    + rewrite lookup_insert_ne by congruence. apply same_order_refl.
  - intros x. rewrite Ho. destruct (decide (x = oid)) as [->|Hne].
    + rewrite lookup_insert_eq, Hold. split; eauto.
    + now rewrite lookup_insert_ne by congruence.
Qed.

Lemma book_wf_level_ok (b : t) (s : Side) (k : Z) (lvl : PriceLevel) :
  book_wf b -> (k, lvl) ∈ ladder_of b s -> level_ok b s k lvl.
Proof.
  intros (Hrest & _ & Hlevels) Hin. split; [eapply Hlevels, Hin|].
  intros c Hc. eapply Hrest; eassumption.
Qed.

Lemma book_wf_set_ladder (b : t) (s : Side) (l : Ladder) :
  book_wf b ->
  (forall k lvl, (k, lvl) ∈ l -> level_ok b s k lvl) ->
  book_wf (set_ladder b s l).
Proof.
  intros Hwf Hok. pose proof Hwf as (Hrest & Hkeys & Hlevels).
  assert (Hall : forall sd k lvl, (k, lvl) ∈ ladder_of (set_ladder b s l) sd ->
                                  level_ok b sd k lvl).
  { intros sd k lvl Hin. destruct (decide (sd = s)) as [->|Hsd].
    - rewrite ladder_of_set_ladder in Hin. now apply Hok.
    - rewrite ladder_of_set_ladder_other in Hin by assumption.
      now apply book_wf_level_ok. }
  split; [|split].
  - intros sd k lvl c Hin Hc. rewrite orders_set_ladder.
    now apply (Hall sd k lvl Hin).
  - intros c. rewrite orders_set_ladder, next_set_ladder. apply Hkeys.
  - intros sd k lvl Hin. apply (Hall sd k lvl Hin).
Qed.

Lemma ladder_emplace_cases (s : Side) (p : Z) (new : PriceLevel) (l : Ladder)
      (e : Z * PriceLevel) :
  e ∈ ladder_emplace s p new l -> e ∈ l \/ e = (p, new).
Proof.
  induction l as [|[k old] rest IH]; cbn [ladder_emplace].
  - intros Hin. apply list_elem_of_singleton in Hin. now right.
  - destruct (k =? p); [now left|].
    destruct (ordered_before s p k).
    + intros Hin. apply elem_of_cons in Hin as [->|Hin]; [now right|now left].
    + intros Hin. apply elem_of_cons in Hin as [->|Hin].
      * left. apply list_elem_of_here.
      * destruct (IH Hin) as [H|H]; [left|now right].
        now apply list_elem_of_further.
Qed.

Lemma add_to_book_wf (b : t) (oid : Z) (o : Order) :
  book_wf b -> orders_ b !! oid = Some o -> order_id o = oid ->
  book_wf (add_to_book b oid).
Proof.
  intros Hwf Ho Hid. unfold add_to_book.
  assert (Hd : deref b oid = o) by (unfold deref; now rewrite Ho).
  rewrite Hd.
  set (s := side o). set (p := price o).
  set (levels1 := match ladder_find p (ladder_of b s) with
                  | Some _ => ladder_of b s
                  | None => ladder_emplace s p (mkLevel p [] 0) (ladder_of b s)
                  end).
  assert (Hok1 : forall k lvl, (k, lvl) ∈ levels1 -> level_ok b s k lvl).
  { intros k lvl Hin. unfold levels1 in Hin.
    destruct (ladder_find p (ladder_of b s)).
    - now apply book_wf_level_ok.
    - apply ladder_emplace_cases in Hin as [Hin|[= -> ->]].
      + now apply book_wf_level_ok.
      + split; [reflexivity|]. intros c Hc. now apply not_elem_of_nil in Hc. }
  destruct (ladder_find p levels1) as [lvl|] eqn:Hfind;
    apply book_wf_set_ladder; try assumption.
  intros k x Hin.
  destruct (ladder_set_cases _ _ _ _ _ _ Hfind Hin) as [Hold|[-> ->]];
    [now apply Hok1|].
  destruct (Hok1 p lvl (ladder_find_elem _ _ _ Hfind)) as [Hp Hcs].
  split; [exact Hp|].
  unfold level_add_order. cbn [level_orders_ price_].
  intros c Hc. apply elem_of_app in Hc as [Hc|Hc]; [now apply Hcs|].
  apply list_elem_of_singleton in Hc as ->.
  exists o. repeat split; try assumption. now rewrite Hp.
Qed.

(** [add_order] keeps the book well formed while order ids last. *)
Lemma add_order_wf (b b1 : t) (s : Side) (ty : OrderType) (p q oid : Z) :
  book_wf b -> 0 <= next_order_id_ b < 2 ^ 64 - 1 ->
  add_order b s ty p q = Some (oid, b1) -> book_wf b1.
Proof.
  intros Hwf Hrange. pose proof Hwf as (Hrest & Hkeys & Hlevels).
  unfold add_order.
  set (n := next_order_id_ b) in *.
  set (order := mkOrder n (symbol_ b) s ty p q 0 NEW).
  set (b0 := mk _ _ _ (<[n := order]> (orders_ b)) _ _ _ _ _ _).
  assert (Hnew : orders_ b !! n = None) by now apply book_wf_next_unused.
  assert (Hwf0 : book_wf b0).
  { split; [|split].
    - intros sd k lvl c Hin Hc.
      replace (ladder_of b0 sd) with (ladder_of b sd) in Hin by now destruct sd.
      destruct (Hrest sd k lvl c Hin Hc) as (o & Ho & Hfields).
      exists o. split; [|assumption]. unfold b0. cbn [orders_].
      rewrite lookup_insert_ne; [assumption|]. intros <-. congruence.
    - intros c. unfold b0. cbn [orders_ next_order_id_].
      rewrite wrap64_small by lia.
      destruct (decide (c = n)) as [->|Hne]; [lia|].
      rewrite lookup_insert_ne by congruence.
      intros Hc. apply Hkeys in Hc. fold n in Hc. lia.
    - intros sd k lvl Hin.
      replace (ladder_of b0 sd) with (ladder_of b sd) in Hin by now destruct sd.
      eapply Hlevels, Hin. }
  assert (Hd0 : orders_ b0 !! n = Some order)
    by (unfold b0; cbn [orders_]; now rewrite lookup_insert_eq).
  assert (Hside : side (deref b0 n) = s)
    by (unfold deref; now rewrite Hd0).
  unfold match_order. rewrite Hside.
  destruct (match_outer_spec (S (length (ladder_of b0 (contra s)))) b0 n)
    as (b2 & new & -> & Hm).
  { rewrite Hside. intros k lvl Hin Hc.
    destruct Hwf0 as (Hrest0 & Hkeys0 & _).
    destruct (Hrest0 _ k lvl n Hin Hc) as (o & Ho & _).
    replace (ladder_of b0 (contra s)) with (ladder_of b (contra s)) in Hin
      by now destruct s.
    destruct (Hrest _ k lvl n Hin Hc) as (o1 & Ho1 & _). congruence. }
  { rewrite Hside. lia. }
  assert (Hwf2 : book_wf b2) by (eapply matched_wf; [exact Hwf0| |exact Hm]; eauto).
  assert (Ho2 : exists o2, orders_ b2 !! n = Some o2 /\ order_id o2 = n).
  { destruct (m_dom _ _ _ _ Hm n) as [o2 Ho2]; [eauto|].
    exists o2. split; [assumption|].
    pose proof (m_same _ _ _ _ Hm n) as Hs. unfold deref in Hs.
    rewrite Ho2, Hd0 in Hs. now destruct Hs as (Hs & _). }
  destruct Ho2 as (o2 & Ho2 & Hid2).
  destruct ty; try destruct (is_active (deref b2 n)); intros [= <- <-];
    try assumption.
  - eapply add_to_book_wf; eassumption.
  - now apply cancel_order_wf.
  - now apply cancel_order_wf.
Qed.

(** [modify_order] keeps the book well formed as well. *)
Lemma modify_order_wf (b b1 : t) (oid p q : Z) (ok : bool) :
  book_wf b -> 0 <= next_order_id_ b < 2 ^ 64 - 1 ->
  modify_order b oid p q = Some (ok, b1) -> book_wf b1.
Proof.
  intros Hwf Hrange. unfold modify_order.
  destruct (orders_ b !! oid) as [old|] eqn:Hold; [|now intros [= <- <-]].
  destruct (is_active old) eqn:Hact; [|now intros [= <- <-]].
  destruct (add_order _ _ _ _ _) as [[n b2]|] eqn:Hadd; [|discriminate].
  intros [= <- <-].
  destruct (cancel_order_spec b oid old Hold Hact)
    as (bc & Hc & _ & Hn & _).
  eapply add_order_wf; [apply (cancel_order_wf b oid Hwf)| |exact Hadd].
  rewrite Hc. cbn [snd]. now rewrite Hn.
Qed.

(** *** Time priority in the map-based book *)

(** A turn of the inner loop that fills the front order in part leaves it
    at the front of its level. *)
Lemma interview_partial_fill_keeps_front
      (b : t) (order c : Z) (rest : list Z) (lvl : PriceLevel) :
  level_orders_ lvl = c :: rest -> c <> order ->
  remaining_quantity (deref b order) < remaining_quantity (deref b c) ->
  level_orders_ (snd (match_inner_body b order lvl)) = c :: rest.
Proof.
  intros Hlvl Hne Hlt. unfold match_inner_body. rewrite Hlvl.
  rewrite Z.min_l by lia.
  set (mq := remaining_quantity (deref b order)) in *.
  set (b1 := execute_trade b order c (price_ lvl) mq).
  set (b2 := update b1 order (fun o => add_filled o mq)).
  set (b3 := update b2 c (fun o => add_filled o mq)).
  assert (Hc3 : remaining_quantity (deref b3 c)
                = remaining_quantity (deref b c) - mq).
  { unfold b3. rewrite deref_update. unfold b2.
    rewrite deref_update_other by assumption.
    unfold remaining_quantity. cbn [quantity filled_quantity add_filled].
    change (deref b1 c) with (deref b c). lia. }
  destruct (Z.eqb_spec (remaining_quantity (deref b3 c)) 0) as [Hz|Hnz]; [lia|].
  cbn [snd]. unfold level_update_quantity.
  destruct (existsb _ _); now rewrite ?Hlvl.
Qed.

End InterviewFacts.

(** * The claims *)

Section Claims.
Import OrderBook.

(** ** Scenarios on the array book *)

(** C1. After [addOrder] of a buy that is larger than the best ask level
    and priced at the next one, the array book is crossed: the loop of
    [matchOrder] stops once the best level is drained and the residual is
    booked at its limit, so the cached best bid equals the cached best ask
    while both sides hold orders. *)
Theorem hft_book_crossed_after_addOrder :
  match addOrders (create 10000) crossing_orders with
  | Some (trades, b) =>
      trades = [mkTrade 3 1 10101 30] /\
      best_bid_ b = 10102 /\ best_ask_ b = 10102 /\
      length (nodes (get_level b BUY 102)) = 1%nat /\
      length (nodes (get_level b SELL 102)) = 1%nat /\
      ~ best_bid_ b < best_ask_ b
  | None => False
  end.
Proof.
  assert (Hrun :
    match addOrders (create 10000) crossing_orders with
    | Some (trades, b) =>
        Some (trades, best_bid_ b, best_ask_ b,
              nodes (get_level b BUY 102), nodes (get_level b SELL 102))
    | None => None
    end = Some ([mkTrade 3 1 10101 30], 10102, 10102,
                [(0%N, 0%N)], [(0%N, 1%N)]))
    by (vm_compute; reflexivity).
  destruct (addOrders (create 10000) crossing_orders) as [[trades b]|];
    [|discriminate].
  injection Hrun as -> -> -> -> ->. repeat split. lia.
Qed.

(** C2. Against resting asks 30 @ 10101, 40 @ 10102 and 50 @ 10103, a buy
    of 100 with limit 10103 trades with the first level only: one trade of
    30 @ 10101, after which the residual of 70 rests as a bid at 10103 and
    the asks at 10102 and 10103 are untouched. *)
Theorem hft_match_stops_after_first_level :
  match addOrders (create 10000) walking_orders with
  | Some (trades, b) =>
      trades = [mkTrade 4 1 10101 30] /\
      total_quantity (get_level b SELL 102) = 40 /\
      total_quantity (get_level b SELL 103) = 50 /\
      total_quantity (get_level b BUY 103) = 70 /\
      map (deref b) (nodes (get_level b BUY 103)) = [buy 4 10103 70]
  | None => False
  end.
Proof.
  assert (Hrun :
    match addOrders (create 10000) walking_orders with
    | Some (trades, b) =>
        Some (trades, total_quantity (get_level b SELL 102),
              total_quantity (get_level b SELL 103),
              total_quantity (get_level b BUY 103),
              map (deref b) (nodes (get_level b BUY 103)))
    | None => None
    end = Some ([mkTrade 4 1 10101 30], 40, 50, 70, [buy 4 10103 70]))
    by (vm_compute; reflexivity).
  destruct (addOrders (create 10000) walking_orders) as [[trades b]|];
    [|discriminate].
  injection Hrun as -> -> -> -> ->. repeat split.
Qed.

(** ** The node pool *)

(** C3 (as stated) fails: a pool of two-cell blocks with both cells handed
    out has an empty free list, yet [allocate] returns a cell, taken from a
    second block obtained from the heap. *)
Lemma pool_allocates_when_exhausted :
  match MemoryPool.allocate 2 (MemoryPool.create 2) with
  | Some (_, p1) =>
      match MemoryPool.allocate 2 p1 with
      | Some (_, p2) =>
          MemoryPool.free_list_ p2 = [] /\
          MemoryPool.in_use 2 p2 = MemoryPool.capacity 2 p2 /\
          MemoryPool.allocate 2 p2
          = Some ((1%N, 0%N),
                  {| MemoryPool.free_list_ := [(1%N, 1%N)];
                     MemoryPool.blocks_ := [0%N; 1%N] |})
      | None => False
      end
  | None => False
  end.
Proof. vm_compute. repeat split. Qed.

(** C3 (amended). The pool is not bounded.  It starts with one block of
    [BlockSize] free cells, and [allocate] never fails: with a free cell it
    hands out the head of the free list; with every cell in use it takes
    one more block of [BlockSize] cells from the heap and hands out its
    first cell.  An order that arrives with every cell in use is booked
    like any other, in the first cell of the new block. *)
Theorem pool_grows_on_exhaustion (BlockSize : nat) (p : MemoryPool.t) :
  (0 < BlockSize)%nat ->
  (MemoryPool.blocks_ (MemoryPool.create BlockSize) = [0%N] /\
   length (MemoryPool.free_list_ (MemoryPool.create BlockSize)) = BlockSize) /\
  (exists node p1,
      MemoryPool.allocate BlockSize p = Some (node, p1) /\
      (MemoryPool.free_list_ p = [] ->
       node = (N.of_nat (length (MemoryPool.blocks_ p)), 0%N) /\
       MemoryPool.blocks_ p1
       = MemoryPool.blocks_ p ++ [N.of_nat (length (MemoryPool.blocks_ p))] /\
       length (MemoryPool.free_list_ p1) = (BlockSize - 1)%nat) /\
      (forall c next,
          MemoryPool.free_list_ p = c :: next ->
          node = c /\ MemoryPool.free_list_ p1 = next /\
          MemoryPool.blocks_ p1 = MemoryPool.blocks_ p)) /\
  (forall (b : t) (o : Order),
      MemoryPool.free_list_ (order_pool_ b) = [] -> on_ladder (price o) ->
      let node := (N.of_nat (length (MemoryPool.blocks_ (order_pool_ b))), 0%N) in
      order_map_ (addToBook b o) !! order_id o = Some node /\
      node_mem_ (addToBook b o) !! node = Some o /\
      nodes (get_level (addToBook b o) (side o) (price o - base_price_))
      = nodes (get_level b (side o) (price o - base_price_)) ++ [node]).
Proof.
  intros Hpos. split; [|split].
  - split; [reflexivity|]. unfold MemoryPool.create, MemoryPool.expandPool.
    cbn [MemoryPool.free_list_ MemoryPool.empty]. rewrite app_nil_r.
    apply length_block_cells.
  - destruct (MemoryPool.free_list_ p) as [|c next] eqn:Hfree.
    + rewrite (allocate_exhausted BlockSize Hpos p Hfree).
      eexists _, _. split; [reflexivity|]. split; [|discriminate].
      intros _. cbn [MemoryPool.blocks_ MemoryPool.free_list_].
      repeat split. now rewrite length_map, length_seq.
    + rewrite (allocate_available BlockSize p c next Hfree).
      eexists _, _. split; [reflexivity|]. split; [discriminate|].
      intros c1 next1 [= <- <-]. now repeat split.
  - intros b o Hfree Hon node.
    destruct (addToBook_pool_exhausted b o Hfree Hon) as (H1 & H2 & H3 & _).
    now repeat split.
Qed.

Lemma pool_grows_on_exhaustion_witness :
  (0 < 2)%nat /\
  exists node p1,
    MemoryPool.allocate 2 {| MemoryPool.free_list_ := []; MemoryPool.blocks_ := [0%N] |}
    = Some (node, p1) /\ node = (1%N, 0%N) /\
    MemoryPool.blocks_ p1 = [0%N; 1%N].
Proof.
  split; [lia|].
  destruct (pool_grows_on_exhaustion 2
              {| MemoryPool.free_list_ := []; MemoryPool.blocks_ := [0%N] |}
              ltac:(lia)) as (_ & (node & p1 & Halloc & Hempty & _) & _).
  destruct (Hempty eq_refl) as (Hnode & Hblocks & _).
  exists node, p1. repeat split; assumption.
Defined.

(** ** The rings *)

(** C4 (as stated) fails: a ring of capacity 4 reports full on the fourth
    push, while it holds 3 elements. *)
Lemma ring_full_below_capacity :
  let q := snd (LockFreeQueue.push_all 4 (LockFreeQueue.create 4 0) [1; 2; 3]) in
  LockFreeQueue.size 4 q = 3 /\
  fst (LockFreeQueue.push 4 q 4) = false /\
  fst (LockFreeQueue.push_all 4 (LockFreeQueue.create 4 0) [1; 2; 3; 4])
  = [true; true; true; false] /\
  fst (SPSCQueue.enqueue_all 4 (SPSCQueue.create 4 0) [1; 2; 3; 4])
  = [true; true; true; false].
Proof. vm_compute. repeat split. Qed.

(** C4 (amended). A ring of capacity [Size] (a power of two) keeps one
    slot free.  In every state reached from the new ring by pushes and
    pops, [LockFreeQueue::push] and [SPSCQueue::try_enqueue] succeed
    exactly when fewer than [Size - 1] elements are queued and report full
    exactly when [Size - 1] are; a refused [push] leaves the ring as it
    is, and a refused [try_enqueue] leaves head, tail, buffer and queued
    elements as they are and only brings the producer's cached copy of
    the head up to date.  Starting from the empty ring with no pops in
    between, [Size - 1] pushes in a row all succeed and the next one
    reports full and leaves the ring exactly as it is. *)
Theorem ring_holds_size_minus_one
        (T : Type) (k Size : Z) (init x : T) (items : list T) :
  0 <= k < 64 -> Size = 2 ^ k -> Z.of_nat (length items) = Size - 1 ->
  (lfq_wf Size (LockFreeQueue.create Size init) /\
   forall q : LockFreeQueue.t T,
      lfq_wf Size q ->
      (fst (LockFreeQueue.push Size q x) = true
       <-> LockFreeQueue.size Size q < Size - 1) /\
      (fst (LockFreeQueue.push Size q x) = false
       <-> LockFreeQueue.size Size q = Size - 1) /\
      (fst (LockFreeQueue.push Size q x) = false ->
       LockFreeQueue.push Size q x = (false, q)) /\
      lfq_wf Size (snd (LockFreeQueue.push Size q x)) /\
      lfq_wf Size (snd (LockFreeQueue.pop Size q))) /\
  (spsc_inv Size (SPSCQueue.create Size init) /\
   forall q : SPSCQueue.t T,
      spsc_inv Size q ->
      (fst (SPSCQueue.try_enqueue Size q x) = true
       <-> SPSCQueue.size Size q < Size - 1) /\
      (fst (SPSCQueue.try_enqueue Size q x) = false
       <-> SPSCQueue.size Size q = Size - 1) /\
      (fst (SPSCQueue.try_enqueue Size q x) = false ->
       let q1 := snd (SPSCQueue.try_enqueue Size q x) in
       SPSCQueue.head_ q1 = SPSCQueue.head_ q /\
       SPSCQueue.tail_ q1 = SPSCQueue.tail_ q /\
       SPSCQueue.buffer_ q1 = SPSCQueue.buffer_ q /\
       SPSCQueue.cached_tail_ q1 = SPSCQueue.cached_tail_ q /\
       SPSCQueue.cached_head_ q1 = SPSCQueue.head_ q /\
       SPSCQueue.size Size q1 = SPSCQueue.size Size q) /\
      spsc_inv Size (snd (SPSCQueue.try_enqueue Size q x)) /\
      spsc_inv Size (snd (SPSCQueue.try_dequeue Size q))) /\
  (let r := LockFreeQueue.push_all Size (LockFreeQueue.create Size init) items in
   fst r = replicate (length items) true /\
   LockFreeQueue.size Size (snd r) = Size - 1 /\
   LockFreeQueue.push Size (snd r) x = (false, snd r)) /\
  (let r := SPSCQueue.enqueue_all Size (SPSCQueue.create Size init) items in
   fst r = replicate (length items) true /\
   SPSCQueue.size Size (snd r) = Size - 1 /\
   SPSCQueue.try_enqueue Size (snd r) x = (false, snd r)).
Proof.
  intros Hk HS Hlen.
  pose proof (Size_bounds k Size Hk HS) as Hbounds.
  split; [|split; [|split]].
  - split; [apply (lfq_create_wf k Size Hk HS)|].
    intros q Hwf.
    pose proof (lfq_size_range k Size Hk HS q Hwf) as Hrange.
    destruct (lfq_push_full k Size Hk HS q x Hwf) as [Hsame Hfull].
    split; [|split; [exact Hfull|split; [|split]]].
    + destruct (fst (LockFreeQueue.push Size q x)) eqn:Hpush.
      * split; [intros _|reflexivity].
        assert (LockFreeQueue.size Size q <> Size - 1)
          by (intros Heq; apply Hfull in Heq; discriminate).
        lia.
      * split; [discriminate|]. intros Hlt.
        assert (LockFreeQueue.size Size q = Size - 1) by now apply Hfull.
        lia.
    + intros Hno. apply Hsame. now apply Hfull.
    + now apply (lfq_push_wf k Size Hk HS).
    + now apply (lfq_pop_wf k Size Hk HS).
  - split; [apply (spsc_inv_create Size Hbounds)|].
    intros q Hinv.
    pose proof (spsc_inv_size_range Size q Hinv) as Hrange.
    destruct (spsc_inv_enqueue Size Hbounds q x Hinv) as (Hroom & Hfull & Hinv1).
    assert (Hcases : SPSCQueue.size Size q < Size - 1 \/ SPSCQueue.size Size q = Size - 1)
      by lia.
    split; [|split; [|split; [|split]]].
    + destruct Hcases as [Hlt|Heq].
      * destruct (Hroom Hlt) as [-> _]. split; [intros _; exact Hlt|reflexivity].
      * rewrite (Hfull Heq). cbn [fst]. split; [discriminate|lia].
    + destruct Hcases as [Hlt|Heq].
      * destruct (Hroom Hlt) as [-> _]. split; [discriminate|lia].
      * rewrite (Hfull Heq). cbn [fst]. split; [intros _; exact Heq|reflexivity].
    + destruct Hcases as [Hlt|Heq].
      * destruct (Hroom Hlt) as [-> _]. discriminate.
      * rewrite (Hfull Heq). intros _. cbv zeta. cbn [snd].
        unfold SPSCQueue.size, SPSCQueue.set_cached_head.
        cbn [SPSCQueue.head_ SPSCQueue.tail_ SPSCQueue.buffer_
             SPSCQueue.cached_head_ SPSCQueue.cached_tail_].
        repeat split; reflexivity.
    + exact Hinv1.
    + now destruct (spsc_inv_dequeue Size Hbounds q Hinv) as (_ & _ & ?).
  - cbv zeta.
    destruct (lfq_push_all_ok (T := T) k Size Hk HS items
                (LockFreeQueue.create Size init)
                (lfq_create_wf k Size Hk HS init)) as (Hoks & Hwf & Hsize).
    { rewrite lfq_create_size. lia. }
    rewrite lfq_create_size in Hsize.
    split; [exact Hoks|]. split; [lia|].
    apply (lfq_push_full k Size Hk HS _ x Hwf). lia.
  - cbv zeta.
    destruct (spsc_enqueue_all_ok (T := T) Size Hbounds items
                (SPSCQueue.create Size init)
                (spsc_create_wf Size Hbounds init)) as (Hoks & Hwf & Hsize).
    { change (SPSCQueue.size Size (SPSCQueue.create Size init)) with 0. lia. }
    change (SPSCQueue.size Size (SPSCQueue.create Size init)) with 0 in Hsize.
    split; [exact Hoks|]. split; [lia|].
    pose proof (spsc_inv_enqueue_all Size Hbounds items _
                  (spsc_inv_create Size Hbounds init)) as Hinv.
    destruct (spsc_inv_enqueue Size Hbounds _ x Hinv) as (_ & Hfull & _).
    rewrite (Hfull ltac:(lia)). f_equal.
    apply spsc_refused_unchanged. now destruct Hwf as (_ & _ & ?).
Qed.

Lemma ring_holds_size_minus_one_witness :
  (0 <= 2 < 64) /\ 4 = 2 ^ 2 /\ Z.of_nat (length [1; 2; 3]) = 4 - 1 /\
  LockFreeQueue.push 4
    (snd (LockFreeQueue.push_all 4 (LockFreeQueue.create 4 0) [1; 2; 3])) 9
  = (false, snd (LockFreeQueue.push_all 4 (LockFreeQueue.create 4 0) [1; 2; 3])) /\
  let q := snd (SPSCQueue.try_dequeue 4
                  (snd (SPSCQueue.enqueue_all 4 (SPSCQueue.create 4 0) [1; 2; 3]))) in
  spsc_inv 4 q /\
  SPSCQueue.cached_head_ q <> SPSCQueue.head_ q /\
  fst (SPSCQueue.try_enqueue 4 q 9) = true.
Proof.
  split; [lia|]. split; [reflexivity|]. split; [reflexivity|].
  destruct (ring_holds_size_minus_one Z 2 4 0 9 [1; 2; 3]
              ltac:(lia) eq_refl eq_refl)
    as (_ & (_ & Hspsc) & (_ & _ & Hrun) & _).
  split; [exact Hrun|]. cbv zeta.
  assert (Hinv : spsc_inv 4
                   (snd (SPSCQueue.try_dequeue 4
                           (snd (SPSCQueue.enqueue_all 4 (SPSCQueue.create 4 0)
                                                       [1; 2; 3]))))).
  { split; [vm_compute; intuition discriminate|].
    split; [vm_compute; intuition discriminate|]. split.
    - exists 1. vm_compute. intuition discriminate.
    - exists 2. vm_compute. intuition discriminate. }
  split; [exact Hinv|]. split; [vm_compute; discriminate|].
  apply (Hspsc _ Hinv). vm_compute. reflexivity.
Defined.

(** ** Quantity *)

(** C8. Quantity is conserved for every submitted order: the quantities
    of the trades it produces and the quantity it leaves [matchOrder] with
    add up to the quantity it came in with; [addOrder] emits just those
    trades and books just that residual. *)
Theorem order_quantity_conserved (b : t) (o : Order) :
  0 <= quantity o < 2 ^ 32 -> uint32_quantities b ->
  exists o1 trades b1,
    matchOrder b o = Some (o1, trades, b1) /\
    traded trades + quantity o1 = quantity o /\
    addOrder b o
    = Some (true, trades, if 0 <? quantity o1 then addToBook b1 o1 else b1).
Proof.
  intros Hq Hb. unfold addOrder.
  destruct (matchOrder_total b o) as [[[o1 ts] b1] Hmatch].
  exists o1, ts, b1. rewrite Hmatch. split; [reflexivity|].
  split; [|reflexivity].
  unfold matchOrder in Hmatch.
  destruct (match_loop (match_fuel b o) b o) as [[[ox tx] bx]|] eqn:Hloop;
    [|discriminate].
  injection Hmatch as <- <- <-.
  now destruct (match_loop_conserves _ _ _ _ _ _ Hloop Hq Hb).
Qed.

Lemma one_ask_book_uint32 : uint32_quantities one_ask_book.
Proof.
  unfold one_ask_book.
  destruct (addOrders (create 10000) [sell 1 10101 30]) as [[ts b]|] eqn:Hrun;
    [|apply uint32_create].
  eapply uint32_addOrders; [|apply uint32_create|exact Hrun].
  repeat constructor; cbn; lia.
Qed.

Lemma order_quantity_conserved_witness :
  (0 <= quantity (buy 2 10101 50) < 2 ^ 32) /\
  uint32_quantities one_ask_book /\
  exists o1 trades b1,
    matchOrder one_ask_book (buy 2 10101 50) = Some (o1, trades, b1) /\
    traded trades + quantity o1 = 50.
Proof.
  split; [cbn; lia|]. split; [exact one_ask_book_uint32|].
  destruct (order_quantity_conserved one_ask_book (buy 2 10101 50)
              ltac:(cbn; lia) one_ask_book_uint32)
    as (o1 & trades & b1 & Hmatch & Hsum & _).
  exists o1, trades, b1. split; [exact Hmatch | exact Hsum].
Defined.

(** ** What addOrder returns *)

(** C10. [addOrder] returns [true] for every order.  When the price of
    the order is outside [base_price_, base_price_ + MAX_PRICE_LEVELS),
    [addToBook] drops the residual: the book is left as [matchOrder] left
    it, with no node linked and no entry made in [order_map_], and the
    result is still [true]. *)
Theorem addOrder_always_true (b : t) (o : Order) :
  0 <= price o < 2 ^ 64 ->
  exists o1 trades b1 b2,
    matchOrder b o = Some (o1, trades, b1) /\
    addOrder b o = Some (true, trades, b2) /\
    (~ on_ladder (price o) -> b2 = b1).
Proof.
  intros Hp. unfold addOrder.
  destruct (matchOrder_total b o) as [[[o1 ts] b1] Hmatch].
  rewrite Hmatch. eexists o1, ts, b1, _.
  split; [reflexivity|]. split; [reflexivity|].
  intros Hout. destruct (0 <? quantity o1); [|reflexivity].
  destruct (matchOrder_order _ _ _ _ _ Hmatch) as (_ & Hprice & _).
  apply addToBook_off_ladder; now rewrite Hprice.
Qed.

Lemma addOrder_always_true_witness :
  (0 <= price (buy 7 50000 10) < 2 ^ 64) /\
  ~ on_ladder (price (buy 7 50000 10)) /\
  exists trades b2,
    addOrder (create 10000) (buy 7 50000 10) = Some (true, trades, b2) /\
    order_map_ b2 !! 7 = None.
Proof.
  split; [cbn; lia|].
  assert (Hout : ~ on_ladder (price (buy 7 50000 10)))
    by (unfold on_ladder, base_price_, MAX_PRICE_LEVELS; cbn; lia).
  split; [exact Hout|].
  destruct (addOrder_always_true (create 10000) (buy 7 50000 10)
              ltac:(cbn; lia))
    as (o1 & trades & b1 & b2 & Hmatch & Hadd & Hdrop).
  exists trades, b2. split; [exact Hadd|].
  rewrite (Hdrop Hout). unfold matchOrder in Hmatch.
  destruct (match_loop _ _ _) as [[[ox tx] bx]|] eqn:Hloop; [|discriminate].
  injection Hmatch as <- <- <-.
  cbn in Hloop. injection Hloop as <- <- <-. reflexivity.
Defined.

(** ** Time priority in OrderBook-Engine *)

(** C6. In OrderBook-Engine a partially filled resting order loses its
    place: with asks A (10) then B (5) resting at 100, a buy of 4 fills A
    partly, and [matchOrder] pops A and pushes it back behind B, so the
    queue reads B, A; a following buy of 5 trades with the younger B and
    leaves A. *)
Theorem engine_partial_fill_requeues_behind :
  Engine.matchOrders Engine.create
    [Engine.mkOrder 1 "SELL" 100 10; Engine.mkOrder 2 "SELL" 100 5;
     Engine.mkOrder 3 "BUY" 100 4]
  = Some ([Engine.mkLine "BUY" 4 100],
          {| Engine.bids := [];
             Engine.asks := [(100, [Engine.mkOrder 2 "SELL" 100 5;
                                    Engine.mkOrder 1 "SELL" 100 6])] |})
  /\
  Engine.matchOrders Engine.create
    [Engine.mkOrder 1 "SELL" 100 10; Engine.mkOrder 2 "SELL" 100 5;
     Engine.mkOrder 3 "BUY" 100 4; Engine.mkOrder 4 "BUY" 100 5]
  = Some ([Engine.mkLine "BUY" 4 100; Engine.mkLine "BUY" 5 100],
          {| Engine.bids := [];
             Engine.asks := [(100, [Engine.mkOrder 1 "SELL" 100 6])] |}).
Proof. split; vm_compute; reflexivity. Qed.

(** ** Scenarios on the map-based book *)

Lemma two_bids_reached :
  match Interview.add_order (Interview.create "X")
                            Interview.BUY Interview.LIMIT 50 10 with
  | Some (_, b1) =>
      Interview.add_order b1 Interview.BUY Interview.LIMIT 50 10
  | None => None
  end = Some (2, two_bids).
Proof. vm_compute. reflexivity. Qed.

Lemma two_bids_wf : book_wf two_bids.
Proof.
  split; [|split].
  - intros [] k lvl c Hin Hc; cbn in Hin.
    + apply list_elem_of_singleton in Hin. injection Hin as -> ->.
      cbn in Hc. apply elem_of_cons in Hc as [->|Hc];
        [|apply list_elem_of_singleton in Hc as ->];
        eexists; (split; [reflexivity|]); now repeat split.
    + now apply not_elem_of_nil in Hin.
  - intros c [o Ho]. cbn in *.
    destruct (decide (c = 1)) as [->|H1]; [lia|].
    destruct (decide (c = 2)) as [->|H2]; [lia|].
    now rewrite !lookup_insert_ne, lookup_empty in Ho by congruence.
  - intros [] k lvl Hin; cbn in Hin.
    + apply list_elem_of_singleton in Hin. now injection Hin as -> ->.
    + now apply not_elem_of_nil in Hin.
Qed.

(** ** Trade prices *)

(** C7. Every trade is priced at the resting order's price.  In the array
    book each trade that [addOrder] emits carries the price and the id of
    a node that was linked at the best level of the other side before the
    order came in.  In the map-based book each trade that [add_order]
    appends carries the id and the price of an order that rested on the
    other side. *)
Theorem trades_priced_at_resting_order
        (b : t) (o : Order)
        (ib : Interview.t) (s : Interview.Side) (ty : Interview.OrderType)
        (p q : Z) :
  book_wf ib ->
  (exists trades b1,
      addOrder b o = Some (true, trades, b1) /\
      forall tr, tr ∈ trades ->
        exists node,
          node ∈ contra_nodes b o /\
          trade_price tr = price (deref b node) /\
          match side (deref b node) with
          | BUY => buy_order_id tr
          | SELL => sell_order_id tr
          end = order_id (deref b node)) /\
  (exists ib1 new,
      Interview.add_order ib s ty p q
      = Some (Interview.next_order_id_ ib, ib1) /\
      Interview.trades_ ib1 = Interview.trades_ ib ++ new /\
      forall tr, tr ∈ new ->
        exists c resting,
          Interview.orders_ ib !! c = Some resting /\
          Interview.side resting = Interview.contra s /\
          Interview.trade_price tr = Interview.price resting /\
          passive_id s tr = c).
Proof.
  intros Hwf. split.
  - unfold addOrder, matchOrder.
    destruct (match_loop_total (match_fuel b o) b o) as [[[o1 ts] b1] Hloop].
    { intros _. rewrite match_fuel_eq. lia. }
    rewrite Hloop. eexists ts, _. split; [reflexivity|].
    pose proof (match_loop_trades _ _ _ _ _ _ Hloop) as Hall.
    rewrite Forall_forall in Hall. intros tr Hin.
    destruct (Hall tr Hin) as (node & qty & Hnode & ->).
    exists node. split; [assumption|]. rewrite trade_with_eq.
    cbn [trade_price buy_order_id sell_order_id].
    split; [reflexivity|]. now destruct (side (deref b node)).
  - destruct (add_order_spec ib s ty p q (book_wf_next_fresh ib _ Hwf))
      as (ib1 & new & Hadd & Htr & Hall & _).
    exists ib1, new. split; [assumption|]. split; [assumption|].
    rewrite Forall_forall in Hall. intros tr Hin.
    destruct (Hall tr Hin) as (k & lvl & c & Hk & Hc & Hprice & Hid).
    destruct Hwf as [Hrest _].
    destruct (Hrest _ k lvl c Hk Hc) as (resting & Hres & Hside & Hp & Hoid).
    exists c, resting. split; [assumption|]. split; [assumption|].
    split; [congruence|].
    rewrite Hid. unfold Interview.deref. now rewrite Hres.
Qed.

Lemma trades_priced_at_resting_order_witness :
  book_wf two_bids /\
  exists ib1 new,
    Interview.add_order two_bids Interview.SELL Interview.LIMIT 49 5
    = Some (3, ib1) /\
    Interview.trades_ ib1 = new /\
    forall tr, tr ∈ new ->
      exists c resting,
        Interview.orders_ two_bids !! c = Some resting /\
        Interview.trade_price tr = Interview.price resting.
Proof.
  split; [exact two_bids_wf|].
  destruct (trades_priced_at_resting_order (create 10000) (buy 1 10050 100)
              two_bids Interview.SELL Interview.LIMIT 49 5 two_bids_wf)
    as [_ (ib1 & new & Hadd & Htr & Hall)].
  exists ib1, new. split; [exact Hadd|]. split; [exact Htr|].
  intros tr Hin. destruct (Hall tr Hin) as (c & resting & Hres & _ & Hp & _).
  exists c, resting. split; [exact Hres | exact Hp].
Defined.

(** A sell at 10049 that hits a resting bid at 10050 trades at 10050. *)
Lemma hft_sell_below_bid_trades_at_bid :
  match addOrders (create 10000) [buy 1 10050 100; sell 2 10049 30] with
  | Some (trades, b) =>
      trades = [mkTrade 1 2 10050 30] /\ best_bid_ b = 10050 /\
      total_quantity (get_level b BUY 50) = 70
  | None => False
  end.
Proof.
  assert (Hrun :
    match addOrders (create 10000) [buy 1 10050 100; sell 2 10049 30] with
    | Some (trades, b) =>
        Some (trades, best_bid_ b, total_quantity (get_level b BUY 50))
    | None => None
    end = Some ([mkTrade 1 2 10050 30], 10050, 70))
    by (vm_compute; reflexivity).
  destruct (addOrders _ _) as [[trades b]|]; [|discriminate].
  injection Hrun as -> -> ->. repeat split.
Qed.

(** A sell at 49 that hits the resting bids at 50 trades at 50, with the
    older bid. *)
Lemma interview_sell_below_bid_trades_at_bid :
  match Interview.add_order two_bids Interview.SELL Interview.LIMIT 49 5 with
  | Some (_, b1) => Interview.trades_ b1 = [Interview.mkTrade 1 3 50 5]
  | None => False
  end.
Proof. vm_compute. reflexivity. Qed.

(** ** Zero quantity *)

(** C9 (as stated) fails: neither book rejects a submission of quantity
    zero.  The array book returns [true]; the map-based book hands out an
    order id, enters the order in the directory and, when nothing crosses,
    books it. *)
Lemma zero_quantity_is_accepted :
  (exists b1, addOrder (create 10000) (buy 1 10100 0) = Some (true, [], b1)) /\
  match Interview.add_order (Interview.create "X")
                            Interview.BUY Interview.LIMIT 101 0 with
  | Some (oid, b1) =>
      oid = 1 /\
      Interview.buy_levels_ b1 = [(101, Interview.mkLevel 101 [1] 0)] /\
      is_Some (Interview.orders_ b1 !! 1)
  | None => False
  end.
Proof.
  split.
  - eexists. unfold addOrder, matchOrder.
    rewrite match_fuel_eq. cbn [match_loop]. rewrite match_cond_zero by reflexivity.
    reflexivity.
  - vm_compute. repeat split. eauto.
Qed.

(** C9 (amended). A submission of quantity zero is not rejected; no
    admission check on the quantity exists.  In the array book [addOrder]
    returns [true], emits no trade, books no node and leaves both ladders,
    the directory, the node memory and the pool as they were; only the
    cached best prices are recomputed from the ladders.  In the map-based
    book [add_order] returns the next order id and enters the order in the
    directory. *)
Theorem zero_quantity_not_rejected
        (b : t) (o : Order)
        (ib : Interview.t) (s : Interview.Side) (ty : Interview.OrderType)
        (p : Z) :
  quantity o = 0 -> book_wf ib ->
  (addOrder b o = Some (true, [], updateBestPrices b) /\
   bid_levels_ (updateBestPrices b) = bid_levels_ b /\
   ask_levels_ (updateBestPrices b) = ask_levels_ b /\
   order_map_ (updateBestPrices b) = order_map_ b /\
   node_mem_ (updateBestPrices b) = node_mem_ b /\
   order_pool_ (updateBestPrices b) = order_pool_ b) /\
  (exists ib1,
      Interview.add_order ib s ty p 0
      = Some (Interview.next_order_id_ ib, ib1) /\
      Interview.orders_ ib !! Interview.next_order_id_ ib = None /\
      is_Some (Interview.orders_ ib1 !! Interview.next_order_id_ ib)).
Proof.
  intros Hq Hwf. split.
  - split; [|now repeat split].
    unfold addOrder, matchOrder. rewrite match_fuel_eq. cbn [match_loop].
    rewrite match_cond_zero by assumption. now rewrite Hq.
  - destruct (add_order_spec ib s ty p 0 (book_wf_next_fresh ib _ Hwf))
      as (ib1 & new & Hadd & _ & _ & _ & _ & Hdom & _).
    exists ib1. split; [assumption|].
    split; [now apply book_wf_next_unused|assumption].
Qed.

Lemma zero_quantity_not_rejected_witness :
  quantity (sell 9 10101 0) = 0 /\ book_wf two_bids /\
  addOrder one_ask_book (sell 9 10101 0)
  = Some (true, [], updateBestPrices one_ask_book) /\
  exists ib1,
    Interview.add_order two_bids Interview.SELL Interview.MARKET 0 0
    = Some (3, ib1).
Proof.
  split; [reflexivity|]. split; [exact two_bids_wf|].
  destruct (zero_quantity_not_rejected one_ask_book (sell 9 10101 0)
              two_bids Interview.SELL Interview.MARKET 0
              eq_refl two_bids_wf)
    as [(Hadd & _) (ib1 & Hiv & _)].
  split; [exact Hadd|]. exists ib1. exact Hiv.
Defined.

(** ** Modify *)

(** C5 (as stated) fails on both books.  In the array book a quantity
    increase is done in place: the order keeps its node, its id and its
    place ahead of the younger order.  In the map-based book a quantity
    reduction at the same price is a cancel and a new order: order 1 is
    cancelled and its replacement, order 3, queues behind order 2. *)
Lemma modify_neither_in_place_nor_replace :
  match addOrders (create 10000) [buy 1 10050 10; buy 2 10050 10] with
  | Some (_, b) =>
      let b1 := snd (modifyOrder b 1 50) in
      fst (modifyOrder b 1 50) = true /\
      map (deref b) (nodes (get_level b BUY 50))
      = [buy 1 10050 10; buy 2 10050 10] /\
      map (deref b1) (nodes (get_level b1 BUY 50))
      = [buy 1 10050 50; buy 2 10050 10] /\
      order_map_ b1 !! 1 = order_map_ b !! 1
  | None => False
  end /\
  match Interview.modify_order two_bids 1 50 5 with
  | Some (ok, b1) =>
      ok = true /\
      Interview.buy_levels_ b1 = [(50, Interview.mkLevel 50 [2; 3] 15)] /\
      Interview.status (Interview.deref b1 1) = Interview.CANCELLED /\
      Interview.quantity (Interview.deref b1 3) = 5
  | None => False
  end.
Proof.
  split.
  - assert (Hrun :
      match addOrders (create 10000) [buy 1 10050 10; buy 2 10050 10] with
      | Some (_, b) =>
          let b1 := snd (modifyOrder b 1 50) in
          Some (fst (modifyOrder b 1 50),
                map (deref b) (nodes (get_level b BUY 50)),
                map (deref b1) (nodes (get_level b1 BUY 50)),
                order_map_ b1 !! 1, order_map_ b !! 1)
      | None => None
      end = Some (true, [buy 1 10050 10; buy 2 10050 10],
                  [buy 1 10050 50; buy 2 10050 10],
                  Some (0%N, 0%N), Some (0%N, 0%N)))
      by (vm_compute; reflexivity).
    destruct (addOrders _ _) as [[trades b]|]; [|discriminate].
    cbv zeta in *. injection Hrun as H1 H2 H3 H4 H5.
    split; [exact H1|]. split; [exact H2|]. split; [exact H3|].
    transitivity (Some (0%N, 0%N)); [exact H4 | symmetry; exact H5].
  - vm_compute. repeat split.
Qed.

(** C5 (amended). In the array book [modifyOrder] takes an order id and
    a new quantity and no price: it never unlinks a node and never
    assigns an id.  For every new quantity, larger or smaller, every
    level keeps its nodes in their order, the directory and the pool stay
    as they are, and when it returns [true] the order's node holds the
    new quantity.  In the map-based book [modify_order] on an active
    order always cancels it and submits a new order: the old entry of the
    directory becomes [CANCELLED], and the order with the new price and
    quantity is entered under the next order id, which was not in use. *)
Theorem modify_in_place_or_cancel_replace
        (b : t) (id new_quantity : Z)
        (ib : Interview.t) (oid p q : Z) (old : Interview.Order) :
  book_wf ib -> Interview.orders_ ib !! oid = Some old ->
  Interview.is_active old = true ->
  (let b1 := snd (modifyOrder b id new_quantity) in
   (forall s idx, nodes (get_level b1 s idx) = nodes (get_level b s idx)) /\
   order_map_ b1 = order_map_ b /\
   order_pool_ b1 = order_pool_ b /\
   (fst (modifyOrder b id new_quantity) = true ->
    exists node, order_map_ b !! id = Some node /\
                 quantity (deref b1 node) = new_quantity)) /\
  (exists ib1,
      Interview.modify_order ib oid p q = Some (true, ib1) /\
      Interview.orders_ ib1 !! oid
      = Some (Interview.set_status old Interview.CANCELLED) /\
      Interview.orders_ ib !! Interview.next_order_id_ ib = None /\
      (exists new,
          Interview.orders_ ib1 !! Interview.next_order_id_ ib = Some new /\
          Interview.order_id new = Interview.next_order_id_ ib /\
          Interview.side new = Interview.side old /\
          Interview.type new = Interview.type old /\
          Interview.price new = p /\ Interview.quantity new = q)).
Proof.
  intros Hwf Hold Hact. split.
  - destruct (modifyOrder_in_place b id new_quantity)
      as (Hnodes & Hmap & Hpool & _ & Hq).
    cbv zeta. repeat split; assumption.
  - destruct (modify_order_spec ib oid p q old Hwf Hold Hact)
      as (ib1 & Hmod & Hcancelled & Hunused & [new Hnew] & Hsame & _).
    exists ib1. split; [assumption|]. split; [assumption|].
    split; [assumption|]. exists new. split; [assumption|].
    unfold Interview.deref in Hsame. rewrite Hnew in Hsame.
    cbn [default] in Hsame.
    destruct Hsame as (H1 & H2 & H3 & H4 & H5). now repeat split.
Qed.

Lemma modify_in_place_or_cancel_replace_witness :
  book_wf two_bids /\
  Interview.orders_ two_bids !! 1
  = Some (Interview.mkOrder 1 "X" Interview.BUY Interview.LIMIT 50 10 0
                            Interview.NEW) /\
  exists ib1,
    Interview.modify_order two_bids 1 50 5 = Some (true, ib1) /\
    exists new,
      Interview.orders_ ib1 !! 3 = Some new /\ Interview.quantity new = 5.
Proof.
  split; [exact two_bids_wf|]. split; [reflexivity|].
  destruct (modify_in_place_or_cancel_replace (create 10000) 1 50
              two_bids 1 50 5 _ two_bids_wf eq_refl eq_refl)
    as [_ (ib1 & Hmod & _ & _ & new & Hnew & _ & _ & _ & _ & Hq)].
  exists ib1. split; [exact Hmod|]. exists new. split; [exact Hnew|exact Hq].
Defined.

(** ** The same scenarios on the sibling books *)

(** The map-based book walks the three ask levels of the scenario of C2:
    trades 30 @ 101, 40 @ 102, 30 @ 103, leaving 20 @ 103. *)
Lemma interview_walks_the_book :
  match Interview.add_order (Interview.create "X")
                            Interview.SELL Interview.LIMIT 101 30 with
  | Some (_, b1) =>
      match Interview.add_order b1 Interview.SELL Interview.LIMIT 102 40 with
      | Some (_, b2) =>
          match Interview.add_order b2 Interview.SELL Interview.LIMIT 103 50 with
          | Some (_, b3) =>
              match Interview.add_order b3 Interview.BUY Interview.MARKET 0 100 with
              | Some (_, b4) =>
                  Interview.trades_ b4
                  = [Interview.mkTrade 4 1 101 30; Interview.mkTrade 4 2 102 40;
                     Interview.mkTrade 4 3 103 30] /\
                  Interview.sell_levels_ b4
                  = [(103, Interview.mkLevel 103 [3] 20)] /\
                  Interview.remaining_quantity (Interview.deref b4 3) = 20
              | None => False
              end
          | None => False
          end
      | None => False
      end
  | None => False
  end.
Proof. vm_compute. repeat split. Qed.

(** The array book leaves a partly filled head where it is: with asks of
    10 (id 1) and 5 (id 2) resting at 10100, a buy of 4 leaves the level
    reading id 1 with 6, then id 2 with 5. *)
Lemma hft_partial_fill_stays_in_front :
  match addOrders (create 10000)
                  [sell 1 10100 10; sell 2 10100 5; buy 3 10100 4] with
  | Some (trades, b) =>
      trades = [mkTrade 3 1 10100 4] /\
      map (deref b) (nodes (get_level b SELL 100))
      = [sell 1 10100 6; sell 2 10100 5]
  | None => False
  end.
Proof.
  assert (Hrun :
    match addOrders (create 10000)
                    [sell 1 10100 10; sell 2 10100 5; buy 3 10100 4] with
    | Some (trades, b) =>
        Some (trades, map (deref b) (nodes (get_level b SELL 100)))
    | None => None
    end = Some ([mkTrade 3 1 10100 4], [sell 1 10100 6; sell 2 10100 5]))
    by (vm_compute; reflexivity).
  destruct (addOrders _ _) as [[trades b]|]; [|discriminate].
  injection Hrun as -> ->. split; reflexivity.
Qed.

End Claims.

(** * Further properties of the queues, the pool and the array book *)

(** ** The rings as FIFO queues *)

Section RingFacts.
Context {T : Type}.
Variable Size : Z.
Hypothesis Size_range : 0 < Size < 2 ^ 64.

Lemma mod_add_inj (h i j : Z) :
  0 <= i < Size -> 0 <= j < Size ->
  (h + i) mod Size = (h + j) mod Size -> i = j.
Proof.
  intros Hi Hj Heq.
  pose proof (Z.div_mod (h + i) Size ltac:(lia)) as H1.
  pose proof (Z.div_mod (h + j) Size ltac:(lia)) as H2.
  rewrite Heq in H1.
  assert (Hk : i - j = Size * ((h + i) / Size - (h + j) / Size)) by lia.
  destruct (Z.eq_dec ((h + i) / Size - (h + j) / Size) 0) as [E|E]; [lia|].
  nia.
Qed.

Lemma mod_succ (h n : Z) :
  ((h + 1) mod Size + n) mod Size = (h + (n + 1)) mod Size.
Proof.
  rewrite Z.add_mod_idemp_l by lia. f_equal. lia.
Qed.

Lemma ring_size (buffer : list T) (h t : Z) (items : list T) :
  ring_holds Size buffer h t items ->
  (if t >=? h then t - h else wrap64 (wrap64 (Size - h) + t))
  = Z.of_nat (length items).
Proof.
  intros (Hh & Ht & _ & Hn & Htail & _).
  assert (Hd : (t - h) mod Size = Z.of_nat (length items)).
  { rewrite Htail, Zminus_mod_idemp_l.
    replace (h + Z.of_nat (length items) - h) with (Z.of_nat (length items)) by lia.
    apply Z.mod_small. lia. }
  destruct (Z.geb_spec t h) as [Hge|Hlt].
  - rewrite <- Hd. symmetry. apply Z.mod_small. lia.
  - rewrite (wrap64_small (Size - h)) by lia. rewrite wrap64_small by lia.
    rewrite <- Hd. apply Z.mod_unique with (q := -1); lia.
Qed.

Lemma ring_empty (buffer : list T) (h t : Z) (items : list T) :
  ring_holds Size buffer h t items -> (h = t <-> items = []).
Proof.
  intros (Hh & Ht & _ & Hn & Htail & _). split.
  - intros <-. destruct items as [|x items]; [reflexivity|exfalso].
    assert (0 = Z.of_nat (length (x :: items))); [|cbn [length] in *; lia].
    apply (mod_add_inj h); [lia|lia|].
    rewrite Z.add_0_r, <- Htail. apply Z.mod_small. lia.
  - intros ->. cbn [length] in Htail. rewrite Z.add_0_r in Htail.
    rewrite Htail. symmetry. apply Z.mod_small. lia.
Qed.

Lemma ring_full (buffer : list T) (h t : Z) (items : list T) :
  ring_holds Size buffer h t items ->
  ((t + 1) mod Size = h <-> Z.of_nat (length items) = Size - 1).
Proof.
  intros (Hh & Ht & _ & Hn & Htail & _).
  assert (Hnext : (t + 1) mod Size = (h + (Z.of_nat (length items) + 1)) mod Size).
  { rewrite Htail, Z.add_mod_idemp_l by lia. f_equal. lia. }
  rewrite Hnext. split.
  - intros Heq.
    destruct (Z.eq_dec (Z.of_nat (length items)) (Size - 1)) as [E|E]; [assumption|].
    exfalso. assert (Z.of_nat (length items) + 1 = 0); [|lia].
    apply (mod_add_inj h); [lia|lia|].
    rewrite Heq, Z.add_0_r. symmetry. apply Z.mod_small. lia.
  - intros ->. replace (h + (Size - 1 + 1)) with (h + 1 * Size) by lia.
    rewrite Z.mod_add by lia. apply Z.mod_small. lia.
Qed.

Lemma ring_push (buffer : list T) (h t : Z) (items : list T) (x : T) :
  ring_holds Size buffer h t items ->
  Z.of_nat (length items) < Size - 1 ->
  ring_holds Size (<[Z.to_nat t := x]> buffer) h ((t + 1) mod Size) (items ++ [x]).
Proof.
  intros (Hh & Ht & Hlen & Hn & Htail & Hslots) Hroom.
  repeat split; try lia.
  - apply Z.mod_pos_bound. lia.
  - apply Z.mod_pos_bound. lia.
  - now rewrite length_insert.
  - rewrite length_app. cbn [length]. lia.
  - rewrite length_app. cbn [length].
    rewrite Htail, Z.add_mod_idemp_l by lia. f_equal. lia.
  - intros i y Hy.
    destruct (Nat.lt_ge_cases i (length items)) as [Hi|Hi].
    + rewrite lookup_app_l in Hy by assumption.
      rewrite list_lookup_insert_ne; [now apply Hslots|].
      intros Heq. apply Z2Nat.inj in Heq;
        [|lia|apply Z.mod_pos_bound; lia].
      rewrite Htail in Heq.
      apply mod_add_inj in Heq; lia.
    + rewrite lookup_app_r in Hy by assumption.
      destruct (i - length items)%nat as [|n] eqn:Hsub; [|now destruct n].
      cbn in Hy. injection Hy as <-.
      assert (i = length items) by lia. subst i.
      rewrite <- Htail. apply list_lookup_insert_eq. lia.
Qed.

Lemma ring_pop (buffer : list T) (h t : Z) (x : T) (items : list T) :
  ring_holds Size buffer h t (x :: items) ->
  buffer !! Z.to_nat h = Some x /\
  ring_holds Size buffer ((h + 1) mod Size) t items.
Proof.
  intros (Hh & Ht & Hlen & Hn & Htail & Hslots). cbn [length] in *. split.
  - specialize (Hslots 0%nat x eq_refl).
    now rewrite Z.add_0_r, Z.mod_small in Hslots by lia.
  - repeat split; try lia.
    + apply Z.mod_pos_bound. lia.
    + apply Z.mod_pos_bound. lia.
    + rewrite mod_succ, Htail. f_equal. lia.
    + intros i y Hy. rewrite mod_succ.
      specialize (Hslots (S i) y Hy).
      now replace (Z.of_nat i + 1) with (Z.of_nat (S i)) by lia.
Qed.

Lemma ring_create (init : T) :
  ring_holds Size (replicate (Z.to_nat Size) init) 0 0 [].
Proof.
  split; [lia|]. split; [lia|]. split; [apply length_replicate|].
  split; [cbn; lia|]. split; [reflexivity|].
  intros i x Hx. discriminate.
Qed.

End RingFacts.

Section QueueRefinement.
Context {T : Type}.

Lemma lfq_push_holds (k Size : Z) (q : LockFreeQueue.t T) (items : list T) (x : T) :
  0 <= k < 64 -> Size = 2 ^ k -> lfq_holds Size q items ->
  (Z.of_nat (length items) < Size - 1 ->
   exists q1, LockFreeQueue.push Size q x = (true, q1) /\
              lfq_holds Size q1 (items ++ [x])) /\
  (Z.of_nat (length items) = Size - 1 -> LockFreeQueue.push Size q x = (false, q)).
Proof.
  intros Hk HS Hq. pose proof (Size_bounds k Size Hk HS) as Hb.
  pose proof Hq as (Hh & Ht & _).
  unfold LockFreeQueue.push. rewrite (lfq_next_index k Size Hk HS) by assumption.
  pose proof (ring_full Size Hb _ _ _ _ Hq) as Hfull.
  destruct (Z.eqb_spec ((LockFreeQueue.tail_ q + 1) mod Size) (LockFreeQueue.head_ q))
    as [Heq|Hne]; split; intros Hlen.
  - apply Hfull in Heq. lia.
  - reflexivity.
  - eexists. split; [reflexivity|]. now apply ring_push.
  - apply Hfull in Hlen. contradiction.
Qed.

Lemma lfq_pop_holds (k Size : Z) (q : LockFreeQueue.t T) (items : list T) :
  0 <= k < 64 -> Size = 2 ^ k -> lfq_holds Size q items ->
  match items with
  | [] => LockFreeQueue.pop Size q = (None, q)
  | y :: rest =>
      exists q1, LockFreeQueue.pop Size q = (Some y, q1) /\ lfq_holds Size q1 rest
  end.
Proof.
  intros Hk HS Hq. pose proof (Size_bounds k Size Hk HS) as Hb.
  pose proof Hq as (Hh & Ht & _).
  pose proof (ring_empty Size Hb _ _ _ _ Hq) as Hempty.
  unfold LockFreeQueue.pop. rewrite (lfq_next_index k Size Hk HS) by assumption.
  destruct items as [|y rest].
  - destruct (Z.eqb_spec (LockFreeQueue.head_ q) (LockFreeQueue.tail_ q)) as [_|Hne];
      [reflexivity|]. now destruct Hne; apply Hempty.
  - destruct (Z.eqb_spec (LockFreeQueue.head_ q) (LockFreeQueue.tail_ q)) as [Heq|_].
    { apply Hempty in Heq. discriminate. }
    destruct (ring_pop Size Hb _ _ _ _ _ Hq) as [Hfront Hrest].
    eexists. split; [now rewrite Hfront|exact Hrest].
Qed.

Lemma spsc_enqueue_holds (Size : Z) (q : SPSCQueue.t T) (items : list T) (x : T) :
  0 < Size < 2 ^ 64 -> spsc_holds Size q items ->
  (Z.of_nat (length items) < Size - 1 ->
   exists q1, SPSCQueue.try_enqueue Size q x = (true, q1) /\
              spsc_holds Size q1 (items ++ [x])) /\
  (Z.of_nat (length items) = Size - 1 ->
   exists q1, SPSCQueue.try_enqueue Size q x = (false, q1) /\
              spsc_holds Size q1 items).
Proof.
  intros Hb (Hq & (behind & Hb0 & Hb1 & Hch) & Hseen).
  pose proof Hq as (Hh & Ht & _ & _ & Htail & _).
  pose proof (ring_full Size Hb _ _ _ _ Hq) as Hfull.
  unfold SPSCQueue.try_enqueue.
  rewrite (wrap64_small (SPSCQueue.tail_ q + 1)) by lia.
  set (next := (SPSCQueue.tail_ q + 1) mod Size) in *.
  assert (Hself : (SPSCQueue.head_ q - 0) mod Size = SPSCQueue.head_ q)
    by (rewrite Z.sub_0_r; apply Z.mod_small; lia).
  destruct (Z.eqb_spec next (SPSCQueue.cached_head_ q)) as [Hc|Hc];
    cbn [andb SPSCQueue.set_cached_head SPSCQueue.cached_head_
         SPSCQueue.head_ SPSCQueue.tail_ SPSCQueue.buffer_ SPSCQueue.cached_tail_].
  - destruct (Z.eqb_spec next (SPSCQueue.head_ q)) as [Hf|Hf]; split; intros Hlen.
    + apply Hfull in Hf. lia.
    + eexists. split; [reflexivity|]. split; [exact Hq|]. split; [|exact Hseen].
      exists 0. cbn [SPSCQueue.cached_head_ SPSCQueue.head_]. split; [lia|].
      split; [lia|]. now symmetry.
    + eexists. split; [reflexivity|]. split; [|split].
      * now apply ring_push.
      * exists 0. cbn [SPSCQueue.cached_head_ SPSCQueue.head_].
        rewrite length_app. cbn [length]. split; [lia|]. split; [lia|]. now symmetry.
      * destruct Hseen as (seen & Hs & Hct). exists seen.
        cbn [SPSCQueue.cached_tail_ SPSCQueue.head_].
        rewrite length_app. cbn [length]. split; [lia|exact Hct].
    + apply Hfull in Hlen. contradiction.
  - split; intros Hlen.
    + eexists. split; [reflexivity|]. split; [|split].
      * now apply ring_push.
      * exists behind. cbn [SPSCQueue.cached_head_ SPSCQueue.head_].
        rewrite length_app. cbn [length]. split; [lia|]. split; [|exact Hch].
        destruct (Z.eq_dec (behind + Z.of_nat (length items)) (Size - 1)) as [E|E]; [|lia].
        exfalso. apply Hc. unfold next. rewrite Hch, Htail.
        rewrite Z.add_mod_idemp_l by lia.
        replace (SPSCQueue.head_ q + Z.of_nat (length items) + 1)
          with (SPSCQueue.head_ q - behind + 1 * Size) by lia.
        apply Z.mod_add. lia.
      * destruct Hseen as (seen & Hs & Hct). exists seen.
        cbn [SPSCQueue.cached_tail_ SPSCQueue.head_].
        rewrite length_app. cbn [length]. split; [lia|exact Hct].
    + exfalso. apply Hc. assert (behind = 0) by lia. subst behind.
      rewrite Hch, Hself. now apply Hfull.
Qed.

Lemma spsc_dequeue_holds (Size : Z) (q : SPSCQueue.t T) (items : list T) :
  0 < Size < 2 ^ 64 -> spsc_holds Size q items ->
  match items with
  | [] => exists q1, SPSCQueue.try_dequeue Size q = (None, q1) /\
                     spsc_holds Size q1 []
  | y :: rest =>
      exists q1, SPSCQueue.try_dequeue Size q = (Some y, q1) /\
                 spsc_holds Size q1 rest
  end.
Proof.
  intros Hb (Hq & (behind & Hb0 & Hb1 & Hch) & (seen & Hs & Hct)).
  pose proof Hq as (Hh & Ht & _ & Hn & Htail & _).
  pose proof (ring_empty Size Hb _ _ _ _ Hq) as Hempty.
  unfold SPSCQueue.try_dequeue.
  rewrite (wrap64_small (SPSCQueue.head_ q + 1)) by lia.
  assert (Hseen0 : SPSCQueue.head_ q = SPSCQueue.cached_tail_ q <-> seen = 0).
  { rewrite Hct. split.
    - intros Heq. symmetry. apply (mod_add_inj Size Hb (SPSCQueue.head_ q)); [lia|lia|].
      rewrite <- Heq, Z.add_0_r. apply Z.mod_small. lia.
    - intros ->. rewrite Z.add_0_r. symmetry. apply Z.mod_small. lia. }
  assert (Hbehind : forall d,
             ((SPSCQueue.head_ q + 1) mod Size - (d + 1)) mod Size
             = (SPSCQueue.head_ q - d) mod Size).
  { intros d. rewrite Zminus_mod_idemp_l. f_equal. lia. }
  destruct items as [|y rest].
  - cbn [length] in *. assert (seen = 0) by lia. subst seen.
    assert (Heq : SPSCQueue.head_ q = SPSCQueue.tail_ q) by now apply Hempty.
    destruct (Z.eqb_spec (SPSCQueue.head_ q) (SPSCQueue.cached_tail_ q)) as [_|Hne];
      [|now destruct Hne; apply Hseen0].
    cbn [andb SPSCQueue.set_cached_tail SPSCQueue.cached_tail_].
    destruct (Z.eqb_spec (SPSCQueue.head_ q) (SPSCQueue.tail_ q)) as [_|Hne];
      [|contradiction].
    eexists. split; [reflexivity|]. split; [exact Hq|]. split.
    + exists behind. cbn [SPSCQueue.cached_head_ SPSCQueue.head_ length]. auto.
    + exists 0. cbn [SPSCQueue.cached_tail_ SPSCQueue.head_ length
                     SPSCQueue.set_cached_tail].
      split; [lia|]. rewrite Z.add_0_r, <- Heq. symmetry. apply Z.mod_small. lia.
  - destruct (ring_pop Size Hb _ _ _ _ _ Hq) as [Hfront Hrest].
    cbn [length] in *.
    assert (Hne : SPSCQueue.head_ q <> SPSCQueue.tail_ q)
      by (intros Heq; apply Hempty in Heq; discriminate).
    destruct (Z.eqb_spec (SPSCQueue.head_ q) (SPSCQueue.cached_tail_ q)) as [Hc|Hc];
      cbn [andb SPSCQueue.set_cached_tail SPSCQueue.cached_tail_
           SPSCQueue.head_ SPSCQueue.tail_ SPSCQueue.buffer_ SPSCQueue.cached_head_].
    + destruct (Z.eqb_spec (SPSCQueue.head_ q) (SPSCQueue.tail_ q)) as [|_];
        [contradiction|].
      eexists. split; [now rewrite Hfront|]. split; [exact Hrest|]. split.
      * exists (behind + 1). cbn [SPSCQueue.cached_head_ SPSCQueue.head_].
        split; [lia|]. split; [lia|]. now rewrite Hbehind.
      * exists (Z.of_nat (length rest)). cbn [SPSCQueue.cached_tail_ SPSCQueue.head_].
        split; [lia|]. rewrite (mod_succ Size Hb), Htail. f_equal. lia.
    + eexists. split; [now rewrite Hfront|]. split; [exact Hrest|]. split.
      * exists (behind + 1). cbn [SPSCQueue.cached_head_ SPSCQueue.head_].
        split; [lia|]. split; [lia|]. now rewrite Hbehind.
      * exists (seen - 1). cbn [SPSCQueue.cached_tail_ SPSCQueue.head_].
        assert (seen <> 0) by (intros E; now apply Hc, Hseen0).
        split; [lia|]. rewrite (mod_succ Size Hb), Hct. f_equal. lia.
Qed.

End QueueRefinement.

(** X1. [LockFreeQueue] is a first-in first-out queue of [Size - 1]
    places.  A new queue holds nothing.  When the queue holds [items]
    (oldest first): [size] is their number and [empty] tells whether there
    are none; with a free place [push] succeeds and puts the item behind
    the others; with [Size - 1] items queued [push] refuses and leaves the
    queue as it is; [pop] hands out the oldest item and keeps the others
    in their order, and on the queue that holds nothing it returns
    [nullopt] and leaves the queue as it is. *)
Theorem lock_free_queue_is_fifo
        (T : Type) (k Size : Z) (init x : T)
        (q : LockFreeQueue.t T) (items : list T) :
  0 <= k < 64 -> Size = 2 ^ k -> lfq_holds Size q items ->
  lfq_holds Size (LockFreeQueue.create Size init) [] /\
  LockFreeQueue.size Size q = Z.of_nat (length items) /\
  (LockFreeQueue.empty q = true <-> items = []) /\
  (Z.of_nat (length items) < Size - 1 ->
   exists q1, LockFreeQueue.push Size q x = (true, q1) /\
              lfq_holds Size q1 (items ++ [x])) /\
  (Z.of_nat (length items) = Size - 1 ->
   LockFreeQueue.push Size q x = (false, q)) /\
  match items with
  | [] => LockFreeQueue.pop Size q = (None, q)
  | y :: rest =>
      exists q1, LockFreeQueue.pop Size q = (Some y, q1) /\ lfq_holds Size q1 rest
  end.
Proof.
  intros Hk HS Hq. pose proof (Size_bounds k Size Hk HS) as Hb.
  split; [apply (ring_create Size Hb)|].
  split; [apply (ring_size Size Hb _ _ _ _ Hq)|].
  split.
  { unfold LockFreeQueue.empty. rewrite Z.eqb_eq.
    apply (ring_empty Size Hb _ _ _ _ Hq). }
  destruct (lfq_push_holds k Size q items x Hk HS Hq) as [Hpush Hfull].
  split; [exact Hpush|]. split; [exact Hfull|].
  apply (lfq_pop_holds k Size q items Hk HS Hq).
Qed.

Lemma lock_free_queue_is_fifo_witness :
  (0 <= 2 < 64) /\ 4 = 2 ^ 2 /\
  lfq_holds 4 (LockFreeQueue.create 4 0) [] /\
  exists q1, LockFreeQueue.push 4 (LockFreeQueue.create 4 0) 7 = (true, q1) /\
             lfq_holds 4 q1 [7].
Proof.
  assert (Hq : lfq_holds 4 (LockFreeQueue.create 4 0) [])
    by (apply (ring_create 4); lia).
  split; [lia|]. split; [reflexivity|]. split; [exact Hq|].
  destruct (lock_free_queue_is_fifo Z 2 4 0 7 (LockFreeQueue.create 4 0) []
              ltac:(lia) eq_refl Hq) as (_ & _ & _ & Hpush & _).
  apply Hpush. cbn. lia.
Defined.

(** X2. [SPSCQueue] is a first-in first-out queue of [Size - 1] places,
    also with the producer's and the consumer's cached indices out of
    date.  When the queue holds [items] (oldest first): [size] is their
    number and [empty] tells whether there are none; with a free place
    [try_enqueue] succeeds and puts the item behind the others; with
    [Size - 1] items queued it refuses and the queue holds what it held;
    [try_dequeue] hands out the oldest item and keeps the others in their
    order, and on the queue that holds nothing it returns [nullopt]. *)
Theorem spsc_queue_is_fifo
        (T : Type) (Size : Z) (init x : T)
        (q : SPSCQueue.t T) (items : list T) :
  0 < Size < 2 ^ 64 -> spsc_holds Size q items ->
  spsc_holds Size (SPSCQueue.create Size init) [] /\
  SPSCQueue.size Size q = Z.of_nat (length items) /\
  (SPSCQueue.empty q = true <-> items = []) /\
  (Z.of_nat (length items) < Size - 1 ->
   exists q1, SPSCQueue.try_enqueue Size q x = (true, q1) /\
              spsc_holds Size q1 (items ++ [x])) /\
  (Z.of_nat (length items) = Size - 1 ->
   exists q1, SPSCQueue.try_enqueue Size q x = (false, q1) /\
              spsc_holds Size q1 items) /\
  match items with
  | [] => exists q1, SPSCQueue.try_dequeue Size q = (None, q1) /\
                     spsc_holds Size q1 []
  | y :: rest =>
      exists q1, SPSCQueue.try_dequeue Size q = (Some y, q1) /\
                 spsc_holds Size q1 rest
  end.
Proof.
  intros Hb Hq. pose proof Hq as (Hring & _).
  split.
  { split; [apply (ring_create Size Hb)|]. split.
    - exists 0. cbn. split; [lia|]. split; [lia|]. now rewrite Z.mod_0_l by lia.
    - exists 0. cbn. split; [lia|]. now rewrite Z.mod_0_l by lia. }
  split; [apply (ring_size Size Hb _ _ _ _ Hring)|].
  split.
  { unfold SPSCQueue.empty. rewrite Z.eqb_eq.
    apply (ring_empty Size Hb _ _ _ _ Hring). }
  destruct (spsc_enqueue_holds Size q items x Hb Hq) as [Hpush Hfull].
  split; [exact Hpush|]. split; [exact Hfull|].
  apply (spsc_dequeue_holds Size q items Hb Hq).
Qed.

Lemma spsc_create_holds (T : Type) (Size : Z) (init : T) :
  0 < Size < 2 ^ 64 -> spsc_holds Size (SPSCQueue.create Size init) [].
Proof.
  intros Hb. split; [apply (ring_create Size Hb)|]. split.
  - exists 0. cbn. split; [lia|]. split; [lia|]. now rewrite Z.mod_0_l by lia.
  - exists 0. cbn. split; [lia|]. now rewrite Z.mod_0_l by lia.
Qed.

Lemma spsc_queue_is_fifo_witness :
  (0 < 3 < 2 ^ 64) /\ spsc_holds 3 (SPSCQueue.create 3 0) [] /\
  exists q1, SPSCQueue.try_enqueue 3 (SPSCQueue.create 3 0) 7 = (true, q1) /\
             spsc_holds 3 q1 [7].
Proof.
  assert (Hq : spsc_holds 3 (SPSCQueue.create 3 0) [])
    by (apply spsc_create_holds; lia).
  split; [lia|]. split; [exact Hq|].
  destruct (spsc_queue_is_fifo Z 3 0 7 (SPSCQueue.create 3 0) []
              ltac:(lia) Hq) as (_ & _ & _ & Hpush & _).
  apply Hpush. cbn. lia.
Defined.

(** ** The node pool never hands out a cell twice *)

Section PoolSafety.
Import MemoryPool.
Variable BlockSize : nat.
Hypothesis BlockSize_pos : (0 < BlockSize)%nat.

Lemma block_cells_NoDup (nb : N) : NoDup (block_cells BlockSize nb).
Proof.
  unfold block_cells. apply NoDup_fmap_2; [|apply NoDup_seq].
  intros i j [= H]. lia.
Qed.

Lemma block_cells_block (nb : N) (c : Cell) :
  c ∈ block_cells BlockSize nb -> fst c = nb.
Proof.
  unfold block_cells. intros Hin.
  apply list_elem_of_fmap in Hin as (i & -> & _). reflexivity.
Qed.

Lemma pool_ok_expand (p : t) (live : list Cell) :
  pool_ok p live -> pool_ok (expandPool BlockSize p) live.
Proof.
  intros [Hnd Hblk]. unfold pool_ok, expandPool. cbn [free_list_ blocks_].
  rewrite length_app. cbn [length]. split.
  - rewrite <- app_assoc. apply NoDup_app. split; [apply block_cells_NoDup|].
    split; [|exact Hnd].
    intros c Hc Hold. apply block_cells_block in Hc. apply Hblk in Hold. lia.
  - intros c Hc. rewrite <- app_assoc in Hc. apply elem_of_app in Hc as [Hc|Hc].
    + apply block_cells_block in Hc. lia.
    + apply Hblk in Hc. lia.
Qed.

Lemma pool_ok_create : pool_ok (create BlockSize) [].
Proof.
  apply pool_ok_expand. split; [constructor|].
  intros c Hc. cbn in Hc. now apply not_elem_of_nil in Hc.
Qed.

Lemma pool_ok_allocate (p : t) (live : list Cell) :
  pool_ok p live ->
  exists c p1, allocate BlockSize p = Some (c, p1) /\
               (c ∉ live) /\ (c ∉ free_list_ p1) /\ pool_ok p1 (c :: live) /\
               (forall c1, c1 ∈ free_list_ p -> c1 = c \/ c1 ∈ free_list_ p1).
Proof.
  intros Hok.
  assert (Hstep : forall p0, pool_ok p0 live ->
            forall c next, free_list_ p0 = c :: next ->
              (c ∉ live) /\ (c ∉ next) /\
              pool_ok {| free_list_ := next; blocks_ := blocks_ p0 |} (c :: live)).
  { intros p0 [Hnd Hblk] c next Hfree. rewrite Hfree in Hnd, Hblk.
    cbn [app] in Hnd. apply NoDup_cons in Hnd as [Hnot Hnd].
    split; [intros Hin; apply Hnot, elem_of_app; now right|].
    split; [intros Hin; apply Hnot, elem_of_app; now left|].
    split; cbn [free_list_ blocks_].
    - apply NoDup_app in Hnd as (Hn1 & Hdis & Hn2).
      apply NoDup_app. split; [exact Hn1|]. split.
      + intros c1 Hc1 Hc2. apply elem_of_cons in Hc2 as [->|Hc2].
        * apply Hnot, elem_of_app. now left.
        * now apply (Hdis c1).
      + apply NoDup_cons. split; [|exact Hn2].
        intros Hin. apply Hnot, elem_of_app. now right.
    - intros c1 Hc1. apply Hblk. cbn [app].
      apply elem_of_app in Hc1 as [Hc1|Hc1].
      + apply elem_of_cons. right. apply elem_of_app. now left.
      + apply elem_of_cons in Hc1 as [->|Hc1]; [now apply elem_of_cons; left|].
        apply elem_of_cons. right. apply elem_of_app. now right. }
  unfold allocate.
  destruct (free_list_ p) as [|c next] eqn:Hfree.
  - pose proof (pool_ok_expand p live Hok) as Hok1.
    destruct (free_list_ (expandPool BlockSize p)) as [|c next] eqn:Hfree1.
    { unfold expandPool in Hfree1. cbn [free_list_] in Hfree1.
      rewrite (block_cells_head BlockSize BlockSize_pos) in Hfree1. discriminate. }
    destruct (Hstep _ Hok1 c next Hfree1) as (H1 & H2 & H3).
    exists c, {| free_list_ := next; blocks_ := blocks_ (expandPool BlockSize p) |}.
    split; [reflexivity|]. split; [exact H1|]. split; [exact H2|].
    split; [exact H3|].
    intros c1 Hc1. now apply not_elem_of_nil in Hc1.
  - cbv zeta. rewrite Hfree.
    destruct (Hstep _ Hok c next Hfree) as (H1 & H2 & H3).
    exists c, {| free_list_ := next; blocks_ := blocks_ p |}.
    split; [reflexivity|]. split; [exact H1|]. split; [exact H2|].
    split; [exact H3|].
    intros c1 Hc1. apply elem_of_cons in Hc1 as [->|Hc1]; [now left|now right].
Qed.

Lemma pool_ok_deallocate (p : t) (live : list Cell) (c : Cell) :
  pool_ok p live -> c ∈ live ->
  pool_ok (deallocate p (Some c)) (filter (fun c1 => c1 ≠ c) live).
Proof.
  intros [Hnd Hblk] Hin. unfold deallocate. split; cbn [free_list_ blocks_].
  - apply NoDup_app in Hnd as (Hn1 & Hdis & Hn2). cbn [app].
    apply NoDup_cons. split.
    + intros Hc. apply elem_of_app in Hc as [Hc|Hc].
      * now apply (Hdis c).
      * apply list_elem_of_filter in Hc as [Hc _]. now apply Hc.
    + apply NoDup_app. split; [exact Hn1|]. split.
      * intros c1 Hc1 Hc2. apply list_elem_of_filter in Hc2 as [_ Hc2].
        now apply (Hdis c1).
      * now apply NoDup_filter.
  - intros c1 Hc1. apply Hblk. cbn [app] in Hc1.
    apply elem_of_cons in Hc1 as [->|Hc1]; [apply elem_of_app; now right|].
    apply elem_of_app in Hc1 as [Hc1|Hc1]; apply elem_of_app; [now left|].
    right. now apply list_elem_of_filter in Hc1 as [_ Hc1].
Qed.

End PoolSafety.

(** X3. The pool never hands out a cell that is in use.  A new pool has
    no cell in use.  As long as only cells in use are given back,
    [allocate] returns a cell that is not in use and takes it off the free
    list; [deallocate] makes the cell free again, and the next [allocate]
    returns that very cell and leaves the pool as it was before the cell
    was given back; [deallocate(nullptr)] does nothing. *)
Theorem pool_never_hands_out_a_live_cell
        (BlockSize : nat) (p : MemoryPool.t) (live : list MemoryPool.Cell) :
  (0 < BlockSize)%nat -> pool_ok p live ->
  pool_ok (MemoryPool.create BlockSize) [] /\
  (exists c p1,
      MemoryPool.allocate BlockSize p = Some (c, p1) /\
      (c ∉ live) /\ (c ∉ MemoryPool.free_list_ p1) /\ pool_ok p1 (c :: live)) /\
  (forall c,
      c ∈ live ->
      pool_ok (MemoryPool.deallocate p (Some c)) (filter (fun c1 => c1 ≠ c) live) /\
      MemoryPool.allocate BlockSize (MemoryPool.deallocate p (Some c)) = Some (c, p)) /\
  MemoryPool.deallocate p None = p.
Proof.
  intros Hpos Hok. split; [now apply pool_ok_create|]. split.
  - destruct (pool_ok_allocate BlockSize Hpos p live Hok)
      as (c & p1 & H1 & H2 & H3 & H4 & _).
    now exists c, p1.
  - split; [|reflexivity]. intros c Hc.
    split; [now apply pool_ok_deallocate|].
    destruct p as [free blocks]. reflexivity.
Qed.

Lemma pool_never_hands_out_a_live_cell_witness :
  (0 < 2)%nat /\ pool_ok (MemoryPool.create 2) [] /\
  exists c p1,
    MemoryPool.allocate 2 (MemoryPool.create 2) = Some (c, p1) /\
    pool_ok p1 [c].
Proof.
  assert (Hok : pool_ok (MemoryPool.create 2) [])
    by (apply pool_ok_create; lia).
  split; [lia|]. split; [exact Hok|].
  destruct (pool_never_hands_out_a_live_cell 2 (MemoryPool.create 2) []
              ltac:(lia) Hok) as (_ & (c & p1 & Halloc & _ & _ & Hok1) & _).
  exists c, p1. split; [exact Halloc|exact Hok1].
Defined.

(** ** The invariant of the array book *)

Section ArrayBookInvariantFacts.
Import OrderBook.

Lemma filter_ne_length (c : Cell) (l : list Cell) :
  NoDup l -> c ∈ l ->
  S (length (filter (fun c1 => c1 ≠ c) l)) = length l.
Proof.
  induction l as [|x l IH]; intros Hnd Hin; [now apply not_elem_of_nil in Hin|].
  apply NoDup_cons in Hnd as [Hx Hnd].
  destruct (decide (x = c)) as [->|Hne].
  - rewrite filter_cons_False by (intros H; now apply H).
    cbn [length]. f_equal.
    clear IH Hin. induction l as [|y l IH]; [reflexivity|].
    apply NoDup_cons in Hnd as [Hy Hnd].
    rewrite filter_cons_True.
    + cbn [length]. f_equal. apply IH; [|assumption].
      intros Hc. apply Hx. now apply list_elem_of_further.
    + intros ->. apply Hx. apply list_elem_of_here.
  - rewrite filter_cons_True by assumption. cbn [length]. f_equal.
    apply IH; [assumption|].
    apply elem_of_cons in Hin as [->|Hin]; [contradiction|assumption].
Qed.

Lemma filter_ne_not_in (c : Cell) (l : list Cell) :
  c ∉ l -> filter (fun c1 => c1 ≠ c) l = l.
Proof.
  induction l as [|x l IH]; intros Hnot; [reflexivity|].
  rewrite filter_cons_True.
  - f_equal. apply IH. intros Hin. apply Hnot. now apply list_elem_of_further.
  - intros ->. apply Hnot. apply list_elem_of_here.
Qed.

Lemma level_quantity_ext (b b1 : t) (cells : list Cell) :
  (forall c, c ∈ cells -> deref b1 c = deref b c) ->
  level_quantity b1 cells = level_quantity b cells.
Proof.
  induction cells as [|x l IH]; intros Hext; [reflexivity|].
  cbn [level_quantity foldr]. fold (level_quantity b1 l) (level_quantity b l).
  rewrite Hext by apply list_elem_of_here. f_equal.
  apply IH. intros c Hc. apply Hext. now apply list_elem_of_further.
Qed.

Lemma level_quantity_app (b : t) (l1 l2 : list Cell) :
  level_quantity b (l1 ++ l2) = level_quantity b l1 + level_quantity b l2.
Proof.
  induction l1 as [|x l IH]; [reflexivity|].
  cbn [level_quantity foldr app]. fold (level_quantity b (l ++ l2)) (level_quantity b l).
  rewrite IH. lia.
Qed.

Lemma level_quantity_filter (b : t) (c : Cell) (l : list Cell) :
  NoDup l -> c ∈ l ->
  level_quantity b (filter (fun c1 => c1 ≠ c) l)
  = level_quantity b l - quantity (deref b c).
Proof.
  induction l as [|x l IH]; intros Hnd Hin; [now apply not_elem_of_nil in Hin|].
  apply NoDup_cons in Hnd as [Hx Hnd].
  cbn [level_quantity foldr]. fold (level_quantity b l).
  destruct (decide (x = c)) as [->|Hne].
  - rewrite filter_cons_False by (intros H; now apply H).
    rewrite filter_ne_not_in by assumption. lia.
  - rewrite filter_cons_True by assumption.
    cbn [level_quantity foldr].
    fold (level_quantity b (filter (fun c1 => c1 ≠ c) l)).
    rewrite IH; [lia|assumption|].
    apply elem_of_cons in Hin as [->|Hin]; [contradiction|assumption].
Qed.

(** Rewriting the order in one cell of a level changes the sum by the
    difference of the two quantities. *)
Lemma level_quantity_update (b b1 : t) (c : Cell) (o1 : Order) (l : list Cell) :
  NoDup l -> c ∈ l ->
  deref b1 c = o1 ->
  (forall c1, c1 <> c -> deref b1 c1 = deref b c1) ->
  level_quantity b1 l = level_quantity b l - quantity (deref b c) + quantity o1.
Proof.
  induction l as [|x l IH]; intros Hnd Hin Hc Hother;
    [now apply not_elem_of_nil in Hin|].
  apply NoDup_cons in Hnd as [Hx Hnd].
  cbn [level_quantity foldr]. fold (level_quantity b1 l) (level_quantity b l).
  destruct (decide (x = c)) as [->|Hne].
  - rewrite Hc.
    rewrite (level_quantity_ext b b1 l); [lia|].
    intros c1 Hc1. apply Hother. intros ->. contradiction.
  - rewrite Hother by assumption. rewrite IH; [lia|assumption| |assumption|assumption].
    apply elem_of_cons in Hin as [->|Hin]; [contradiction|assumption].
Qed.

Lemma wrap32_idemp_l (a b : Z) : wrap32 (wrap32 a + b) = wrap32 (a + b).
Proof. unfold wrap32. now rewrite Z.add_mod_idemp_l by lia. Qed.

Lemma wrap32_idemp_sub (a b : Z) : wrap32 (wrap32 a - b) = wrap32 (a - b).
Proof. unfold wrap32. now rewrite Zminus_mod_idemp_l. Qed.

Lemma deref_Some (b : t) (c : Cell) (o : Order) :
  node_mem_ b !! c = Some o -> deref b c = o.
Proof. intros H. unfold deref. now rewrite H. Qed.

(** *** Steps that keep the invariant *)

Ltac cell_congruence := unfold Cell, MemoryPool.Cell in *; congruence.

(** A step that leaves pool, node memory, levels and directory alone. *)
Lemma inv_ext (b b1 : t) :
  book_inv b ->
  node_mem_ b1 = node_mem_ b -> order_pool_ b1 = order_pool_ b ->
  order_map_ b1 = order_map_ b ->
  (forall s idx, get_level b1 s idx = get_level b s idx) ->
  book_inv b1.
Proof.
  intros [H1 H2 H3 H4 H5 H6 H7 H8 H9] Hmem Hpool Hmap Hlev.
  assert (Hderef : forall c, deref b1 c = deref b c)
    by (intros c; unfold deref; now rewrite Hmem).
  split; intros; rewrite ?Hmem, ?Hpool, ?Hmap, ?Hlev in *; eauto.
  rewrite H7. f_equal. symmetry. apply level_quantity_ext. auto.
Qed.

(** The quantity of the order in a linked cell is rewritten, and the
    total of its level follows. *)
Lemma inv_requantify (b b1 : t) (c : Cell) (o : Order) (q1 : Z) :
  book_inv b -> node_mem_ b !! c = Some o -> 0 <= q1 < 2 ^ 32 ->
  node_mem_ b1 = <[c := set_quantity o q1]> (node_mem_ b) ->
  order_pool_ b1 = order_pool_ b -> order_map_ b1 = order_map_ b ->
  get_level b1 (side o) (price o - base_price_)
  = set_total_quantity
      (get_level b (side o) (price o - base_price_))
      (wrap32 (total_quantity (get_level b (side o) (price o - base_price_))
               - quantity o + q1)) ->
  (forall s idx, (s, idx) <> (side o, price o - base_price_) ->
                 get_level b1 s idx = get_level b s idx) ->
  book_inv b1.
Proof.
  intros [H1 H2 H3 H4 H5 H6 H7 H8 H9] Hc Hq1 Hmem Hpool Hmap Hlev Hother.
  destruct (H3 c o Hc) as (Hclink & Hon & Hqo & Hblk).
  assert (Hnodes : forall s idx, nodes (get_level b1 s idx) = nodes (get_level b s idx)).
  { intros s idx. destruct (decide ((s, idx) = (side o, price o - base_price_))) as [[= -> ->]|Hne].
    - now rewrite Hlev.
    - now rewrite Hother. }
  assert (Hderef_c : deref b1 c = set_quantity o q1)
    by (unfold deref; now rewrite Hmem, lookup_insert_eq).
  assert (Hderef : forall c1, c1 <> c -> deref b1 c1 = deref b c1)
    by (intros c1 Hne; unfold deref; now rewrite Hmem, lookup_insert_ne).
  split.
  - now rewrite Hpool.
  - intros c1 Hc1. rewrite Hpool in *. destruct (H2 c1 Hc1) as [Hnone Hb1].
    split; [|assumption]. rewrite Hmem, lookup_insert_ne; [assumption|].
    intros ->. cell_congruence.
  - intros c1 o1 Hc1. rewrite Hpool, Hmem in *.
    destruct (decide (c1 = c)) as [->|Hne].
    + rewrite lookup_insert_eq in Hc1. injection Hc1 as <-.
      cbn [side price quantity set_quantity]. rewrite Hnodes. auto.
    + rewrite lookup_insert_ne in Hc1 by cell_congruence.
      rewrite Hnodes. now apply H3.
  - intros s idx c1 Hc1. rewrite Hnodes in Hc1. rewrite Hmem.
    destruct (decide (c1 = c)) as [->|Hne].
    + destruct (H4 s idx c Hc1) as (o1 & Ho1 & Hs & Hp).
      assert (o1 = o) by cell_congruence. subst o1.
      exists (set_quantity o q1). now rewrite lookup_insert_eq.
    + rewrite lookup_insert_ne by cell_congruence. now apply (H4 s idx).
  - intros s idx. rewrite Hnodes. apply H5.
  - intros s idx.
    destruct (decide ((s, idx) = (side o, price o - base_price_))) as [[= -> ->]|Hne].
    + rewrite Hlev. cbn [order_count nodes set_total_quantity]. apply H6.
    + rewrite Hother by assumption. apply H6.
  - intros s idx.
    destruct (decide ((s, idx) = (side o, price o - base_price_))) as [[= -> ->]|Hne].
    + rewrite Hlev. cbn [total_quantity nodes set_total_quantity].
      rewrite (level_quantity_update b b1 c (set_quantity o q1)); auto.
      rewrite (deref_Some b c o Hc). cbn [quantity set_quantity].
      rewrite H7. unfold wrap32.
      rewrite <- (Z.add_mod_idemp_l (_ mod _ - _)), Zminus_mod_idemp_l,
        Z.add_mod_idemp_l by lia.
      reflexivity.
    + rewrite Hother by assumption. rewrite H7. f_equal. symmetry.
      apply level_quantity_ext. intros c1 Hc1. apply Hderef. intros ->.
      destruct (H4 s idx c Hc1) as (o1 & Ho1 & Hs & Hp).
      assert (o1 = o) by cell_congruence. subst o1. apply Hne. f_equal; [now symmetry|lia].
  - intros s idx Hne. rewrite Hnodes in Hne.
    destruct (decide ((s, idx) = (side o, price o - base_price_))) as [[= -> ->]|Hx].
    + rewrite Hlev. cbn [level_price set_total_quantity]. now apply H8.
    + rewrite Hother by assumption. now apply H8.
  - intros id c1 Hid. rewrite Hmap in Hid. rewrite Hmem.
    destruct (H9 id c1 Hid) as (o1 & Ho1 & Hoid).
    destruct (decide (c1 = c)) as [->|Hne].
    + assert (o1 = o) by cell_congruence. subst o1.
      exists (set_quantity o q1). now rewrite lookup_insert_eq.
    + exists o1. now rewrite lookup_insert_ne by cell_congruence.
Qed.

(** A linked cell whose order has no quantity left is unlinked, erased
    from the directory and given back to the pool. *)
Lemma inv_remove (b b1 : t) (c : Cell) (o : Order) :
  book_inv b -> node_mem_ b !! c = Some o -> quantity o = 0 ->
  node_mem_ b1 = delete c (node_mem_ b) ->
  order_pool_ b1 = MemoryPool.deallocate (order_pool_ b) (Some c) ->
  order_map_ b1 = delete (order_id o) (order_map_ b) ->
  get_level b1 (side o) (price o - base_price_)
  = (let level := get_level b (side o) (price o - base_price_) in
     let linked := filter (fun c1 => c1 ≠ c) (nodes level) in
     let count := wrap32 (order_count level - 1) in
     if count =? 0 then mkLevel 0 0 count linked
     else mkLevel (level_price level) (total_quantity level) count linked) ->
  (forall s idx, (s, idx) <> (side o, price o - base_price_) ->
                 get_level b1 s idx = get_level b s idx) ->
  book_inv b1.
Proof.
  intros [H1 H2 H3 H4 H5 H6 H7 H8 H9] Hc Hq0 Hmem Hpool Hmap Hlev Hother.
  destruct (H3 c o Hc) as (Hclink & Hon & Hqo & Hblk).
  set (lvl := get_level b (side o) (price o - base_price_)) in *.
  pose proof (H5 (side o) (price o - base_price_)) as Hnd. fold lvl in Hnd.
  destruct (H6 (side o) (price o - base_price_)) as [Hcnt Hcmax]. fold lvl in Hcnt, Hcmax.
  pose proof (filter_ne_length c (nodes lvl) Hnd Hclink) as Hlen.
  assert (Hcount : wrap32 (order_count lvl - 1)
                   = Z.of_nat (length (filter (fun c1 => c1 ≠ c) (nodes lvl)))).
  { rewrite wrap32_small; lia. }
  assert (Hnodes1 : nodes (get_level b1 (side o) (price o - base_price_))
                    = filter (fun c1 => c1 ≠ c) (nodes lvl)).
  { rewrite Hlev. cbv zeta. now destruct (_ =? 0). }
  assert (Hnot_other : forall s idx, (s, idx) <> (side o, price o - base_price_) ->
                                     c ∉ nodes (get_level b s idx)).
  { intros s idx Hne Hin. destruct (H4 s idx c Hin) as (o1 & Ho1 & Hs & Hp).
    assert (o1 = o) by cell_congruence. subst o1. apply Hne. f_equal; [now symmetry|lia]. }
  assert (Hderef : forall c1, c1 <> c -> deref b1 c1 = deref b c1)
    by (intros c1 Hne; unfold deref; now rewrite Hmem, lookup_delete_ne).
  split.
  - rewrite Hpool. cbn [MemoryPool.deallocate MemoryPool.free_list_].
    apply NoDup_cons. split; [|assumption].
    intros Hin. destruct (H2 c Hin) as [Hnone _]. cell_congruence.
  - intros c1 Hc1. rewrite Hpool in *.
    cbn [MemoryPool.deallocate MemoryPool.free_list_ MemoryPool.blocks_] in *.
    rewrite Hmem. apply elem_of_cons in Hc1 as [->|Hc1].
    + split; [apply lookup_delete_eq|assumption].
    + destruct (H2 c1 Hc1) as [Hnone Hb1]. split; [|assumption].
      rewrite lookup_delete_ne; [assumption|]. intros ->. cell_congruence.
  - intros c1 o1 Hc1. rewrite Hmem in Hc1. rewrite Hpool.
    cbn [MemoryPool.deallocate MemoryPool.blocks_].
    destruct (decide (c1 = c)) as [->|Hne]; [now rewrite lookup_delete_eq in Hc1|].
    rewrite lookup_delete_ne in Hc1 by cell_congruence.
    destruct (H3 c1 o1 Hc1) as (Hl & Hon1 & Hq1 & Hb1).
    split; [|auto].
    destruct (decide ((side o1, price o1 - base_price_)
                      = (side o, price o - base_price_))) as [E|E].
    + injection E as Es Ep. rewrite Es, Ep in *. rewrite Hnodes1. apply list_elem_of_filter. auto.
    + now rewrite Hother.
  - intros s idx c1 Hc1. rewrite Hmem.
    destruct (decide ((s, idx) = (side o, price o - base_price_))) as [[= -> ->]|Hne].
    + rewrite Hnodes1 in Hc1. apply list_elem_of_filter in Hc1 as [Hne1 Hc1].
      rewrite lookup_delete_ne by cell_congruence. now apply (H4 (side o) (price o - base_price_)).
    + rewrite Hother in Hc1 by assumption.
      rewrite lookup_delete_ne; [now apply (H4 s idx)|].
      intros <-. now apply (Hnot_other s idx).
  - intros s idx.
    destruct (decide ((s, idx) = (side o, price o - base_price_))) as [[= -> ->]|Hne].
    + rewrite Hnodes1. now apply NoDup_filter.
    + rewrite Hother by assumption. apply H5.
  - intros s idx.
    destruct (decide ((s, idx) = (side o, price o - base_price_))) as [[= -> ->]|Hne].
    + rewrite Hnodes1, Hlev. cbv zeta. fold lvl.
      destruct (_ =? 0); cbn [order_count]; rewrite Hcount; lia.
    + rewrite Hother by assumption. apply H6.
  - intros s idx.
    destruct (decide ((s, idx) = (side o, price o - base_price_))) as [[= -> ->]|Hne].
    + rewrite Hnodes1, Hlev. cbv zeta. fold lvl.
      assert (Hsum : level_quantity b1 (filter (fun c1 => c1 ≠ c) (nodes lvl))
                     = level_quantity b (nodes lvl)).
      { rewrite (level_quantity_ext b b1).
        - rewrite level_quantity_filter by assumption.
          rewrite (deref_Some b c o Hc). lia.
        - intros c1 Hc1. apply list_elem_of_filter in Hc1 as [Hne1 _]. now apply Hderef. }
      destruct (Z.eqb_spec (wrap32 (order_count lvl - 1)) 0) as [Hz|Hnz];
        cbn [total_quantity].
      * rewrite Hcount in Hz.
        destruct (filter (fun c1 => c1 ≠ c) (nodes lvl)); [reflexivity|].
        cbn [length] in Hz. lia.
      * rewrite Hsum. apply H7.
    + rewrite Hother by assumption. rewrite H7. f_equal. symmetry.
      apply level_quantity_ext. intros c1 Hc1. apply Hderef. intros ->.
      now apply (Hnot_other s idx).
  - intros s idx Hne.
    destruct (decide ((s, idx) = (side o, price o - base_price_))) as [[= -> ->]|Hx].
    + rewrite Hnodes1 in Hne. rewrite Hlev. cbv zeta. fold lvl.
      destruct (Z.eqb_spec (wrap32 (order_count lvl - 1)) 0) as [Hz|Hnz];
        cbn [level_price].
      * rewrite Hcount in Hz.
        destruct (filter (fun c1 => c1 ≠ c) (nodes lvl)); [contradiction|].
        cbn [length] in Hz. lia.
      * apply H8. intros Hnil. fold lvl in Hnil. rewrite Hnil in Hclink.
        now apply not_elem_of_nil in Hclink.
    + rewrite Hother in * by assumption. now apply H8.
  - intros id c1 Hid. rewrite Hmap in Hid. rewrite Hmem.
    apply lookup_delete_Some in Hid as [Hne Hid].
    destruct (H9 id c1 Hid) as (o1 & Ho1 & Hoid).
    exists o1. split; [|assumption].
    rewrite lookup_delete_ne; [assumption|]. intros <-.
    assert (o1 = o) by cell_congruence. subst o1. cell_congruence.
Qed.

(** An order of the ladder is put in a cell from the pool, linked at the
    tail of its level and entered in the directory. *)
Lemma inv_add (b b1 : t) (c : Cell) (p1 : MemoryPool.t) (o : Order) :
  book_inv b -> on_ladder (price o) -> 0 <= quantity o < 2 ^ 32 ->
  order_count (get_level b (side o) (price o - base_price_)) < 2 ^ 32 - 1 ->
  MemoryPool.allocate BlockSize (order_pool_ b) = Some (c, p1) ->
  node_mem_ b1 = <[c := o]> (node_mem_ b) ->
  order_pool_ b1 = p1 ->
  order_map_ b1 = <[order_id o := c]> (order_map_ b) ->
  get_level b1 (side o) (price o - base_price_)
  = (let level := get_level b (side o) (price o - base_price_) in
     mkLevel (price o) (wrap32 (total_quantity level + quantity o))
             (wrap32 (order_count level + 1)) (nodes level ++ [c])) ->
  (forall s idx, (s, idx) <> (side o, price o - base_price_) ->
                 get_level b1 s idx = get_level b s idx) ->
  book_inv b1.
Proof.
  intros Hinv Hon Hq Hroom Halloc Hmem Hpool Hmap Hlev Hother.
  assert (Hlive : pool_ok (order_pool_ b) (map fst (map_to_list (node_mem_ b)))).
  { destruct Hinv as [H1 H2 H3 _ _ _ _ _ _]. split.
    - apply NoDup_app. split; [assumption|]. split.
      + intros c1 Hc1 Hin. apply list_elem_of_fmap in Hin as ([c2 o2] & -> & Hin).
        apply elem_of_map_to_list in Hin. destruct (H2 _ Hc1) as [Hnone _].
        cbn in Hnone. cell_congruence.
      + apply NoDup_fst_map_to_list.
    - intros c1 Hc1. apply elem_of_app in Hc1 as [Hc1|Hc1].
      + now destruct (H2 _ Hc1).
      + apply list_elem_of_fmap in Hc1 as ([c2 o2] & -> & Hin).
        apply elem_of_map_to_list in Hin. now destruct (H3 _ _ Hin) as (_ & _ & _ & ?). }
  destruct (pool_ok_allocate BlockSize ltac:(unfold BlockSize; lia) _ _ Hlive)
    as (c' & p' & Halloc' & Hnotlive & Hnotfree & [Hnd1 Hblk1] & Hfree1).
  rewrite Halloc in Halloc'. injection Halloc' as <- <-.
  assert (Hfresh : node_mem_ b !! c = None).
  { destruct (node_mem_ b !! c) as [o1|] eqn:E; [|reflexivity].
    destruct Hnotlive. apply list_elem_of_fmap. exists (c, o1).
    split; [reflexivity|]. now apply elem_of_map_to_list. }
  destruct Hinv as [H1 H2 H3 H4 H5 H6 H7 H8 H9].
  set (lvl := get_level b (side o) (price o - base_price_)) in *.
  assert (Hnodes1 : nodes (get_level b1 (side o) (price o - base_price_))
                    = nodes lvl ++ [c]) by now rewrite Hlev.
  assert (Hunlinked : forall s idx, c ∉ nodes (get_level b s idx)).
  { intros s idx Hin. destruct (H4 s idx c Hin) as (o1 & Ho1 & _). cell_congruence. }
  assert (Hderef : forall c1, c1 <> c -> deref b1 c1 = deref b c1)
    by (intros c1 Hne; unfold deref; now rewrite Hmem, lookup_insert_ne).
  assert (Hderef_c : deref b1 c = o)
    by (unfold deref; now rewrite Hmem, lookup_insert_eq).
  assert (Hblocks : forall c1 : Cell,
             (fst c1 < N.of_nat (length (MemoryPool.blocks_ (order_pool_ b))))%N ->
             (fst c1 < N.of_nat (length (MemoryPool.blocks_ p1)))%N).
  { intros c1 Hc1. unfold MemoryPool.allocate in Halloc.
    destruct (MemoryPool.free_list_ (order_pool_ b)) eqn:Hfl.
    - destruct (MemoryPool.free_list_ (MemoryPool.expandPool BlockSize (order_pool_ b)));
        [discriminate|]. injection Halloc as _ <-.
      cbn [MemoryPool.blocks_ MemoryPool.expandPool]. rewrite length_app. cbn [length]. lia.
    - cbv zeta in Halloc. rewrite Hfl in Halloc. injection Halloc as _ <-. exact Hc1. }
  destruct (H6 (side o) (price o - base_price_)) as [Hcnt Hcmax]. fold lvl in Hcnt, Hcmax.
  split.
  - rewrite Hpool. apply NoDup_app in Hnd1. now destruct Hnd1.
  - intros c1 Hc1. rewrite Hpool in *. split.
    + rewrite Hmem, lookup_insert_ne by (intros <-; contradiction).
      destruct (node_mem_ b !! c1) as [o1|] eqn:E; [|reflexivity].
      exfalso. apply NoDup_app in Hnd1 as (_ & Hdis & _).
      apply (Hdis c1 Hc1). apply elem_of_cons. right.
      apply list_elem_of_fmap. exists (c1, o1). split; [reflexivity|].
      now apply elem_of_map_to_list.
    + apply Hblk1. apply elem_of_app. now left.
  - intros c1 o1 Hc1. rewrite Hmem in Hc1. rewrite Hpool.
    destruct (decide (c1 = c)) as [->|Hne].
    + rewrite lookup_insert_eq in Hc1. injection Hc1 as <-.
      rewrite Hnodes1. split; [apply elem_of_app; right; apply list_elem_of_here|].
      split; [assumption|]. split; [assumption|].
      apply Hblk1. apply elem_of_app. right. apply list_elem_of_here.
    + rewrite lookup_insert_ne in Hc1 by cell_congruence.
      destruct (H3 c1 o1 Hc1) as (Hl & Hon1 & Hq1 & Hb1).
      split; [|auto].
      destruct (decide ((side o1, price o1 - base_price_)
                        = (side o, price o - base_price_))) as [E|E].
      * injection E as Es Ep. rewrite Es, Ep in *. rewrite Hnodes1. apply elem_of_app. now left.
      * now rewrite Hother.
  - intros s idx c1 Hc1. rewrite Hmem.
    destruct (decide ((s, idx) = (side o, price o - base_price_))) as [[= -> ->]|Hne].
    + rewrite Hnodes1 in Hc1. apply elem_of_app in Hc1 as [Hc1|Hc1].
      * rewrite lookup_insert_ne by (intros <-; now apply (Hunlinked (side o) (price o - base_price_))).
        now apply (H4 (side o) (price o - base_price_)).
      * apply list_elem_of_singleton in Hc1 as ->. exists o.
        rewrite lookup_insert_eq. split; [reflexivity|]. split; [reflexivity|lia].
    + rewrite Hother in Hc1 by assumption.
      rewrite lookup_insert_ne by (intros <-; now apply (Hunlinked s idx)).
      now apply (H4 s idx).
  - intros s idx.
    destruct (decide ((s, idx) = (side o, price o - base_price_))) as [[= -> ->]|Hne].
    + rewrite Hnodes1. apply NoDup_app. split; [apply H5|]. split.
      * intros c1 Hc1 Hin. apply list_elem_of_singleton in Hin as ->.
        now apply (Hunlinked (side o) (price o - base_price_)).
      * apply NoDup_singleton.
    + rewrite Hother by assumption. apply H5.
  - intros s idx.
    destruct (decide ((s, idx) = (side o, price o - base_price_))) as [[= -> ->]|Hne].
    + rewrite Hlev. cbv zeta. fold lvl. cbn [order_count nodes].
      rewrite length_app. cbn [length]. rewrite wrap32_small by lia. lia.
    + rewrite Hother by assumption. apply H6.
  - intros s idx.
    destruct (decide ((s, idx) = (side o, price o - base_price_))) as [[= -> ->]|Hne].
    + rewrite Hlev. cbv zeta. fold lvl. cbn [total_quantity nodes].
      rewrite level_quantity_app. cbn [level_quantity foldr]. rewrite Hderef_c.
      rewrite (level_quantity_ext b b1).
      * unfold lvl. rewrite (H7 (side o) (price o - base_price_)).
        rewrite wrap32_idemp_l. f_equal. lia.
      * intros c1 Hc1. apply Hderef. intros ->.
        now apply (Hunlinked (side o) (price o - base_price_)).
    + rewrite Hother by assumption. rewrite H7. f_equal. symmetry.
      apply level_quantity_ext. intros c1 Hc1. apply Hderef. intros ->.
      now apply (Hunlinked s idx).
  - intros s idx Hne.
    destruct (decide ((s, idx) = (side o, price o - base_price_))) as [[= -> ->]|Hx].
    + rewrite Hlev. cbv zeta. cbn [level_price]. lia.
    + rewrite Hother in * by assumption. now apply H8.
  - intros id c1 Hid. rewrite Hmap in Hid. rewrite Hmem.
    destruct (decide (id = order_id o)) as [->|Hne].
    + rewrite lookup_insert_eq in Hid. injection Hid as <-.
      exists o. now rewrite lookup_insert_eq.
    + rewrite lookup_insert_ne in Hid by cell_congruence.
      destruct (H9 id c1 Hid) as (o1 & Ho1 & Hoid).
      exists o1. split; [|assumption].
      rewrite lookup_insert_ne; [assumption|]. intros <-. cell_congruence.
Qed.

(** *** The operations keep the invariant *)

Ltac book_parts :=
  cbn [bid_levels_ ask_levels_ best_bid_ best_ask_ num_price_levels_
       order_pool_ node_mem_ order_map_ total_volume_ trade_count_
       set_levels set_best set_pool set_node_mem set_order_map set_stats
       set_level store levels_of].

Lemma set_level_parts (b : t) (s : Side) (idx : Z) (l : PriceLevel) :
  node_mem_ (set_level b s idx l) = node_mem_ b /\
  order_pool_ (set_level b s idx l) = order_pool_ b /\
  order_map_ (set_level b s idx l) = order_map_ b /\
  total_volume_ (set_level b s idx l) = total_volume_ b /\
  trade_count_ (set_level b s idx l) = trade_count_ b.
Proof. now destruct s. Qed.

Lemma get_level_set_pool (b : t) (p : MemoryPool.t) (s : Side) (idx : Z) :
  get_level (set_pool b p) s idx = get_level b s idx.
Proof. now destruct s. Qed.

Lemma get_level_set_order_map (b : t) (m : gmap Z Cell) (s : Side) (idx : Z) :
  get_level (set_order_map b m) s idx = get_level b s idx.
Proof. now destruct s. Qed.

Lemma get_level_set_node_mem (b : t) (m : gmap Cell Order) (s : Side) (idx : Z) :
  get_level (set_node_mem b m) s idx = get_level b s idx.
Proof. now destruct s. Qed.

Lemma get_level_set_best (b : t) (bid ask : Z) (s : Side) (idx : Z) :
  get_level (set_best b bid ask) s idx = get_level b s idx.
Proof. now destruct s. Qed.

Lemma get_level_updateBestPrices (b : t) (s : Side) (idx : Z) :
  get_level (updateBestPrices b) s idx = get_level b s idx.
Proof. now destruct s. Qed.

Lemma book_inv_updateBestPrices (b : t) :
  book_inv b -> book_inv (updateBestPrices b).
Proof.
  intros Hinv. apply (inv_ext b); try reflexivity. assumption.
Qed.

Lemma best_cached_updateBestPrices (b : t) : best_cached (updateBestPrices b).
Proof.
  unfold best_cached, updateBestPrices.
  cbn [set_best best_bid_ best_ask_ bid_levels_ ask_levels_]. split; reflexivity.
Qed.

(** What [removeFromBook] writes. *)
Lemma removeFromBook_parts (b : t) (node : Cell) (s : Side) (idx : Z) :
  let b1 := removeFromBook b node s idx in
  node_mem_ b1 = delete node (node_mem_ b) /\
  order_pool_ b1 = MemoryPool.deallocate (order_pool_ b) (Some node) /\
  order_map_ b1 = delete (order_id (deref b node)) (order_map_ b) /\
  get_level b1 s idx
  = (let level := get_level b s idx in
     let linked := filter (fun c1 => c1 ≠ node) (nodes level) in
     let count := wrap32 (order_count level - 1) in
     if count =? 0 then mkLevel 0 0 count linked
     else mkLevel (level_price level) (total_quantity level) count linked) /\
  (forall s1 idx1, (s1, idx1) <> (s, idx) ->
                   get_level b1 s1 idx1 = get_level b s1 idx1) /\
  total_volume_ b1 = total_volume_ b /\ trade_count_ b1 = trade_count_ b /\
  best_bid_ b1 = best_bid_ b /\ best_ask_ b1 = best_ask_ b.
Proof.
  cbv zeta. unfold removeFromBook.
  rewrite !get_level_set_pool, !get_level_set_node_mem, !get_level_set_order_map.
  rewrite get_set_level.
  split; [now destruct s|]. split; [now destruct s|].
  split; [rewrite deref_set_level; now destruct s|].
  split; [reflexivity|].
  split.
  { intros s1 idx1 Hne.
    rewrite !get_level_set_pool, !get_level_set_node_mem, !get_level_set_order_map.
    now apply get_set_level_other. }
  now destruct s.
Qed.

Lemma book_inv_create (n : Z) : book_inv (create n).
Proof.
  assert (Hlev : forall s idx, get_level (create n) s idx = empty_level)
    by (intros [] idx; reflexivity).
  destruct (pool_ok_create BlockSize ltac:(unfold BlockSize; lia)) as [Hnd Hblk].
  rewrite app_nil_r in Hnd.
  split; intros; rewrite ?Hlev in *; cbn [nodes empty_level order_count
    total_quantity level_price length level_quantity foldr] in *.
  - exact Hnd.
  - split; [reflexivity|]. apply Hblk. now rewrite app_nil_r.
  - cbn in H. discriminate.
  - now apply not_elem_of_nil in H.
  - constructor.
  - split; [reflexivity|lia].
  - reflexivity.
  - contradiction.
  - cbn in H. discriminate.
Qed.

Lemma match_body_inv (b : t) (o : Order) :
  book_inv b ->
  match match_body b o with
  | Break b1 => book_inv b1
  | Next o1 b1 tr => book_inv b1 /\ 0 <= quantity o1 < 2 ^ 32
  end.
Proof.
  intros Hinv. unfold match_body.
  destruct (MAX_PRICE_LEVELS <=? _); [assumption|].
  set (s := contra (side o)). set (idx := wrap64 (best_contra b o - base_price_)).
  destruct (nodes (get_level b s idx)) as [|node rest] eqn:Hnodes;
    [now apply book_inv_updateBestPrices|].
  destruct (inv_linked b Hinv s idx node) as (passive & Hmem & Hs & Hp);
    [rewrite Hnodes; apply list_elem_of_here|].
  assert (Hidx : price passive - base_price_ = idx) by lia.
  unfold executeTrade. cbv beta iota zeta.
  rewrite !deref_set_level, !deref_store, !deref_set_stats.
  rewrite !get_level_store, !get_level_set_stats.
  rewrite (deref_Some b node passive Hmem). cbn [quantity set_quantity].
  set (tq := Z.min (quantity o) (quantity passive)).
  set (left := wrap32 (quantity passive - tq)).
  set (b3 := set_level _ s idx _).
  assert (Hinv3 : book_inv b3).
  { apply (inv_requantify b b3 node passive left Hinv Hmem (wrap32_range _)).
    - unfold b3. destruct s; reflexivity.
    - unfold b3. destruct s; reflexivity.
    - unfold b3. destruct s; reflexivity.
    - rewrite Hs, Hidx. unfold b3. rewrite get_set_level. f_equal.
      unfold left, wrap32.
      rewrite Zplus_mod_idemp_r. f_equal. lia.
    - intros s1 idx1 Hne. rewrite Hs, Hidx in Hne. unfold b3.
      rewrite get_set_level_other by congruence.
      now rewrite get_level_store, get_level_set_stats. }
  split; [|cbn [quantity set_quantity]; apply wrap32_range].
  destruct (Z.eqb_spec left 0) as [Hz|Hnz]; [|assumption].
  assert (Hmem3 : node_mem_ b3 !! node = Some (set_quantity passive left)).
  { unfold b3. destruct (set_level_parts (store (set_stats b
      (wrap64 (total_volume_ b + tq)) (wrap64 (trade_count_ b + 1))) node
      (set_quantity passive left)) s idx
      (set_total_quantity (get_level b s idx)
         (wrap32 (total_quantity (get_level b s idx) - tq)))) as (-> & _).
    book_parts. apply lookup_insert_eq. }
  destruct (removeFromBook_parts b3 node s idx) as (R1 & R2 & R3 & R4 & R5 & _).
  apply (inv_remove b3 _ node (set_quantity passive left) Hinv3 Hmem3 Hz);
    cbn [side price order_id set_quantity]; rewrite ?Hs, ?Hidx.
  - exact R1.
  - exact R2.
  - rewrite R3. now rewrite (deref_Some b3 node _ Hmem3).
  - exact R4.
  - exact R5.
Qed.

Lemma match_loop_inv (fuel : nat) :
  forall (b b1 : t) (o o1 : Order) (ts : list Trade),
    match_loop fuel b o = Some (o1, ts, b1) ->
    book_inv b -> 0 <= quantity o < 2 ^ 32 ->
    book_inv b1 /\ 0 <= quantity o1 < 2 ^ 32.
Proof.
  induction fuel as [|fuel IH]; intros b b1 o o1 ts; cbn [match_loop];
    destruct (match_cond b o); try discriminate;
    try (intros [= <- <- <-]; auto).
  pose proof (match_body_inv b o) as Hstep.
  destruct (match_body b o) as [bx|ox bx tr].
  - intros [= <- <- <-]. auto.
  - destruct (match_loop fuel bx ox) as [[[o2 ts2] b2]|] eqn:Hloop; [|discriminate].
    intros [= <- <- <-] Hinv Hq. destruct (Hstep Hinv) as [Hinvx Hqx].
    eapply IH; eassumption.
Qed.

(** *** Scans *)

Lemma scan_step_ext (levels levels1 : gmap Z PriceLevel) (dir : Z) :
  (forall i, occupied (default empty_level (levels1 !! i))
             = occupied (default empty_level (levels !! i)) /\
             (occupied (default empty_level (levels !! i)) = true ->
              level_price (default empty_level (levels1 !! i))
              = level_price (default empty_level (levels !! i)))) ->
  forall st, scan_step levels1 dir st = scan_step levels dir st.
Proof.
  intros Hext [i [p|]]; [reflexivity|]. unfold scan_step.
  destruct (Hext i) as [-> Hp].
  destruct (occupied (default empty_level (levels !! i))); [|reflexivity].
  now rewrite Hp.
Qed.

Lemma scan_ext (levels levels1 : gmap Z PriceLevel) (start dir : Z) :
  (forall i, occupied (default empty_level (levels1 !! i))
             = occupied (default empty_level (levels !! i)) /\
             (occupied (default empty_level (levels !! i)) = true ->
              level_price (default empty_level (levels1 !! i))
              = level_price (default empty_level (levels !! i)))) ->
  scan levels1 start dir = scan levels start dir.
Proof.
  intros Hext. unfold scan. f_equal.
  rewrite !iter_nat_of_Z by (unfold MAX_PRICE_LEVELS; lia).
  induction (Z.abs_nat MAX_PRICE_LEVELS) as [|n IH]; [reflexivity|].
  cbn [nat_rect]. rewrite IH. now apply scan_step_ext.
Qed.

(** The state of a scan after [n] turns: stopped at the first occupied
    slot, or [n] slots on with none of them occupied. *)
Lemma scan_turns (levels : gmap Z PriceLevel) (start dir : Z) (n : nat) :
  let slot m := default empty_level (levels !! (start + Z.of_nat m * dir)) in
  let st := nat_rect (fun _ => (Z * option Z)%type) (start, None)
                     (fun _ => scan_step levels dir) n in
  (exists m, (m < n)%nat /\ occupied (slot m) = true /\
             (forall m1, (m1 < m)%nat -> occupied (slot m1) = false) /\
             st = (start + Z.of_nat m * dir, Some (level_price (slot m)))) \/
  ((forall m1, (m1 < n)%nat -> occupied (slot m1) = false) /\
   st = (start + Z.of_nat n * dir, None)).
Proof.
  cbv zeta. induction n as [|n IH].
  - right. split; [lia|]. cbn [nat_rect]. f_equal. lia.
  - cbn [nat_rect]. destruct IH as [(m & Hm & Hocc & Hfree & ->)|[Hfree ->]].
    + left. exists m. split; [lia|]. split; [assumption|]. split; [assumption|].
      reflexivity.
    + unfold scan_step.
      destruct (occupied (default empty_level (levels !! (start + Z.of_nat n * dir))))
        eqn:Hocc.
      * left. exists n. split; [lia|]. split; [assumption|]. split; [assumption|].
        reflexivity.
      * right. split.
        -- intros m1 Hm1. destruct (Nat.eq_dec m1 n) as [->|Hne]; [assumption|].
           apply Hfree. lia.
        -- f_equal. lia.
Qed.

Lemma scan_spec (levels : gmap Z PriceLevel) (start dir : Z) :
  let slot m := default empty_level (levels !! (start + Z.of_nat m * dir)) in
  (exists m, Z.of_nat m < MAX_PRICE_LEVELS /\ occupied (slot m) = true /\
             (forall m1, (m1 < m)%nat -> occupied (slot m1) = false) /\
             scan levels start dir = Some (level_price (slot m))) \/
  ((forall m1, Z.of_nat m1 < MAX_PRICE_LEVELS -> occupied (slot m1) = false) /\
   scan levels start dir = None).
Proof.
  cbv zeta. unfold scan.
  rewrite iter_nat_of_Z by (unfold MAX_PRICE_LEVELS; lia).
  destruct (scan_turns levels start dir (Z.abs_nat MAX_PRICE_LEVELS))
    as [(m & Hm & Hocc & Hfree & ->)|[Hfree ->]].
  - left. exists m. split; [unfold MAX_PRICE_LEVELS in *; lia|]. auto.
  - right. split; [|reflexivity]. intros m1 Hm1. apply Hfree.
    unfold MAX_PRICE_LEVELS in *. lia.
Qed.

(** *** The public operations *)

Lemma match_body_frame (b : t) (o : Order) :
  match match_body b o with
  | Break b1 =>
      (forall s idx, get_level b1 s idx = get_level b s idx) /\
      total_volume_ b1 = total_volume_ b /\ trade_count_ b1 = trade_count_ b
  | Next o1 b1 tr =>
      side o1 = side o /\
      (forall idx, get_level b1 (side o) idx = get_level b (side o) idx) /\
      total_volume_ b1 = wrap64 (total_volume_ b + trade_quantity tr) /\
      trade_count_ b1 = wrap64 (trade_count_ b + 1)
  end.
Proof.
  unfold match_body.
  destruct (MAX_PRICE_LEVELS <=? _); [auto|].
  set (s := contra (side o)). set (idx := wrap64 (best_contra b o - base_price_)).
  destruct (nodes (get_level b s idx)) as [|node rest] eqn:Hnodes.
  { split; [|auto]. intros s1 idx1. apply get_level_updateBestPrices. }
  unfold executeTrade. cbv beta iota zeta. cbn [trade_quantity].
  split; [reflexivity|].
  set (b3 := set_level _ s idx _).
  assert (Hside : forall idx1, (side o, idx1) <> (s, idx))
    by (intros idx1 [= H _]; unfold s in H; destruct (side o); discriminate).
  assert (H3 : (forall idx1, get_level b3 (side o) idx1 = get_level b (side o) idx1) /\
               total_volume_ b3 = wrap64 (total_volume_ b + Z.min (quantity o) (quantity (deref b node))) /\
               trade_count_ b3 = wrap64 (trade_count_ b + 1)).
  { split.
    - intros idx1. unfold b3. rewrite get_set_level_other by (intros E; now apply (Hside idx1)).
      now rewrite get_level_store, get_level_set_stats.
    - unfold b3. now destruct s. }
  destruct (_ =? 0); [|exact H3].
  destruct (removeFromBook_parts b3 node s idx) as (_ & _ & _ & _ & R5 & R6 & R7 & _).
  destruct H3 as (H31 & H32 & H33).
  split; [|split; congruence].
  intros idx1. rewrite R5 by (intros E; now apply (Hside idx1)). apply H31.
Qed.

(** The loop leaves the levels of the order's own side alone, and counts
    every trade it makes. *)
Lemma match_loop_frame (fuel : nat) :
  forall (b b1 : t) (o o1 : Order) (ts : list Trade),
    match_loop fuel b o = Some (o1, ts, b1) ->
    (forall idx, get_level b1 (side o) idx = get_level b (side o) idx) /\
    ((ts = [] /\ total_volume_ b1 = total_volume_ b /\
      trade_count_ b1 = trade_count_ b) \/
     (ts <> [] /\
      total_volume_ b1 = wrap64 (total_volume_ b + traded ts) /\
      trade_count_ b1 = wrap64 (trade_count_ b + Z.of_nat (length ts)))).
Proof.
  induction fuel as [|fuel IH]; intros b b1 o o1 ts; cbn [match_loop];
    destruct (match_cond b o); try discriminate;
    try (intros [= <- <- <-]; split; [reflexivity|]; left; auto).
  pose proof (match_body_frame b o) as Hstep.
  destruct (match_body b o) as [bx|ox bx tr].
  - intros [= <- <- <-]. destruct Hstep as (H1 & H2 & H3).
    split; [intros idx; apply H1|]. left. auto.
  - destruct (match_loop fuel bx ox) as [[[o2 ts2] b2]|] eqn:Hloop; [|discriminate].
    intros [= <- <- <-]. destruct Hstep as (Hs & H1 & H2 & H3).
    destruct (IH _ _ _ _ _ Hloop) as [Hown Hstats]. rewrite Hs in Hown.
    split; [intros idx; now rewrite Hown|]. right. split; [discriminate|].
    cbn [traded foldr length]. fold (traded ts2).
    destruct Hstats as [(-> & Hv & Hc)|(_ & Hv & Hc)]; rewrite Hv, Hc.
    + cbn [traded foldr length]. rewrite H2, H3. split; f_equal; lia.
    + rewrite H2, H3. unfold wrap64. rewrite !Z.add_mod_idemp_l by lia.
      split; f_equal; lia.
Qed.

Lemma matchOrder_inv (b b1 : t) (o o1 : Order) (ts : list Trade) :
  matchOrder b o = Some (o1, ts, b1) ->
  book_inv b -> 0 <= quantity o < 2 ^ 32 ->
  book_inv b1 /\ best_cached b1 /\ 0 <= quantity o1 < 2 ^ 32 /\
  (forall idx, get_level b1 (side o) idx = get_level b (side o) idx).
Proof.
  unfold matchOrder.
  destruct (match_loop (match_fuel b o) b o) as [[[ox tx] bx]|] eqn:Hloop;
    [|discriminate].
  intros [= <- <- <-] Hinv Hq.
  destruct (match_loop_inv _ _ _ _ _ _ Hloop Hinv Hq) as [Hinvx Hqx].
  destruct (match_loop_frame _ _ _ _ _ _ Hloop) as [Hown _].
  split; [now apply book_inv_updateBestPrices|].
  split; [apply best_cached_updateBestPrices|]. split; [assumption|].
  intros idx. rewrite get_level_updateBestPrices. apply Hown.
Qed.

Lemma addToBook_inv (b : t) (o : Order) :
  book_inv b -> best_cached b -> admissible b o ->
  book_inv (addToBook b o) /\ best_cached (addToBook b o).
Proof.
  intros Hinv Hbest (Hp & Hq & Hroom). unfold addToBook.
  destruct (Z.leb_spec MAX_PRICE_LEVELS (wrap64 (price o - base_price_)))
    as [Hoff|Hon]; [auto|].
  assert (Hladder : on_ladder (price o)).
  { unfold on_ladder. destruct (Z_lt_le_dec (price o) base_price_) as [Hlow|Hhigh].
    - exfalso. unfold wrap64, base_price_, MAX_PRICE_LEVELS in *.
      replace ((price o - 10000) mod 2 ^ 64) with (price o - 10000 + 2 ^ 64) in Hon; [lia|].
      apply Z.mod_unique with (q := -1); lia.
    - rewrite wrap64_small in Hon by (unfold base_price_ in *; lia). lia. }
  destruct (on_ladder_index _ Hladder) as [_ Hidx]. rewrite Hidx in *.
  destruct (allocate_is_Some BlockSize ltac:(unfold BlockSize; lia) (order_pool_ b))
    as [[node pool] Halloc].
  rewrite Halloc. split; [|apply best_cached_updateBestPrices].
  apply book_inv_updateBestPrices.
  set (b3 := set_order_map _ _).
  apply (inv_add b b3 node pool o Hinv Hladder Hq Hroom Halloc).
  - unfold b3. destruct (side o); reflexivity.
  - unfold b3. destruct (side o); reflexivity.
  - unfold b3. destruct (side o); reflexivity.
  - unfold b3. rewrite get_level_set_order_map, get_set_level. reflexivity.
  - intros s idx Hne. unfold b3.
    rewrite get_level_set_order_map, get_set_level_other by congruence.
    now rewrite get_level_store, get_level_set_pool.
Qed.

Lemma addOrder_wf (b b1 : t) (o : Order) (r : bool) (ts : list Trade) :
  hft_wf b -> admissible b o ->
  addOrder b o = Some (r, ts, b1) -> hft_wf b1.
Proof.
  intros [Hinv Hbest] (Hp & Hq & Hroom). unfold addOrder.
  destruct (matchOrder b o) as [[[o1 tx] bx]|] eqn:Hmatch; [|discriminate].
  intros [= <- <- <-].
  destruct (matchOrder_inv _ _ _ _ _ Hmatch Hinv Hq) as (Hinvx & Hbestx & Hq1 & Hown).
  destruct (matchOrder_order _ _ _ _ _ Hmatch) as (_ & Hprice & Hside).
  destruct (0 <? quantity o1); [|now split].
  apply addToBook_inv; [assumption|assumption|].
  unfold admissible. rewrite Hprice, Hside, Hown. auto.
Qed.

Lemma cancelOrder_wf (b : t) (id : Z) :
  hft_wf b -> hft_wf (snd (cancelOrder b id)).
Proof.
  intros [Hinv Hbest]. unfold cancelOrder.
  destruct (order_map_ b !! id) as [node|] eqn:Hmap; [|now split].
  destruct (inv_map b Hinv id node Hmap) as (o & Hmem & Hid).
  destruct (inv_mem b Hinv node o Hmem) as (Hlink & Hon & Hq & _).
  rewrite (deref_Some b node o Hmem).
  destruct (on_ladder_index _ Hon) as [-> ->].
  cbn [snd]. split; [|apply best_cached_updateBestPrices].
  apply book_inv_updateBestPrices.
  set (s := side o). set (idx := price o - base_price_).
  set (total1 := wrap32 (total_quantity (get_level b s idx) - quantity o)).
  set (b1 := set_level b s idx (set_total_quantity (get_level b s idx) total1)).
  set (b0 := store b1 node (set_quantity o 0)).
  assert (Hinv0 : book_inv b0).
  { apply (inv_requantify b b0 node o 0 Hinv Hmem ltac:(lia)).
    - unfold b0, b1. destruct s; reflexivity.
    - unfold b0, b1. destruct s; reflexivity.
    - unfold b0, b1. destruct s; reflexivity.
    - unfold b0, b1. rewrite get_level_store, get_set_level.
      unfold total1. now rewrite Z.add_0_r.
    - intros s1 idx1 Hne. unfold b0, b1.
      rewrite get_level_store. apply get_set_level_other. unfold s, idx. congruence. }
  assert (Hmem0 : node_mem_ b0 !! node = Some (set_quantity o 0)).
  { unfold b0, b1. destruct s; book_parts; apply lookup_insert_eq. }
  destruct (removeFromBook_parts b1 node s idx) as (R1 & R2 & R3 & R4 & R5 & _).
  subst s idx.
  apply (inv_remove b0 _ node (set_quantity o 0) Hinv0 Hmem0 eq_refl);
    cbn [side price order_id set_quantity].
  - rewrite R1. unfold b0. book_parts. now rewrite delete_insert_eq.
  - rewrite R2. reflexivity.
  - rewrite R3. unfold b0, b1. book_parts.
    rewrite deref_set_level, (deref_Some b node o Hmem).
    now destruct (side o).
  - rewrite R4. unfold b0. now rewrite get_level_store.
  - intros s1 idx1 Hne. rewrite R5 by assumption. unfold b0.
    now rewrite get_level_store.
Qed.

Lemma best_cached_ext (b b1 : t) :
  best_cached b ->
  best_bid_ b1 = best_bid_ b /\ best_ask_ b1 = best_ask_ b ->
  scan (bid_levels_ b1) (MAX_PRICE_LEVELS - 1) (-1)
  = scan (bid_levels_ b) (MAX_PRICE_LEVELS - 1) (-1) ->
  scan (ask_levels_ b1) 0 1 = scan (ask_levels_ b) 0 1 ->
  best_cached b1.
Proof.
  intros [Hbid Hask] [Hb Ha] Hsb Hsa. unfold best_cached.
  rewrite Hsb, Hsa, Hb, Ha. split; [exact Hbid|exact Hask].
Qed.

Lemma modifyOrder_wf (b : t) (id new_quantity : Z) :
  0 <= new_quantity < 2 ^ 32 ->
  hft_wf b -> hft_wf (snd (modifyOrder b id new_quantity)).
Proof.
  intros Hnew [Hinv Hbest]. unfold modifyOrder.
  destruct (order_map_ b !! id) as [node|] eqn:Hmap; [|now split].
  destruct (inv_map b Hinv id node Hmap) as (o & Hmem & Hid).
  destruct (inv_mem b Hinv node o Hmem) as (Hlink & Hon & Hq & _).
  rewrite (deref_Some b node o Hmem).
  destruct (on_ladder_index _ Hon) as [-> ->].
  cbn [snd]. rewrite deref_set_level, (deref_Some b node o Hmem).
  set (s := side o). set (idx := price o - base_price_).
  set (b1 := set_level b s idx _).
  set (b2 := store b1 node (set_quantity o new_quantity)).
  assert (Hlev : forall s1 idx1,
             occupied (get_level b2 s1 idx1) = occupied (get_level b s1 idx1) /\
             level_price (get_level b2 s1 idx1) = level_price (get_level b s1 idx1)).
  { intros s1 idx1. unfold b2. rewrite get_level_store. unfold b1.
    destruct (decide ((s, idx) = (s1, idx1))) as [[= <- <-]|Hne].
    - now rewrite get_set_level.
    - now rewrite get_set_level_other. }
  split.
  - apply (inv_requantify b b2 node o new_quantity Hinv Hmem Hnew).
    + unfold b2, b1. destruct s; reflexivity.
    + unfold b2, b1. destruct s; reflexivity.
    + unfold b2, b1. destruct s; reflexivity.
    + unfold b2, b1. rewrite get_level_store, get_set_level.
      now rewrite wrap32_idemp_l.
    + intros s1 idx1 Hne. unfold b2, b1.
      rewrite get_level_store. apply get_set_level_other. unfold s, idx. congruence.
  - apply (best_cached_ext b); [assumption| | |].
    + unfold b2, b1. destruct s; split; reflexivity.
    + apply scan_ext. intros i.
      destruct (Hlev BUY i) as [H1 H2]. split; [exact H1|]. intros _. exact H2.
    + apply scan_ext. intros i.
      destruct (Hlev SELL i) as [H1 H2]. split; [exact H1|]. intros _. exact H2.
Qed.

End ArrayBookInvariantFacts.

(** ** The array book: invariant, cancellation, best prices *)

Section ArrayBookTheorems.
Import OrderBook.

Ltac ladder_lia :=
  unfold on_ladder, MAX_PRICE_LEVELS, base_price_ in *; lia.

Lemma occupied_nodes (b : t) (s : Side) (idx : Z) :
  book_inv b ->
  (occupied (get_level b s idx) = true <-> nodes (get_level b s idx) <> []) /\
  (occupied (get_level b s idx) = false <-> nodes (get_level b s idx) = []).
Proof.
  intros Hinv. destruct (inv_count b Hinv s idx) as [Hcnt _].
  unfold occupied. rewrite Hcnt.
  destruct (nodes (get_level b s idx)) as [|c l]; cbn [length].
  - change (0 <? Z.of_nat 0) with false. split; split; intros H;
      try reflexivity; try discriminate; now contradict H.
  - replace (0 <? Z.of_nat (S (length l))) with true
      by (symmetry; apply Z.ltb_lt; lia).
    split; split; intros H; try reflexivity; discriminate.
Qed.

Lemma off_ladder_no_nodes (b : t) (s : Side) (idx : Z) :
  book_inv b -> ~ 0 <= idx < MAX_PRICE_LEVELS -> nodes (get_level b s idx) = [].
Proof.
  intros Hinv Hout. destruct (nodes (get_level b s idx)) as [|c l] eqn:Hn; [reflexivity|].
  destruct (inv_linked b Hinv s idx c) as (o & Hmem & _ & Hp);
    [rewrite Hn; apply list_elem_of_here|].
  destruct (inv_mem b Hinv c o Hmem) as (_ & Hon & _).
  ladder_lia.
Qed.

(** The cached best bid is the price of the highest slot with bids, or 0
    when there is none. *)
Lemma best_bid_spec (b : t) :
  hft_wf b ->
  (best_bid_ b = 0 /\ forall idx, nodes (get_level b BUY idx) = []) \/
  (on_ladder (best_bid_ b) /\
   nodes (get_level b BUY (best_bid_ b - base_price_)) <> [] /\
   forall idx, best_bid_ b - base_price_ < idx -> nodes (get_level b BUY idx) = []).
Proof.
  intros [Hinv [Hbid _]]. rewrite Hbid.
  destruct (scan_spec (bid_levels_ b) (MAX_PRICE_LEVELS - 1) (-1))
    as [(m & Hm & Hocc & Hfree & ->)|[Hfree ->]]; cbn [default from_option id].
  - right. set (idx := MAX_PRICE_LEVELS - 1 + Z.of_nat m * -1) in *.
    change (default empty_level (bid_levels_ b !! idx)) with (get_level b BUY idx) in *.
    apply (occupied_nodes b BUY idx Hinv) in Hocc.
    rewrite (inv_price b Hinv BUY idx Hocc).
    replace (base_price_ + idx - base_price_) with idx by ladder_lia.
    split; [unfold idx; ladder_lia|]. split; [assumption|].
    intros idx1 Hgt.
    destruct (Z_lt_le_dec idx1 MAX_PRICE_LEVELS) as [Hin|Hout];
      [|apply off_ladder_no_nodes; [assumption|ladder_lia]].
    apply (occupied_nodes b BUY idx1 Hinv).
    specialize (Hfree (Z.to_nat (MAX_PRICE_LEVELS - 1 - idx1)) ltac:(unfold idx in *; ladder_lia)).
    replace (MAX_PRICE_LEVELS - 1 + Z.of_nat (Z.to_nat (MAX_PRICE_LEVELS - 1 - idx1)) * -1)
      with idx1 in Hfree by (unfold idx in *; ladder_lia).
    exact Hfree.
  - left. split; [reflexivity|]. intros idx.
    destruct (Z_lt_le_dec idx 0) as [Hneg|Hpos];
      [apply off_ladder_no_nodes; [assumption|ladder_lia]|].
    destruct (Z_lt_le_dec idx MAX_PRICE_LEVELS) as [Hin|Hout];
      [|apply off_ladder_no_nodes; [assumption|ladder_lia]].
    apply (occupied_nodes b BUY idx Hinv).
    specialize (Hfree (Z.to_nat (MAX_PRICE_LEVELS - 1 - idx)) ltac:(ladder_lia)).
    replace (MAX_PRICE_LEVELS - 1 + Z.of_nat (Z.to_nat (MAX_PRICE_LEVELS - 1 - idx)) * -1)
      with idx in Hfree by ladder_lia.
    exact Hfree.
Qed.

(** The cached best ask is the price of the lowest slot with asks, or
    [UINT64_MAX] when there is none. *)
Lemma best_ask_spec (b : t) :
  hft_wf b ->
  (best_ask_ b = UINT64_MAX /\ forall idx, nodes (get_level b SELL idx) = []) \/
  (on_ladder (best_ask_ b) /\
   nodes (get_level b SELL (best_ask_ b - base_price_)) <> [] /\
   forall idx, idx < best_ask_ b - base_price_ -> nodes (get_level b SELL idx) = []).
Proof.
  intros [Hinv [_ Hask]]. rewrite Hask.
  destruct (scan_spec (ask_levels_ b) 0 1)
    as [(m & Hm & Hocc & Hfree & ->)|[Hfree ->]]; cbn [default from_option id].
  - right. set (idx := 0 + Z.of_nat m * 1) in *.
    change (default empty_level (ask_levels_ b !! idx)) with (get_level b SELL idx) in *.
    apply (occupied_nodes b SELL idx Hinv) in Hocc.
    rewrite (inv_price b Hinv SELL idx Hocc).
    replace (base_price_ + idx - base_price_) with idx by ladder_lia.
    split; [unfold idx; ladder_lia|]. split; [assumption|].
    intros idx1 Hlt.
    destruct (Z_lt_le_dec idx1 0) as [Hneg|Hpos];
      [apply off_ladder_no_nodes; [assumption|ladder_lia]|].
    apply (occupied_nodes b SELL idx1 Hinv).
    specialize (Hfree (Z.to_nat idx1) ltac:(unfold idx in *; ladder_lia)).
    replace (0 + Z.of_nat (Z.to_nat idx1) * 1) with idx1 in Hfree by ladder_lia.
    exact Hfree.
  - left. split; [reflexivity|]. intros idx.
    destruct (Z_lt_le_dec idx 0) as [Hneg|Hpos];
      [apply off_ladder_no_nodes; [assumption|ladder_lia]|].
    destruct (Z_lt_le_dec idx MAX_PRICE_LEVELS) as [Hin|Hout];
      [|apply off_ladder_no_nodes; [assumption|ladder_lia]].
    apply (occupied_nodes b SELL idx Hinv).
    specialize (Hfree (Z.to_nat idx) ltac:(ladder_lia)).
    replace (0 + Z.of_nat (Z.to_nat idx) * 1) with idx in Hfree by ladder_lia.
    exact Hfree.
Qed.

Lemma hft_wf_create (n : Z) : hft_wf (create n).
Proof.
  split; [apply book_inv_create|].
  assert (Hempty : forall dir start, scan ∅ start dir = None).
  { intros dir start.
    destruct (scan_spec ∅ start dir) as [(m & _ & Hocc & _)|[_ ->]]; [|reflexivity].
    rewrite lookup_empty in Hocc. discriminate. }
  unfold best_cached, create. cbn [best_bid_ best_ask_ bid_levels_ ask_levels_].
  rewrite !Hempty. split; reflexivity.
Qed.

Lemma admissible_create (n : Z) (o : Order) :
  0 <= price o < 2 ^ 64 -> 0 <= quantity o < 2 ^ 32 -> admissible (create n) o.
Proof.
  intros Hp Hq. split; [assumption|]. split; [assumption|].
  replace (get_level (create n) (side o) (wrap64 (price o - base_price_)))
    with empty_level by (now destruct (side o)).
  cbn. lia.
Qed.

Lemma one_ask_book_wf : hft_wf one_ask_book.
Proof.
  unfold one_ask_book. cbn [addOrders].
  destruct (addOrder (create 10000) (sell 1 10101 30)) as [[[r ts] b1]|] eqn:Hadd;
    [|apply hft_wf_create].
  apply (addOrder_wf (create 10000) b1 (sell 1 10101 30) r ts);
    [apply hft_wf_create| |exact Hadd].
  apply admissible_create; cbn; lia.
Qed.

(** X4. The array book stays well formed.  The new book is well formed,
    and [addOrder], [cancelOrder] and [modifyOrder] keep it so: the free
    list of the pool names no cell twice and no cell that holds an order;
    every cell that holds an order is linked, once, at the level of the
    side and price of its order, and nowhere else; [order_count] of a
    level is the number of its nodes and [total_quantity] the sum of
    their quantities; the directory names cells that hold an order of the
    id asked for; and the cached best prices are those of the levels. *)
Theorem array_book_stays_well_formed
        (n : Z) (b : t) (o : Order) (id new_quantity : Z) :
  hft_wf b ->
  hft_wf (create n) /\
  (admissible b o ->
   exists trades b1, addOrder b o = Some (true, trades, b1) /\ hft_wf b1) /\
  hft_wf (snd (cancelOrder b id)) /\
  (0 <= new_quantity < 2 ^ 32 -> hft_wf (snd (modifyOrder b id new_quantity))).
Proof.
  intros Hwf. split; [apply hft_wf_create|]. split; [|split].
  - intros Hadm. destruct (addOrder_total b o) as (ts & b1 & Hadd).
    exists ts, b1. split; [exact Hadd|]. exact (addOrder_wf b b1 o true ts Hwf Hadm Hadd).
  - now apply cancelOrder_wf.
  - intros Hq. now apply modifyOrder_wf.
Qed.

Lemma array_book_stays_well_formed_witness :
  hft_wf (create 10000) /\
  admissible (create 10000) (sell 1 10101 30) /\
  exists trades b1,
    addOrder (create 10000) (sell 1 10101 30) = Some (true, trades, b1) /\
    hft_wf b1.
Proof.
  assert (Hadm : admissible (create 10000) (sell 1 10101 30))
    by (apply admissible_create; cbn; lia).
  split; [apply hft_wf_create|]. split; [exact Hadm|].
  destruct (array_book_stays_well_formed 10000 (create 10000) (sell 1 10101 30)
              0 0 (hft_wf_create 10000)) as (_ & Hadd & _).
  exact (Hadd Hadm).
Defined.

(** X5. [cancelOrder] of an id that is not in the directory returns
    [false] and leaves the book as it is.  In a well-formed book
    [cancelOrder] of an id of the directory returns [true]: the node of
    the order is unlinked from its level and the other nodes keep their
    order, [order_count] of the level goes down by one and
    [total_quantity] by the quantity of the order, the id leaves the
    directory, the cell goes to the head of the free list, the other
    levels stay as they are, and a second [cancelOrder] of the id
    returns [false]. *)
Theorem cancelOrder_unlinks_the_order (b : t) (id : Z) :
  hft_wf b ->
  (order_map_ b !! id = None -> cancelOrder b id = (false, b)) /\
  (forall node : Cell,
      order_map_ b !! id = Some node ->
      exists o,
        node_mem_ b !! node = Some o /\ order_id o = id /\
        let s := side o in
        let idx := price o - base_price_ in
        let b1 := snd (cancelOrder b id) in
        fst (cancelOrder b id) = true /\
        node ∈ nodes (get_level b s idx) /\
        nodes (get_level b1 s idx)
        = filter (fun c => c ≠ node) (nodes (get_level b s idx)) /\
        order_count (get_level b1 s idx) = order_count (get_level b s idx) - 1 /\
        total_quantity (get_level b1 s idx)
        = wrap32 (total_quantity (get_level b s idx) - quantity o) /\
        (forall s1 idx1, (s1, idx1) <> (s, idx) ->
                         get_level b1 s1 idx1 = get_level b s1 idx1) /\
        order_map_ b1 = delete id (order_map_ b) /\
        node_mem_ b1 = delete node (node_mem_ b) /\
        MemoryPool.free_list_ (order_pool_ b1)
        = node :: MemoryPool.free_list_ (order_pool_ b) /\
        cancelOrder b1 id = (false, b1)).
Proof.
  intros Hwf. split.
  { intros Hnone. unfold cancelOrder. now rewrite Hnone. }
  intros node Hmap. pose proof (cancelOrder_wf b id Hwf) as [Hinv1 _].
  destruct Hwf as [Hinv Hbest].
  destruct (inv_map b Hinv id node Hmap) as (o & Hmem & Hid).
  destruct (inv_mem b Hinv node o Hmem) as (Hlink & Hon & Hq & _).
  exists o. split; [assumption|]. split; [assumption|]. cbv zeta.
  revert Hinv1. unfold cancelOrder. rewrite Hmap, (deref_Some b node o Hmem).
  destruct (on_ladder_index _ Hon) as [-> ->]. cbn [fst snd].
  set (s := side o). set (idx := price o - base_price_).
  set (b0 := set_level b s idx _).
  destruct (removeFromBook_parts b0 node s idx) as (R1 & R2 & R3 & R4 & R5 & _).
  set (br := removeFromBook b0 node s idx) in *.
  intros Hinv1.
  assert (Hlev : forall s1 idx1,
             get_level (updateBestPrices br) s1 idx1 = get_level br s1 idx1)
    by (intros; apply get_level_updateBestPrices).
  assert (Hnodes1 : nodes (get_level br s idx)
                    = filter (fun c => c ≠ node) (nodes (get_level b s idx))).
  { rewrite R4. unfold b0. rewrite get_set_level. cbv zeta. now destruct (_ =? 0). }
  assert (Hmem1 : node_mem_ (updateBestPrices br) = delete node (node_mem_ b)).
  { change (node_mem_ (updateBestPrices br)) with (node_mem_ br). rewrite R1.
    unfold b0. now destruct s. }
  assert (Hmap1 : order_map_ (updateBestPrices br) = delete id (order_map_ b)).
  { change (order_map_ (updateBestPrices br)) with (order_map_ br). rewrite R3.
    unfold b0. rewrite deref_set_level, (deref_Some b node o Hmem), Hid.
    now destruct s. }
  split; [reflexivity|]. split; [exact Hlink|].
  rewrite !Hlev. split; [exact Hnodes1|]. split; [|split; [|split; [|split; [|split; [|split]]]]].
  - destruct (inv_count (updateBestPrices br) Hinv1 s idx) as [Hc1 _].
    rewrite Hlev, Hnodes1 in Hc1. rewrite Hc1.
    destruct (inv_count b Hinv s idx) as [-> _].
    pose proof (filter_ne_length node _ (inv_nodup b Hinv s idx) Hlink). lia.
  - pose proof (inv_total (updateBestPrices br) Hinv1 s idx) as Ht1.
    rewrite Hlev, Hnodes1 in Ht1. rewrite Ht1.
    rewrite (level_quantity_ext b).
    + rewrite (level_quantity_filter b node _ (inv_nodup b Hinv s idx) Hlink).
      rewrite (deref_Some b node o Hmem), (inv_total b Hinv s idx).
      now rewrite wrap32_idemp_sub.
    + intros c Hc. apply list_elem_of_filter in Hc as [Hne _].
      unfold deref. rewrite Hmem1. now rewrite lookup_delete_ne by congruence.
  - intros s1 idx1 Hne. rewrite Hlev, R5 by assumption. unfold b0.
    apply get_set_level_other. congruence.
  - exact Hmap1.
  - exact Hmem1.
  - change (order_pool_ (updateBestPrices br)) with (order_pool_ br). rewrite R2.
    unfold b0. now destruct s.
  - unfold cancelOrder. rewrite Hmap1, lookup_delete_eq. reflexivity.
Qed.

Lemma cancelOrder_unlinks_the_order_witness :
  hft_wf one_ask_book /\
  fst (cancelOrder one_ask_book 1) = true /\
  cancelOrder (snd (cancelOrder one_ask_book 1)) 1
  = (false, snd (cancelOrder one_ask_book 1)).
Proof.
  split; [exact one_ask_book_wf|].
  destruct (cancelOrder_unlinks_the_order one_ask_book 1 one_ask_book_wf)
    as [_ Hcancel].
  assert (Hmap : order_map_ one_ask_book !! 1 = Some (0%N, 0%N))
    by (vm_compute; reflexivity).
  destruct (Hcancel _ Hmap) as (o & _ & _ & Hrest). cbv zeta in Hrest.
  destruct Hrest as (Hok & _ & _ & _ & _ & _ & _ & _ & _ & Hagain).
  split; [exact Hok|exact Hagain].
Defined.

(** X6. In a well-formed book the cached best bid is the highest price
    at which a bid rests, and 0 when no bid rests; the cached best ask is
    the lowest price at which an ask rests, and [UINT64_MAX] when no ask
    rests. *)
Theorem best_prices_are_top_of_book (b : t) :
  hft_wf b ->
  ((getBestBid b = 0 /\ forall idx, nodes (get_level b BUY idx) = []) \/
   (on_ladder (getBestBid b) /\
    nodes (get_level b BUY (getBestBid b - base_price_)) <> [] /\
    forall idx, getBestBid b - base_price_ < idx ->
                nodes (get_level b BUY idx) = [])) /\
  ((getBestAsk b = UINT64_MAX /\ forall idx, nodes (get_level b SELL idx) = []) \/
   (on_ladder (getBestAsk b) /\
    nodes (get_level b SELL (getBestAsk b - base_price_)) <> [] /\
    forall idx, idx < getBestAsk b - base_price_ ->
                nodes (get_level b SELL idx) = [])).
Proof.
  intros Hwf. unfold getBestBid, getBestAsk. split.
  - exact (best_bid_spec b Hwf).
  - exact (best_ask_spec b Hwf).
Qed.

Lemma best_prices_are_top_of_book_witness :
  hft_wf one_ask_book /\
  getBestBid one_ask_book = 0 /\
  on_ladder (getBestAsk one_ask_book).
Proof.
  split; [exact one_ask_book_wf|].
  destruct (best_prices_are_top_of_book one_ask_book one_ask_book_wf)
    as [Hbid Hask].
  assert (Hb : getBestBid one_ask_book = 0 /\ getBestAsk one_ask_book = 10101)
    by (vm_compute; split; reflexivity).
  destruct Hb as [Hb Ha]. split; [exact Hb|].
  destruct Hask as [[Hmax _]|[Hon _]]; [|exact Hon].
  rewrite Ha in Hmax. unfold UINT64_MAX in Hmax. lia.
Defined.

Lemma spread_of_two_sided_book (b : t) :
  hft_wf b -> getBestBid b <> 0 -> getBestAsk b <> UINT64_MAX ->
  on_ladder (getBestBid b) /\ on_ladder (getBestAsk b) /\
  (getBestBid b <= getBestAsk b -> getSpread b = getBestAsk b - getBestBid b) /\
  (getBestAsk b < getBestBid b ->
   getSpread b = 2 ^ 64 - (getBestBid b - getBestAsk b)).
Proof.
  intros Hwf. unfold getSpread, getBestBid, getBestAsk. intros Hb Ha.
  destruct (best_bid_spec b Hwf) as [[Hb0 _]|[Hbon _]]; [contradiction|].
  destruct (best_ask_spec b Hwf) as [[Ha0 _]|[Haon _]]; [contradiction|].
  destruct (Z.eqb_spec (best_bid_ b) 0) as [|_]; [contradiction|].
  destruct (Z.eqb_spec (best_ask_ b) UINT64_MAX) as [|_]; [contradiction|].
  cbn [orb]. split; [exact Hbon|]. split; [exact Haon|].
  unfold on_ladder, base_price_, MAX_PRICE_LEVELS in *. split.
  - intros Hle. apply wrap64_small. lia.
  - intros Hgt. unfold wrap64. symmetry. apply Z.mod_unique with (q := -1); lia.
Qed.

(** X7. [getMidPrice] and [getSpread] return 0 when a side of the book
    is empty.  In a well-formed book with both sides present the sum of
    the best prices does not overflow: [getMidPrice] is their mean,
    rounded down; when the best bid is not above the best ask,
    [getSpread] is their difference and the mid price lies between them;
    when the best bid is above the best ask the subtraction wraps and
    [getSpread] is [2^64 - (bid - ask)]. *)
Theorem mid_price_and_spread (b : t) :
  hft_wf b ->
  (getBestBid b = 0 \/ getBestAsk b = UINT64_MAX ->
   getMidPrice b = 0 /\ getSpread b = 0) /\
  (getBestBid b <> 0 -> getBestAsk b <> UINT64_MAX ->
   getMidPrice b = (getBestBid b + getBestAsk b) / 2 /\
   (getBestBid b <= getBestAsk b ->
    getSpread b = getBestAsk b - getBestBid b /\
    getBestBid b <= getMidPrice b <= getBestAsk b) /\
   (getBestAsk b < getBestBid b ->
    getSpread b = 2 ^ 64 - (getBestBid b - getBestAsk b))).
Proof.
  intros Hwf. unfold getMidPrice, getSpread, getBestBid, getBestAsk. split.
  - intros [Hb|Ha].
    + rewrite Hb. cbn [Z.eqb orb]. auto.
    + rewrite Ha, Z.eqb_refl, orb_true_r. auto.
  - intros Hb Ha.
    destruct (best_bid_spec b Hwf) as [[Hb0 _]|[Hbon _]]; [contradiction|].
    destruct (best_ask_spec b Hwf) as [[Ha0 _]|[Haon _]]; [contradiction|].
    destruct (Z.eqb_spec (best_bid_ b) 0) as [|_]; [contradiction|].
    destruct (Z.eqb_spec (best_ask_ b) UINT64_MAX) as [|_]; [contradiction|].
    cbn [orb]. unfold on_ladder, base_price_, MAX_PRICE_LEVELS in *.
    rewrite (wrap64_small (best_bid_ b + best_ask_ b)) by lia.
    split; [reflexivity|]. split.
    + intros Hle. rewrite wrap64_small by lia. split; [reflexivity|].
      split.
      * apply Z.div_le_lower_bound; lia.
      * apply Z.div_le_upper_bound; lia.
    + intros Hgt. unfold wrap64.
      symmetry. apply Z.mod_unique with (q := -1); lia.
Qed.

Lemma mid_price_and_spread_witness :
  hft_wf one_ask_book /\ getMidPrice one_ask_book = 0 /\ getSpread one_ask_book = 0.
Proof.
  split; [exact one_ask_book_wf|].
  destruct (mid_price_and_spread one_ask_book one_ask_book_wf) as [Hempty _].
  apply Hempty. left. vm_compute. reflexivity.
Defined.

End ArrayBookTheorems.

(** X8. On a well-formed book [shouldQuote] answers [true] exactly when
    both sides of the book are present, the best bid is not above the
    best ask, and the two are at most 100 ticks apart: a book whose best
    bid is above its best ask is never quoted, because the spread wraps
    around. *)
Theorem shouldQuote_wants_an_uncrossed_book (b : OrderBook.t) :
  hft_wf b ->
  (MarketMakingStrategy.shouldQuote b = true <->
   OrderBook.getBestBid b <> 0 /\ OrderBook.getBestAsk b <> UINT64_MAX /\
   OrderBook.getBestBid b <= OrderBook.getBestAsk b <= OrderBook.getBestBid b + 100).
Proof.
  intros Hwf. unfold MarketMakingStrategy.shouldQuote.
  destruct (Z.eqb_spec (OrderBook.getBestBid b) 0) as [Hb|Hb]; cbn [orb].
  { split; [discriminate|]. intros [H _]. contradiction. }
  destruct (Z.eqb_spec (OrderBook.getBestAsk b) UINT64_MAX) as [Ha|Ha].
  { split; [discriminate|]. intros (_ & H & _). contradiction. }
  destruct (spread_of_two_sided_book b Hwf Hb Ha) as (Hbon & Haon & Hle & Hgt).
  unfold on_ladder, OrderBook.base_price_, OrderBook.MAX_PRICE_LEVELS in *.
  destruct (Z_le_gt_dec (OrderBook.getBestBid b) (OrderBook.getBestAsk b)) as [H1|H1].
  - rewrite (Hle H1).
    destruct (Z.ltb_spec 100 (OrderBook.getBestAsk b - OrderBook.getBestBid b)).
    + split; [discriminate|]. lia.
    + split; [|reflexivity]. intros _. repeat split; try assumption; lia.
  - rewrite (Hgt ltac:(lia)).
    destruct (Z.ltb_spec 100 (2 ^ 64 - (OrderBook.getBestBid b - OrderBook.getBestAsk b))).
    + split; [discriminate|]. lia.
    + lia.
Qed.

Lemma shouldQuote_wants_an_uncrossed_book_witness :
  hft_wf one_ask_book /\ MarketMakingStrategy.shouldQuote one_ask_book = false.
Proof.
  split; [exact one_ask_book_wf|].
  destruct (shouldQuote_wants_an_uncrossed_book one_ask_book one_ask_book_wf)
    as [Hquote _].
  destruct (MarketMakingStrategy.shouldQuote one_ask_book); [|reflexivity].
  destruct (Hquote eq_refl) as [Hbid _]. exfalso. apply Hbid.
  vm_compute. reflexivity.
Defined.

(** ** Market data snapshots *)

Section SnapshotFacts.
Import OrderBook.

Lemma scan_order_S (start dir : Z) (n : nat) :
  scan_order start dir (S n) = scan_order start dir n ++ [start + Z.of_nat n * dir].
Proof. unfold scan_order. now rewrite seq_S, map_app. Qed.

Lemma occupied_slots_app (slots : gmap Z PriceLevel) (l1 l2 : list Z) :
  occupied_slots slots (l1 ++ l2) = occupied_slots slots l1 ++ occupied_slots slots l2.
Proof. apply filter_app. Qed.






Lemma scan_head (slots : gmap Z PriceLevel) (start dir : Z) (n : nat) :
  let st := nat_rect (fun _ => (Z * option Z)%type) (start, None)
                     (fun _ => scan_step slots dir) n in
  snd st = head (map (fun i => Level.price (snapshot_of slots i))
                     (occupied_slots slots (scan_order start dir n))) /\
  (snd st = None ->
   fst st = start + Z.of_nat n * dir /\
   occupied_slots slots (scan_order start dir n) = []).
Proof.
  cbv zeta. induction n as [|n IH].
  - cbn. split; [reflexivity|]. intros _. split; [lia|reflexivity].
  - cbn [nat_rect]. rewrite scan_order_S, occupied_slots_app, map_app.
    destruct (nat_rect _ _ _ n) as [i [p|]]; cbn [fst snd] in *.
    + destruct IH as [Hhead _]. split; [|discriminate].
      destruct (occupied_slots slots (scan_order start dir n)); [discriminate|].
      exact Hhead.
    + destruct IH as [_ Hnone]. destruct (Hnone eq_refl) as [-> ->].
      cbn [map app]. unfold occupied_slots.
      destruct (occupied (default empty_level (slots !! (start + Z.of_nat n * dir))))
        eqn:Hocc.
      * rewrite filter_cons_True by assumption. unfold scan_step. cbn [fst snd].
        rewrite Hocc. cbn. split; [reflexivity|discriminate].
      * rewrite filter_cons_False by (rewrite Hocc; discriminate).
        unfold scan_step. cbn [fst snd]. rewrite Hocc. cbn.
        split; [reflexivity|]. intros _. split; [lia|reflexivity].
Qed.

Lemma scan_is_head (slots : gmap Z PriceLevel) (start dir : Z) :
  scan slots start dir
  = head (map (fun i => Level.price (snapshot_of slots i))
              (occupied_slots slots
                 (scan_order start dir (Z.to_nat MAX_PRICE_LEVELS)))).
Proof.
  unfold scan. rewrite iter_nat_of_Z by (unfold MAX_PRICE_LEVELS; lia).
  rewrite Zabs2Nat.abs_nat_nonneg by (unfold MAX_PRICE_LEVELS; lia).
  apply scan_head.
Qed.

Lemma sorted_filter {A : Type} (R : A -> A -> Prop) (P : A -> Prop)
      `{!forall x, Decision (P x)} (l : list A) :
  StronglySorted R l -> StronglySorted R (filter P l).
Proof.
  induction 1 as [|x l Hs IH Hall]; [constructor|].
  destruct (decide (P x)).
  - rewrite filter_cons_True by assumption. constructor; [assumption|].
    rewrite Forall_forall in *. intros y Hy.
    apply list_elem_of_filter in Hy as [_ Hy]. auto.
  - now rewrite filter_cons_False by assumption.
Qed.

Lemma scan_order_sorted (start dir : Z) (n : nat) (R : Z -> Z -> Prop) :
  (forall m1 m2 : nat, (m1 < m2)%nat ->
                       R (start + Z.of_nat m1 * dir) (start + Z.of_nat m2 * dir)) ->
  StronglySorted R (scan_order start dir n).
Proof.
  intros HR. induction n as [|n IH]; [constructor|].
  rewrite scan_order_S. apply StronglySorted_app_2; [|assumption|repeat constructor].
  intros x1 x2 Hx1 Hx2. apply list_elem_of_singleton in Hx2 as ->.
  unfold scan_order in Hx1. apply list_elem_of_fmap in Hx1 as (m & -> & Hm).
  apply elem_of_seq in Hm. apply HR. lia.
Qed.

Lemma scan_order_range (start dir : Z) (n : nat) (i : Z) :
  i ∈ scan_order start dir n ->
  exists m : nat, (m < n)%nat /\ i = start + Z.of_nat m * dir.
Proof.
  unfold scan_order. intros Hin. apply list_elem_of_fmap in Hin as (m & -> & Hm).
  apply elem_of_seq in Hm. exists m. split; [lia|reflexivity].
Qed.

End SnapshotFacts.

Section SnapshotTheorems.
Import OrderBook.


Lemma snapshot_prices (b : t) (s : Side) (idxs : list Z) :
  book_inv b ->
  map (fun i => Level.price (snapshot_of (levels_of b s) i))
      (occupied_slots (levels_of b s) idxs)
  = map (fun i => base_price_ + i) (occupied_slots (levels_of b s) idxs).
Proof.
  intros Hinv. apply map_ext_in. intros i Hi. apply list_elem_of_In in Hi.
  apply list_elem_of_filter in Hi as [Hocc _].
  change (default empty_level (levels_of b s !! i)) with (get_level b s i) in Hocc.
  apply (occupied_nodes b s i Hinv) in Hocc.
  exact (inv_price b Hinv s i Hocc).
Qed.

(** X10. In a well-formed book the snapshot is ordered by price: the
    prices of the bid entries fall strictly from one entry to the next,
    those of the ask entries rise strictly; every entry carries a price
    of the ladder, an order count above zero, and as quantity the sum of
    the quantities of the orders resting at that price; and the first bid
    entry and the first ask entry carry the cached best bid and best
    ask. *)
Theorem snapshots_are_ordered_by_price (b : t) :
  hft_wf b ->
  StronglySorted (fun p1 p2 => p2 < p1) (map Level.price (bid_snapshot b)) /\
  StronglySorted (fun p1 p2 => p1 < p2) (map Level.price (ask_snapshot b)) /\
  (forall s l,
      l ∈ match s with BUY => bid_snapshot b | SELL => ask_snapshot b end ->
      on_ladder (Level.price l) /\ 0 < Level.order_count l /\
      let level := get_level b s (Level.price l - base_price_) in
      Level.order_count l = Z.of_nat (length (nodes level)) /\
      Level.quantity l = wrap32 (level_quantity b (nodes level))) /\
  getBestBid b = default 0 (head (map Level.price (bid_snapshot b))) /\
  getBestAsk b = default UINT64_MAX (head (map Level.price (ask_snapshot b))).
Proof.
  intros [Hinv [Hbid Hask]].
  assert (Hprices : forall s idxs,
             map Level.price (map (snapshot_of (levels_of b s))
                                  (occupied_slots (levels_of b s) idxs))
             = map (fun i => base_price_ + i) (occupied_slots (levels_of b s) idxs)).
  { intros s idxs. rewrite map_map. now apply snapshot_prices. }
  split; [|split; [|split; [|split]]].
  - unfold bid_snapshot. rewrite (Hprices BUY).
    apply (StronglySorted_fmap _ (fun i1 i2 => i2 < i1)); [intros i1 i2 H; lia|].
    apply sorted_filter. apply scan_order_sorted. intros m1 m2 Hm. lia.
  - unfold ask_snapshot. rewrite (Hprices SELL).
    apply (StronglySorted_fmap _ (fun i1 i2 => i1 < i2)); [intros i1 i2 H; lia|].
    apply sorted_filter. apply scan_order_sorted. intros m1 m2 Hm. lia.
  - intros s l Hl.
    assert (Hidx : exists i, 0 <= i < MAX_PRICE_LEVELS /\
                             occupied (get_level b s i) = true /\
                             l = snapshot_of (levels_of b s) i).
    { destruct s; unfold bid_snapshot, ask_snapshot in Hl;
        apply list_elem_of_fmap in Hl as (i & -> & Hi);
        apply list_elem_of_filter in Hi as [Hocc Hi];
        apply scan_order_range in Hi as (m & Hm & ->);
        (eexists; split; [|split; [exact Hocc|reflexivity]]);
        unfold MAX_PRICE_LEVELS in *; lia. }
    destruct Hidx as (i & Hi & Hocc & ->).
    unfold snapshot_of. cbv zeta. cbn [Level.price Level.order_count Level.quantity].
    change (default empty_level (levels_of b s !! i)) with (get_level b s i).
    pose proof Hocc as Hocc1. apply (occupied_nodes b s i Hinv) in Hocc1.
    rewrite (inv_price b Hinv s i Hocc1).
    replace (base_price_ + i - base_price_) with i by lia.
    split; [unfold on_ladder, base_price_, MAX_PRICE_LEVELS in *; lia|].
    split; [unfold occupied in Hocc; now apply Z.ltb_lt in Hocc|].
    split; [now destruct (inv_count b Hinv s i)|apply (inv_total b Hinv)].
  - unfold getBestBid. rewrite Hbid, scan_is_head. unfold bid_snapshot.
    now rewrite map_map.
  - unfold getBestAsk. rewrite Hask, scan_is_head. unfold ask_snapshot.
    now rewrite map_map.
Qed.

Lemma snapshots_are_ordered_by_price_witness :
  hft_wf one_ask_book /\
  getBestAsk one_ask_book
  = default UINT64_MAX (head (map Level.price (ask_snapshot one_ask_book))).
Proof.
  split; [exact one_ask_book_wf|].
  now destruct (snapshots_are_ordered_by_price one_ask_book one_ask_book_wf)
    as (_ & _ & _ & _ & ?).
Defined.

End SnapshotTheorems.

Section ArrayBookStatistics.
Import OrderBook.

Lemma addToBook_stats (b : t) (o : Order) :
  total_volume_ (addToBook b o) = total_volume_ b /\
  trade_count_ (addToBook b o) = trade_count_ b.
Proof.
  unfold addToBook.
  destruct (MAX_PRICE_LEVELS <=? wrap64 (price o - base_price_)); [now split|].
  destruct (MemoryPool.allocate BlockSize (order_pool_ b)) as [[node pool]|];
    [|now split].
  destruct (side o); split; reflexivity.
Qed.

(** X11. [addOrder] keeps the statistics in step with the trades it
    reports: when it reports no trade, [getTotalVolume()] and
    [getTradeCount()] are unchanged; otherwise the volume has grown by the
    sum of the quantities of the reported trades and the count by their
    number, both as [uint64_t]. *)
Theorem addOrder_counts_its_trades (b b1 : t) (o : Order) (r : bool)
        (ts : list Trade) :
  addOrder b o = Some (r, ts, b1) ->
  (ts = [] ->
   getTotalVolume b1 = getTotalVolume b /\ getTradeCount b1 = getTradeCount b) /\
  (ts <> [] ->
   getTotalVolume b1 = wrap64 (getTotalVolume b + traded ts) /\
   getTradeCount b1 = wrap64 (getTradeCount b + Z.of_nat (length ts))).
Proof.
  unfold addOrder, matchOrder, getTotalVolume, getTradeCount.
  destruct (match_loop (match_fuel b o) b o) as [[[o1 ts1] bm]|] eqn:Hloop;
    [|discriminate].
  intros [= <- <- <-].
  destruct (match_loop_frame _ _ _ _ _ _ Hloop) as [_ Hstats].
  assert (Hsame : total_volume_
                    (if 0 <? quantity o1 then addToBook (updateBestPrices bm) o1
                     else updateBestPrices bm) = total_volume_ bm /\
                  trade_count_
                    (if 0 <? quantity o1 then addToBook (updateBestPrices bm) o1
                     else updateBestPrices bm) = trade_count_ bm).
  { destruct (0 <? quantity o1); [|split; reflexivity].
    destruct (addToBook_stats (updateBestPrices bm) o1) as [-> ->].
    split; reflexivity. }
  destruct Hsame as [-> ->].
  destruct Hstats as [(Hnil & Hv & Hc)|(Hne & Hv & Hc)]; split; intros H;
    try contradiction; try (split; assumption).
Qed.

Lemma addOrder_counts_its_trades_witness :
  exists ts b1,
    addOrder one_ask_book (buy 2 10101 4) = Some (true, ts, b1) /\
    (ts <> [] ->
     getTotalVolume b1 = wrap64 (getTotalVolume one_ask_book + traded ts) /\
     getTradeCount b1 = wrap64 (getTradeCount one_ask_book + Z.of_nat (length ts))).
Proof.
  destruct (addOrder_total one_ask_book (buy 2 10101 4)) as (ts & b1 & Hadd).
  exists ts, b1. split; [exact Hadd|].
  exact (proj2 (addOrder_counts_its_trades _ _ _ _ _ Hadd)).
Defined.

End ArrayBookStatistics.

(** * Further properties of the map-based books *)

(** ** The engine book is sorted and never crossed *)

Section EngineInvariantFacts.
Import Engine.

Lemma sorted_weaken {A : Type} (R1 R2 : A -> A -> Prop) (l : list A) :
  (forall x y, R1 x y -> R2 x y) -> StronglySorted R1 l -> StronglySorted R2 l.
Proof.
  intros Himp. induction 1 as [|x l Hs IH Hall]; constructor; [exact IH|].
  eapply Forall_impl; [exact Hall|]. intros y. apply Himp.
Qed.

Lemma ladder_keys_elem (l : Ladder) (k : Z) :
  k ∈ ladder_keys l <-> exists q, (k, q) ∈ l.
Proof.
  unfold ladder_keys. rewrite list_elem_of_fmap. split.
  - intros ([k1 q] & -> & Hin). now exists q.
  - intros (q & Hin). now exists (k, q).
Qed.

Lemma key_order_trans (buy : bool) (k1 k2 k3 : Z) :
  key_order buy k1 k2 -> key_order buy k2 k3 -> key_order buy k1 k3.
Proof. destruct buy; cbn; lia. Qed.

Lemma key_order_cases (buy : bool) (p k : Z) :
  p <> k ->
  (if buy then greater else less) p k = true /\ key_order buy p k \/
  (if buy then greater else less) p k = false /\ key_order buy k p.
Proof.
  intros Hne. unfold greater, less. destruct buy; cbn.
  - destruct (Z.ltb_spec k p); [left|right]; split; auto; lia.
  - destruct (Z.ltb_spec p k); [left|right]; split; auto; lia.
Qed.

Lemma ladder_ok_tail (buy : bool) (k : Z) (q : list Order) (l : Ladder) :
  ladder_ok buy ((k, q) :: l) -> ladder_ok buy l.
Proof.
  intros [Hs Hq]. split.
  - now apply StronglySorted_inv in Hs as [Hs _].
  - intros k1 q1 Hin. apply Hq. now apply list_elem_of_further.
Qed.

Lemma ladder_ok_head (buy : bool) (k : Z) (q q1 : list Order) (l : Ladder) :
  ladder_ok buy ((k, q) :: l) -> queue_ok buy k q1 -> ladder_ok buy ((k, q1) :: l).
Proof.
  intros [Hs Hq] Hq1. split; [exact Hs|].
  intros k2 q2 Hin. apply elem_of_cons in Hin as [[= -> ->]|Hin]; [exact Hq1|].
  apply Hq. now apply list_elem_of_further.
Qed.

Lemma ladder_ok_front (buy : bool) (k : Z) (q : list Order) (l : Ladder) (k1 : Z) :
  ladder_ok buy ((k, q) :: l) -> k1 ∈ ladder_keys l -> key_order buy k k1.
Proof.
  intros [Hs _] Hin. apply StronglySorted_inv in Hs as [_ Hall].
  rewrite Forall_forall in Hall. now apply Hall.
Qed.

Lemma push_at_keys (buy : bool) (o : Order) (l : Ladder) (k : Z) :
  k ∈ ladder_keys (push_at (if buy then greater else less) (price o) o l)
  <-> k = price o \/ k ∈ ladder_keys l.
Proof.
  induction l as [|[k1 q1] l IH]; cbn [push_at].
  - cbn. rewrite list_elem_of_singleton, elem_of_nil. tauto.
  - destruct (Z.eqb_spec k1 (price o)) as [->|Hne].
    + cbn. rewrite elem_of_cons. tauto.
    + destruct (if buy then greater else less) eqn:Hbefore; cbn.
      * rewrite !elem_of_cons. tauto.
      * cbn in IH. rewrite !elem_of_cons, IH. tauto.
Qed.

Lemma push_at_ok (buy : bool) (o : Order) (l : Ladder) :
  ladder_ok buy l -> is_buy o = buy -> 0 < qty o ->
  ladder_ok buy (push_at (if buy then greater else less) (price o) o l).
Proof.
  intros Hok Hside Hqty. induction l as [|[k1 q1] l IH]; cbn [push_at].
  - split; [repeat constructor|].
    intros k q Hin. apply list_elem_of_singleton in Hin as [= -> ->].
    split; [discriminate|]. intros r Hr. apply list_elem_of_singleton in Hr as ->.
    auto.
  - destruct (Z.eqb_spec k1 (price o)) as [Heq|Hne].
    + apply (ladder_ok_head buy k1 q1); [exact Hok|].
      destruct Hok as [_ Hq]. destruct (Hq k1 q1 ltac:(apply list_elem_of_here)) as [_ Hall].
      split; [now destruct q1|].
      intros r Hr. apply elem_of_app in Hr as [Hr|Hr]; [now apply Hall|].
      apply list_elem_of_singleton in Hr as ->. auto.
    + destruct (key_order_cases buy (price o) k1 ltac:(congruence))
        as [[Hb Hord]|[Hb Hord]]; rewrite Hb.
      * split.
        -- cbn. constructor; [exact (proj1 Hok)|].
           apply Forall_forall. intros k Hk. change (k ∈ ladder_keys ((k1, q1) :: l)) in Hk.
           cbn in Hk. apply elem_of_cons in Hk as [->|Hk]; [exact Hord|].
           eapply key_order_trans; [exact Hord|].
           now apply (ladder_ok_front buy k1 q1 l).
        -- intros k q Hin. apply elem_of_cons in Hin as [[= -> ->]|Hin];
             [|now apply (proj2 Hok)].
           split; [discriminate|]. intros r Hr.
           apply list_elem_of_singleton in Hr as ->. auto.
      * specialize (IH (ladder_ok_tail buy k1 q1 l Hok)). split.
        -- cbn. constructor; [exact (proj1 IH)|].
           apply Forall_forall. intros k Hk.
           apply (push_at_keys buy o l k) in Hk as [->|Hk]; [exact Hord|].
           now apply (ladder_ok_front buy k1 q1 l).
        -- intros k q Hin. apply elem_of_cons in Hin as [[= -> ->]|Hin].
           ++ apply (proj2 Hok). apply list_elem_of_here.
           ++ now apply (proj2 IH).
Qed.

Lemma ladder_qty_cons (k : Z) (q : list Order) (l : Ladder) :
  ladder_qty ((k, q) :: l) = ladder_qty [(k, q)] + ladder_qty l.
Proof.
  unfold ladder_qty. cbn [map concat snd]. rewrite app_nil_r, foldr_app.
  induction q as [|r q IH]; cbn [foldr]; lia.
Qed.

Lemma ladder_qty_queue (k : Z) (q : list Order) (r : Order) :
  ladder_qty [(k, q ++ [r])] = ladder_qty [(k, q)] + qty r.
Proof.
  unfold ladder_qty. cbn [map concat snd]. rewrite !app_nil_r.
  induction q as [|r1 q IH]; cbn [foldr app]; lia.
Qed.

Lemma own_contra_ladder (b : t) (o : Order) (l : Ladder) :
  own_ladder (set_contra_ladder b o l) o = own_ladder b o.
Proof. unfold own_ladder, set_contra_ladder. now destruct (is_buy o). Qed.

Lemma is_buy_set_qty (o : Order) (q : Z) : is_buy (set_qty o q) = is_buy o.
Proof. reflexivity. Qed.

(** One turn of the loop on a well-formed ladder. *)
Lemma match_body_engine (b : t) (o : Order) :
  match_cond b o = true -> ladder_ok (negb (is_buy o)) (contra_ladder b o) ->
  exists k q levels line b1,
    contra_ladder b o = (k, q) :: levels /\
    match_body b o = Some (set_qty o (qty o - traded line), line, b1) /\
    aggressor line = (if is_buy o then "BUY" else "SELL")%string /\
    at_price line = k /\ within_limit o k /\
    0 < traded line <= qty o /\
    own_ladder b1 o = own_ladder b o /\
    ladder_ok (negb (is_buy o)) (contra_ladder b1 o) /\
    (contra_ladder b1 o = levels \/
     exists q1, contra_ladder b1 o = (k, q1) :: levels) /\
    ladder_qty (contra_ladder b1 o) = ladder_qty (contra_ladder b o) - traded line.
Proof.
  intros Hcond Hok. unfold match_cond in Hcond. unfold match_body.
  destruct (contra_ladder b o) as [|[k q] levels] eqn:Hlad.
  { now rewrite andb_false_r in Hcond. }
  apply andb_true_iff in Hcond as [Hq Hlim]. apply Z.ltb_lt in Hq.
  destruct (proj2 Hok k q ltac:(apply list_elem_of_here)) as [Hne Hall].
  destruct q as [|resting q]; [contradiction|].
  destruct (Hall resting ltac:(apply list_elem_of_here)) as (Hside & Hprice & Hrq).
  exists k, (resting :: q), levels.
  eexists (mkLine _ (Z.min (qty o) (qty resting)) (price resting)), _.
  split; [reflexivity|]. split; [reflexivity|]. cbn [aggressor at_price traded].
  split; [reflexivity|]. split; [exact Hprice|].
  split. { unfold within_limit. destruct (is_buy o); lia. }
  split; [lia|]. rewrite own_contra_ladder, contra_ladder_set.
  split; [reflexivity|]. cbn [qty set_qty].
  pose proof (ladder_ok_tail _ _ _ _ Hok) as Htail.
  assert (Hrest : forall r, r ∈ q -> is_buy r = negb (is_buy o) /\ price r = k /\ 0 < qty r)
    by (intros r Hr; apply Hall; now apply list_elem_of_further).
  rewrite (ladder_qty_cons k (resting :: q)).
  change (ladder_qty [(k, resting :: q)]) with (qty resting + ladder_qty [(k, q)]).
  destruct (Z.ltb_spec 0 (qty resting - Z.min (qty o) (qty resting))) as [Hpart|Hfull].
  - assert (Hq1 : queue_ok (negb (is_buy o)) k
                           (q ++ [set_qty resting (qty resting - Z.min (qty o) (qty resting))])).
    { split; [now destruct q|]. intros r Hr.
      apply elem_of_app in Hr as [Hr|Hr]; [now apply Hrest|].
      apply list_elem_of_singleton in Hr as ->. cbn [qty price set_qty].
      rewrite is_buy_set_qty. auto. }
    destruct (q ++ _) as [|r1 q1] eqn:Hq1e; [now destruct q|]. rewrite <- Hq1e in *.
    split; [exact (ladder_ok_head _ _ _ _ _ Hok Hq1)|].
    split; [right; eauto|].
    rewrite ladder_qty_cons, ladder_qty_queue. cbn [qty set_qty]. lia.
  - destruct q as [|r1 q1].
    + split; [exact Htail|]. split; [now left|].
      change (ladder_qty [(k, [])]) with 0. lia.
    + split.
      * apply (ladder_ok_head _ _ _ _ _ Hok). split; [discriminate|exact Hrest].
      * split; [right; eauto|]. rewrite (ladder_qty_cons k (r1 :: q1)). lia.
Qed.

(** What the loop leaves: the order with what was not traded, its own
    ladder as it was, the other ladder well formed, with keys it had
    before, and poorer by the traded quantity; every line priced at a key
    of the other ladder within the limit of the order; and nothing left to
    match. *)
Lemma match_loop_engine (fuel : nat) :
  forall (b b1 : t) (o o1 : Order) (lines : list Line),
    match_loop fuel b o = Some (o1, lines, b1) ->
    ladder_ok (negb (is_buy o)) (contra_ladder b o) ->
    o1 = set_qty o (qty o - lines_traded lines) /\
    0 <= lines_traded lines /\ (lines <> [] -> 0 <= qty o1) /\
    match_cond b1 o1 = false /\
    own_ladder b1 o = own_ladder b o /\
    ladder_ok (negb (is_buy o)) (contra_ladder b1 o) /\
    (forall k, k ∈ ladder_keys (contra_ladder b1 o) ->
               k ∈ ladder_keys (contra_ladder b o)) /\
    ladder_qty (contra_ladder b1 o)
    = ladder_qty (contra_ladder b o) - lines_traded lines /\
    Forall (fun line =>
              aggressor line = (if is_buy o then "BUY" else "SELL")%string /\
              0 < traded line /\ within_limit o (at_price line) /\
              at_price line ∈ ladder_keys (contra_ladder b o)) lines /\
    StronglySorted (fun l1 l2 => at_price l1 = at_price l2 \/
                                 key_order (negb (is_buy o)) (at_price l1) (at_price l2))
                   lines.
Proof.
  induction fuel as [|fuel IH]; intros b b1 o o1 lines; cbn [match_loop];
    destruct (match_cond b o) eqn:Hcond; try discriminate.
  1,3: intros [= <- <- <-] Hok; cbn [lines_traded foldr];
    (split; [destruct o; cbn; f_equal; lia|]); (split; [lia|]);
    (split; [congruence|]); (split; [exact Hcond|]);
    (split; [reflexivity|]); (split; [exact Hok|]); (split; [auto|]);
    (split; [lia|]); split; constructor.
  intros Hrun Hok.
  destruct (match_body_engine b o Hcond Hok)
    as (k & q & levels & line & bx & Hlad & Hbody & Hagg & Hat & Hlim & Htr &
        Hown & Hokx & Hshape & Hqty).
  rewrite Hbody in Hrun.
  destruct (match_loop fuel bx _) as [[[o2 lines2] b2]|] eqn:Hloop; [|discriminate].
  injection Hrun as <- <- <-.
  specialize (IH _ _ _ _ _ Hloop). rewrite is_buy_set_qty in IH.
  assert (Hsame : forall bb q1, contra_ladder bb (set_qty o q1) = contra_ladder bb o)
    by reflexivity.
  assert (Hsame1 : forall bb q1, own_ladder bb (set_qty o q1) = own_ladder bb o)
    by reflexivity.
  assert (Hlimq : forall q1 k1, within_limit (set_qty o q1) k1 = within_limit o k1)
    by reflexivity.
  rewrite !Hsame, !Hsame1 in IH.
  destruct (IH Hokx) as (Ho2 & Hpos & Hleft & Hexit & Hown2 & Hok2 & Hkeys & Hq2 &
                         Hlines & Hsorted).
  assert (Hkeysx : forall k1, k1 ∈ ladder_keys (contra_ladder bx o) ->
                              k1 = k \/ k1 ∈ ladder_keys levels).
  { intros k1 Hk1. destruct Hshape as [E|[q1 E]]; rewrite E in Hk1; [now right|].
    cbn in Hk1. apply elem_of_cons in Hk1 as [->|Hk1]; [now left|now right]. }
  cbn [lines_traded foldr]. fold (lines_traded lines2).
  split. { rewrite Ho2. destruct o; cbn. f_equal. lia. }
  split; [lia|].
  split.
  { intros _. destruct lines2 as [|l2 lines2].
    - rewrite Ho2. cbn. lia.
    - apply Hleft. discriminate. }
  split; [exact Hexit|]. split; [congruence|]. split; [exact Hok2|].
  split.
  { intros k1 Hk1. rewrite Hlad. cbn. apply Hkeys, Hkeysx in Hk1 as [->|Hk1];
      [apply list_elem_of_here|now apply list_elem_of_further]. }
  split; [lia|]. split.
  - constructor.
    + rewrite Hat, Hlad. split; [exact Hagg|]. split; [lia|]. split; [exact Hlim|].
      cbn. apply list_elem_of_here.
    + eapply Forall_impl; [exact Hlines|]. intros l2 (H1 & H2 & H3 & H4).
      split; [exact H1|]. split; [exact H2|]. split; [exact H3|].
      rewrite Hlad. cbn. apply Hkeysx in H4 as [->|H4];
        [apply list_elem_of_here|now apply list_elem_of_further].
  - constructor; [exact Hsorted|].
    rewrite Forall_forall in Hlines. apply Forall_forall. intros l2 Hl2.
    destruct (Hlines l2 Hl2) as (_ & _ & _ & Hin). rewrite Hat.
    apply Hkeysx in Hin as [->|Hin]; [now left|right].
    rewrite Hlad in Hok. now apply (ladder_ok_front _ k q levels).
Qed.

End EngineInvariantFacts.

Section EngineTheorems.
Import Engine.

Lemma engine_wf_create : engine_wf create.
Proof.
  split; [|split].
  - split; [constructor|]. intros k q Hin. cbn in Hin. now apply elem_of_nil in Hin.
  - split; [constructor|]. intros k q Hin. cbn in Hin. now apply elem_of_nil in Hin.
  - intros kb ka Hkb. cbn in Hkb. now apply elem_of_nil in Hkb.
Qed.

Lemma ladder_ok_queues (buy : bool) (l : Ladder) :
  ladder_ok buy l -> queues_nonempty l.
Proof. intros [_ Hq] k q Hin. now destruct (Hq k q Hin). Qed.

Lemma engine_wf_ladders (b : t) (o : Order) :
  engine_wf b ->
  ladder_ok (is_buy o) (own_ladder b o) /\
  ladder_ok (negb (is_buy o)) (contra_ladder b o).
Proof.
  intros (Hb & Ha & _). unfold own_ladder, contra_ladder.
  destruct (is_buy o); auto.
Qed.

(** When the loop has stopped with quantity left, no key of the other
    ladder is within the limit of the order. *)
Lemma stopped_outside_limit (b : t) (o : Order) (k : Z) :
  match_cond b o = false -> 0 < qty o ->
  ladder_ok (negb (is_buy o)) (contra_ladder b o) ->
  k ∈ ladder_keys (contra_ladder b o) -> ~ within_limit o k.
Proof.
  unfold match_cond, within_limit. intros Hcond Hq Hok Hk.
  destruct (Z.ltb_spec 0 (qty o)); [|lia]. cbn [andb] in Hcond.
  destruct (contra_ladder b o) as [|[first q] levels]; [now apply elem_of_nil in Hk|].
  cbn in Hk. apply elem_of_cons in Hk as [->|Hk].
  - destruct (is_buy o); apply Z.leb_gt in Hcond; lia.
  - pose proof (ladder_ok_front _ _ _ _ _ Hok Hk) as Hord.
    destruct (is_buy o); apply Z.leb_gt in Hcond; cbn in Hord; lia.
Qed.

Lemma ladder_qty_push_at (before : Z -> Z -> bool) (o : Order) (l : Ladder) :
  ladder_qty (push_at before (price o) o l) = ladder_qty l + qty o.
Proof.
  induction l as [|[k q] l IH]; cbn [push_at].
  - unfold ladder_qty. cbn. lia.
  - destruct (k =? price o).
    + rewrite ladder_qty_cons, ladder_qty_queue, (ladder_qty_cons k q l). lia.
    + destruct (before (price o) k).
      * rewrite ladder_qty_cons. unfold ladder_qty at 1. cbn. lia.
      * rewrite ladder_qty_cons, IH, (ladder_qty_cons k q l). lia.
Qed.

(** [matchOrder] in terms of its loop. *)
Lemma matchOrder_engine (b : t) (o : Order) :
  engine_wf b ->
  exists o1 lines bl,
    match_loop (S (resting_orders (contra_ladder b o))) b o = Some (o1, lines, bl) /\
    matchOrder b o
    = Some (lines,
            if 0 <? qty o1 then
              if is_buy o
              then {| bids := push_at greater (price o1) o1 (bids bl); asks := asks bl |}
              else {| bids := bids bl; asks := push_at less (price o1) o1 (asks bl) |}
            else bl).
Proof.
  intros Hwf. destruct (engine_wf_ladders b o Hwf) as [_ Hcontra].
  destruct (match_loop_total_engine (S (resting_orders (contra_ladder b o))) b o
              (ladder_ok_queues _ _ Hcontra) ltac:(lia)) as [[[o1 lines] bl] Hloop].
  exists o1, lines, bl. split; [exact Hloop|]. unfold matchOrder. now rewrite Hloop.
Qed.

Lemma matchOrder_wf (b b1 : t) (o : Order) (lines : list Line) :
  engine_wf b -> matchOrder b o = Some (lines, b1) -> engine_wf b1.
Proof.
  intros Hwf Hrun. destruct (matchOrder_engine b o Hwf) as (o1 & ls & bl & Hloop & Hm).
  rewrite Hm in Hrun. injection Hrun as <- <-.
  destruct (engine_wf_ladders b o Hwf) as [Hown Hcontra].
  destruct (match_loop_engine _ _ _ _ _ _ Hloop Hcontra)
    as (Ho1 & _ & _ & Hexit & Hsame & Hok & Hkeys & _).
  assert (Hside : is_buy o1 = is_buy o) by now rewrite Ho1.
  assert (Hprice : price o1 = price o) by now rewrite Ho1.
  assert (Hwfl : engine_wf bl).
  { destruct Hwf as (Hb & Ha & Hx). unfold own_ladder, contra_ladder in *.
    destruct (is_buy o).
    - rewrite <- Hsame in Hb. split; [exact Hb|]. split; [exact Hok|].
      intros kb ka Hkb Hka. rewrite Hsame in Hkb. auto.
    - rewrite <- Hsame in Ha. split; [exact Hok|]. split; [exact Ha|].
      intros kb ka Hkb Hka. rewrite Hsame in Hka. auto. }
  destruct (Z.ltb_spec 0 (qty o1)) as [Hq|_]; [|exact Hwfl].
  assert (Hout : forall k, k ∈ ladder_keys (contra_ladder bl o) -> ~ within_limit o k).
  { intros k Hk. rewrite Ho1 in Hexit, Hq.
    exact (stopped_outside_limit bl _ k Hexit Hq Hok Hk). }
  destruct Hwfl as (Hb & Ha & Hx). unfold contra_ladder, within_limit in Hout.
  destruct (is_buy o) eqn:Hbuy.
  - split; [|split]; cbn [bids asks].
    + now apply (push_at_ok true).
    + exact Ha.
    + intros kb ka Hkb Hka. cbn [bids asks] in *.
      apply (push_at_keys true) in Hkb as [->|Hkb]; [|auto].
      specialize (Hout ka Hka). lia.
  - split; [|split]; cbn [bids asks].
    + exact Hb.
    + now apply (push_at_ok false).
    + intros kb ka Hkb Hka. cbn [bids asks] in *.
      apply (push_at_keys false) in Hka as [->|Hka]; [|auto].
      specialize (Hout kb Hkb). lia.
Qed.

Lemma two_asks_wf : engine_wf two_asks.
Proof.
  assert (Hrun : matchOrders create [mkOrder 1 "SELL" 100 10; mkOrder 2 "SELL" 101 5]
                 = Some ([], two_asks)) by reflexivity.
  cbn [matchOrders] in Hrun.
  destruct (matchOrder create _) as [[l1 b1]|] eqn:H1; [|discriminate].
  destruct (matchOrder b1 _) as [[l2 b2]|] eqn:H2; [|discriminate].
  injection Hrun as _ <-.
  apply (matchOrder_wf _ _ _ _ (matchOrder_wf _ _ _ _ engine_wf_create H1) H2).
Qed.



(** X13. [matchOrder] conserves quantity.  An order without quantity
    changes nothing and prints nothing.  Otherwise the printed trades add
    up to no more than the quantity of the order; the other side of the
    book loses exactly the traded quantity; and what the order has left,
    if anything, is queued behind the orders at its price on its own
    side, which is otherwise unchanged. *)
Theorem engine_quantity_is_conserved
        (b b1 : t) (o : Order) (lines : list Line) :
  engine_wf b -> matchOrder b o = Some (lines, b1) ->
  (qty o <= 0 -> lines = [] /\ b1 = b) /\
  (0 < qty o ->
   let rest := qty o - lines_traded lines in
   0 <= lines_traded lines <= qty o /\
   ladder_qty (contra_ladder b1 o)
   = ladder_qty (contra_ladder b o) - lines_traded lines /\
   own_ladder b1 o
   = (if 0 <? rest
      then push_at (if is_buy o then greater else less) (price o)
                   (set_qty o rest) (own_ladder b o)
      else own_ladder b o) /\
   ladder_qty (own_ladder b1 o) = ladder_qty (own_ladder b o) + rest).
Proof.
  intros Hwf Hrun. destruct (matchOrder_engine b o Hwf) as (o1 & ls & bl & Hloop & Hm).
  rewrite Hm in Hrun. injection Hrun as -> <-.
  destruct (engine_wf_ladders b o Hwf) as [Hown Hcontra].
  destruct (match_loop_engine _ _ _ _ _ _ Hloop Hcontra)
    as (Ho1 & Hpos & Hleft & _ & Hsame & _ & _ & Hqty & _).
  split.
  - intros Hq. cbn [match_loop] in Hloop. unfold match_cond in Hloop.
    destruct (Z.ltb_spec 0 (qty o)) as [|_]; [lia|]. cbn [andb] in Hloop.
    injection Hloop as <- <- <-.
    destruct (Z.ltb_spec 0 (qty o)) as [|_]; [lia|]. split; reflexivity.
  - intros Hq. cbv zeta.
    assert (Hrest : qty o1 = qty o - lines_traded lines) by now rewrite Ho1.
    assert (Hprice : price o1 = price o) by now rewrite Ho1.
    assert (Hle : lines_traded lines <= qty o).
    { destruct lines as [|l lines]; [cbn; lia|].
      specialize (Hleft ltac:(discriminate)). lia. }
    split; [lia|]. rewrite <- Hrest.
    unfold own_ladder, contra_ladder in *.
    destruct (Z.ltb_spec 0 (qty o1)) as [Hq1|Hq1].
    + assert (Hself : set_qty o (qty o1) = o1) by (rewrite Ho1; reflexivity).
      rewrite Hself, <- Hprice.
      destruct (is_buy o); cbn [bids asks]; rewrite Hsame;
        (split; [exact Hqty|]); (split; [reflexivity|]); apply ladder_qty_push_at.
    + assert (qty o1 = 0) by lia.
      destruct (is_buy o); (split; [exact Hqty|]); (split; [exact Hsame|]);
        rewrite Hsame; lia.
Qed.

Lemma engine_quantity_is_conserved_witness :
  engine_wf two_asks /\
  matchOrder two_asks (mkOrder 3 "BUY" 100 4)
  = Some ([mkLine "BUY" 4 100],
          {| bids := [];
             asks := [(100, [mkOrder 1 "SELL" 100 6]);
                      (101, [mkOrder 2 "SELL" 101 5])] |}) /\
  ladder_qty [(100, [mkOrder 1 "SELL" 100 6]); (101, [mkOrder 2 "SELL" 101 5])]
  = ladder_qty (asks two_asks) - 4.
Proof.
  split; [exact two_asks_wf|]. split; [reflexivity|].
  destruct (engine_quantity_is_conserved two_asks _ (mkOrder 3 "BUY" 100 4) _
              two_asks_wf eq_refl) as [_ Hcons].
  destruct (Hcons ltac:(cbn; lia)) as (_ & Hq & _). exact Hq.
Defined.

(** X14. [matchOrder] trades at the best prices, inside the limit of the
    order.  Every printed line names the side of the incoming order and a
    quantity above zero; its price is a key of the other side of the
    book, hence the price of the resting orders queued there, and is
    within the limit of the incoming order; and the lines come best price
    first: for a buy no line is priced below an earlier one, for a sell
    none above. *)
Theorem engine_trades_best_price_first
        (b b1 : t) (o : Order) (lines : list Line) :
  engine_wf b -> matchOrder b o = Some (lines, b1) ->
  Forall (fun line =>
            aggressor line = (if is_buy o then "BUY" else "SELL")%string /\
            0 < traded line /\
            (if is_buy o then at_price line <= price o
             else price o <= at_price line) /\
            exists q, (at_price line, q) ∈ contra_ladder b o /\
                      forall r, r ∈ q -> price r = at_price line) lines /\
  StronglySorted (fun l1 l2 => if is_buy o then at_price l1 <= at_price l2
                               else at_price l2 <= at_price l1) lines.
Proof.
  intros Hwf Hrun. destruct (matchOrder_engine b o Hwf) as (o1 & ls & bl & Hloop & Hm).
  rewrite Hm in Hrun. injection Hrun as -> _.
  destruct (engine_wf_ladders b o Hwf) as [_ Hcontra].
  destruct (match_loop_engine _ _ _ _ _ _ Hloop Hcontra)
    as (_ & _ & _ & _ & _ & _ & _ & _ & Hlines & Hsorted).
  split.
  - eapply Forall_impl; [exact Hlines|]. intros line (H1 & H2 & H3 & H4).
    split; [exact H1|]. split; [exact H2|]. split; [exact H3|].
    apply ladder_keys_elem in H4 as [q Hin]. exists q. split; [exact Hin|].
    intros r Hr. now destruct (proj2 Hcontra _ _ Hin) as [_ Hall]; destruct (Hall r Hr) as (_ & ? & _).
  - eapply sorted_weaken; [|exact Hsorted].
    intros l1 l2 Hord. unfold key_order in Hord. destruct (is_buy o); cbn in Hord; lia.
Qed.

Lemma engine_trades_best_price_first_witness :
  engine_wf two_asks /\
  matchOrder two_asks (mkOrder 3 "BUY" 101 12)
  = Some ([mkLine "BUY" 10 100; mkLine "BUY" 2 101],
          {| bids := []; asks := [(101, [mkOrder 2 "SELL" 101 3])] |}) /\
  StronglySorted (fun l1 l2 => at_price l1 <= at_price l2)
                 [mkLine "BUY" 10 100; mkLine "BUY" 2 101].
Proof.
  split; [exact two_asks_wf|]. split; [reflexivity|].
  exact (proj2 (engine_trades_best_price_first two_asks _ (mkOrder 3 "BUY" 101 12) _
                  two_asks_wf eq_refl)).
Defined.

End EngineTheorems.

(** ** The map-based book is sorted and never crossed *)

Section MapBookOrderFacts.
Import Interview.

Lemma ladder_prices_elem (l : Ladder) (k : Z) :
  k ∈ ladder_prices l <-> exists lvl, (k, lvl) ∈ l.
Proof.
  unfold ladder_prices. rewrite list_elem_of_fmap. split.
  - intros ([k1 lvl] & -> & Hin). now exists lvl.
  - intros (lvl & Hin). now exists (k, lvl).
Qed.

Lemma price_order_trans (s : Side) (k1 k2 k3 : Z) :
  price_order s k1 k2 -> price_order s k2 k3 -> price_order s k1 k3.
Proof. destruct s; cbn; lia. Qed.

Lemma ladder_sorted_front (s : Side) (k : Z) (lvl : PriceLevel) (l : Ladder) (k1 : Z) :
  ladder_sorted s ((k, lvl) :: l) -> k1 ∈ ladder_prices l -> price_order s k k1.
Proof.
  intros Hs Hin. apply StronglySorted_inv in Hs as [_ Hall].
  rewrite Forall_forall in Hall. now apply Hall.
Qed.

Lemma ladder_sorted_tail (s : Side) (k : Z) (lvl : PriceLevel) (l : Ladder) :
  ladder_sorted s ((k, lvl) :: l) -> ladder_sorted s l.
Proof. intros Hs. now apply StronglySorted_inv in Hs as [Hs _]. Qed.

Lemma ladder_set_prices (p : Z) (lvl : PriceLevel) (l : Ladder) :
  ladder_prices (ladder_set p lvl l) = ladder_prices l.
Proof.
  induction l as [|[k old] l IH]; [reflexivity|]. cbn [ladder_set].
  destruct (k =? p); [reflexivity|]. unfold ladder_prices in *. cbn [map fst].
  now rewrite IH.
Qed.

Lemma ladder_set_elem (p : Z) (new : PriceLevel) (l : Ladder) (k : Z) (x : PriceLevel) :
  (k, x) ∈ ladder_set p new l -> (k, x) ∈ l \/ (k = p /\ x = new).
Proof.
  induction l as [|[k1 old] l IH]; cbn [ladder_set]; [now left|].
  destruct (Z.eqb_spec k1 p) as [->|Hne]; intros Hin;
    apply elem_of_cons in Hin as [[= -> ->]|Hin].
  - now right.
  - left. now apply list_elem_of_further.
  - left. apply list_elem_of_here.
  - destruct (IH Hin) as [H|H]; [left; now apply list_elem_of_further|now right].
Qed.

Lemma ladder_erase_prices (p : Z) (l : Ladder) (k : Z) :
  k ∈ ladder_prices (ladder_erase p l) -> k ∈ ladder_prices l.
Proof.
  rewrite !ladder_prices_elem. intros [lvl Hin]. exists lvl.
  now apply (ladder_erase_subset p).
Qed.

Lemma ladder_erase_sorted (s : Side) (p : Z) (l : Ladder) :
  ladder_sorted s l -> ladder_sorted s (ladder_erase p l).
Proof.
  induction l as [|[k old] l IH]; intros Hs; [exact Hs|]. cbn [ladder_erase].
  destruct (k =? p); [exact (ladder_sorted_tail _ _ _ _ Hs)|].
  unfold ladder_sorted. cbn [ladder_prices map fst]. constructor.
  - apply IH. exact (ladder_sorted_tail _ _ _ _ Hs).
  - apply Forall_forall. intros k1 Hk1.
    apply (ladder_sorted_front s k old l); [exact Hs|].
    now apply (ladder_erase_prices p).
Qed.

Lemma ordered_before_cases (s : Side) (p k : Z) :
  p <> k ->
  ordered_before s p k = true /\ price_order s p k \/
  ordered_before s p k = false /\ price_order s k p.
Proof.
  intros Hne. destruct s; cbn.
  - destruct (Z.ltb_spec k p); [left|right]; split; auto; lia.
  - destruct (Z.ltb_spec p k); [left|right]; split; auto; lia.
Qed.

Lemma ladder_emplace_prices (s : Side) (p : Z) (new : PriceLevel) (l : Ladder) (k : Z) :
  k ∈ ladder_prices (ladder_emplace s p new l) <-> k = p \/ k ∈ ladder_prices l.
Proof.
  induction l as [|[k1 old] l IH]; cbn [ladder_emplace].
  - cbn. rewrite list_elem_of_singleton, elem_of_nil. tauto.
  - destruct (Z.eqb_spec k1 p) as [->|Hne].
    + cbn. rewrite elem_of_cons. tauto.
    + destruct (ordered_before s p k1); cbn.
      * rewrite !elem_of_cons. tauto.
      * cbn in IH. rewrite !elem_of_cons, IH. tauto.
Qed.

Lemma ladder_emplace_sorted (s : Side) (p : Z) (new : PriceLevel) (l : Ladder) :
  ladder_sorted s l -> ladder_sorted s (ladder_emplace s p new l).
Proof.
  induction l as [|[k1 old] l IH]; intros Hs; cbn [ladder_emplace].
  - repeat constructor.
  - destruct (Z.eqb_spec k1 p) as [->|Hne]; [exact Hs|].
    destruct (ordered_before_cases s p k1 ltac:(congruence)) as [[-> Hord]|[-> Hord]].
    + unfold ladder_sorted. cbn [ladder_prices map fst]. constructor; [exact Hs|].
      apply Forall_forall. intros k Hk.
      apply elem_of_cons in Hk as [->|Hk]; [exact Hord|].
      eapply price_order_trans; [exact Hord|].
      exact (ladder_sorted_front s k1 old l k Hs Hk).
    + unfold ladder_sorted. cbn [ladder_prices map fst]. constructor.
      * apply IH. exact (ladder_sorted_tail _ _ _ _ Hs).
      * apply Forall_forall. intros k Hk.
        apply (ladder_emplace_prices s p new l k) in Hk as [->|Hk]; [exact Hord|].
        exact (ladder_sorted_front s k1 old l k Hs Hk).
Qed.

Lemma ladder_emplace_find (s : Side) (p : Z) (new : PriceLevel) (l : Ladder) :
  ladder_find p l = None ->
  ladder_find p (ladder_emplace s p new l) = Some new.
Proof.
  induction l as [|[k1 old] l IH]; cbn [ladder_emplace ladder_find].
  - now rewrite Z.eqb_refl.
  - destruct (Z.eqb_spec k1 p) as [->|Hne]; [discriminate|]. intros Hnone.
    destruct (ordered_before s p k1); cbn [ladder_find].
    + now rewrite Z.eqb_refl.
    + destruct (Z.eqb_spec k1 p); [contradiction|]. now apply IH.
Qed.

Lemma ladder_find_none (p : Z) (l : Ladder) :
  ladder_find p l = None -> p ∉ ladder_prices l.
Proof.
  induction l as [|[k1 old] l IH]; cbn [ladder_find]; [intros _; apply not_elem_of_nil|].
  destruct (Z.eqb_spec k1 p) as [->|Hne]; [discriminate|]. intros Hnone Hin.
  cbn in Hin. apply elem_of_cons in Hin as [->|Hin]; [contradiction|].
  now apply IH.
Qed.

Lemma remove_first_NoDup (oid : Z) (b : t) (l : list Z) (ptr : Z) (rest : list Z) :
  remove_first oid b l = Some (ptr, rest) -> NoDup l -> NoDup rest.
Proof.
  revert ptr rest. induction l as [|c l IH]; intros ptr rest; cbn [remove_first];
    [discriminate|].
  destruct (order_id (deref b c) =? oid).
  - intros [= <- <-] Hnd. now apply NoDup_cons in Hnd as [_ Hnd].
  - destruct (remove_first oid b l) as [[found rest1]|] eqn:Hrec; [|discriminate].
    intros [= <- <-] Hnd. apply NoDup_cons in Hnd as [Hc Hnd].
    apply NoDup_cons. split; [|now apply (IH found)].
    intros Hin. apply Hc. now apply (remove_first_subset oid b l found rest1).
Qed.

(** The loops of [match_order] take levels off the front of the other
    ladder and leave the rest in place. *)
Lemma match_outer_ordered (fuel : nat) :
  forall (b bf : t) (order : Z),
    not_resting (ladder_of b (contra (side (deref b order)))) order ->
    match_outer fuel b order = Some bf ->
    (exists pre,
        ladder_prices (ladder_of b (contra (side (deref b order))))
        = pre ++ ladder_prices (ladder_of bf (contra (side (deref b order))))) /\
    (levels_ok (ladder_of b (contra (side (deref b order)))) ->
     levels_ok (ladder_of bf (contra (side (deref b order))))) /\
    (is_active (deref bf order) = true ->
     match ladder_of bf (contra (side (deref b order))) with
     | [] => True
     | (k, lvl) :: _ => price_matches (deref bf order) lvl = false
     end).
Proof.
  induction fuel as [|fuel IH]; intros b bf order Hfresh;
    set (s := contra (side (deref b order))) in *;
    cbn [match_outer]; fold s;
    destruct (ladder_of b s) as [|[k lvl] rest] eqn:Hlad;
    try (intros [= <-]; rewrite Hlad;
         split; [now exists []|]; split; [auto|]; intros _; exact I);
    destruct (is_active (deref b order)) eqn:Hact;
    try (intros [= <-]; rewrite Hlad;
         split; [now exists []|]; split; [auto|]; congruence);
    destruct (price_matches (deref b order) lvl) eqn:Hpm;
    try (intros [= <-]; rewrite Hlad;
         split; [now exists []|]; split; [auto|]; intros _; exact Hpm);
    try discriminate.
  assert (Hnot : order ∉ level_orders_ lvl)
    by (apply (Hfresh k); apply list_elem_of_here).
  destruct (match_inner_spec (S (length (level_orders_ lvl))) b order lvl Hnot
              ltac:(lia))
    as (b1 & lvl1 & new1 & Hinner & Hev & _ & Hp1 & (pre1 & Hpre) & _).
  rewrite Hinner.
  set (levels1 := match level_orders_ lvl1 with
                  | [] => rest
                  | _ :: _ => (k, lvl1) :: rest
                  end).
  set (bx := set_ladder b1 s levels1).
  assert (Hside : side (deref bx order) = side (deref b order)).
  { unfold bx. rewrite deref_set_ladder.
    now destruct (ev_same _ _ Hev order) as (_ & Hs & _). }
  assert (Hladx : ladder_of bx s = levels1) by apply ladder_of_set_ladder.
  assert (Hcases : forall k1 l1, (k1, l1) ∈ levels1 ->
                                 (k1, l1) ∈ rest \/
                                 (k1 = k /\ l1 = lvl1 /\ level_orders_ lvl1 <> [])).
  { intros k1 l1 Hin. unfold levels1 in Hin.
    destruct (level_orders_ lvl1) eqn:Ho; [now left|].
    apply elem_of_cons in Hin as [[= -> ->]|Hin]; [|now left].
    right. split; [reflexivity|]. split; [reflexivity|discriminate]. }
  assert (Hfreshx : not_resting (ladder_of bx (contra (side (deref bx order)))) order).
  { rewrite Hside. fold s. rewrite Hladx. intros k1 l1 Hin.
    destruct (Hcases k1 l1 Hin) as [Hin1|(-> & -> & _)].
    - apply (Hfresh k1). now apply list_elem_of_further.
    - intros Hc. apply Hnot. rewrite Hpre. apply elem_of_app. now right. }
  intros Hrun. destruct (IH bx bf order Hfreshx Hrun) as (Hpre2 & Hok2 & Hexit).
  rewrite Hside in Hpre2, Hok2, Hexit. fold s in Hpre2, Hok2, Hexit.
  rewrite Hladx in Hpre2, Hok2.
  split; [|split; [|exact Hexit]].
  - destruct Hpre2 as [pre2 Hpre2]. unfold levels1 in Hpre2.
    destruct (level_orders_ lvl1).
    + exists (k :: pre2). unfold ladder_prices in *. cbn [map fst app].
      now rewrite Hpre2.
    + exists pre2. exact Hpre2.
  - intros Hok. apply Hok2. intros k1 l1 Hin.
    destruct (Hcases k1 l1 Hin) as [Hin1|(-> & -> & Hne)].
    + apply Hok. now apply list_elem_of_further.
    + destruct (Hok k lvl ltac:(apply list_elem_of_here)) as (Hp & _ & Hnd).
      split; [congruence|]. split; [exact Hne|].
      rewrite Hpre in Hnd. now apply NoDup_app in Hnd as (_ & _ & Hnd).
Qed.

End MapBookOrderFacts.

Section MapBookOrderInvariant.
Import Interview.

Lemma ladder_set_elem_sorted (s : Side) (p : Z) (new : PriceLevel) (l : Ladder)
      (k : Z) (x : PriceLevel) :
  ladder_sorted s l -> (k, x) ∈ ladder_set p new l ->
  (k = p /\ x = new) \/ ((k, x) ∈ l /\ k <> p).
Proof.
  induction l as [|[k1 old] l IH]; cbn [ladder_set]; intros Hs Hin;
    [now apply elem_of_nil in Hin|].
  destruct (Z.eqb_spec k1 p) as [->|Hne];
    apply elem_of_cons in Hin as [[= -> ->]|Hin].
  - now left.
  - right. split; [now apply list_elem_of_further|].
    assert (Hk : k ∈ ladder_prices l) by (apply ladder_prices_elem; eauto).
    pose proof (ladder_sorted_front s p old l k Hs Hk) as Hord.
    destruct s; cbn in Hord; lia.
  - right. split; [apply list_elem_of_here|exact Hne].
  - destruct (IH (ladder_sorted_tail _ _ _ _ Hs) Hin) as [H|[H1 H2]]; [now left|].
    right. split; [now apply list_elem_of_further|exact H2].
Qed.

Lemma book_ordered_side (b : t) (s : Side) :
  book_ordered b ->
  ladder_sorted s (ladder_of b s) /\ levels_ok (ladder_of b s) /\
  ladder_sorted (contra s) (ladder_of b (contra s)) /\
  levels_ok (ladder_of b (contra s)) /\
  (forall k1 k2, k1 ∈ ladder_prices (ladder_of b s) ->
                 k2 ∈ ladder_prices (ladder_of b (contra s)) -> beyond s k1 k2).
Proof.
  intros [Hl Hx]. destruct (Hl s) as [H1 H2], (Hl (contra s)) as [H3 H4].
  repeat (split; [assumption|]).
  intros k1 k2 Hk1 Hk2. destruct s; cbn in *; now apply Hx.
Qed.

Lemma book_ordered_intro (b : t) (s : Side) :
  ladder_sorted s (ladder_of b s) -> levels_ok (ladder_of b s) ->
  ladder_sorted (contra s) (ladder_of b (contra s)) ->
  levels_ok (ladder_of b (contra s)) ->
  (forall k1 k2, k1 ∈ ladder_prices (ladder_of b s) ->
                 k2 ∈ ladder_prices (ladder_of b (contra s)) -> beyond s k1 k2) ->
  book_ordered b.
Proof.
  intros H1 H2 H3 H4 Hx. split.
  - intros sd. destruct s, sd; cbn in *; auto.
  - intros kb ka Hkb Hka. destruct s; cbn in *; now apply Hx.
Qed.

Lemma book_ordered_create (sym : string) : book_ordered (create sym).
Proof.
  split.
  - intros s. destruct s; cbn; (split; [constructor|]);
      intros k lvl Hin; now apply elem_of_nil in Hin.
  - intros kb ka Hkb. cbn in Hkb. now apply elem_of_nil in Hkb.
Qed.

Lemma cancel_order_ladders (b : t) (oid : Z) (old : Order) :
  orders_ b !! oid = Some old -> is_active old = true ->
  ladder_of (snd (cancel_order b oid)) (contra (side old))
  = ladder_of b (contra (side old)) /\
  ladder_of (snd (cancel_order b oid)) (side old)
  = match ladder_find (price old) (ladder_of b (side old)) with
    | Some lvl =>
        match level_orders_ (snd (level_remove_order b lvl oid)) with
        | [] => ladder_erase (price old) (ladder_of b (side old))
        | _ :: _ => ladder_set (price old) (snd (level_remove_order b lvl oid))
                               (ladder_of b (side old))
        end
    | None => ladder_of b (side old)
    end.
Proof.
  intros Ho Hact. unfold cancel_order. rewrite Ho, Hact. cbn [snd].
  destruct (ladder_find (price old) (ladder_of b (side old))) as [lvl|];
    [destruct (level_orders_ (snd (level_remove_order b lvl oid)))|];
    destruct (side old); split; reflexivity.
Qed.

Lemma level_remove_order_ok (b : t) (lvl : PriceLevel) (oid : Z) :
  NoDup (level_orders_ lvl) ->
  NoDup (level_orders_ (snd (level_remove_order b lvl oid))).
Proof.
  intros Hnd. unfold level_remove_order.
  destruct (remove_first oid b (level_orders_ lvl)) as [[ptr rest]|] eqn:Hrem;
    cbn [snd level_orders_]; [|exact Hnd].
  exact (remove_first_NoDup _ _ _ _ _ Hrem Hnd).
Qed.

Lemma cancel_order_ordered (b : t) (oid : Z) :
  book_ordered b -> book_ordered (snd (cancel_order b oid)).
Proof.
  intros Hord. destruct (orders_ b !! oid) as [old|] eqn:Ho.
  2:{ unfold cancel_order. rewrite Ho. exact Hord. }
  destruct (is_active old) eqn:Hact.
  2:{ unfold cancel_order. rewrite Ho, Hact. exact Hord. }
  destruct (cancel_order_ladders b oid old Ho Hact) as [Hc Hown].
  destruct (book_ordered_side b (side old) Hord) as (Hs1 & Ho1 & Hs2 & Ho2 & Hx).
  set (bc := snd (cancel_order b oid)) in *.
  set (l := ladder_of b (side old)) in *.
  assert (Hnew : ladder_sorted (side old) (ladder_of bc (side old)) /\
                 levels_ok (ladder_of bc (side old)) /\
                 forall k, k ∈ ladder_prices (ladder_of bc (side old)) ->
                           k ∈ ladder_prices l).
  { rewrite Hown. destruct (ladder_find (price old) l) as [lvl|] eqn:Hfind;
      [|split; [exact Hs1|]; split; [exact Ho1|]; intros k Hk; exact Hk].
    pose proof (ladder_find_elem _ _ _ Hfind) as Hin.
    destruct (Ho1 _ _ Hin) as (Hp & _ & Hnd).
    destruct (level_remove_order_subset b lvl oid) as [Hp1 _].
    pose proof (level_remove_order_ok b lvl oid Hnd) as Hnd1.
    destruct (level_orders_ (snd (level_remove_order b lvl oid))) as [|c rest] eqn:Hl1.
    - split; [now apply ladder_erase_sorted|]. split.
      + intros k x Hk. apply Ho1. now apply (ladder_erase_subset (price old)).
      + intros k. apply ladder_erase_prices.
    - split; [unfold ladder_sorted; now rewrite ladder_set_prices|]. split.
      + intros k x Hk. apply ladder_set_elem in Hk as [Hk|[-> ->]]; [now apply Ho1|].
        split; [congruence|]. split; [rewrite Hl1; discriminate|].
        now rewrite Hl1.
      + intros k. now rewrite ladder_set_prices. }
  destruct Hnew as (Hn1 & Hn2 & Hn3).
  apply (book_ordered_intro bc (side old)); try assumption.
  - rewrite Hc. exact Hs2.
  - rewrite Hc. exact Ho2.
  - intros k1 k2 Hk1 Hk2. rewrite Hc in Hk2. apply Hx; auto.
Qed.

Lemma add_to_book_ordered (b : t) (order : Z) :
  book_ordered b ->
  not_resting (ladder_of b (side (deref b order))) order ->
  (forall k, k ∈ ladder_prices (ladder_of b (contra (side (deref b order)))) ->
             beyond (side (deref b order)) (price (deref b order)) k) ->
  book_ordered (add_to_book b order).
Proof.
  intros Hord Hfresh Hbeyond. unfold add_to_book.
  set (s := side (deref b order)) in *. set (p := price (deref b order)) in *.
  destruct (book_ordered_side b s Hord) as (Hs1 & Ho1 & Hs2 & Ho2 & Hx).
  set (l := ladder_of b s) in *.
  assert (Hfinish : forall l1 lvl,
             ladder_sorted s l1 ->
             (forall k, k ∈ ladder_prices l1 -> k = p \/ k ∈ ladder_prices l) ->
             (forall k x, (k, x) ∈ l1 -> k <> p -> (k, x) ∈ l) ->
             price_ lvl = p -> NoDup (level_orders_ lvl) ->
             order ∉ level_orders_ lvl ->
             book_ordered (set_ladder b s (ladder_set p (level_add_order b lvl order) l1))).
  { intros l1 lvl Hsorted Hprices Helems Hp Hnd Hnot.
    apply (book_ordered_intro _ s).
    - rewrite ladder_of_set_ladder. unfold ladder_sorted. now rewrite ladder_set_prices.
    - rewrite ladder_of_set_ladder. intros k x Hk.
      apply (ladder_set_elem_sorted s _ _ _ _ _ Hsorted) in Hk as [[-> ->]|[Hk Hne]].
      + cbn [level_add_order price_ level_orders_]. split; [exact Hp|].
        split; [now destruct (level_orders_ lvl)|].
        apply NoDup_app. split; [exact Hnd|]. split; [|apply NoDup_singleton].
        intros c Hc Hc1. apply list_elem_of_singleton in Hc1 as ->. contradiction.
      + apply Ho1. now apply Helems.
    - rewrite ladder_of_set_ladder_other by (now destruct s). exact Hs2.
    - rewrite ladder_of_set_ladder_other by (now destruct s). exact Ho2.
    - rewrite ladder_of_set_ladder, ladder_set_prices.
      rewrite ladder_of_set_ladder_other by (now destruct s).
      intros k1 k2 Hk1 Hk2. apply Hprices in Hk1 as [->|Hk1]; [now apply Hbeyond|].
      now apply Hx. }
  destruct (ladder_find p l) as [lvl|] eqn:Hfind.
  - rewrite Hfind. pose proof (ladder_find_elem _ _ _ Hfind) as Hin.
    destruct (Ho1 _ _ Hin) as (Hp & _ & Hnd).
    apply Hfinish; auto. now apply (Hfresh p).
  - rewrite (ladder_emplace_find s p _ l Hfind).
    apply Hfinish; cbn [price_ level_orders_].
    + now apply ladder_emplace_sorted.
    + intros k. apply ladder_emplace_prices.
    + intros k x Hk Hne. apply ladder_emplace_cases in Hk as [Hk|[= -> _]];
        [exact Hk|contradiction].
    + reflexivity.
    + constructor.
    + apply not_elem_of_nil.
Qed.

Lemma add_order_ordered (b b1 : t) (s : Side) (ty : OrderType) (p q oid : Z) :
  book_wf b -> book_ordered b ->
  add_order b s ty p q = Some (oid, b1) -> book_ordered b1.
Proof.
  intros Hwf Hord. unfold add_order.
  set (n := next_order_id_ b) in *.
  set (order := mkOrder n (symbol_ b) s ty p q 0 NEW).
  set (b0 := mk _ _ _ (<[n := order]> (orders_ b)) _ _ _ _ _ _).
  assert (Hd0 : deref b0 n = order)
    by (unfold deref, b0; cbn [orders_]; now rewrite lookup_insert_eq).
  assert (Hl0 : forall sd, ladder_of b0 sd = ladder_of b sd) by now intros [].
  assert (Hside : side (deref b0 n) = s) by now rewrite Hd0.
  assert (Hfresh : forall sd, not_resting (ladder_of b sd) n)
    by (intros sd; now apply book_wf_next_fresh).
  unfold match_order. rewrite Hside.
  destruct (match_outer_spec (S (length (ladder_of b0 (contra s)))) b0 n)
    as (b2 & new & Hrun & Hm).
  { rewrite Hside, Hl0. apply Hfresh. }
  { rewrite Hside. lia. }
  rewrite Hrun.
  destruct (match_outer_ordered (S (length (ladder_of b0 (contra s)))) b0 b2 n)
    as (Hpre & Hok & Hexit); [|exact Hrun|].
  { rewrite Hside, Hl0. apply Hfresh. }
  rewrite Hside in Hpre, Hok, Hexit. rewrite Hl0 in Hpre, Hok.
  pose proof (m_own _ _ _ _ Hm) as Hown. rewrite Hside, Hl0 in Hown.
  pose proof (m_same _ _ _ _ Hm n) as (_ & Hs2n & Ht2n & Hp2n & _).
  rewrite Hd0 in Hs2n, Ht2n, Hp2n. cbn [side type price order] in Hs2n, Ht2n, Hp2n.
  destruct (book_ordered_side b s Hord) as (Hs1 & Ho1 & Hs2 & Ho2 & Hx).
  destruct Hpre as [pre Hpre].
  assert (Hsorted2 : ladder_sorted (contra s) (ladder_of b2 (contra s))).
  { unfold ladder_sorted in *. rewrite Hpre in Hs2.
    now apply StronglySorted_app_1_r in Hs2. }
  assert (Hord2 : book_ordered b2).
  { apply (book_ordered_intro b2 s).
    - now rewrite Hown.
    - now rewrite Hown.
    - exact Hsorted2.
    - now apply Hok.
    - intros k1 k2 Hk1 Hk2. rewrite Hown in Hk1. apply Hx; [exact Hk1|].
      rewrite Hpre. apply elem_of_app. now right. }
  assert (Hbook : is_active (deref b2 n) = true -> ty = LIMIT ->
                  book_ordered (add_to_book b2 n)).
  { intros Hact Hty. apply add_to_book_ordered; [exact Hord2| |].
    - rewrite Hs2n, Hown. apply Hfresh.
    - rewrite Hs2n, Hp2n. intros k Hk. specialize (Hexit Hact).
      destruct (ladder_of b2 (contra s)) as [|[k0 lvl0] rest0] eqn:Hlad;
        [now apply elem_of_nil in Hk|].
      unfold price_matches in Hexit. rewrite Ht2n, Hty, Hs2n in Hexit.
      destruct (Hok Ho2 k0 lvl0 ltac:(apply list_elem_of_here)) as (Hp0 & _).
      rewrite Hp0 in Hexit.
      assert (Hfront : beyond s p k0)
        by (destruct s; apply Z.leb_gt in Hexit; cbn; lia).
      cbn in Hk. apply elem_of_cons in Hk as [->|Hk]; [exact Hfront|].
      pose proof (ladder_sorted_front _ _ _ _ _ Hsorted2 Hk) as Hafter.
      destruct s; cbn in *; lia. }
  destruct ty; try destruct (is_active (deref b2 n)) eqn:Hact; intros [= <- <-];
    try exact Hord2.
  - now apply Hbook.
  - now apply cancel_order_ordered.
  - now apply cancel_order_ordered.
Qed.


Lemma two_bids_ordered : book_ordered two_bids.
Proof.
  pose proof two_bids_reached as Hrun.
  destruct (add_order (create "X") BUY LIMIT 50 10) as [[n1 b1]|] eqn:H1;
    [|discriminate].
  pose proof (add_order_ordered _ _ _ _ _ _ _ (book_wf_create "X")
                (book_ordered_create "X") H1) as Ho1.
  pose proof (add_order_wf _ _ _ _ _ _ _ (book_wf_create "X") ltac:(cbn; lia) H1)
    as Hw1.
  exact (add_order_ordered _ _ _ _ _ _ _ Hw1 Ho1 Hrun).
Qed.

End MapBookOrderInvariant.

Section MapBookTheorems.
Import Interview.

Lemma add_order_returns (b : t) (s : Side) (ty : OrderType) (p q : Z) :
  book_wf b ->
  exists b1, add_order b s ty p q = Some (next_order_id_ b, b1) /\
             next_order_id_ b1 = wrap64 (next_order_id_ b + 1).
Proof.
  intros Hwf.
  destruct (add_order_spec b s ty p q (book_wf_next_fresh b (contra s) Hwf))
    as (b1 & new & Hadd & _ & _ & Hnext & _).
  eauto.
Qed.

Lemma modify_order_returns (b : t) (oid p q : Z) :
  book_wf b -> exists ok b1, modify_order b oid p q = Some (ok, b1).
Proof.
  intros Hwf. unfold modify_order.
  destruct (orders_ b !! oid) as [old|] eqn:Hold; [|eauto].
  destruct (is_active old) eqn:Hact; [|eauto].
  destruct (add_order_returns (snd (cancel_order b oid)) (side old) (type old) p q
              (cancel_order_wf b oid Hwf)) as (b1 & -> & _).
  eauto.
Qed.

(** X15. The map-based book stays well formed.  Well formed means:
    every id queued in a level names an entry of [orders_] that carries
    that id, the side of the ladder and the price of the level; every id
    of [orders_] is below [next_order_id_]; and every level sits under
    its own price.  The new book is well formed.  On a well-formed book
    whose next id is below [2^64 - 1], [add_order] returns the next id,
    moves [next_order_id_] up by one and leaves the book well formed;
    [cancel_order] leaves it well formed; and [modify_order] returns and
    leaves it well formed. *)
Theorem map_book_stays_well_formed
        (sym : string) (b : t) (s : Side) (ty : OrderType)
        (p q oid new_price new_quantity : Z) :
  book_wf b -> 0 <= next_order_id_ b < 2 ^ 64 - 1 ->
  book_wf (create sym) /\
  (exists b1, add_order b s ty p q = Some (next_order_id_ b, b1) /\
              next_order_id_ b1 = next_order_id_ b + 1 /\ book_wf b1) /\
  book_wf (snd (cancel_order b oid)) /\
  (exists ok b1, modify_order b oid new_price new_quantity = Some (ok, b1) /\
                 book_wf b1).
Proof.
  intros Hwf Hrange. split; [apply book_wf_create|]. split; [|split].
  - destruct (add_order_returns b s ty p q Hwf) as (b1 & Hadd & Hnext).
    exists b1. split; [exact Hadd|]. split.
    + rewrite Hnext. apply wrap64_small. lia.
    + exact (add_order_wf _ _ _ _ _ _ _ Hwf Hrange Hadd).
  - now apply cancel_order_wf.
  - destruct (modify_order_returns b oid new_price new_quantity Hwf)
      as (ok & b1 & Hmod).
    exists ok, b1. split; [exact Hmod|].
    exact (modify_order_wf _ _ _ _ _ _ Hwf Hrange Hmod).
Qed.

Lemma map_book_stays_well_formed_witness :
  book_wf two_bids /\
  exists b1, add_order two_bids SELL LIMIT 50 10 = Some (3, b1) /\ book_wf b1.
Proof.
  split; [exact two_bids_wf|].
  destruct (map_book_stays_well_formed "X" two_bids SELL LIMIT 50 10 1 50 5
              two_bids_wf ltac:(cbn; lia)) as (_ & (b1 & Hadd & _ & Hwf) & _).
  exists b1. split; [exact Hadd | exact Hwf].
Defined.




End MapBookTheorems.

Section LevelTotals.
Import Interview.

(** X17. What one trade does to [total_quantity_] of the level.  When
    the resting order at the front has more left than the incoming order,
    it stays at the front and the total of the level goes down by the
    traded quantity.  When the trade fills the resting order, the order is
    popped and the total of the level stays as it was: [pop_front]
    subtracts what the order has left, which is nothing by then, so the
    total goes on counting the filled quantity. *)
Theorem full_fill_leaves_level_total
        (b : t) (order c : Z) (rest : list Z) (lvl : PriceLevel) :
  level_orders_ lvl = c :: rest -> c <> order ->
  let lvl1 := snd (match_inner_body b order lvl) in
  price_ lvl1 = price_ lvl /\
  (remaining_quantity (deref b order) < remaining_quantity (deref b c) ->
   level_orders_ lvl1 = c :: rest /\
   total_quantity_ lvl1
   = total_quantity_ lvl - remaining_quantity (deref b order)) /\
  (remaining_quantity (deref b c) <= remaining_quantity (deref b order) ->
   level_orders_ lvl1 = rest /\
   total_quantity_ lvl1 = total_quantity_ lvl).
Proof.
  intros Hlvl Hne. cbv zeta. unfold match_inner_body. rewrite Hlvl.
  set (mq := Z.min (remaining_quantity (deref b order))
                   (remaining_quantity (deref b c))).
  set (b1 := execute_trade b order c (price_ lvl) mq).
  set (b2 := update b1 order (fun o => add_filled o mq)).
  set (b3 := update b2 c (fun o => add_filled o mq)).
  assert (Hc3 : deref b3 c = add_filled (deref b c) mq).
  { unfold b3. rewrite deref_update. unfold b2.
    now rewrite deref_update_other by assumption. }
  assert (Hrem3 : remaining_quantity (deref b3 c)
                  = remaining_quantity (deref b c) - mq).
  { rewrite Hc3. unfold remaining_quantity.
    cbn [quantity filled_quantity add_filled]. lia. }
  clearbody b3. clear b1 b2.
  destruct (Z.eqb_spec (remaining_quantity (deref b3 c)) 0) as [Hfill|Hpart];
    cbn [snd].
  - set (b4 := update b3 c (fun o => set_status o FILLED)).
    assert (Hrem4 : remaining_quantity (deref b4 c) = 0).
    { unfold b4. rewrite deref_update. exact Hfill. }
    clearbody b4. unfold level_pop_front. rewrite Hlvl.
    cbn [price_ level_orders_ total_quantity_]. split; [reflexivity|].
    split; [unfold mq in *; lia|]. intros _. split; [reflexivity|lia].
  - set (b4 := update b3 c (fun o => set_status o PARTIALLY_FILLED)).
    unfold level_update_quantity. rewrite Hlvl. cbn [existsb].
    rewrite Z.eqb_refl. cbn [orb price_ level_orders_ total_quantity_].
    split; [reflexivity|]. split; [|unfold mq in *; lia].
    intros Hlt. split; [reflexivity|]. unfold mq. lia.
Qed.

Lemma full_fill_leaves_level_total_witness :
  let lvl := mkLevel 50 [1; 2] 20 in
  let lvl1 := snd (match_inner_body two_bids_and_a_sell 3 lvl) in
  remaining_quantity (deref two_bids_and_a_sell 1)
  <= remaining_quantity (deref two_bids_and_a_sell 3) /\
  level_orders_ lvl1 = [2] /\ total_quantity_ lvl1 = 20.
Proof.
  cbv zeta. split; [vm_compute; discriminate|].
  destruct (full_fill_leaves_level_total two_bids_and_a_sell 3 1 [2]
              (mkLevel 50 [1; 2] 20) eq_refl ltac:(discriminate))
    as (_ & _ & Hfull).
  apply Hfull. vm_compute. discriminate.
Defined.

(** In [two_bids] a sell of 10 @ 50 fills the order 1; the level is left
    with the order 2, which has 10 to fill, and a total of 20. *)
Lemma interview_total_counts_filled_order :
  match add_order two_bids SELL LIMIT 50 10 with
  | Some (_, b1) =>
      buy_levels_ b1 = [(50, mkLevel 50 [2] 20)] /\
      remaining_quantity (deref b1 2) = 10
  | None => False
  end.
Proof. vm_compute. split; reflexivity. Qed.

End LevelTotals.

Section MapBookCancel.
Import Interview.

Lemma filter_other_ids (oid : Z) (l : list Z) :
  oid ∉ l -> filter (fun c => c <> oid) l = l.
Proof.
  induction l as [|c l IH]; [reflexivity|]. intros Hnot.
  apply not_elem_of_cons in Hnot as [Hne Hnot].
  rewrite filter_cons_True by congruence. now rewrite IH.
Qed.

Lemma remove_first_absent (b : t) (oid : Z) (l : list Z) :
  (forall c, c ∈ l -> order_id (deref b c) = c) -> oid ∉ l ->
  remove_first oid b l = None.
Proof.
  induction l as [|c l IH]; [reflexivity|]. intros Hid Hnot.
  apply not_elem_of_cons in Hnot as [Hne Hnot]. cbn [remove_first].
  rewrite (Hid c) by apply list_elem_of_here.
  destruct (Z.eqb_spec c oid) as [|_]; [congruence|].
  rewrite IH; [reflexivity| |assumption].
  intros c1 Hc1. apply Hid. now apply list_elem_of_further.
Qed.

Lemma remove_first_present (b : t) (oid : Z) (l : list Z) :
  (forall c, c ∈ l -> order_id (deref b c) = c) -> NoDup l -> oid ∈ l ->
  remove_first oid b l = Some (oid, filter (fun c => c <> oid) l).
Proof.
  induction l as [|c l IH]; intros Hid Hnd Hin; [now apply elem_of_nil in Hin|].
  apply NoDup_cons in Hnd as [Hc Hnd]. cbn [remove_first].
  rewrite (Hid c) by apply list_elem_of_here.
  destruct (Z.eqb_spec c oid) as [->|Hne].
  - rewrite filter_cons_False by (intros H; now apply H).
    now rewrite filter_other_ids.
  - apply elem_of_cons in Hin as [->|Hin]; [contradiction|].
    rewrite IH; [|intros c1 Hc1; apply Hid; now apply list_elem_of_further
                 |assumption|assumption].
    now rewrite filter_cons_True by assumption.
Qed.

Lemma ladder_set_same (p : Z) (lvl : PriceLevel) (l : Ladder) :
  ladder_find p l = Some lvl -> ladder_set p lvl l = l.
Proof.
  induction l as [|[k old] l IH]; cbn [ladder_find ladder_set]; [discriminate|].
  destruct (k =? p); [now intros [= ->]|]. intros Hfind. now rewrite IH.
Qed.

Lemma without_order_absent (oid : Z) (l : Ladder) :
  (forall k x, (k, x) ∈ l -> level_orders_ x <> [] /\ oid ∉ level_orders_ x) ->
  without_order oid (ladder_queues l) = ladder_queues l.
Proof.
  unfold without_order, ladder_queues.
  induction l as [|[k x] l IH]; [reflexivity|]. intros Hall.
  destruct (Hall k x ltac:(apply list_elem_of_here)) as [Hne Hnot].
  cbn [map fst snd]. rewrite (filter_other_ids oid _ Hnot).
  rewrite filter_cons_True by exact Hne. f_equal. apply IH.
  intros k1 x1 Hin. apply (Hall k1). now apply list_elem_of_further.
Qed.

Lemma without_order_keep (oid k : Z) (q : list Z) (qs : list (Z * list Z)) :
  filter (fun c => c <> oid) q <> [] ->
  without_order oid ((k, q) :: qs)
  = (k, filter (fun c => c <> oid) q) :: without_order oid qs.
Proof.
  intros Hne. unfold without_order. cbn [map fst snd].
  now rewrite filter_cons_True by exact Hne.
Qed.

Lemma without_order_drop (oid k : Z) (q : list Z) (qs : list (Z * list Z)) :
  filter (fun c => c <> oid) q = [] ->
  without_order oid ((k, q) :: qs) = without_order oid qs.
Proof.
  intros He. unfold without_order. cbn [map fst snd].
  now rewrite filter_cons_False by (intros H; now apply H).
Qed.

Lemma cancel_in_ladder_queues (b : t) (oid p : Z) (l : Ladder) :
  (forall k x, (k, x) ∈ l ->
               level_orders_ x <> [] /\ NoDup (level_orders_ x) /\
               (forall c, c ∈ level_orders_ x -> order_id (deref b c) = c) /\
               (oid ∈ level_orders_ x -> k = p)) ->
  NoDup (ladder_prices l) ->
  ladder_queues (cancel_in_ladder b oid p l)
  = without_order oid (ladder_queues l).
Proof.
  unfold cancel_in_ladder.
  induction l as [|[k x] l IH]; [reflexivity|]. intros Hall Hkeys.
  cbn [ladder_prices map fst] in Hkeys. apply NoDup_cons in Hkeys as [Hk Hkeys].
  destruct (Hall k x ltac:(apply list_elem_of_here)) as (Hne & Hnd & Hid & Hat).
  assert (Htail : forall k1 x1, (k1, x1) ∈ l ->
                                level_orders_ x1 <> [] /\ NoDup (level_orders_ x1) /\
                                (forall c, c ∈ level_orders_ x1 ->
                                           order_id (deref b c) = c) /\
                                (oid ∈ level_orders_ x1 -> k1 = p))
    by (intros k1 x1 Hin; apply (Hall k1); now apply list_elem_of_further).
  change (ladder_queues ((k, x) :: l))
    with ((k, level_orders_ x) :: ladder_queues l).
  cbn [ladder_find ladder_erase ladder_set].
  destruct (Z.eqb_spec k p) as [->|Hkp].
  - assert (Hrest : without_order oid (ladder_queues l) = ladder_queues l).
    { apply without_order_absent. intros k1 x1 Hin.
      destruct (Htail k1 x1 Hin) as (H1 & _ & _ & H4). split; [exact H1|].
      intros Ho. apply Hk. rewrite <- (H4 Ho). apply ladder_prices_elem. eauto. }
    unfold level_remove_order.
    destruct (decide (oid ∈ level_orders_ x)) as [Hin|Hnot].
    + rewrite (remove_first_present b oid _ Hid Hnd Hin). cbn [snd level_orders_].
      destruct (filter (fun c => c <> oid) (level_orders_ x)) as [|c1 r1] eqn:Hf.
      * rewrite (without_order_drop _ _ _ _ Hf). now rewrite Hrest.
      * rewrite without_order_keep by (rewrite Hf; discriminate).
        rewrite Hf, Hrest. reflexivity.
    + rewrite (remove_first_absent b oid _ Hid Hnot). cbn [snd].
      rewrite without_order_keep by (now rewrite filter_other_ids).
      rewrite (filter_other_ids oid _ Hnot), Hrest.
      destruct (level_orders_ x) as [|c1 r1] eqn:Hx; [contradiction|].
      cbn [ladder_queues map fst snd]. now rewrite Hx.
  - assert (Hnot : oid ∉ level_orders_ x) by (intros Ho; now apply Hkp, Hat).
    rewrite without_order_keep by (now rewrite filter_other_ids).
    rewrite (filter_other_ids oid _ Hnot), <- (IH Htail Hkeys).
    destruct (ladder_find p l) as [lvl|]; [|reflexivity].
    now destruct (level_orders_ (snd (level_remove_order b lvl oid))).
Qed.

Lemma sorted_prices_NoDup (s : Side) (l : Ladder) :
  ladder_sorted s l -> NoDup (ladder_prices l).
Proof.
  unfold ladder_sorted. induction 1 as [|k ks Hs IH Hall]; constructor; [|exact IH].
  intros Hin. rewrite Forall_forall in Hall. specialize (Hall k Hin).
  destruct s; cbn in Hall; lia.
Qed.

(** X18. [cancel_order] of an id that is not in [orders_], or of an
    order that is filled or cancelled, returns [false] and leaves the
    book as it is.  In a well-formed, sorted book [cancel_order] of an
    active order returns [true]: the order becomes [CANCELLED] and no
    other entry of [orders_] changes; the count of cancelled orders goes
    up by one and the trades stay; on both sides the levels hold the ids
    they held, in their order, without the cancelled id, and a level that
    held no other id is erased; and a second [cancel_order] of the id
    returns [false] and changes nothing. *)
Theorem cancel_order_retires_the_order (b : t) (oid : Z) :
  book_wf b -> book_ordered b ->
  (orders_ b !! oid = None -> cancel_order b oid = (false, b)) /\
  (forall old,
      orders_ b !! oid = Some old ->
      (is_active old = false -> cancel_order b oid = (false, b)) /\
      (is_active old = true ->
       let b1 := snd (cancel_order b oid) in
       fst (cancel_order b oid) = true /\
       orders_ b1 = <[oid := set_status old CANCELLED]> (orders_ b) /\
       total_orders_cancelled_ b1 = wrap64 (total_orders_cancelled_ b + 1) /\
       trades_ b1 = trades_ b /\
       (forall sd, ladder_queues (ladder_of b1 sd)
                   = without_order oid (ladder_queues (ladder_of b sd))) /\
       (forall sd, not_resting (ladder_of b1 sd) oid) /\
       cancel_order b1 oid = (false, b1))).
Proof.
  intros Hwf Hord. split.
  { intros Hnone. unfold cancel_order. now rewrite Hnone. }
  intros old Hold. split.
  { intros Hact. unfold cancel_order. now rewrite Hold, Hact. }
  intros Hact. cbv zeta.
  assert (Hcount : total_orders_cancelled_ (snd (cancel_order b oid))
                   = wrap64 (total_orders_cancelled_ b + 1)).
  { unfold cancel_order. rewrite Hold, Hact. cbn [snd total_orders_cancelled_].
    destruct (ladder_find (price old) (ladder_of b (side old))) as [lvl|];
      [destruct (level_orders_ (snd (level_remove_order b lvl oid)))|];
      destruct (side old); reflexivity. }
  destruct (cancel_order_spec b oid old Hold Hact)
    as (b1 & Hc & Horders & _ & Htrades & _).
  destruct (cancel_order_ladders b oid old Hold Hact) as [Hcontra Hown].
  rewrite Hc in *. cbn [fst snd] in *.
  assert (Hqueues : forall sd, ladder_queues (ladder_of b1 sd)
                               = without_order oid (ladder_queues (ladder_of b sd))).
  { pose proof Hwf as (Hrest & _ & _).
    destruct (book_ordered_side b (side old) Hord) as (Hs1 & Ho1 & Hs2 & Ho2 & _).
    assert (Hside : forall sd, sd = side old \/ sd = contra (side old))
      by (intros sd; destruct sd, (side old); auto).
    intros sd. destruct (Hside sd) as [->| ->].
    - rewrite Hown. apply (cancel_in_ladder_queues b oid (price old)).
      + intros k x Hin. destruct (Ho1 k x Hin) as (Hp & Hne & Hnd).
        split; [exact Hne|]. split; [exact Hnd|]. split.
        * intros c Hcin. destruct (Hrest _ k x c Hin Hcin) as (o & Ho & _ & _ & Hid).
          unfold deref. now rewrite Ho.
        * intros Hoid. destruct (Hrest _ k x oid Hin Hoid) as (o & Ho & _ & Hpo & _).
          congruence.
      + exact (sorted_prices_NoDup _ _ Hs1).
    - rewrite Hcontra. symmetry. apply without_order_absent.
      intros k x Hin. destruct (Ho2 k x Hin) as (_ & Hne & _).
      split; [exact Hne|]. exact (book_wf_own_side b oid old Hwf Hold k x Hin). }
  split; [reflexivity|]. split; [exact Horders|]. split; [exact Hcount|].
  split; [exact Htrades|]. split; [exact Hqueues|]. split.
  - intros sd k x Hin Hoid.
    assert (Hq : (k, level_orders_ x) ∈ ladder_queues (ladder_of b1 sd)).
    { unfold ladder_queues. apply list_elem_of_fmap. now exists (k, x). }
    rewrite Hqueues in Hq. unfold without_order in Hq.
    apply list_elem_of_filter in Hq as [_ Hq].
    apply list_elem_of_fmap in Hq as ([k1 q1] & [= -> Heq] & _).
    rewrite Heq in Hoid. apply list_elem_of_filter in Hoid as [Hoid _].
    now apply Hoid.
  - unfold cancel_order. rewrite Horders, lookup_insert_eq.
    now destruct old.
Qed.

Lemma cancel_order_retires_the_order_witness :
  book_wf two_bids /\ book_ordered two_bids /\
  fst (cancel_order two_bids 1) = true /\
  ladder_queues (buy_levels_ (snd (cancel_order two_bids 1))) = [(50, [2])] /\
  cancel_order (snd (cancel_order two_bids 1)) 1
  = (false, snd (cancel_order two_bids 1)).
Proof.
  split; [exact two_bids_wf|]. split; [exact two_bids_ordered|].
  destruct (cancel_order_retires_the_order two_bids 1 two_bids_wf two_bids_ordered)
    as [_ Hsome].
  destruct (Hsome (mkOrder 1 "X" BUY LIMIT 50 10 0 NEW) eq_refl) as [_ Hact].
  destruct (Hact eq_refl) as (Hret & _ & _ & _ & Hq & _ & Htwice).
  split; [exact Hret|]. split; [|exact Htwice].
  exact (Hq BUY).
Defined.

End MapBookCancel.
